(* ===== verification/_CoqProject ===== *)
-Q . S2P
Prelude.v
KvMem.v
KvSpec.v
KvArray.v
KvHash.v
KvSkiptable.v
KvRbtree.v
KvRbShape.v
KvRbFix.v
KvRbOps.v
KvRbEngine.v
KvProtocol.v
KvReactor.v
KvServer.v
KvProactor.v
KvProServe.v
KvNtyco.v
KcpBase.v
KcpQueue.v
KcpCb.v
KcpAck.v
KcpData.v
KcpInput.v
KcpFlush.v
KcpInv.v
KcpRecvInv.v
KcpSendInv.v
KcpFlushInv.v
KcpSession.v
KcpNet.v
KcpWindow.v
KcpTiming.v
KcpApi.v
UsWire.v
UsSock.v
UsTcp.v
UsFrame.v
UsSpec.v
UsFd.v
UsTransfer.v
UsHandshake.v
UsMoves.v
UsEcho.v
UsErrors.v
UsTyping.v
UsEpoll.v
UsEpollSpec.v
UsEpollErrors.v
Ustack.v
UstackEcho.v
UstackTcp.v
TpList.v
TpPool.v
TpInv.v
TpMain.v
TpSpec.v
TpLive.v
TpDestroy.v
DnsQuery.v
DnsParse.v
DnsReply.v
WsFrame.v
WsServer.v
WsSession.v
WsEcho.v
WsErrors.v
WebServer.v
WebServe.v
Contacts.v
ContactsFile.v
ContactsBook.v
ContactsSession.v
ContactsMenu.v
CoSched.v
CoEcho.v
