(* ===== verification/Prelude.v ===== *)
(** Verification of nine programs of the Linux_Learn repository.

    1. The key/value server (Project1_KVstore: src/kvstore.c, src/kvs_array.c,
       src/kvs_hash.c, src/kvs_rbtree.c, src/kvs_skiptable.c, src/reactor.c,
       src/proactor.c, src/ntyco_server.c): a TCP server that splits a request into words, runs it on one of four storage
       engines behind the table of operations kvs_ops_t, and answers.
    2. The reliable transport KCP (senior/2.2_udp-kcp-quic/src/ikcp.c and
       include/ikcp.h): one control block per connection, fed by the application
       (ikcp_send, ikcp_recv), by the network (ikcp_input) and by a clock
       (ikcp_update), which hands datagrams to an output callback.
    3. The user-space TCP/UDP stack (senior/2.4_Ustack/tcp.c): a network loop over
       the rings of DPDK, a socket layer (nsocket ... nclose) and two echo servers;
       the epoll that tcp_concurrency.c adds to it; and the small stack ustack.c.
    4. The thread pool (junior/04_threadpool/Threadpool.c): workers that take tasks
       from a list under a mutex and a condition variable, and a main that pushes
       tasks and destroys the pool.
    5. The DNS client (junior/06_dns/dns.c): it builds a query, sends it and prints
       the addresses of the reply.
    6. The WebSocket server (senior/2.1_network_io/04_Websocket: Websocket.c,
       reactor.c, server.h): a reactor that answers the opening handshake and echoes
       frames.
    7. The coroutine scheduler (senior/2.3_coroutine/mini_ntyco.c): an echo server on
       coroutines that wait in hooked read and write calls.
    8. The web server (senior/2.1_network_io/03_Webserver: Webserver.c, reactor.c,
       server.h): a reactor that answers every request with one file.
    9. The address book (junior/02_contacts/contacts.cpp): a list of persons with a menu,
       saved to and loaded from a file.

    ** How the code is modelled

    This file has the vocabulary.  Stateful C code is a function of type [M S A]:
    from a store it ends in a result and a store ([Ok]), in undefined behaviour or
    the end of the process ([UB], with the reason) or out of fuel ([OutOfFuel]).
    [wp] is total correctness: a defined result that satisfies the postcondition.
    [wlp] only speaks of the runs with a result; [swp] also lets the int overflow of
    KCP's round-trip estimate pass, which has a reason of its own.
    Machine integers are [Z], wrapped by [u8], [u16], [u32], [i32] where the C type
    wraps.  A call of malloc takes its outcome from a list in the store, so that
    every theorem that does not ask for memory covers every pattern of failures.
    The definitions have the names of the C functions and can be evaluated; the
    witnesses do so.

    ** Key/value server

    - KvMem: kvs_malloc, kvs_free, owned [char *] fields ([charp]: NULL, a live
      string, freed, never written), and the classes [KvEngine] (kvs_ops_t),
      [KvLaws] (what an engine promises when it holds a map), [KvDelCode] and
      [KvSafe].
    - KvSpec: the abstract map, and the session theorem that every engine with
      [KvLaws] inherits: the answers have the return codes of the map, DEL of a missing
      key exactly the code [eng_missing] that the engine gives for it, and every block is
      given back.
    - KvArray, KvHash, KvSkiptable, KvRbtree: the engines, loop by loop.  A chain
      of the hash table is a list, the skip list and the red-black tree are heaps
      of nodes with addresses.  KvRbShape, KvRbFix, KvRbOps, KvRbEngine relate
      the tree's heap to a binary tree, prove the two repair loops, the
      operations and the contract.  Each engine has its session theorem, the tree
      also that every search takes at most 2 log2(N+1)+1 rounds.  DEL of a missing key
      answers 1 in the skip list and the tree, -1 in the hash table, and the number of
      pairs in the array; so the last two do not meet [KvDelCode], nor [KvSafe], which
      theorems show.
    - KvProtocol: the tokenizer, the command table and the answers over any engine.
    - KvReactor: the connection table, the callbacks, the event loop; kernel events
      are input.  KvServer: the default build, skip list behind protocol behind
      reactor, refines a server over the abstract map, for all requests that fit
      their buffer and have 1 to 128 words; the theorems on other requests show
      what goes wrong.
    - KvProactor, KvProServe: the front end over io_uring (proactor.c).  The ring is the
      class [Uring] with [UringLaws]; connections and event contexts are blocks of a
      heap.  A completion names a request in flight and its result, so that a run covers
      every order of completions: the server refines the specification, with one request
      in flight for each connection and one accept.  KvNtyco: the front end on
      coroutines (ntyco_server.c), from one wait of a coroutine to the next, in any
      interleaving.  Both use the handler's specification of KvReactor.

    ** KCP

    - KcpBase (header format, wrapping comparisons), KcpCb (the control block,
      ikcp_create ... ikcp_wndsize), KcpAck (round trips, acknowledgements), KcpData
      (ikcp_send, ikcp_recv, ikcp_parse_data), KcpInput, KcpFlush: the
      definitions.  The four queues are lists; KcpQueue shows that the pointer
      macros of ikcp.h implement lists.
    - KcpInv states the invariant, KcpRecvInv, KcpSendInv, KcpFlushInv prove that
      every call keeps it for any bytes from the network; KcpSession concludes for
      whole sessions: no undefined behaviour but int overflow in the round-trip
      estimate, datagrams of at most mtu bytes, all memory returned.
    - KcpNet: two endpoints over a network that loses, repeats, delays and
      reorders: each application reads a prefix of what the other sent.
    - KcpWindow (the two windows), KcpTiming (timeout bounds, ikcp_check,
      configuration), KcpApi (results of the calls, header round trip, calls that
      break their promise).

    ** User-space stack

    - UsWire: the class [Dpdk] of what DPDK provides, with its documented laws
      [DpdkLaws] (rings are queues of at most 1023 entries), met by lists; byte
      order, headers, and the ARP, UDP and TCP encoders.  UsSock: the state (ARP
      table, descriptor bitmap, the lists of sockets, the names of the rings) and
      the socket calls.  UsTcp: the TCP handlers, udp_process, the output
      routines, pkt_process, the timer, the rounds of main and of the servers.
      The network loop and the servers run as threads: a theorem on a sequence of
      steps covers the interleavings of whole calls.  A call that would wait on its
      condition variable returns [None] and leaves the state as it is.
    - UsFrame (frame round trip), UsSpec (shared specifications), UsFd (the bitmap
      is a set), UsTransfer (data in order), UsHandshake (opening a connection),
      UsMoves (the TCP state machine), UsEcho (the echo server, the ARP table, the
      timer), UsErrors (where the stack reads, frees or loses what it should not),
      UsTyping (the data stay well-typed, whatever calls and frames come, as long as
      nothing undefined happens: widths, the blocks of TCP fragments, the ARP table, the
      frames offered to the port).  A round of main that transmits frees frames twice and is
      undefined; its parts are definitions of their own, so that UsTyping covers them.
    - UsEpoll: nepoll_create, nepoll_ctl, nepoll_wait and epoll_event_callback of
      tcp_concurrency.c, its TCP handlers with the calls of the callback, and the rounds
      of its server.  What rte_malloc leaves in a new block is a parameter.  UsEpollSpec:
      where that is zero, it implements an interest set with a list of ready
      descriptors, as a function of the calls and of the outcomes of rte_malloc.  UsEpollErrors: the server dies when a client leaves, and the events
      that are lost.
    - Ustack: the packet loop of ustack.c and its two encoders, with the headers of UsWire;
      a packet buffer has no length.  UstackEcho: the answer to a datagram, and claims
      beyond the buffer.  UstackTcp: what a segment does in every state, and that the stack
      answers a single connection request in its life.

    ** Thread pool

    - TpList: the three list macros over a heap of nodes with prev and next, and the
      lists of addresses they implement.
    - TpPool: the workers (nThreadPoolCallback) and main (nThreadPoolCreate,
      nThreadPoolPushTask, nThreadPoolDestroy) as program counters over the shared
      pool; [step] interleaves them statement by statement, with spurious wake-ups.  The
      writes of nThreadPoolDestroy without the mutex are data races ([DataRace]) with the
      reads that nothing orders, and the pool ends with main.
    - TpInv, TpMain: the invariant (who holds the mutex, which thread owns which task,
      no lost block) and that every statement keeps it.  TpSpec: before Destroy every
      interleaving refines an executor with a queue, and tasks run in order.  TpLive:
      no wake-up is lost, and every schedule completes the tasks.  TpDestroy: before
      Destroy there is no data race and no other undefined behaviour but main's after a
      failed malloc; what Destroy gets wrong (its races, the tasks it drops, the workers
      that outlive the pool).

    ** DNS client

    - DnsQuery: dns_create_header, dns_create_question, dns_build_request; a byte that
      nothing wrote is [None].  DnsParse: dns_parse_name, dns_parse_response,
      dns_client_commit and main over the 1024 bytes of a reply; the round trip of host
      names.  DnsReply: what a well-formed reply says ([reply_says]) is what is printed,
      the client as a whole, and the replies that are not read.

    ** WebSocket server

    - WsFrame: frames, the line reader and the handshake; SHA1 and base64 of OpenSSL are
      the class [Openssl].  WsServer: connection table, callbacks, event loop; what the
      kernel reports is input.
    - WsSession: [OpensslLaws] (lengths of digests and of base64) and the handshake on a
      request.  WsEcho: the server refines an echo service for every interleaving of
      connections on fresh descriptors, where the answer to an upgrade is that of RFC 6455
      unless the digest has a zero byte.  WsErrors: long frames, descriptors used again,
      digests with a zero byte, requests in two segments.

    ** Coroutine scheduler

    - CoSched: coro_create, coro_resume, coro_yield, the hooks, echo_client and
      schedule_loop.  A suspended coroutine is its program point with its locals; the
      answers of the kernel to each call are input, and a run ends where they end.
      CoEcho: the server is defined whatever the kernel answers, each coroutine writes a
      prefix of what it read, those that wait are suspended and registered for what they
      wait for, and the scheduler serves one client at a time.

    ** Web server

    - WebServer: connection table, callbacks, the states of a response, event loop; what
      the kernel reports and what index.html holds at that moment is input.  WebServe: it
      refines a service of header, file and pause for every interleaving of connections,
      and what it does when the file is missing or changes, or a call takes only a part.

    ** Address book

    - Contacts: the list (on the macros of TpList), parser_token, save_file, load_file, the
      menu, over the words of the input and a map of files.  ContactsFile: the parser
      against its specification, the lines of a file.  ContactsBook: the commands over a
      list of entries, and the walks over the heap.  ContactsSession: insertion, deletion,
      what the loops of save_file and load_file do.  ContactsMenu: sessions of insertions,
      deletions and searches refine the specification; those that show, save or load flow
      off the end of a function, which C++ leaves undefined; what is saved and loaded comes
      back garbled in the stated way; input it cannot take.

    ** Fuel

    A loop that is not structural takes fuel from a measure of its store: the number
    of nodes of a heap (walks of the skip list and of the tree, with one round more
    to see the end), the length of the request, the length of the datagram over the
    header size, the size of the descriptor table, the 254 addresses of the timer,
    the length of a buffer (readline, handshake, the labels of a name in a query).
    The coroutine server makes a bounded number of steps for each answer of the kernel:
    [ksize k + 4] is enough for the answers [k].
    Every round of the address book's menu takes a character of the input, every round of
    load_file one of the file or its end; a walk takes the number of persons.
    dns_parse_name has no measure: its fuel is an argument, the theorems ask for as
    much as the name has labels and pointers, and one shows a reply for which no fuel
    is enough.
    [wp] excludes [OutOfFuel], so the theorems show that it is enough.

    ** Not modelled

    - What the kernel, libc, DPDK and its drivers do: results of system calls are
      input; rings, checksums and the room of an mbuf are parameters; rand(), time()
      and rand_r() are lists of outcomes.  Output by printf is
      part of the state in the thread pool, the DNS client and the address book; elsewhere
      it is left out, except where the string it reads may lack its NUL.
    - Of the key/value server: a short send() of the reactor (those of the other front
      ends are modelled), its test client, which drives a server over sockets, and the
      NtyCo library, which is not in the repository: which coroutine goes on is input.
    - The logging of KCP (ikcp_log) and its allocation hooks, which the repository
      does not set.
    - In the stack: port and kernel-interface set-up, which only calls DPDK, the parts
      compiled out (ICMP, DDoS detection), the rest of tcp_concurrency.c, which is that
      of tcp.c, the accesses of its threads inside one call, and the lazy creation of its three singletons.
    - In the thread pool: what a data race does (it is undefined behaviour, and runs end
      there), and the two bodies' sleep().  In the WebSocket server: init_server, the output of the time
      that accept took, and a send() that takes only a part.  In the web server:
      init_server.  In the address book: the menu and the prompts, and a failed
      allocation of the book itself.
    - The other exercises under junior/ and senior/, vendored copies and generators;
      they are listed as components with the reason. *)
From Stdlib Require Export Sorting.Sorted.
From stdpp Require Export base numbers list gmap strings pretty.
From Stdlib Require Export Lia.

Set Default Proof Using "Type".
#[global] Open Scope Z_scope.

(** ** Outcomes and the state monad *)

(** Why an execution has no defined result in C, or does not return. *)
Inductive ub : Type :=
| NullDeref          (* reading or writing through NULL *)
| DanglingDeref      (* reading or writing a block that was freed *)
| IndetRead          (* reading memory that malloc did not initialise *)
| DoubleFree         (* freeing a block twice *)
| InvalidFree        (* free() of a block that malloc did not give *)
| OutOfBounds        (* indexing outside an array *)
| SignedOverflow     (* int arithmetic outside its range, a negative shift count included *)
| EstimateOverflow   (* the same, in the round-trip estimate of ikcp_update_ack *)
| AssertFailure      (* a failed assert or abort() *)
| TypePun            (* reading an object through a pointer to another structure *)
| MissingReturn      (* flowing off the end of a C++ function that returns a value *)
| DataRace           (* a write that conflicts with an access of another thread *)
| ProcessExit.       (* not undefined: the program ends itself, e.g. by rte_exit *)

#[export] Instance ub_eq_dec : EqDecision ub.
Proof. solve_decision. Defined.

Inductive res (A : Type) : Type :=
| Ok (a : A)
| UB (why : ub)
| OutOfFuel.
Arguments Ok {A} a.
Arguments UB {A} why.
Arguments OutOfFuel {A}.

Definition is_Ok {A} (r : res A) : Prop := match r with Ok _ => True | _ => False end.

(** Stateful C code over a store [S]. *)
Definition M (S A : Type) : Type := S → res (A * S).

Definition ret {S A} (a : A) : M S A := λ s, Ok (a, s).
Definition bind {S A B} (m : M S A) (k : A → M S B) : M S B := λ s,
  match m s with
  | Ok (a, s') => k a s'
  | UB w => UB w
  | OutOfFuel => OutOfFuel
  end.

Declare Scope c_scope.
Delimit Scope c_scope with c.
Notation "x ← y ; z" := (bind y (λ x : _, z))
  (at level 20, y at level 100, z at level 200, only parsing) : c_scope.
Notation "' x ← y ; z" := (bind y (λ x : _, z))
  (at level 20, x pattern, y at level 100, z at level 200, only parsing) : c_scope.
Notation "y ;; z" := (bind y (λ _, z))
  (at level 100, z at level 200, only parsing, right associativity) : c_scope.
#[global] Open Scope c_scope.

Section monad.
Context {S : Type}.
Definition undef {A} (w : ub) : M S A := λ _, UB w.
Definition no_fuel {A} : M S A := λ _, OutOfFuel.
Definition get : M S S := λ s, Ok (s, s).
Definition put (s : S) : M S unit := λ _, Ok ((), s).
Definition gets {A} (f : S → A) : M S A := λ s, Ok (f s, s).
Definition modify (f : S → S) : M S unit := λ s, Ok ((), f s).
(** [from_opt w o] is a read that is undefined when [o] is [None]. *)
Definition from_opt {A} (w : ub) (o : option A) : M S A :=
  match o with Some a => ret a | None => undef w end.
End monad.

(** Code over one half of a paired store. *)
Definition on_fst {S T A} (m : M S A) : M (S * T) A := λ '(s, t),
  match m s with
  | Ok (a, s') => Ok (a, (s', t)) | UB w => UB w | OutOfFuel => OutOfFuel
  end.
Definition on_snd {S T A} (m : M T A) : M (S * T) A := λ '(s, t),
  match m t with
  | Ok (a, t') => Ok (a, (s, t')) | UB w => UB w | OutOfFuel => OutOfFuel
  end.

(** ** Total weakest preconditions *)

(** [wp m Q s]: run from [s], [m] ends without undefined behaviour and within
    its fuel, in a result and a store that satisfy [Q]. *)
Definition wp {S A} (m : M S A) (Q : A → S → Prop) (s : S) : Prop :=
  match m s with Ok (a, s') => Q a s' | _ => False end.

Section wp.
Context {S : Type}.
Implicit Types s : S.

Lemma wp_mono {A} (m : M S A) (P Q : A → S → Prop) s :
  wp m P s → (∀ a s', P a s' → Q a s') → wp m Q s.
Proof. unfold wp. destruct (m s) as [[a s']| |]; auto. Qed.

Lemma wp_bind {A B} (m : M S A) (k : A → M S B) (Q : B → S → Prop) s :
  wp (bind m k) Q s ↔ wp m (λ a s', wp (k a) Q s') s.
Proof. unfold wp, bind. destruct (m s) as [[a s']| |]; auto. Qed.

(** The rule the proofs use: the specification of the first statement, then
    the rest from any store it allows. *)
Lemma wp_seq {A B} (m : M S A) (k : A → M S B) P (Q : B → S → Prop) s :
  wp m P s → (∀ a s', P a s' → wp (k a) Q s') → wp (bind m k) Q s.
Proof. intros. apply wp_bind. eapply wp_mono; eauto. Qed.

Lemma wp_ret {A} (a : A) (Q : A → S → Prop) s : wp (ret a) Q s ↔ Q a s.
Proof. done. Qed.
Lemma wp_get (Q : S → S → Prop) s : wp get Q s ↔ Q s s.
Proof. done. Qed.
Lemma wp_put s' (Q : unit → S → Prop) s : wp (put s') Q s ↔ Q () s'.
Proof. done. Qed.
Lemma wp_gets {A} (f : S → A) (Q : A → S → Prop) s : wp (gets f) Q s ↔ Q (f s) s.
Proof. done. Qed.
Lemma wp_modify (f : S → S) (Q : unit → S → Prop) s :
  wp (modify f) Q s ↔ Q () (f s).
Proof. done. Qed.
Lemma wp_from_opt {A} w (o : option A) (Q : A → S → Prop) s a :
  o = Some a → Q a s → wp (from_opt w o) Q s.
Proof. by intros -> ?. Qed.

Lemma wp_run {A} (m : M S A) (Q : A → S → Prop) s :
  wp m Q s ↔ ∃ a s', m s = Ok (a, s') ∧ Q a s'.
Proof.
  unfold wp. destruct (m s) as [[a s']| |]; split; try done.
  - by exists a, s'.
  - by intros (?&?&[= <- <-]&?).
  - by intros (?&?&?&_).
  - by intros (?&?&?&_).
Qed.
End wp.

Lemma wp_lift_pure {S A} (m : M S A) x s (Q : A → S → Prop) :
  m s = Ok (x, s) → Q x s → wp m Q s.
Proof. unfold wp. by intros ->. Qed.

Lemma wp_and {S A} (m : M S A) (P Q : A → S → Prop) s :
  wp m P s → wp m Q s → wp m (λ a s', P a s' ∧ Q a s') s.
Proof. unfold wp. by destruct (m s) as [[]| |]. Qed.
Lemma wp_lift_any {S A} (m : M S A) x s s' (Q : A → S → Prop) :
  m s = Ok (x, s') → Q x s' → wp m Q s.
Proof. unfold wp. by intros ->. Qed.
Lemma wp_det {S A} (m : M S A) a s s' :
  wp m (λ x y, x = a ∧ y = s') s → m s = Ok (a, s').
Proof. unfold wp. destruct (m s) as [[]| |]; naive_solver. Qed.

Lemma wp_on_fst {S T A} (m : M S A) (Q : A → S * T → Prop) s t :
  wp (on_fst m) Q (s, t) ↔ wp m (λ a s', Q a (s', t)) s.
Proof. unfold wp, on_fst. by destruct (m s) as [[]| |]. Qed.
Lemma wp_on_snd {S T A} (m : M T A) (Q : A → S * T → Prop) s t :
  wp (on_snd m) Q (s, t) ↔ wp m (λ a t', Q a (s, t')) t.
Proof. unfold wp, on_snd. by destruct (m t) as [[]| |]. Qed.

(** [wlp m Q s]: if [m] has a defined result from [s], it satisfies [Q]. *)
Definition wlp {S A} (m : M S A) (Q : A → S → Prop) (s : S) : Prop :=
  match m s with Ok (a, s') => Q a s' | _ => True end.

Section wlp.
Context {S : Type}.
Implicit Types s : S.

Lemma wlp_mono {A} (m : M S A) (P Q : A → S → Prop) s :
  wlp m P s → (∀ a s', P a s' → Q a s') → wlp m Q s.
Proof. unfold wlp. destruct (m s) as [[a s']| |]; auto. Qed.
Lemma wlp_bind {A B} (m : M S A) (k : A → M S B) (Q : B → S → Prop) s :
  wlp (bind m k) Q s ↔ wlp m (λ a s', wlp (k a) Q s') s.
Proof. unfold wlp, bind. destruct (m s) as [[a s']| |]; auto. Qed.
Lemma wlp_seq {A B} (m : M S A) (k : A → M S B) P (Q : B → S → Prop) s :
  wlp m P s → (∀ a s', P a s' → wlp (k a) Q s') → wlp (bind m k) Q s.
Proof. intros. apply wlp_bind. eapply wlp_mono; eauto. Qed.
Lemma wp_wlp {A} (m : M S A) (Q : A → S → Prop) s : wp m Q s → wlp m Q s.
Proof. unfold wp, wlp. by destruct (m s) as [[]| |]. Qed.
Lemma wlp_run {A} (m : M S A) (Q : A → S → Prop) s a s' :
  wlp m Q s → m s = Ok (a, s') → Q a s'.
Proof. unfold wlp. intros HQ Heq. by rewrite Heq in HQ. Qed.
Lemma wlp_ret {A} (a : A) (Q : A → S → Prop) s : wlp (ret a) Q s ↔ Q a s.
Proof. done. Qed.
Lemma wlp_get (Q : S → S → Prop) s : wlp get Q s ↔ Q s s.
Proof. done. Qed.
Lemma wlp_gets {A} (f : S → A) (Q : A → S → Prop) s : wlp (gets f) Q s ↔ Q (f s) s.
Proof. done. Qed.
Lemma wlp_modify (f : S → S) (Q : unit → S → Prop) s : wlp (modify f) Q s ↔ Q () (f s).
Proof. done. Qed.
Lemma wlp_undef {A} w (Q : A → S → Prop) s : wlp (undef w) Q s ↔ True.
Proof. done. Qed.
Lemma wlp_from_opt {A} w (o : option A) (Q : A → S → Prop) s :
  (∀ a, o = Some a → Q a s) → wlp (from_opt w o) Q s.
Proof. destruct o; cbn; auto. Qed.
End wlp.

Lemma wlp_on_fst {S T A} (m : M S A) (Q : A → S * T → Prop) s t :
  wlp (on_fst m) Q (s, t) ↔ wlp m (λ a s', Q a (s', t)) s.
Proof. unfold wlp, on_fst. by destruct (m s) as [[]| |]. Qed.
Lemma wlp_on_snd {S T A} (m : M T A) (Q : A → S * T → Prop) s t :
  wlp (on_snd m) Q (s, t) ↔ wlp m (λ a t', Q a (s, t')) t.
Proof. unfold wlp, on_snd. by destruct (m t) as [[]| |]. Qed.

(** [hits w m s]: run from [s], [m] comes to the undefined behaviour [w]. *)
Definition hits {S A} (w : ub) (m : M S A) (s : S) : Prop := m s = UB w.
Lemma hits_bind {S A B} w (m : M S A) (k : A → M S B) s :
  wp m (λ a s', hits w (k a) s') s → hits w (bind m k) s.
Proof. rewrite wp_run. intros (a & s' & Hm & Hk). unfold hits, bind. by rewrite Hm. Qed.
Lemma hits_first {S A B} w (m : M S A) (k : A → M S B) s : hits w m s → hits w (bind m k) s.
Proof. unfold hits, bind. by intros ->. Qed.

(** [swp m Q s]: run from [s], [m] ends in a result and a store that satisfy [Q],
    or in int overflow of the round-trip estimate; every other undefined behaviour,
    int overflow elsewhere included, and running out of fuel are excluded. *)
Definition swp {S A} (m : M S A) (Q : A → S → Prop) (s : S) : Prop :=
  match m s with Ok (a, s') => Q a s' | UB w => w = EstimateOverflow | OutOfFuel => False end.

Section swp.
Context {S : Type}.
Implicit Types s : S.

Lemma swp_mono {A} (m : M S A) (P Q : A → S → Prop) s :
  swp m P s → (∀ a s', P a s' → Q a s') → swp m Q s.
Proof. unfold swp. destruct (m s) as [[a s']| |]; auto. Qed.
Lemma swp_bind {A B} (m : M S A) (k : A → M S B) (Q : B → S → Prop) s :
  swp (bind m k) Q s ↔ swp m (λ a s', swp (k a) Q s') s.
Proof. unfold swp, bind. destruct (m s) as [[a s']| |]; auto. Qed.
Lemma swp_seq {A B} (m : M S A) (k : A → M S B) P (Q : B → S → Prop) s :
  swp m P s → (∀ a s', P a s' → swp (k a) Q s') → swp (bind m k) Q s.
Proof. intros. apply swp_bind. eapply swp_mono; eauto. Qed.
Lemma wp_swp {A} (m : M S A) (Q : A → S → Prop) s : wp m Q s → swp m Q s.
Proof. unfold wp, swp. by destruct (m s) as [[]| |]. Qed.
Lemma swp_ret {A} (a : A) (Q : A → S → Prop) s : swp (ret a) Q s ↔ Q a s.
Proof. done. Qed.
Lemma swp_get (Q : S → S → Prop) s : swp get Q s ↔ Q s s.
Proof. done. Qed.
Lemma swp_put s' (Q : unit → S → Prop) s : swp (put s') Q s ↔ Q () s'.
Proof. done. Qed.
Lemma swp_gets {A} (f : S → A) (Q : A → S → Prop) s : swp (gets f) Q s ↔ Q (f s) s.
Proof. done. Qed.
Lemma swp_modify (f : S → S) (Q : unit → S → Prop) s : swp (modify f) Q s ↔ Q () (f s).
Proof. done. Qed.
End swp.

Lemma swp_on_fst {S T A} (m : M S A) (Q : A → S * T → Prop) s t :
  swp (on_fst m) Q (s, t) ↔ swp m (λ a s', Q a (s', t)) s.
Proof. unfold swp, on_fst. by destruct (m s) as [[]| |]. Qed.
Lemma swp_on_snd {S T A} (m : M T A) (Q : A → S * T → Prop) s t :
  swp (on_snd m) Q (s, t) ↔ swp m (λ a t', Q a (s, t')) t.
Proof. unfold swp, on_snd. by destruct (m t) as [[]| |]. Qed.

Create Rewrite HintDb wp_db.
#[export] Hint Rewrite @wp_bind @wp_ret @wp_get @wp_put @wp_gets @wp_modify
  @wp_on_fst @wp_on_snd @wlp_bind @wlp_ret @wlp_get @wlp_gets @wlp_modify @wlp_undef
  @wlp_on_fst @wlp_on_snd @swp_bind @swp_ret @swp_get @swp_put @swp_gets @swp_modify
  @swp_on_fst @swp_on_snd : wp_db.

(** Run the statements of the goal that need no specification. *)
Ltac wp_step := autorewrite with wp_db; cbn [fst snd].

(** ** Fixed-width integers *)

Definition u8 (z : Z) : Z := z mod 2 ^ 8.
Definition u16 (z : Z) : Z := z mod 2 ^ 16.
Definition u32 (z : Z) : Z := z mod 2 ^ 32.
Definition i32 (z : Z) : Z := (z + 2 ^ 31) mod 2 ^ 32 - 2 ^ 31.

Definition is_u8 (z : Z) : Prop := 0 ≤ z < 2 ^ 8.
Definition is_u16 (z : Z) : Prop := 0 ≤ z < 2 ^ 16.
Definition is_u32 (z : Z) : Prop := 0 ≤ z < 2 ^ 32.
Definition is_i32 (z : Z) : Prop := - 2 ^ 31 ≤ z < 2 ^ 31.

Create HintDb word_db.
Create Rewrite HintDb word_rw.
Ltac word_unfold :=
  unfold u8, u16, u32, i32, is_u8, is_u16, is_u32, is_i32 in *;
  change (2 ^ 8) with 256 in *; change (2 ^ 16) with 65536 in *;
  change (2 ^ 31) with 2147483648 in *; change (2 ^ 32) with 4294967296 in *.
Ltac word := word_unfold; Z.div_mod_to_equations; lia.

Lemma u32_range z : is_u32 (u32 z).
Proof. word. Qed.
Lemma u16_range z : is_u16 (u16 z).
Proof. word. Qed.
Lemma u8_range z : is_u8 (u8 z).
Proof. word. Qed.
Lemma i32_range z : is_i32 (i32 z).
Proof. word. Qed.
Lemma u32_id z : is_u32 z → u32 z = z.
Proof. intros. unfold u32. by rewrite Z.mod_small. Qed.
Lemma u16_id z : is_u16 z → u16 z = z.
Proof. intros. unfold u16. by rewrite Z.mod_small. Qed.
Lemma u8_id z : is_u8 z → u8 z = z.
Proof. intros. unfold u8. by rewrite Z.mod_small. Qed.
Lemma i32_id z : is_i32 z → i32 z = z.
Proof. unfold i32, is_i32. intros. rewrite Z.mod_small; lia. Qed.
Lemma i32_wrap z d : i32 (i32 z + d) = i32 (z + d).
Proof. word. Qed.
Lemma i32_wrap_sub z d : i32 (i32 z - d) = i32 (z - d).
Proof. word. Qed.
#[export] Hint Resolve u32_range u16_range u8_range i32_range : word_db.
#[export] Hint Rewrite u32_id u16_id u8_id i32_id using (assumption || word) : word_rw.

(** ** C strings *)

(** [strcmp] compares bytes as unsigned char; the code only uses the sign. *)
Definition strcmp (s t : string) : Z :=
  match String.compare s t with Lt => -1 | Eq => 0 | Gt => 1 end.

Lemma string_length_app s t : String.length (s ++ t)%string = (String.length s + String.length t)%nat.
Proof.
  induction s as [|c s IH]; [done|].
  change (String.length (String c (s ++ t)%string) = S (String.length s + String.length t)).
  cbn [String.length]. by rewrite IH.
Qed.

Definition str_lt (s t : string) : Prop := String.compare s t = Lt.

Lemma string_compare_refl s : String.compare s s = Eq.
Proof.
  induction s as [|a s IH]; [done|]. cbn. unfold Ascii.compare. by rewrite N.compare_refl.
Qed.
Lemma string_compare_eq s t : String.compare s t = Eq ↔ s = t.
Proof. split; [apply String.compare_eq_iff|intros ->; apply string_compare_refl]. Qed.
Lemma str_lt_irrefl s : ¬ str_lt s s.
Proof. unfold str_lt. by rewrite string_compare_refl. Qed.
Lemma str_lt_trans s t u : str_lt s t → str_lt t u → str_lt s u.
Proof.
  unfold str_lt. revert t u. induction s as [|a s IH]; intros [|b t] [|c u]; try done; cbn.
  unfold Ascii.compare. intros Hab Hbc.
  destruct (N.compare_spec (Ascii.N_of_ascii a) (Ascii.N_of_ascii b)) as [Eab|Lab|Lab]; try done;
  destruct (N.compare_spec (Ascii.N_of_ascii b) (Ascii.N_of_ascii c)) as [Ebc|Lbc|Lbc]; try done;
  destruct (N.compare_spec (Ascii.N_of_ascii a) (Ascii.N_of_ascii c)); try done; try lia.
  by eapply IH.
Qed.
Lemma str_lt_asym s t : str_lt s t → ¬ str_lt t s.
Proof. intros H1 H2. apply (str_lt_irrefl s). by eapply str_lt_trans. Qed.
Lemma str_trichotomy s t : str_lt s t ∨ s = t ∨ str_lt t s.
Proof.
  unfold str_lt. rewrite (String.compare_antisym s t).
  destruct (String.compare t s) eqn:E; cbn; [|auto|auto].
  apply string_compare_eq in E. auto.
Qed.
#[export] Instance str_lt_transitive : Transitive str_lt.
Proof. intros ???. apply str_lt_trans. Qed.
#[export] Instance str_lt_irreflexive : Irreflexive str_lt.
Proof. intros s. apply str_lt_irrefl. Qed.
#[export] Instance str_lt_dec s t : Decision (str_lt s t).
Proof. unfold str_lt. solve_decision. Defined.

Lemma strcmp_lt s t : strcmp s t < 0 ↔ str_lt s t.
Proof. unfold strcmp, str_lt. by destruct (String.compare s t). Qed.
Lemma strcmp_eq s t : strcmp s t = 0 ↔ s = t.
Proof.
  unfold strcmp. rewrite <-string_compare_eq. by destruct (String.compare s t).
Qed.
Lemma strcmp_gt s t : 0 < strcmp s t ↔ str_lt t s.
Proof.
  unfold strcmp, str_lt. rewrite (String.compare_antisym t s).
  by destruct (String.compare s t).
Qed.

Lemma strcmp_refl s : strcmp s s = 0.
Proof. by apply strcmp_eq. Qed.
Lemma strcmp_eqb_ne s t : s ≠ t → (strcmp s t =? 0) = false.
Proof. intros. apply Z.eqb_neq. by rewrite strcmp_eq. Qed.

(** ** Lists *)

Lemma list_insert_middle {A} (l1 l2 : list A) x y n :
  n = length l1 → <[n:=y]> (l1 ++ x :: l2) = l1 ++ y :: l2.
Proof. intros ->. by rewrite <-(Nat.add_0_r (length l1)), insert_app_r. Qed.

Lemma NoDup_snoc {A} (l : list A) x : NoDup l → x ∉ l → NoDup (l ++ [x]).
Proof. intros. rewrite (Permutation_app_comm l [x]). by apply NoDup_cons. Qed.

(** ** Functions *)

Definition upd {A} (f : nat → A) (i : nat) (a : A) : nat → A :=
  λ j, if (j =? i)%nat then a else f j.
Lemma upd_eq {A} (f : nat → A) i a : upd f i a i = a.
Proof. unfold upd. by rewrite Nat.eqb_refl. Qed.
Lemma upd_ne {A} (f : nat → A) i j a : j ≠ i → upd f i a j = f j.
Proof. intros. unfold upd. by rewrite (proj2 (Nat.eqb_neq _ _)). Qed.

(** ** Association lists with distinct keys as maps *)

Section assoc.
Context {V : Type}.
Implicit Types (l pre post : list (string * V)) (k : string) (v w : V).

Lemma NoDup_fst_middle pre k v w post :
  NoDup (pre ++ (k, v) :: post).*1 →
  NoDup (pre ++ post).*1 ∧ k ∉ (pre ++ post).*1 ∧ NoDup (pre ++ (k, w) :: post).*1.
Proof.
  rewrite !fmap_app, !fmap_cons. cbn. rewrite <-!Permutation_middle, !NoDup_cons. tauto.
Qed.
Lemma list_to_map_middle pre k v post :
  NoDup (pre ++ (k, v) :: post).*1 →
  list_to_map (pre ++ (k, v) :: post) =@{gmap string V} <[k:=v]> (list_to_map (pre ++ post)).
Proof.
  intros Hnd. rewrite <-list_to_map_cons. apply list_to_map_proper; [done|].
  by rewrite Permutation_middle.
Qed.
Lemma assoc_lookup pre k v post :
  NoDup (pre ++ (k, v) :: post).*1 →
  (list_to_map (pre ++ (k, v) :: post) : gmap string V) !! k = Some v.
Proof. intros. rewrite list_to_map_middle by done. apply lookup_insert_eq. Qed.
Lemma assoc_replace pre k v w post :
  NoDup (pre ++ (k, v) :: post).*1 →
  list_to_map (pre ++ (k, w) :: post)
  =@{gmap string V} <[k:=w]> (list_to_map (pre ++ (k, v) :: post)).
Proof.
  intros Hnd. rewrite !list_to_map_middle; [by rewrite insert_insert_eq|done|].
  by eapply (NoDup_fst_middle _ _ v w).
Qed.
Lemma assoc_remove pre k v post :
  NoDup (pre ++ (k, v) :: post).*1 →
  list_to_map (pre ++ post)
  =@{gmap string V} delete k (list_to_map (pre ++ (k, v) :: post)).
Proof.
  intros Hnd. rewrite list_to_map_middle by done. rewrite delete_insert_eq.
  symmetry. apply delete_id, not_elem_of_list_to_map_1. by eapply (NoDup_fst_middle _ _ v v).
Qed.
Lemma assoc_absent l k : k ∉ l.*1 ↔ (list_to_map l : gmap string V) !! k = None.
Proof. split; [apply not_elem_of_list_to_map_1|apply not_elem_of_list_to_map_2]. Qed.
End assoc.
