(* ===== verification/KvMem.v ===== *)
(** The memory interface of the key/value store (kvs_malloc and kvs_free of
    Project1_KVstore/src/kvstore.c), the [char *] fields that own heap strings,
    and the table of operations an engine offers to the protocol layer
    (kvs_ops_t of Project1_KVstore/include/kvstore.h) with its contract. *)
From S2P Require Import Prelude.

(** ** The allocator *)

(** The libc state the engines depend on.  [al_plan] lists the outcomes of the
    coming calls of malloc ([false]: the call returns NULL); past its end malloc
    succeeds.  [al_live] counts the blocks obtained and not yet freed.
    [al_rand] lists whether the coming calls of rand() give at most half of
    RAND_MAX (exclusive); past its end they do not. *)
Record alloc : Type := mk_alloc { al_plan : list bool; al_live : Z; al_rand : list bool }.

Definition kvs_malloc (size : Z) : M alloc bool := λ a,
  match al_plan a with
  | [] => Ok (true, mk_alloc [] (al_live a + 1) (al_rand a))
  | true :: p => Ok (true, mk_alloc p (al_live a + 1) (al_rand a))
  | false :: p => Ok (false, mk_alloc p (al_live a) (al_rand a))
  end.

(** free() of a block whose ownership the caller proves by holding it. *)
Definition kvs_free_block : M alloc unit := modify (λ a, mk_alloc (al_plan a) (al_live a - 1) (al_rand a)).

(** No call of malloc fails from here on. *)
Definition supplied (a : alloc) : Prop := Forall (eq true) (al_plan a).

(** ** Owned strings *)

(** The value of a [char *] field that owns its block: every key and value is a
    private copy, so the field's value tells whether the block is still there. *)
Inductive charp : Type :=
| CNull                (* NULL *)
| CStr (s : string)    (* a live block holding the string s *)
| CFreed               (* the address of a block that was freed *)
| CIndet.              (* never initialised *)

#[export] Instance charp_eq_dec : EqDecision charp.
Proof. solve_decision. Defined.

(** Reading the string behind a field. *)
Definition deref (p : charp) : res string :=
  match p with
  | CStr s => Ok s
  | CNull => UB NullDeref
  | CFreed => UB DanglingDeref
  | CIndet => UB IndetRead
  end.
Definition read_str {S} (p : charp) : M S string := λ s,
  match deref p with Ok x => Ok (x, s) | UB w => UB w | OutOfFuel => OutOfFuel end.

Definition kvs_free (p : charp) : M alloc unit :=
  match p with
  | CNull => ret ()
  | CStr _ => kvs_free_block
  | CFreed => undef DoubleFree
  | CIndet => undef IndetRead
  end.

(** Blocks a field owns. *)
Definition owned_str (p : charp) : Z := match p with CStr _ => 1 | _ => 0 end.

(** The idiom kvs_malloc(strlen(s)+1); memset; strncpy(.., s, strlen(s)), and
    its strcpy variant: NULL, or a copy of [s]. *)
Definition str_dup (s : string) : M alloc charp :=
  ok ← kvs_malloc (Z.of_nat (String.length s) + 1);
  ret (if ok then CStr s else CNull).

(** ((double)rand() / RAND_MAX) < 0.5 *)
Definition rand_below_half : M alloc bool := λ a,
  match al_rand a with
  | [] => Ok (false, a)
  | b :: r => Ok (b, mk_alloc (al_plan a) (al_live a) r)
  end.

(** ** Linked structures *)

(** Nodes live in a heap indexed by their addresses; a pointer is an address or
    NULL.  [heap_cost c h] is the number of blocks the nodes of [h] account for
    when a node counts for [c]. *)
Abbreviation loc := positive.
Definition heap_cost {N} (c : N → Z) (h : gmap loc N) : Z := map_fold (λ _ n z, c n + z) 0 h.

Section heap_cost.
Context {N : Type} (c : N → Z).
Implicit Types h : gmap loc N.

Lemma heap_cost_empty : heap_cost c ∅ = 0.
Proof. apply map_fold_empty. Qed.
Lemma heap_cost_fresh h l n : h !! l = None → heap_cost c (<[l:=n]> h) = heap_cost c h + c n.
Proof. intros. unfold heap_cost. rewrite map_fold_insert_L by (done || intros; lia). lia. Qed.
Lemma heap_cost_delete h l n :
  h !! l = Some n → heap_cost c (delete l h) = heap_cost c h - c n.
Proof.
  intros Hl. rewrite <-(insert_delete_id h l n) at 2 by done.
  rewrite heap_cost_fresh; [lia|apply lookup_delete_eq].
Qed.
Lemma heap_cost_update h l n n' :
  h !! l = Some n → heap_cost c (<[l:=n']> h) = heap_cost c h - c n + c n'.
Proof.
  intros Hl. rewrite <-insert_delete_eq, heap_cost_fresh by apply lookup_delete_eq.
  rewrite (heap_cost_delete _ _ n) by done. lia.
Qed.
Lemma heap_cost_same h l n n' :
  h !! l = Some n → c n' = c n → heap_cost c (<[l:=n']> h) = heap_cost c h.
Proof. intros. erewrite heap_cost_update by done. lia. Qed.
End heap_cost.

(** A pointer argument of an engine's entry points: the engine object is one of
    the global instances or NULL, a string is a C string or NULL. *)
Inductive engine_ptr : Type := engine_null | engine_inst.
#[export] Instance engine_ptr_eq_dec : EqDecision engine_ptr.
Proof. solve_decision. Defined.
Abbreviation cstr := (option string).

Section mem.
Implicit Types a : alloc.

Lemma supplied_malloc a size :
  supplied a →
  wp (kvs_malloc size)
    (λ ok a', ok = true ∧ supplied a' ∧ al_live a' = al_live a + 1) a.
Proof.
  destruct a as [[|b p] n r]; unfold supplied; cbn; [done|].
  intros [<- ?]%Forall_cons. done.
Qed.
Lemma malloc_spec a size :
  wp (kvs_malloc size)
    (λ ok a', al_live a' = al_live a + (if ok then 1 else 0) ∧
              (supplied a → ok = true ∧ supplied a')) a.
Proof.
  destruct a as [[|[] p] n r]; unfold supplied; cbn; split; [done|auto|done| |lia|].
  - by intros [_ ?]%Forall_cons.
  - by intros [? _]%Forall_cons.
Qed.
Lemma str_dup_spec a s :
  wp (str_dup s)
    (λ p a', (p = CStr s ∨ p = CNull) ∧ al_live a' = al_live a + owned_str p ∧
             (supplied a → p = CStr s ∧ supplied a')) a.
Proof.
  unfold str_dup. apply wp_bind. eapply wp_mono; [apply malloc_spec|].
  intros [] a' (Hl & Hs); cbn; naive_solver.
Qed.
Lemma str_dup_fail a s p :
  al_plan a = false :: p → str_dup s a = Ok (CNull, mk_alloc p (al_live a) (al_rand a)).
Proof. intros Hp. unfold str_dup, bind, kvs_malloc. by rewrite Hp. Qed.
Lemma kvs_free_spec a p :
  p ≠ CFreed → p ≠ CIndet →
  wp (kvs_free p)
    (λ _ a', al_live a' = al_live a - owned_str p ∧ (supplied a → supplied a')) a.
Proof. destruct p; intros; try done; cbn; split; try done; lia. Qed.
Lemma free_block_spec a :
  wp kvs_free_block
    (λ _ a', al_live a' = al_live a - 1 ∧ (supplied a → supplied a')) a.
Proof. done. Qed.
Lemma wp_free_block (Q : unit → alloc → Prop) a :
  wp kvs_free_block Q a ↔ Q () (mk_alloc (al_plan a) (al_live a - 1) (al_rand a)).
Proof. done. Qed.
Lemma wp_read_str {S} (s : S) x (Q : string → S → Prop) :
  Q x s → wp (read_str (CStr x)) Q s.
Proof. done. Qed.
End mem.
#[export] Hint Rewrite wp_free_block : wp_db.

(** Run stores, loads and frees whose outcome is known. *)
Ltac mem_step := wp_step; repeat (progress cbn [kvs_free]; wp_step).

(** ** The engine interface *)

(** kvs_ops_t: the operations the protocol layer calls through g_engine.ops,
    over an engine state [E]. *)
Class KvEngine (E : Type) : Type := {
  eng_create : engine_ptr → M (E * alloc) Z;
  eng_destroy : engine_ptr → M (E * alloc) unit;
  eng_set : engine_ptr → cstr → cstr → M (E * alloc) Z;
  eng_get : engine_ptr → cstr → M (E * alloc) charp;
  eng_del : engine_ptr → cstr → M (E * alloc) Z;
  eng_mod : engine_ptr → cstr → cstr → M (E * alloc) Z;
  eng_exist : engine_ptr → cstr → M (E * alloc) Z;
  eng_zero : E;            (* the object after memset(.., 0, ..) *)
  eng_owned : E → Z        (* heap blocks the engine owns *)
}.

(** An engine's operation kept the account of blocks: what it allocated and did
    not free is what the engine owns more. *)
Definition balanced {E} `{KvEngine E} (s s' : E * alloc) : Prop :=
  al_live s'.2 - eng_owned s'.1 = al_live s.2 - eng_owned s.1.

(** The contract of an engine that holds the map [m].  [eng_cap m] tells that a
    new key still fits, [eng_missing m] is what DEL returns for a key that [m] lacks:
    the engines differ there. *)
Class KvLaws (E : Type) `{KvEngine E} : Type := {
  eng_repr : E → gmap string string → Prop;
  eng_cap : gmap string string → Prop;
  eng_missing : gmap string string → Z;

  law_create a : supplied a →
    wp (eng_create engine_inst)
      (λ r s', r = 0 ∧ eng_repr s'.1 ∅ ∧ supplied s'.2 ∧ balanced (eng_zero, a) s')
      (eng_zero, a);
  law_get e a m k : eng_repr e m →
    wp (eng_get engine_inst (Some k))
      (λ r s', s' = (e, a) ∧ r = match m !! k with Some v => CStr v | None => CNull end)
      (e, a);
  law_exist e a m k : eng_repr e m →
    wp (eng_exist engine_inst (Some k))
      (λ r s', s' = (e, a) ∧ (r = 0 ↔ is_Some (m !! k)))
      (e, a);
  law_set_new e a m k v : eng_repr e m → m !! k = None → eng_cap m → supplied a →
    wp (eng_set engine_inst (Some k) (Some v))
      (λ r s', r = 0 ∧ eng_repr s'.1 (<[k:=v]> m) ∧ supplied s'.2 ∧ balanced (e, a) s')
      (e, a);
  law_set_old e a m k v : eng_repr e m → is_Some (m !! k) → eng_cap m →
    wp (eng_set engine_inst (Some k) (Some v)) (λ r s', s' = (e, a) ∧ 0 < r) (e, a);
  law_mod_old e a m k v : eng_repr e m → is_Some (m !! k) → supplied a →
    wp (eng_mod engine_inst (Some k) (Some v))
      (λ r s', r = 0 ∧ eng_repr s'.1 (<[k:=v]> m) ∧ supplied s'.2 ∧ balanced (e, a) s')
      (e, a);
  law_mod_new e a m k v : eng_repr e m → m !! k = None →
    wp (eng_mod engine_inst (Some k) (Some v)) (λ r s', s' = (e, a) ∧ 0 < r) (e, a);
  law_del_old e a m k : eng_repr e m → is_Some (m !! k) → supplied a →
    wp (eng_del engine_inst (Some k))
      (λ r s', r = 0 ∧ eng_repr s'.1 (delete k m) ∧ supplied s'.2 ∧ balanced (e, a) s')
      (e, a);
  law_del_new e a m k : eng_repr e m → m !! k = None →
    wp (eng_del engine_inst (Some k)) (λ r s', r = eng_missing m ∧ s' = (e, a)) (e, a);
  law_destroy e a m : eng_repr e m →
    wp (eng_destroy engine_inst)
      (λ _ s', al_live s'.2 = al_live a - eng_owned e) (e, a)
}.

(** The codes kvs_filter_protocol relies on to tell a missing key from an
    error: DEL of a missing key returns a positive number. *)
Class KvDelCode (E : Type) `{KvLaws E} : Prop :=
  law_del_code m : 0 < eng_missing m.

(** Exception safety: an operation that returns a negative number (malloc gave
    NULL) left the map as it was. *)
Class KvSafe (E : Type) `{KvLaws E} : Prop := {
  safe_set e a m k v : eng_repr e m →
    wp (eng_set engine_inst (Some k) (Some v))
      (λ r s', (r < 0 → eng_repr s'.1 m) ∧ balanced (e, a) s') (e, a);
  safe_mod e a m k v : eng_repr e m →
    wp (eng_mod engine_inst (Some k) (Some v))
      (λ r s', (r < 0 → eng_repr s'.1 m) ∧ balanced (e, a) s') (e, a)
}.
