(* ===== verification/KvSpec.v ===== *)
(** The abstract key/value map the four engines implement, and the session
    theorem: whatever engine satisfies the contract of KvMem, a run of
    operations returns what the map returns and keeps the block account. *)
From S2P Require Import Prelude KvMem.

(** ** The specification *)

Inductive kv_op : Type :=
| OpSet (k v : string) | OpGet (k : string) | OpDel (k : string)
| OpMod (k v : string) | OpExist (k : string).

Inductive kv_reply : Type := Done | Present | Missing | Value (v : string).
#[export] Instance kv_reply_eq_dec : EqDecision kv_reply.
Proof. solve_decision. Defined.

(** What one operation answers and how it changes the map. *)
Definition spec_step (m : gmap string string) (o : kv_op) : kv_reply * gmap string string :=
  match o with
  | OpSet k v => if m !! k is Some _ then (Present, m) else (Done, <[k:=v]> m)
  | OpGet k => (if m !! k is Some v then Value v else Missing, m)
  | OpDel k => if m !! k is Some _ then (Done, delete k m) else (Missing, m)
  | OpMod k v => if m !! k is Some _ then (Done, <[k:=v]> m) else (Missing, m)
  | OpExist k => (if m !! k is Some _ then Present else Missing, m)
  end.

Fixpoint spec_run (m : gmap string string) (os : list kv_op) : list kv_reply * gmap string string :=
  match os with
  | [] => ([], m)
  | o :: os =>
      let '(r, m1) := spec_step m o in
      let '(rs, m2) := spec_run m1 os in (r :: rs, m2)
  end.

(** ** Running an engine *)

(** What an operation of kvs_ops_t returns: an int or a [char *]. *)
Inductive kv_ret : Type := RInt (z : Z) | RPtr (p : charp).

Section engine.
Context {E : Type} `{KvEngine E}.

Definition eng_op (o : kv_op) : M (E * alloc) kv_ret :=
  match o with
  | OpSet k v => r ← eng_set engine_inst (Some k) (Some v); ret (RInt r)
  | OpGet k => r ← eng_get engine_inst (Some k); ret (RPtr r)
  | OpDel k => r ← eng_del engine_inst (Some k); ret (RInt r)
  | OpMod k v => r ← eng_mod engine_inst (Some k) (Some v); ret (RInt r)
  | OpExist k => r ← eng_exist engine_inst (Some k); ret (RInt r)
  end.

Fixpoint eng_run (os : list kv_op) : M (E * alloc) (list kv_ret) :=
  match os with
  | [] => ret []
  | o :: os => r ← eng_op o; rs ← eng_run os; ret (r :: rs)
  end.

(** create; a run of operations; destroy. *)
Definition eng_session (os : list kv_op) : M (E * alloc) (list kv_ret) :=
  eng_create engine_inst;;
  rs ← eng_run os;
  eng_destroy engine_inst;;
  ret rs.
End engine.

(** The return codes of the source: 0 success, > 0 exists (SET) or does not
    exist (MOD), 0 or not for EXIST, and a pointer for GET.  DEL of a missing key
    returns exactly [del], the code of the engine. *)
Definition reply_ok (del : Z) (o : kv_op) (rep : kv_reply) (r : kv_ret) : Prop :=
  match o, rep, r with
  | OpSet _ _, Done, RInt z => z = 0
  | OpSet _ _, Present, RInt z => 0 < z
  | OpGet _, Value v, RPtr p => p = CStr v
  | OpGet _, Missing, RPtr p => p = CNull
  | OpDel _, Done, RInt z => z = 0
  | OpDel _, Missing, RInt z => z = del
  | OpMod _ _, Done, RInt z => z = 0
  | OpMod _ _, Missing, RInt z => 0 < z
  | OpExist _, Present, RInt z => z = 0
  | OpExist _, Missing, RInt z => z ≠ 0
  | _, _, _ => False
  end.

(** The answers of a run that starts with the map [m], where DEL of a key that the
    map of the moment lacks returns [del] of that map. *)
Fixpoint answers_ok (del : gmap string string → Z) (m : gmap string string)
    (os : list kv_op) (rs : list kv_ret) : Prop :=
  match os, rs with
  | [], [] => True
  | o :: os, r :: rs =>
      reply_ok (del m) o (spec_step m o).1 r ∧ answers_ok del (spec_step m o).2 os rs
  | _, _ => False
  end.

Lemma answers_cons del m o os rs :
  answers_ok del m (o :: os) rs →
  ∃ r rs', rs = r :: rs' ∧ reply_ok (del m) o (spec_step m o).1 r ∧ answers_ok del (spec_step m o).2 os rs'.
Proof. destruct rs as [|r rs]; [done|]. intros [??]. by exists r, rs. Qed.
(** On a concrete run, the answers that [H] says. *)
Ltac read_answers H :=
  repeat (let r := fresh "r" in let rs := fresh "rs" in let Hr := fresh "Hr" in
    apply answers_cons in H as (r & rs & -> & Hr & H);
    vm_compute in Hr; destruct r; [try contradiction|try contradiction]; rewrite Hr; clear Hr);
  match type of H with answers_ok _ _ _ ?rs => destruct rs; [clear H|contradiction H] end.

Section refinement.
Context {E : Type} `{HE : KvEngine E, HL : !KvLaws E}.

(** Along the run every SET finds room. *)
Fixpoint roomy (m : gmap string string) (os : list kv_op) : Prop :=
  match os with
  | [] => True
  | o :: os => (if o is OpSet _ _ then eng_cap m else True) ∧ roomy (spec_step m o).2 os
  end.

(** An engine without a bound always has room. *)
Lemma roomy_always m os : (∀ m, eng_cap m) → roomy m os.
Proof.
  intros Hcap. revert m. induction os as [|o os IH]; intros m; cbn; [done|]. split; [by destruct o|apply IH].
Qed.

Lemma eng_op_refines e a m o :
  eng_repr e m → supplied a → (if o is OpSet _ _ then eng_cap m else True) →
  wp (eng_op o)
    (λ r s', reply_ok (eng_missing m) o (spec_step m o).1 r ∧ eng_repr s'.1 (spec_step m o).2 ∧
             supplied s'.2 ∧ balanced (e, a) s') (e, a).
Proof.
  intros Hr Ha Hcap. destruct o as [k v|k|k|k v|k]; cbn [eng_op spec_step];
    apply wp_bind; destruct (m !! k) as [w|] eqn:Hk.
  - eapply wp_mono; [eapply law_set_old; eauto|]. intros r s' [-> ?]. by cbn.
  - eapply wp_mono; [eapply law_set_new; eauto|]. intros r s' (->&?&?&?). by cbn.
  - eapply wp_mono; [by apply law_get|]. intros r s' [-> ->]. by rewrite Hk.
  - eapply wp_mono; [by apply law_get|]. intros r s' [-> ->]. by rewrite Hk.
  - eapply wp_mono; [eapply law_del_old; eauto|]. intros r s' (->&?&?&?). by cbn.
  - eapply wp_mono; [eapply law_del_new; eauto|]. intros r s' [-> ->]. by cbn.
  - eapply wp_mono; [eapply law_mod_old; eauto|]. intros r s' (->&?&?&?). by cbn.
  - eapply wp_mono; [eapply law_mod_new; eauto|]. intros r s' [-> ?]. by cbn.
  - eapply wp_mono; [by apply law_exist|]. intros r s' [-> Hx]. rewrite Hk in Hx. cbn.
    split_and!; try done. apply Hx. eauto.
  - eapply wp_mono; [by apply law_exist|]. intros r s' [-> Hx]. rewrite Hk in Hx. cbn.
    split_and!; try done. rewrite Hx. by intros [].
Qed.

Lemma eng_run_refines e a m os :
  eng_repr e m → supplied a → roomy m os →
  wp (eng_run os)
    (λ rs s', answers_ok eng_missing m os rs ∧ eng_repr s'.1 (spec_run m os).2 ∧
              supplied s'.2 ∧ balanced (e, a) s') (e, a).
Proof.
  revert e a m. induction os as [|o os IH]; intros e a m Hr Ha Hroom; cbn [eng_run spec_run].
  { by split_and!. }
  destruct Hroom as [Hcap Hroom].
  eapply wp_seq; [by apply eng_op_refines|]. intros r [e' a'] (Hrep&Hr'&Ha'&Hb).
  eapply wp_seq; [by eapply IH|]. intros rs s'' (Hreps&Hr''&Ha''&Hb').
  cbn [answers_ok]. destruct (spec_step m o) as [rep m1]. cbn in *. destruct (spec_run m1 os) as [reps m2].
  cbn in *. split_and!; try done.
  unfold balanced in *. cbn in *. lia.
Qed.

(** A whole session: the answers are those of the map started empty, and after
    destroy every block the engine took has been returned. *)
Lemma eng_session_refines a os :
  supplied a → roomy ∅ os →
  wp (eng_session os)
    (λ rs s', answers_ok eng_missing ∅ os rs ∧
              al_live s'.2 = al_live a - eng_owned (E:=E) eng_zero) (eng_zero, a).
Proof.
  intros Ha Hroom. unfold eng_session.
  eapply wp_seq; [by apply law_create|]. intros _ [e a1] (_&Hr&Ha1&Hb1).
  eapply wp_seq; [by apply eng_run_refines|]. intros rs [e2 a2] (Hreps&Hr2&_&Hb2).
  eapply wp_seq; [by eapply law_destroy|]. intros [] s3 Hl. cbn in Hl |- *. split; [done|].
  unfold balanced in *. cbn in *. lia.
Qed.
End refinement.
