(* ===== verification/KvArray.v ===== *)
(** The array engine (Project1_KVstore/src/kvs_array.c): a table of
    KVS_ARRAY_SIZE slots of which the first [total] hold the pairs in insertion
    order.  Each operation is translated loop by loop; a slot the code has not
    written yet holds indeterminate pointers. *)
From S2P Require Import Prelude KvMem KvSpec.

Definition KVS_ARRAY_SIZE : nat := 1024.

Record kvs_array_item : Type := mk_item { item_key : charp; item_value : charp }.
Record kvs_array : Type := mk_array { table : option (list kvs_array_item); total : nat }.

(** ** Operations *)

Definition slot (i : nat) : M kvs_array kvs_array_item :=
  t ← gets table;
  match t with
  | None => undef NullDeref
  | Some l => from_opt OutOfBounds (l !! i)
  end.

Definition set_slot (i : nat) (it : kvs_array_item) : M kvs_array unit :=
  e ← get;
  match table e with
  | None => undef NullDeref
  | Some l => if decide (i < length l)%nat
              then put (mk_array (Some (<[i:=it]> l)) (total e))
              else undef OutOfBounds
  end.

Definition set_total (n : nat) : M kvs_array unit := modify (λ e, mk_array (table e) n).

Definition kvs_array_create (inst : engine_ptr) : M (kvs_array * alloc) Z :=
  if decide (inst = engine_null) then ret (-1) else
  t ← on_fst (gets table);
  if t is Some _ then ret (-1) else
  ok ← on_snd (kvs_malloc (Z.of_nat KVS_ARRAY_SIZE * 16));
  (on_fst (modify (λ e, mk_array
     (if (ok : bool) then Some (replicate KVS_ARRAY_SIZE (mk_item CIndet CIndet)) else None)
     (total e))));;
  if negb ok then ret (-1) else
  on_fst (set_total 0);;
  ret 0.

(** for (i = 0; i < total; i++) free the pair of slot i. *)
Fixpoint destroy_loop (n i : nat) : M (kvs_array * alloc) unit :=
  match n with
  | O => ret ()
  | S n =>
      it ← on_fst (slot i);
      on_snd (kvs_free (item_key it));;
      on_snd (kvs_free (item_value it));;
      on_fst (set_slot i (mk_item CFreed CFreed));;
      destroy_loop n (S i)
  end.

Definition kvs_array_destroy (inst : engine_ptr) : M (kvs_array * alloc) unit :=
  if decide (inst = engine_null) then ret () else
  t ← on_fst (gets table);
  if t is Some _ then
    n ← on_fst (gets total);
    destroy_loop n 0;;
    on_snd kvs_free_block;;
    on_fst (put (mk_array None 0))
  else ret ().

Fixpoint array_get_loop (key : string) (n i : nat) : M kvs_array charp :=
  match n with
  | O => ret CNull
  | S n =>
      it ← slot i;
      if decide (item_key it = CNull) then array_get_loop key n (S i) else
      s ← read_str (item_key it);
      if strcmp s key =? 0 then ret (item_value it) else array_get_loop key n (S i)
  end.

Definition kvs_array_get (inst : engine_ptr) (key : cstr) : M (kvs_array * alloc) charp :=
  match inst, key with
  | engine_inst, Some key =>
      n ← on_fst (gets total); on_fst (array_get_loop key n 0)
  | _, _ => ret CNull
  end.

Definition kvs_array_set (inst : engine_ptr) (key value : cstr) : M (kvs_array * alloc) Z :=
  match inst, key, value with
  | engine_inst, Some key, Some value =>
      n ← on_fst (gets total);
      if decide (n = KVS_ARRAY_SIZE) then ret (-1) else
      str ← kvs_array_get inst (Some key);
      if decide (str ≠ CNull) then ret 1 else
      kcopy ← on_snd (str_dup key);
      if decide (kcopy = CNull) then ret (-2) else
      kvalue ← on_snd (str_dup value);
      if decide (kvalue = CNull) then on_snd (kvs_free kcopy);; ret (-2) else
      on_fst (set_slot n (mk_item kcopy kvalue));;
      on_fst (set_total (n + 1));;
      ret 0
  | _, _, _ => ret (-1)
  end.

(** for (j = i; j < total - 1; j++) table[j] = table[j + 1]. *)
Fixpoint shift_loop (n j : nat) : M kvs_array unit :=
  match n with
  | O => ret ()
  | S n => it ← slot (j + 1); set_slot j it;; shift_loop n (S j)
  end.

Fixpoint array_del_loop (key : string) (n i : nat) : M (kvs_array * alloc) Z :=
  match n with
  | O => ret (Z.of_nat i)
  | S n =>
      it ← on_fst (slot i);
      if decide (item_key it = CNull) then array_del_loop key n (S i) else
      s ← read_str (item_key it);
      if strcmp s key =? 0 then
        on_snd (kvs_free (item_key it));;
        on_snd (kvs_free (item_value it));;
        on_fst (set_slot i (mk_item CFreed CFreed));;
        tot ← on_fst (gets total);
        on_fst (shift_loop (tot - 1 - i) i);;
        on_fst (set_slot (tot - 1) (mk_item CNull CNull));;
        on_fst (set_total (tot - 1));;
        ret 0
      else array_del_loop key n (S i)
  end.

Definition kvs_array_del (inst : engine_ptr) (key : cstr) : M (kvs_array * alloc) Z :=
  match inst, key with
  | engine_inst, Some key => n ← on_fst (gets total); array_del_loop key n 0
  | _, _ => ret (-1)
  end.

Fixpoint array_mod_loop (key value : string) (n i : nat) : M (kvs_array * alloc) Z :=
  match n with
  | O => ret (Z.of_nat i)
  | S n =>
      it ← on_fst (slot i);
      if decide (item_key it = CNull) then array_mod_loop key value n (S i) else
      s ← read_str (item_key it);
      if strcmp s key =? 0 then
        on_snd (kvs_free (item_value it));;
        on_fst (set_slot i (mk_item (item_key it) CFreed));;
        kvalue ← on_snd (str_dup value);
        if decide (kvalue = CNull) then ret (-2) else
        on_fst (set_slot i (mk_item (item_key it) kvalue));;
        ret 0
      else array_mod_loop key value n (S i)
  end.

Definition kvs_array_mod (inst : engine_ptr) (key value : cstr) : M (kvs_array * alloc) Z :=
  match inst, key, value with
  | engine_inst, Some key, Some value =>
      n ← on_fst (gets total);
      if decide (n = 0%nat) then ret (Z.of_nat KVS_ARRAY_SIZE) else
      array_mod_loop key value n 0
  | _, _, _ => ret (-1)
  end.

Definition kvs_array_exist (inst : engine_ptr) (key : cstr) : M (kvs_array * alloc) Z :=
  if decide (inst = engine_null ∨ key = None) then ret (-1) else
  str ← kvs_array_get inst key;
  if decide (str = CNull) then ret 1 else ret 0.

Definition owned_item (it : kvs_array_item) : Z :=
  owned_str (item_key it) + owned_str (item_value it).
Definition owned_items (l : list kvs_array_item) : Z := foldr (λ it n, owned_item it + n) 0 l.
Definition array_owned (e : kvs_array) : Z :=
  match table e with
  | None => 0
  | Some l => 1 + owned_items (take (total e) l)
  end.

#[global] Arguments array_owned : simpl never.

#[export] Instance array_engine : KvEngine kvs_array := {|
  eng_create := kvs_array_create; eng_destroy := kvs_array_destroy;
  eng_set := kvs_array_set; eng_get := kvs_array_get; eng_del := kvs_array_del;
  eng_mod := kvs_array_mod; eng_exist := kvs_array_exist;
  eng_zero := mk_array None 0; eng_owned := array_owned |}.

(** ** The representation of a map *)

Definition items (kvs : list (string * string)) : list kvs_array_item :=
  (λ kv, mk_item (CStr kv.1) (CStr kv.2)) <$> kvs.
#[global] Arguments items : simpl never.
Definition arr (kvs : list (string * string)) (rest : list kvs_array_item) : kvs_array :=
  mk_array (Some (items kvs ++ rest)) (length kvs).

Definition array_repr (e : kvs_array) (m : gmap string string) : Prop :=
  ∃ kvs rest, e = arr kvs rest ∧ (length kvs + length rest = KVS_ARRAY_SIZE)%nat ∧
    NoDup kvs.*1 ∧ m = list_to_map kvs.

Lemma length_items kvs : length (items kvs) = length kvs.
Proof. apply length_fmap. Qed.
Lemma items_cons k v kvs : items ((k, v) :: kvs) = mk_item (CStr k) (CStr v) :: items kvs.
Proof. done. Qed.
Lemma items_app k1 k2 : items (k1 ++ k2) = items k1 ++ items k2.
Proof. apply fmap_app. Qed.

Lemma wp_slot (Q : kvs_array_item → kvs_array → Prop) e l i it :
  table e = Some l → l !! i = Some it → Q it e → wp (slot i) Q e.
Proof. unfold slot, wp. intros Ht Hl HQ. cbn. rewrite Ht, Hl. done. Qed.

Lemma wp_set_slot (Q : unit → kvs_array → Prop) e l i it :
  table e = Some l → (i < length l)%nat →
  Q () (mk_array (Some (<[i:=it]> l)) (total e)) → wp (set_slot i it) Q e.
Proof. unfold set_slot, wp. intros Ht Hl HQ. cbn. rewrite Ht, decide_True; done. Qed.

Lemma lookup_items (kvs : list (string * string)) rest i kv :
  kvs !! i = Some kv → (items kvs ++ rest) !! i = Some (mk_item (CStr kv.1) (CStr kv.2)).
Proof.
  intros Hi. apply lookup_app_l_Some. unfold items. by rewrite list_lookup_fmap, Hi.
Qed.

(** The position of a key among the pairs, if it is there. *)
Lemma key_cases (key : string) (kvs : list (string * string)) :
  key ∉ kvs.*1 ∨ ∃ i v, kvs !! i = Some (key, v) ∧ ∀ j kv, (j < i)%nat → kvs !! j = Some kv → kv.1 ≠ key.
Proof.
  induction kvs as [|[k v] kvs IH]; [left; apply not_elem_of_nil|].
  destruct (decide (k = key)) as [->|Hne].
  { right. exists 0%nat, v. split; [done|]. intros. lia. }
  destruct IH as [?|(i&w&Hi&Hj)].
  { left. rewrite fmap_cons. by apply not_elem_of_cons. }
  right. exists (S i), w. split; [done|]. intros [|j] kv Hlt; cbn; [by intros [= <-]|].
  apply Hj. lia.
Qed.
Lemma lookup_key_ne (key : string) (kvs : list (string * string)) j kv : key ∉ kvs.*1 → kvs !! j = Some kv → kv.1 ≠ key.
Proof.
  intros Hk Hj Heq. apply Hk. rewrite <-Heq.
  by apply list_elem_of_fmap_2, list_elem_of_lookup_2 with j.
Qed.

Section loops.
Context (key : string) (kvs : list (string * string)) (rest : list kvs_array_item).

(** No pair in positions [i .. i+c) has the key. *)
Definition keyless (i c : nat) : Prop :=
  (i + c ≤ length kvs)%nat ∧ ∀ j kv, (i ≤ j < i + c)%nat → kvs !! j = Some kv → kv.1 ≠ key.

Lemma keyless_next i c :
  keyless i (S c) → keyless (S i) c ∧ ∃ kv, kvs !! i = Some kv ∧ kv.1 ≠ key.
Proof.
  intros [Hl Hk]. split; [split; [lia|]|].
  - intros j kv ?. apply Hk. lia.
  - destruct (lookup_lt_is_Some_2 kvs i) as [kv Hi]; [lia|]. exists kv.
    split; [done|]. apply (Hk i); [lia|done].
Qed.

Lemma get_loop_skip c i n (Q : charp → kvs_array → Prop) :
  keyless i c →
  wp (array_get_loop key n (i + c)) Q (arr kvs rest) →
  wp (array_get_loop key (c + n) i) Q (arr kvs rest).
Proof.
  revert i. induction c as [|c IH]; intros i Hk HQ; [by rewrite Nat.add_0_r in HQ|].
  apply keyless_next in Hk as [Hk (kv&Hi&Hne)]. cbn [array_get_loop Nat.add].
  apply wp_bind. eapply wp_slot; [done|by apply lookup_items|]. cbn.
  apply wp_bind, wp_read_str. rewrite strcmp_eqb_ne by done.
  apply IH; [done|]. by rewrite Nat.add_succ_r in HQ.
Qed.

Lemma del_loop_skip c i n a (Q : Z → kvs_array * alloc → Prop) :
  keyless i c →
  wp (array_del_loop key n (i + c)) Q (arr kvs rest, a) →
  wp (array_del_loop key (c + n) i) Q (arr kvs rest, a).
Proof.
  revert i. induction c as [|c IH]; intros i Hk HQ; [by rewrite Nat.add_0_r in HQ|].
  apply keyless_next in Hk as [Hk (kv&Hi&Hne)]. cbn [array_del_loop Nat.add].
  apply wp_bind, wp_on_fst. eapply wp_slot; [done|by apply lookup_items|]. cbn.
  apply wp_bind, wp_read_str. rewrite strcmp_eqb_ne by done.
  apply IH; [done|]. by rewrite Nat.add_succ_r in HQ.
Qed.

Lemma mod_loop_skip value c i n a (Q : Z → kvs_array * alloc → Prop) :
  keyless i c →
  wp (array_mod_loop key value n (i + c)) Q (arr kvs rest, a) →
  wp (array_mod_loop key value (c + n) i) Q (arr kvs rest, a).
Proof.
  revert i. induction c as [|c IH]; intros i Hk HQ; [by rewrite Nat.add_0_r in HQ|].
  apply keyless_next in Hk as [Hk (kv&Hi&Hne)]. cbn [array_mod_loop Nat.add].
  apply wp_bind, wp_on_fst. eapply wp_slot; [done|by apply lookup_items|]. cbn.
  apply wp_bind, wp_read_str. rewrite strcmp_eqb_ne by done.
  apply IH; [done|]. by rewrite Nat.add_succ_r in HQ.
Qed.

Lemma keyless_all : key ∉ kvs.*1 → keyless 0 (length kvs).
Proof. intros Hk. split; [lia|]. intros j kv _. by apply lookup_key_ne. Qed.
Lemma keyless_before i v :
  kvs !! i = Some (key, v) →
  (∀ j kv, (j < i)%nat → kvs !! j = Some kv → kv.1 ≠ key) → keyless 0 i.
Proof.
  intros Hi Hj. split; [apply lookup_lt_Some in Hi; lia|]. intros j kv ?. apply Hj. lia.
Qed.
End loops.

Lemma owned_items_cons it l : owned_items (it :: l) = owned_item it + owned_items l.
Proof. done. Qed.
Lemma owned_items_app l1 l2 : owned_items (l1 ++ l2) = owned_items l1 + owned_items l2.
Proof.
  induction l1 as [|it l1 IH]; [done|]. cbn [app]. rewrite !owned_items_cons, IH. lia.
Qed.
Lemma owned_items_items kvs : owned_items (items kvs) = 2 * Z.of_nat (length kvs).
Proof.
  induction kvs as [|kv kvs IH]; [done|].
  change (2 + owned_items (items kvs) = 2 * Z.of_nat (S (length kvs))). lia.
Qed.
Lemma array_owned_arr kvs rest : array_owned (arr kvs rest) = 1 + 2 * Z.of_nat (length kvs).
Proof.
  unfold array_owned, arr; cbn [table total].
  rewrite take_app_length' by (by rewrite length_items). by rewrite owned_items_items.
Qed.

Lemma array_repr_cases e m key :
  array_repr e m →
  (∃ kvs rest, e = arr kvs rest ∧ m !! key = None ∧ keyless key kvs 0 (length kvs) ∧
     (length kvs + length rest = KVS_ARRAY_SIZE)%nat ∧ NoDup kvs.*1 ∧ m = list_to_map kvs) ∨
  (∃ pre v post rest, e = arr (pre ++ (key, v) :: post) rest ∧ m !! key = Some v ∧
     keyless key (pre ++ (key, v) :: post) 0 (length pre) ∧
     (length (pre ++ (key, v) :: post) + length rest = KVS_ARRAY_SIZE)%nat ∧
     NoDup (pre ++ (key, v) :: post).*1 ∧ m = list_to_map (pre ++ (key, v) :: post)).
Proof.
  intros (kvs&rest&->&Hlen&Hnd&->). destruct (key_cases key kvs) as [Hk|(i&v&Hi&Hj)].
  - left. exists kvs, rest. split_and!; try done.
    + by apply assoc_absent.
    + by apply keyless_all.
  - right. pose proof (keyless_before _ _ _ _ Hi Hj) as Hkl.
    apply list_elem_of_split_length in Hi as (pre&post&->&->).
    exists pre, v, post, rest. split_and!; try done. by apply assoc_lookup.
Qed.

Lemma array_get_spec e a m k :
  array_repr e m →
  wp (kvs_array_get engine_inst (Some k))
    (λ r s', s' = (e, a) ∧ r = match m !! k with Some v => CStr v | None => CNull end) (e, a).
Proof.
  intros [(kvs&rest&->&->&Hk&_)|(pre&v&post&rest&->&->&Hk&_)]%(array_repr_cases _ _ k);
    unfold kvs_array_get; wp_step; cbn.
  - rewrite <-(Nat.add_0_r (length kvs)). by apply get_loop_skip.
  - rewrite length_app; cbn. apply get_loop_skip; [done|]. cbn. apply wp_bind.
    eapply wp_slot; [done| |].
    { apply lookup_items. by apply list_lookup_middle. }
    cbn. apply wp_bind, wp_read_str. by rewrite strcmp_refl.
Qed.

Lemma array_exist_spec e a m k :
  array_repr e m →
  wp (kvs_array_exist engine_inst (Some k))
    (λ r s', s' = (e, a) ∧ (r = 0 ↔ is_Some (m !! k))) (e, a).
Proof.
  intros Hr. unfold kvs_array_exist. rewrite decide_False by naive_solver.
  eapply wp_seq; [by apply array_get_spec|]. intros r s' [-> ->].
  by destruct (m !! k).
Qed.

Lemma shift_loop_spec A x B C tot :
  wp (shift_loop (length B) (length A))
    (λ _ e', ∃ y, e' = mk_array (Some (A ++ B ++ y :: C)) tot)
    (mk_array (Some (A ++ x :: B ++ C)) tot).
Proof.
  revert A x. induction B as [|b B IH]; intros A x; cbn [shift_loop length]; [by exists x|].
  apply wp_bind. eapply wp_slot; [done| |].
  { rewrite lookup_app_r by lia. by replace (length A + 1 - length A)%nat with 1%nat by lia. }
  apply wp_bind. eapply wp_set_slot; [done|rewrite length_app; cbn; lia|]. cbn [table total].
  rewrite list_insert_middle by done.
  specialize (IH (A ++ [b]) b). rewrite length_app, Nat.add_1_r, <-!app_assoc in IH.
  cbn in IH |- *. eapply wp_mono; [apply IH|]. intros _ e' [y ->]. exists y.
  by rewrite <-app_assoc.
Qed.

(** DEL of a stored key removes its pair and closes the gap. *)
Lemma array_del_old pre k v post rest a :
  keyless k (pre ++ (k, v) :: post) 0 (length pre) →
  wp (kvs_array_del engine_inst (Some k))
    (λ r s', r = 0 ∧ s'.1 = arr (pre ++ post) (mk_item CNull CNull :: rest) ∧
             (supplied a → supplied s'.2) ∧ al_live s'.2 = al_live a - 2)
    (arr (pre ++ (k, v) :: post) rest, a).
Proof.
  intros Hk. unfold kvs_array_del. wp_step. cbn.
  rewrite length_app; cbn. apply del_loop_skip; [done|]. cbn [array_del_loop Nat.add].
  apply wp_bind, wp_on_fst. eapply wp_slot; [done| |].
  { apply lookup_items. by apply list_lookup_middle. }
  cbn. apply wp_bind, wp_read_str. rewrite strcmp_refl. cbn. mem_step.
  eapply wp_set_slot; [done|rewrite !length_app, length_items, length_app; cbn; lia|].
  wp_step. rewrite items_app, items_cons, <-app_assoc. cbn.
  rewrite list_insert_middle by (by rewrite length_items). wp_step. cbn.
  replace (length (pre ++ (k, v) :: post) - 1 - length pre)%nat with (length (items post))
    by (rewrite length_app, length_items; cbn; lia).
  rewrite <-(length_items pre) at 1.
  eapply wp_mono; [apply shift_loop_spec|]. intros [] e' [y ->]. wp_step.
  eapply wp_set_slot; [done|rewrite !length_app, !length_items; cbn; lia|].
  cbn. wp_step. rewrite app_assoc, list_insert_middle
    by (rewrite !length_app, !length_items; cbn; lia).
  split_and!; [done| |done|cbn; lia].
  unfold arr. rewrite items_app. f_equal. rewrite !length_app. cbn. lia.
Qed.

(** MOD of a stored key: a new value, or — when malloc fails — the old value is
    already freed and its slot keeps the dangling address. *)
Lemma array_mod_old pre k v post rest value a :
  keyless k (pre ++ (k, v) :: post) 0 (length pre) →
  wp (kvs_array_mod engine_inst (Some k) (Some value))
    (λ r s', al_live s'.2 - array_owned s'.1 = al_live a - array_owned (arr (pre ++ (k, v) :: post) rest) ∧
       ((r = 0 ∧ s'.1 = arr (pre ++ (k, value) :: post) rest) ∨
        (r = -2 ∧ s'.1 = mk_array (Some (items pre ++ mk_item (CStr k) CFreed :: items post ++ rest))
                        (length (pre ++ (k, v) :: post)))) ∧
       (supplied a → r = 0 ∧ supplied s'.2))
    (arr (pre ++ (k, v) :: post) rest, a).
Proof.
  intros Hk. unfold kvs_array_mod. mem_step. cbn.
  rewrite decide_False by (rewrite length_app; cbn; lia).
  rewrite length_app at 1; cbn. apply mod_loop_skip; [done|]. cbn [array_mod_loop Nat.add].
  apply wp_bind, wp_on_fst. eapply wp_slot; [done| |].
  { apply lookup_items. by apply list_lookup_middle. }
  cbn. apply wp_bind, wp_read_str. rewrite strcmp_refl. cbn. mem_step.
  eapply wp_set_slot; [done|rewrite !length_app, length_items, length_app; cbn; lia|].
  mem_step. rewrite items_app, items_cons, <-app_assoc. cbn.
  rewrite list_insert_middle by (by rewrite length_items).
  eapply wp_mono; [apply str_dup_spec|]. intros p a' (Hp&Hlive&Hs). cbn in Hlive.
  rewrite array_owned_arr. case_decide as Hnull; mem_step.
  - subst p. cbn in Hlive. split_and!; [|by right|intros Ha; by destruct (Hs Ha)].
    unfold array_owned; cbn [fst snd table total].
    replace (length (pre ++ (k, v) :: post)) with (length (items pre) + S (length (items post)))%nat
      by (rewrite length_app, !length_items; done).
    rewrite take_app_add. cbn [take]. rewrite take_app_length.
    rewrite owned_items_app, owned_items_cons, !owned_items_items, !length_items.
    unfold owned_item; cbn [owned_str item_key item_value al_live] in *. lia.
  - destruct Hp as [->|]; [|done]. cbn in Hlive.
    eapply wp_set_slot; [done|rewrite !length_app, length_items; cbn; lia|].
    mem_step. rewrite list_insert_middle by (by rewrite length_items).
    cbn [table total].
    assert (mk_array (Some (items pre ++ mk_item (CStr k) (CStr value) :: items post ++ rest))
              (length (pre ++ (k, v) :: post)) = arr (pre ++ (k, value) :: post) rest) as ->.
    { unfold arr. rewrite items_app, items_cons, <-app_assoc. f_equal. by rewrite !length_app. }
    split_and!; [|by left|naive_solver].
    rewrite array_owned_arr, !length_app. cbn. lia.
Qed.

Lemma array_set_spec kvs rest key value a :
  keyless key kvs 0 (length kvs) → (length kvs < KVS_ARRAY_SIZE)%nat →
  (length kvs + length rest = KVS_ARRAY_SIZE)%nat →
  wp (kvs_array_set engine_inst (Some key) (Some value))
    (λ r s', al_live s'.2 - array_owned s'.1 = al_live a - array_owned (arr kvs rest) ∧
       ((r = 0 ∧ ∃ rest', s'.1 = arr (kvs ++ [(key, value)]) rest' ∧
           (length kvs + S (length rest') = KVS_ARRAY_SIZE)%nat) ∨
        (r = -2 ∧ s'.1 = arr kvs rest)) ∧
       (supplied a → r = 0 ∧ supplied s'.2))
    (arr kvs rest, a).
Proof.
  intros Hk Hcap Hlen. unfold kvs_array_set. mem_step. cbn. rewrite decide_False by lia.
  rewrite wp_bind. unfold kvs_array_get. mem_step. cbn.
  rewrite <-(Nat.add_0_r (length kvs)) at 1. apply get_loop_skip; [done|]. cbn.
  rewrite decide_False by naive_solver. mem_step. eapply wp_mono; [apply str_dup_spec|]. intros p a' (Hp&Hlive&Hs).
  case_decide as Hnull; mem_step.
  { subst p. split_and!; [cbn in *; lia|by right|naive_solver]. }
  destruct Hp as [->|]; [|done]. cbn in Hlive.
  eapply wp_mono; [apply str_dup_spec|]. intros p a'' (Hp&Hlive'&Hs').
  case_decide as Hnull'; mem_step.
  { subst p. split_and!; [cbn in *; lia|by right|naive_solver]. }
  destruct Hp as [->|]; [|done]. cbn in Hlive'.
  destruct rest as [|r rest]; [cbn in Hlen; lia|].
  eapply wp_set_slot; [done|rewrite !length_app, length_items; cbn; lia|].
  mem_step. rewrite list_insert_middle by (by rewrite length_items).
  unfold set_total. mem_step. cbn [table total].
  assert (mk_array (Some (items kvs ++ mk_item (CStr key) (CStr value) :: rest)) (length kvs + 1)
          = arr (kvs ++ [(key, value)]) rest) as ->.
  { unfold arr. by rewrite items_app, <-app_assoc, length_app. }
  split_and!; [|left; split; [done|exists rest; cbn in Hlen; split; [done|lia]]|naive_solver].
  rewrite !array_owned_arr, length_app. cbn. lia.
Qed.

Lemma destroy_loop_spec rest done_ kvs tot a :
  wp (destroy_loop (length kvs) (length done_))
    (λ _ s', table s'.1 ≠ None ∧ al_live s'.2 = al_live a - 2 * Z.of_nat (length kvs))
    (mk_array (Some (done_ ++ items kvs ++ rest)) tot, a).
Proof.
  revert done_ a. induction kvs as [|[k v] kvs IH]; intros done_ a; cbn [length destroy_loop].
  { cbn. split; [done|lia]. }
  rewrite items_cons. apply wp_bind, wp_on_fst. eapply wp_slot; [done|by apply list_lookup_middle|].
  cbn [item_key item_value fst snd]. mem_step.
  eapply wp_set_slot; [done|rewrite length_app; cbn; lia|]. cbn.
  rewrite list_insert_middle by done.
  specialize (IH (done_ ++ [mk_item CFreed CFreed])). rewrite length_app, Nat.add_1_r in IH.
  cbn in IH. eapply wp_mono; [rewrite cons_middle, app_assoc; apply IH|].
  intros _ s' [??]; split; [done|]. cbn in *. lia.
Qed.

Lemma array_destroy_spec kvs rest a :
  wp (kvs_array_destroy engine_inst)
    (λ _ s', s'.1 = mk_array None 0 ∧ al_live s'.2 = al_live a - array_owned (arr kvs rest))
    (arr kvs rest, a).
Proof.
  unfold kvs_array_destroy. rewrite decide_False by done. mem_step. cbn. mem_step.
  eapply wp_mono; [apply (destroy_loop_spec rest [])|]. intros _ [e a'] [_ Hl]. mem_step.
  split; [done|]. rewrite array_owned_arr. cbn in *. lia.
Qed.

Lemma array_law_create a :
  supplied a →
  wp (kvs_array_create engine_inst)
    (λ r s', r = 0 ∧ array_repr s'.1 ∅ ∧ supplied s'.2 ∧ balanced (eng_zero, a) s') (eng_zero, a).
Proof.
  intros Ha. unfold kvs_array_create.
  rewrite decide_False by done. mem_step. cbn. mem_step.
  eapply wp_mono; [by apply supplied_malloc|]. intros ? a' (->&Ha'&Hl). mem_step. cbn.
  unfold set_total. mem_step. split_and!; [done| |done|].
  + exists [], (replicate KVS_ARRAY_SIZE (mk_item CIndet CIndet)).
    split_and!; try done. constructor.
  + unfold balanced. cbn [fst snd eng_owned array_engine eng_zero].
    change (array_owned (mk_array None 0)) with 0.
    change (array_owned _) with 1. lia.
Qed.

Lemma array_law_set_new e a m k v :
  array_repr e m → m !! k = None → (size m < KVS_ARRAY_SIZE)%nat → supplied a →
  wp (kvs_array_set engine_inst (Some k) (Some v))
    (λ r s', r = 0 ∧ array_repr s'.1 (<[k:=v]> m) ∧ supplied s'.2 ∧ balanced (e, a) s') (e, a).
Proof.
  intros Hr Hm Hcap Ha.
  destruct (array_repr_cases e m k Hr)
    as [(kvs&rest&->&_&Hk&Hlen&Hnd&->)|(?&?&?&?&?&?&_)]; [|congruence].
  rewrite map_size_list_to_map in Hcap by done.
  eapply wp_mono; [by apply array_set_spec|].
  intros r [e' a'] (Hbal&[(->&rest'&->&Hlen')|(?&_)]&Hs); [|naive_solver lia].
  split_and!; [done| |by apply Hs|done]. exists (kvs ++ [(k, v)]), rest'.
  split_and!; [done|rewrite length_app; cbn; lia| |].
  + rewrite fmap_app. apply NoDup_snoc; [done|by apply assoc_absent].
  + by rewrite list_to_map_snoc by (by apply assoc_absent).
Qed.

Lemma array_law_set_old e a m k v :
  array_repr e m → is_Some (m !! k) → (size m < KVS_ARRAY_SIZE)%nat →
  wp (kvs_array_set engine_inst (Some k) (Some v))
    (λ r s', s' = (e, a) ∧ 0 < r) (e, a).
Proof.
  intros Hr [w Hw] Hcap. unfold kvs_array_set.
  destruct Hr as (kvs&rest&->&Hlen&Hnd&->).
  rewrite map_size_list_to_map in Hcap by done.
  mem_step. cbn. rewrite decide_False by lia.
  eapply wp_seq; [eapply array_get_spec; by exists kvs, rest|]. intros r s' [-> ->].
  rewrite Hw, decide_True by done. by mem_step.
Qed.

Lemma array_law_mod_old e a m k v :
  array_repr e m → is_Some (m !! k) → supplied a →
  wp (kvs_array_mod engine_inst (Some k) (Some v))
    (λ r s', r = 0 ∧ array_repr s'.1 (<[k:=v]> m) ∧ supplied s'.2 ∧ balanced (e, a) s') (e, a).
Proof.
  intros Hr [w Hw] Ha.
  destruct (array_repr_cases e m k Hr)
    as [(?&?&?&?&_)|(pre&u&post&rest&->&_&Hk&Hlen&Hnd&->)]; [congruence|].
  eapply wp_mono; [by apply array_mod_old|].
  intros r [e' a'] (Hbal&[(->&->)|(?&_)]&Hs); [|naive_solver lia].
  split_and!; [done| |by apply Hs|done]. exists (pre ++ (k, v) :: post), rest.
  split_and!; [done|by rewrite length_app in *| |].
  + by eapply (NoDup_fst_middle _ _ u v).
  + symmetry. by apply assoc_replace.
Qed.

Lemma array_law_mod_new e a m k v :
  array_repr e m → m !! k = None →
  wp (kvs_array_mod engine_inst (Some k) (Some v))
    (λ r s', s' = (e, a) ∧ 0 < r) (e, a).
Proof.
  intros Hr Hm. unfold kvs_array_mod.
  destruct (array_repr_cases e m k Hr)
    as [(kvs&rest&->&_&Hk&Hlen&Hnd&->)|(?&?&?&?&?&?&_)]; [|congruence].
  mem_step. cbn. case_decide as Hn; [by mem_step|].
  rewrite <-(Nat.add_0_r (length kvs)) at 1. apply mod_loop_skip; [done|].
  split; [done|]. lia.
Qed.

Lemma array_law_del_old e a m k :
  array_repr e m → is_Some (m !! k) → supplied a →
  wp (kvs_array_del engine_inst (Some k))
    (λ r s', r = 0 ∧ array_repr s'.1 (delete k m) ∧ supplied s'.2 ∧ balanced (e, a) s') (e, a).
Proof.
  intros Hr [w Hw] Ha.
  destruct (array_repr_cases e m k Hr)
    as [(?&?&?&?&_)|(pre&u&post&rest&->&_&Hk&Hlen&Hnd&->)]; [congruence|].
  eapply wp_mono; [by apply array_del_old|]. intros r [e' a'] (->&He&Hs&Hl). cbn in He. subst e'.
  split_and!; [done| |by apply Hs|].
  + exists (pre ++ post), (mk_item CNull CNull :: rest). split_and!; [done| | |].
    * rewrite length_app in *. cbn in *. lia.
    * by eapply (NoDup_fst_middle _ _ u u).
    * symmetry. by apply assoc_remove.
  + unfold balanced; cbn [fst snd eng_owned array_engine]. rewrite !array_owned_arr, !length_app.
    cbn in *. lia.
Qed.

Lemma array_law_del_new e a m k :
  array_repr e m → m !! k = None →
  wp (kvs_array_del engine_inst (Some k))
    (λ r s', r = Z.of_nat (size m) ∧ s' = (e, a)) (e, a).
Proof.
  intros Hr Hm. unfold kvs_array_del.
  destruct (array_repr_cases e m k Hr)
    as [(kvs&rest&->&_&Hk&Hlen&Hnd&->)|(?&?&?&?&?&?&_)]; [|congruence].
  mem_step. cbn. rewrite <-(Nat.add_0_r (length kvs)) at 1. apply del_loop_skip; [done|].
  cbn. split; [|done]. by rewrite map_size_list_to_map.
Qed.

Lemma array_law_destroy e a m :
  array_repr e m →
  wp (kvs_array_destroy engine_inst)
    (λ _ s', al_live s'.2 = al_live a - eng_owned e) (e, a).
Proof.
  intros (kvs&rest&->&_). eapply wp_mono; [apply array_destroy_spec|]. by intros _ s' [??].
Qed.

#[export] Instance array_laws : KvLaws kvs_array := {|
  eng_repr := array_repr;
  eng_cap m := (size m < KVS_ARRAY_SIZE)%nat;
  eng_missing m := Z.of_nat (size m);
  law_create := array_law_create;
  law_get := array_get_spec;
  law_exist := array_exist_spec;
  law_set_new := array_law_set_new;
  law_set_old := array_law_set_old;
  law_mod_old := array_law_mod_old;
  law_mod_new := array_law_mod_new;
  law_del_old := array_law_del_old;
  law_del_new := array_law_del_new;
  law_destroy := array_law_destroy |}.

(** ** Concrete tables *)

(** A table with the pairs [kvs] and uninitialised slots behind them. *)
Definition array_of (kvs : list (string * string)) : kvs_array :=
  arr kvs (replicate (KVS_ARRAY_SIZE - length kvs) (mk_item CIndet CIndet)).
Lemma array_of_repr kvs :
  NoDup kvs.*1 → (length kvs ≤ KVS_ARRAY_SIZE)%nat → array_repr (array_of kvs) (list_to_map kvs).
Proof.
  intros Hnd Hlen. eexists _, _. split_and!; [done| |done|done]. rewrite length_replicate. lia.
Qed.
(** Pairs with the keys 0, 1, .., n-1. *)
Definition numbered (n : nat) : list (string * string) := (λ i, (pretty i, "v")) <$> seq 0 n.
Lemma length_numbered n : length (numbered n) = n.
Proof. unfold numbered. by rewrite length_fmap, length_seq. Qed.
Lemma numbered_nodup n : NoDup (numbered n).*1.
Proof.
  unfold numbered. rewrite <-list_fmap_compose. apply NoDup_fmap_2; [|apply NoDup_seq].
  intros i j. cbn. by intros ?%(inj pretty).
Qed.

(** MOD of a stored key when malloc fails. *)
Lemma array_mod_fail pre k v post rest value a p :
  keyless k (pre ++ (k, v) :: post) 0 (length pre) → al_plan a = false :: p →
  wp (kvs_array_mod engine_inst (Some k) (Some value))
    (λ r s', r = -2 ∧
       s'.1 = mk_array (Some (items pre ++ mk_item (CStr k) CFreed :: items post ++ rest))
                (length (pre ++ (k, v) :: post)))
    (arr (pre ++ (k, v) :: post) rest, a).
Proof.
  intros Hk Hp. unfold kvs_array_mod. mem_step. cbn.
  rewrite decide_False by (rewrite length_app; cbn; lia).
  rewrite length_app at 1; cbn. apply mod_loop_skip; [done|]. cbn [array_mod_loop Nat.add].
  apply wp_bind, wp_on_fst. eapply wp_slot; [done| |].
  { apply lookup_items. by apply list_lookup_middle. }
  cbn. apply wp_bind, wp_read_str. rewrite strcmp_refl. cbn. mem_step.
  eapply wp_set_slot; [done|rewrite !length_app, length_items, length_app; cbn; lia|].
  mem_step. rewrite items_app, items_cons, <-app_assoc. cbn.
  rewrite list_insert_middle by (by rewrite length_items).
  unfold wp. erewrite str_dup_fail by exact Hp. cbn. done.
Qed.
(** The search of GET stops at the first slot with the key, whatever its value. *)
Lemma get_loop_at key pre done_ it post tot n :
  item_key it = CStr key → key ∉ pre.*1 →
  wp (array_get_loop key (length pre + S n) (length done_))
    (λ r e, r = item_value it ∧ e = mk_array (Some (done_ ++ items pre ++ it :: post)) tot)
    (mk_array (Some (done_ ++ items pre ++ it :: post)) tot).
Proof.
  intros Hit. revert done_.
  induction pre as [|[k v] pre IH]; intros done_ Hk; cbn [length Nat.add array_get_loop]; apply wp_bind.
  - eapply wp_slot; [done|by apply list_lookup_middle|]. rewrite Hit. cbn.
    apply wp_bind, wp_read_str. by rewrite strcmp_refl.
  - rewrite fmap_cons, not_elem_of_cons in Hk. destruct Hk as [Hne Hk].
    specialize (IH (done_ ++ [mk_item (CStr k) (CStr v)]) Hk).
    rewrite length_app, Nat.add_1_r, <-app_assoc in IH. cbn [app] in IH.
    rewrite items_cons. cbn [app]. eapply wp_slot; [done|by apply list_lookup_middle|]. cbn.
    apply wp_bind, wp_read_str. by rewrite strcmp_eqb_ne.
Qed.

(** ** What the engine guarantees *)

(** C19: The array engine implements the map but for one return code: create, any run of
    SET, GET, DEL, MOD and EXIST in which each SET finds fewer than KVS_ARRAY_SIZE pairs,
    and destroy; the answers are the map's (GET the value or NULL; SET and MOD 0 when they
    are done and a positive code when the key is present or missing; EXIST 0 exactly when
    the key is there; DEL 0 when the key was there), except that DEL of a missing key
    returns the number of pairs stored, which on an empty table is 0, the code of a
    success, and changes nothing; no step reads or frees memory it must not, and at the
    end every block taken has been given back.  (malloc succeeds.) *)
Theorem array_session_refines a os :
  supplied a → roomy (E:=kvs_array) ∅ os →
  wp (eng_session (E:=kvs_array) os)
    (λ rs s', answers_ok (λ m, Z.of_nat (size m)) ∅ os rs ∧ al_live s'.2 = al_live a)
    (mk_array None 0, a).
Proof.
  intros Ha Hr. eapply wp_mono; [exact (eng_session_refines (E:=kvs_array) a os Ha Hr)|].
  intros rs s' [? Hl]. split; [done|]. rewrite Hl. change (eng_owned eng_zero) with 0. lia.
Qed.
Lemma array_session_refines_witness :
  wp (eng_session (E:=kvs_array) [OpSet "k" "v"; OpDel "l"; OpGet "k"; OpDel "k"; OpDel "k"])
    (λ rs s', rs = [RInt 0; RInt 1; RPtr (CStr "v"); RInt 0; RInt 0] ∧ al_live s'.2 = 7)
    (mk_array None 0, mk_alloc [true; true] 7 []).
Proof.
  eapply wp_mono; [apply (array_session_refines (mk_alloc [true; true] 7 [])
    [OpSet "k" "v"; OpDel "l"; OpGet "k"; OpDel "k"; OpDel "k"])|].
  - repeat constructor.
  - vm_compute. repeat split; lia.
  - intros rs s' [H ?]. split; [|done]. read_answers H. reflexivity.
Defined.

(** DEL of a key the array does not hold leaves the table as it is and
    returns the number of pairs stored; on an empty table that is 0, the code
    for a successful deletion. *)
Theorem array_del_missing_code e a m k :
  array_repr e m → m !! k = None →
  wp (kvs_array_del engine_inst (Some k))
    (λ r s', r = Z.of_nat (size m) ∧ s' = (e, a)) (e, a).
Proof.
  intros Hr Hm. by eapply array_law_del_new.
Qed.
Lemma array_del_missing_code_witness :
  wp (kvs_array_del engine_inst (Some "k")) (λ r s', r = 0 ∧ s' = (array_of [], mk_alloc [] 0 []))
    (array_of [], mk_alloc [] 0 []).
Proof.
  eapply wp_mono.
  - apply (array_del_missing_code (array_of []) (mk_alloc [] 0 []) ∅ "k").
    + apply array_of_repr; [constructor|unfold KVS_ARRAY_SIZE; cbn; lia].
    + reflexivity.
  - intros r s' [-> ->]. split; reflexivity.
Defined.

(** SET on a full table returns -1 and changes nothing, for a key it holds
    (where a table with room answers that the key exists) as for a new one. *)
Theorem array_set_full e a m k v :
  array_repr e m → size m = KVS_ARRAY_SIZE →
  kvs_array_set engine_inst (Some k) (Some v) (e, a) = Ok (-1, (e, a)).
Proof.
  intros (kvs&rest&->&Hlen&Hnd&->) Hfull. rewrite map_size_list_to_map in Hfull by done.
  unfold kvs_array_set, bind, on_fst, gets. cbn [total arr]. by rewrite decide_True.
Qed.
Lemma array_set_full_witness :
  kvs_array_set engine_inst (Some "0") (Some "v") (array_of (numbered KVS_ARRAY_SIZE), mk_alloc [] 0 [])
  = Ok (-1, (array_of (numbered KVS_ARRAY_SIZE), mk_alloc [] 0 [])).
Proof.
  apply (array_set_full _ _ (list_to_map (numbered KVS_ARRAY_SIZE))).
  - apply array_of_repr; [apply numbered_nodup|]. rewrite length_numbered. lia.
  - rewrite map_size_list_to_map by apply numbered_nodup. apply length_numbered.
Defined.

(** When malloc fails inside MOD of a stored key, MOD returns -2, the old
    value has been freed and the slot still holds its address: the next GET of
    the key returns that dangling pointer. *)
Theorem array_mod_failure_dangles e a p m k v :
  array_repr e m → is_Some (m !! k) → al_plan a = false :: p →
  wp (kvs_array_mod engine_inst (Some k) (Some v))
    (λ r s', r = -2 ∧ kvs_array_get engine_inst (Some k) s' = Ok (CFreed, s')) (e, a).
Proof.
  intros Hr [w Hw] Hp. destruct (array_repr_cases e m k Hr)
    as [(?&?&?&?&_)|(pre&u&post&rest&->&_&Hk&Hlen&Hnd&_)]; [congruence|].
  eapply wp_mono; [by eapply array_mod_fail|]. intros r [e' a'] (->&He'). cbn in He'. subst e'.
  split; [done|]. apply wp_det. unfold kvs_array_get. mem_step. cbn [total]. rewrite length_app.
  eapply wp_mono; [apply (get_loop_at k pre []); [done|]|].
  - rewrite fmap_app, fmap_cons in Hnd. apply NoDup_app in Hnd as (_&Hd&_).
    intros Hin. apply (Hd _ Hin), list_elem_of_here.
  - by intros r e [-> ->].
Qed.
Lemma array_mod_failure_dangles_witness :
  wp (kvs_array_mod engine_inst (Some "k") (Some "w"))
    (λ r s', r = -2 ∧ kvs_array_get engine_inst (Some "k") s' = Ok (CFreed, s'))
    (array_of [("k", "v")], mk_alloc [false] 3 []).
Proof.
  apply (array_mod_failure_dangles _ _ [] {["k" := "v"]}).
  - apply (array_of_repr [("k", "v")]); [apply NoDup_singleton|unfold KVS_ARRAY_SIZE; cbn; lia].
  - by exists "v".
  - reflexivity.
Defined.
