(* ===== verification/KvHash.v ===== *)
(** The hash engine (Project1_KVstore/src/kvs_hash.c): MAX_TABLE_SIZE buckets,
    each a singly linked chain that owns its nodes; a chain is the list of its
    nodes from the bucket's head pointer to NULL. *)
From S2P Require Import Prelude KvMem KvSpec.

Definition MAX_TABLE_SIZE : nat := 1024.

Record hashnode : Type := mk_node { node_key : charp; node_value : charp }.
(** [nodes] is NULL (the zeroed object), a live bucket array, or freed. *)
Inductive buckets : Type := BNull | BFreed | BLive (b : list (list hashnode)).
Record kvs_hash : Type := mk_hash { nodes : buckets; max_slots : nat; count : Z }.

(** ** The hash function *)

(** sum += (unsigned char)key[i] in unsigned int, over the bytes before NUL. *)
Fixpoint hash_sum (sum : Z) (key : string) : Z :=
  match key with
  | EmptyString => sum
  | String c key => hash_sum (u32 (sum + Z.of_N (Ascii.N_of_ascii c))) key
  end.

Definition _hash (key : cstr) (size : Z) : Z :=
  match key with
  | None => -1
  | Some key => if size <=? 0 then -1 else hash_sum 0 key mod size
  end.

(** ** Operations *)

Definition chain (idx : Z) : M kvs_hash (list hashnode) :=
  h ← get;
  match nodes h with
  | BNull => undef NullDeref
  | BFreed => undef DanglingDeref
  | BLive b => if idx <? 0 then undef OutOfBounds else from_opt OutOfBounds (b !! Z.to_nat idx)
  end.

Definition set_chain (idx : Z) (c : list hashnode) : M kvs_hash unit :=
  h ← get;
  match nodes h with
  | BNull => undef NullDeref
  | BFreed => undef DanglingDeref
  | BLive b =>
      if (idx <? 0) || (Z.of_nat (length b) <=? idx) then undef OutOfBounds else
      put (mk_hash (BLive (<[Z.to_nat idx:=c]> b)) (max_slots h) (count h))
  end.

Definition add_count (d : Z) : M kvs_hash unit :=
  modify (λ h, mk_hash (nodes h) (max_slots h) (i32 (count h + d))).

Definition _create_node (key value : string) : M alloc (option hashnode) :=
  ok ← kvs_malloc 24;
  if negb ok then ret None else
  kcopy ← str_dup key;
  if decide (kcopy = CNull) then kvs_free_block;; ret None else
  kvalue ← str_dup value;
  if decide (kvalue = CNull) then kvs_free_block;; kvs_free kcopy;; ret None else
  ret (Some (mk_node kcopy kvalue)).

Definition kvs_hash_create (inst : engine_ptr) : M (kvs_hash * alloc) Z :=
  if decide (inst = engine_null) then ret (-1) else
  ok ← on_snd (kvs_malloc (8 * Z.of_nat MAX_TABLE_SIZE));
  h ← on_fst get;
  if negb ok then on_fst (put (mk_hash BNull (max_slots h) (count h)));; ret (-1) else
  on_fst (put (mk_hash (BLive (replicate MAX_TABLE_SIZE [])) MAX_TABLE_SIZE 0));;
  ret 0.

(** The inner while of kvs_hash_destroy: free the head, advance the bucket. *)
Fixpoint destroy_chain (c : list hashnode) (idx : Z) : M (kvs_hash * alloc) unit :=
  match c with
  | [] => ret ()
  | node :: c =>
      on_snd (kvs_free (node_key node));;
      on_snd (kvs_free (node_value node));;
      on_fst (set_chain idx c);;
      on_snd kvs_free_block;;
      destroy_chain c idx
  end.
Fixpoint destroy_buckets (n i : nat) : M (kvs_hash * alloc) unit :=
  match n with
  | O => ret ()
  | S n =>
      c ← on_fst (chain (Z.of_nat i));
      destroy_chain c (Z.of_nat i);;
      destroy_buckets n (S i)
  end.

Definition kvs_hash_destroy (inst : engine_ptr) : M (kvs_hash * alloc) unit :=
  if decide (inst = engine_null) then ret () else
  n ← on_fst (gets max_slots);
  destroy_buckets n 0;;
  h ← on_fst get;
  match nodes h with
  | BNull => ret ()
  | BFreed => undef DoubleFree
  | BLive _ =>
      on_snd kvs_free_block;;
      on_fst (put (mk_hash BFreed (max_slots h) (count h)))
  end.

(** while (node != NULL) { if (strcmp(node->key, key) == 0) ...; node = node->next; }:
    the chain from the first node whose key matches. *)
Fixpoint chain_find {S} (c : list hashnode) (key : string) : M S (list hashnode) :=
  match c with
  | [] => ret []
  | node :: c' =>
      s ← read_str (node_key node);
      if strcmp s key =? 0 then ret c else chain_find c' key
  end.

Definition kvs_hash_set (inst : engine_ptr) (key value : cstr) : M (kvs_hash * alloc) Z :=
  match inst, key, value with
  | engine_inst, Some key, Some value =>
      let idx := _hash (Some key) (Z.of_nat MAX_TABLE_SIZE) in
      c ← on_fst (chain idx);
      found ← chain_find c key;
      if found is _ :: _ then ret 1 else
      new_node ← on_snd (_create_node key value);
      match new_node with
      | None => ret (-2)
      | Some node =>
          on_fst (set_chain idx (node :: c));;
          on_fst (add_count 1);;
          ret 0
      end
  | _, _, _ => ret (-1)
  end.

Definition kvs_hash_get (inst : engine_ptr) (key : cstr) : M (kvs_hash * alloc) charp :=
  match inst, key with
  | engine_inst, Some key =>
      let idx := _hash (Some key) (Z.of_nat MAX_TABLE_SIZE) in
      c ← on_fst (chain idx);
      found ← chain_find c key;
      if found is node :: _ then ret (node_value node) else ret CNull
  | _, _ => ret CNull
  end.

(** The value of the node at the head of the suffix [found] of the chain. *)
Definition set_found_value (c found : list hashnode) (v : charp) : list hashnode :=
  match found with
  | [] => c
  | node :: rest => take (length c - length found) c ++ mk_node (node_key node) v :: rest
  end.

Definition kvs_hash_mod (inst : engine_ptr) (key value : cstr) : M (kvs_hash * alloc) Z :=
  match inst, key, value with
  | engine_inst, Some key, Some value =>
      let idx := _hash (Some key) (Z.of_nat MAX_TABLE_SIZE) in
      c ← on_fst (chain idx);
      found ← chain_find c key;
      match found with
      | [] => ret 1
      | node :: _ =>
          on_snd (kvs_free (node_value node));;
          on_fst (set_chain idx (set_found_value c found CFreed));;
          kvalue ← on_snd (str_dup value);
          if decide (kvalue = CNull) then ret (-2) else
          on_fst (set_chain idx (set_found_value c found kvalue));;
          ret 0
      end
  | _, _, _ => ret (-1)
  end.

Definition kvs_hash_count (inst : engine_ptr) : M (kvs_hash * alloc) Z :=
  if decide (inst = engine_null) then undef NullDeref else on_fst (gets count).

(** The second search of kvs_hash_del: walk [cur] while cur->next has another
    key, then unlink cur->next.  [pre] is the chain up to and including cur,
    [c] what follows it. *)
Fixpoint del_after (idx : Z) (key : string) (pre c : list hashnode) : M (kvs_hash * alloc) Z :=
  match c with
  | [] => ret (-1)
  | tmp :: c' =>
      s ← read_str (node_key tmp);
      if strcmp s key =? 0 then
        on_fst (set_chain idx (pre ++ c'));;
        on_snd (kvs_free (node_key tmp));;
        on_snd (kvs_free (node_value tmp));;
        on_snd kvs_free_block;;
        on_fst (add_count (-1));;
        ret 0
      else del_after idx key (pre ++ [tmp]) c'
  end.

Definition kvs_hash_del (inst : engine_ptr) (key : cstr) : M (kvs_hash * alloc) Z :=
  match inst, key with
  | engine_inst, Some key =>
      let idx := _hash (Some key) (Z.of_nat MAX_TABLE_SIZE) in
      c ← on_fst (chain idx);
      match c with
      | [] => ret (-1)
      | head :: c' =>
          s ← read_str (node_key head);
          if strcmp s key =? 0 then
            on_snd (kvs_free (node_key head));;
            on_snd (kvs_free (node_value head));;
            on_fst (set_chain idx c');;
            on_snd kvs_free_block;;
            on_fst (add_count (-1));;
            ret 0
          else del_after idx key [head] c'
      end
  | _, _ => ret (-2)
  end.

Definition kvs_hash_exist (inst : engine_ptr) (key : cstr) : M (kvs_hash * alloc) Z :=
  value ← kvs_hash_get inst key;
  if decide (value = CNull) then ret 1 else ret 0.

Definition owned_node (n : hashnode) : Z := 1 + owned_str (node_key n) + owned_str (node_value n).
Definition owned_chain (c : list hashnode) : Z := foldr (λ n z, owned_node n + z) 0 c.
Definition owned_table (b : list (list hashnode)) : Z := foldr (λ c z, owned_chain c + z) 0 b.
Definition hash_owned (h : kvs_hash) : Z :=
  match nodes h with
  | BLive b => 1 + owned_table b
  | _ => 0
  end.

#[export] Instance hash_engine : KvEngine kvs_hash := {|
  eng_create := kvs_hash_create; eng_destroy := kvs_hash_destroy;
  eng_set := kvs_hash_set; eng_get := kvs_hash_get; eng_del := kvs_hash_del;
  eng_mod := kvs_hash_mod; eng_exist := kvs_hash_exist;
  eng_zero := mk_hash BNull 0 0; eng_owned := hash_owned |}.
#[global] Arguments hash_owned : simpl never.

(** ** The representation of a map *)

Implicit Types (B : list (list (string * string))) (c : list (string * string)).

Definition chain_of c : list hashnode := (λ kv, mk_node (CStr kv.1) (CStr kv.2)) <$> c.
#[global] Arguments chain_of : simpl never.
Definition bucket (k : string) : nat := Z.to_nat (_hash (Some k) (Z.of_nat MAX_TABLE_SIZE)).
Definition hash_of B : kvs_hash :=
  mk_hash (BLive (chain_of <$> B)) MAX_TABLE_SIZE (i32 (Z.of_nat (length (concat B)))).

(** Distinct keys, each in the bucket its hash selects. *)
Definition hash_ok B : Prop :=
  length B = MAX_TABLE_SIZE ∧ NoDup (concat B).*1 ∧
  ∀ i c, B !! i = Some c → Forall (λ kv, bucket kv.1 = i) c.

Definition hash_repr (h : kvs_hash) (m : gmap string string) : Prop :=
  ∃ B, h = hash_of B ∧ hash_ok B ∧ m = list_to_map (concat B).

(** The bucket index never leaves the table, whatever the bytes of the key. *)
Lemma hash_range k : 0 ≤ _hash (Some k) (Z.of_nat MAX_TABLE_SIZE) < Z.of_nat MAX_TABLE_SIZE.
Proof. apply Z.mod_pos_bound. done. Qed.
Lemma bucket_range k : (bucket k < MAX_TABLE_SIZE)%nat.
Proof. pose proof (hash_range k). unfold bucket. lia. Qed.
Lemma bucket_hash k : _hash (Some k) (Z.of_nat MAX_TABLE_SIZE) = Z.of_nat (bucket k).
Proof. pose proof (hash_range k). unfold bucket. lia. Qed.

Lemma chain_of_cons k v c : chain_of ((k, v) :: c) = mk_node (CStr k) (CStr v) :: chain_of c.
Proof. done. Qed.
Lemma chain_of_app c1 c2 : chain_of (c1 ++ c2) = chain_of c1 ++ chain_of c2.
Proof. apply fmap_app. Qed.
Lemma length_chain_of c : length (chain_of c) = length c.
Proof. apply length_fmap. Qed.

Lemma hash_of_app B1 c B2 :
  nodes (hash_of (B1 ++ c :: B2)) = BLive ((chain_of <$> B1) ++ chain_of c :: (chain_of <$> B2)).
Proof. unfold hash_of. cbn [nodes]. by rewrite fmap_app. Qed.

Lemma wp_chain (Q : list hashnode → kvs_hash → Prop) h b1 x b2 i :
  nodes h = BLive (b1 ++ x :: b2) → i = length b1 → Q x h → wp (chain (Z.of_nat i)) Q h.
Proof.
  intros Hn -> HQ. unfold chain, wp, bind, get. rewrite Hn.
  destruct (Z.ltb_spec (Z.of_nat (length b1)) 0); [lia|]. rewrite Nat2Z.id.
  by rewrite list_lookup_middle by done.
Qed.
Lemma wp_set_chain (Q : unit → kvs_hash → Prop) h b1 x b2 i y :
  nodes h = BLive (b1 ++ x :: b2) → i = length b1 →
  Q () (mk_hash (BLive (b1 ++ y :: b2)) (max_slots h) (count h)) →
  wp (set_chain (Z.of_nat i) y) Q h.
Proof.
  intros Hn -> HQ. unfold set_chain, wp, bind, get. rewrite Hn.
  destruct (Z.ltb_spec (Z.of_nat (length b1)) 0); [lia|]. cbn [orb].
  destruct (Z.leb_spec (Z.of_nat (length (b1 ++ x :: b2))) (Z.of_nat (length b1))) as [Hle|_].
  { rewrite length_app in Hle. cbn in Hle. lia. }
  rewrite Nat2Z.id, list_insert_middle by done. done.
Qed.

(** The search stops at the key, or runs off the chain. *)
Lemma chain_find_absent {S} c key (s : S) :
  key ∉ c.*1 → chain_find (chain_of c) key s = Ok ([], s).
Proof.
  induction c as [|[k v] c IH]; [done|]. rewrite fmap_cons, not_elem_of_cons. intros [Hne Hk].
  rewrite chain_of_cons. cbn. unfold bind, read_str; cbn.
  by rewrite strcmp_eqb_ne, IH.
Qed.
Lemma chain_find_present {S} c1 key v c2 (s : S) :
  key ∉ c1.*1 →
  chain_find (chain_of (c1 ++ (key, v) :: c2)) key s = Ok (chain_of ((key, v) :: c2), s).
Proof.
  induction c1 as [|[k w] c1 IH]; cbn [app].
  { intros _. rewrite chain_of_cons. cbn. unfold bind, read_str; cbn. by rewrite strcmp_refl. }
  rewrite fmap_cons, not_elem_of_cons. intros [Hne Hk].
  rewrite chain_of_cons. cbn. unfold bind, read_str; cbn.
  by rewrite strcmp_eqb_ne, IH.
Qed.

Lemma concat_middle B1 c B2 : concat (B1 ++ c :: B2) = concat B1 ++ c ++ concat B2.
Proof. by rewrite concat_app. Qed.

(** No bucket but its own holds a key. *)
Lemma other_buckets B1 c B2 k :
  hash_ok (B1 ++ c :: B2) → length B1 = bucket k → k ∉ (concat B1).*1 ∧ k ∉ (concat B2).*1.
Proof.
  intros (_&_&Hb) Hlen. split; intros ([k' v]&->&Hin)%list_elem_of_fmap;
    apply list_elem_of_In, in_concat in Hin as (c'&Hc'&Hkv);
    apply list_elem_of_In, list_elem_of_lookup in Hc' as [i Hi];
    apply list_elem_of_In in Hkv; cbn in *.
  - pose proof (lookup_lt_Some _ _ _ Hi). specialize (Hb i c').
    rewrite lookup_app_l in Hb by done. specialize (Hb Hi).
    rewrite Forall_forall in Hb. specialize (Hb _ Hkv). cbn in Hb. lia.
  - specialize (Hb (length B1 + S i)%nat c'). rewrite lookup_app_r in Hb by lia.
    replace (length B1 + S i - length B1)%nat with (S i) in Hb by lia.
    specialize (Hb Hi). rewrite Forall_forall in Hb. specialize (Hb _ Hkv). cbn in Hb. lia.
Qed.

(** Replacing one bucket. *)
Lemma hash_ok_replace B1 c B2 c' :
  hash_ok (B1 ++ c :: B2) →
  NoDup (concat (B1 ++ c' :: B2)).*1 →
  Forall (λ kv, bucket kv.1 = length B1) c' →
  hash_ok (B1 ++ c' :: B2).
Proof.
  intros (Hlen&_&Hb) Hnd Hf. split_and!; [by rewrite length_app in *|done|].
  intros i x Hi. destruct (decide (i = length B1)) as [->|Hne].
  - rewrite list_lookup_middle in Hi by done. by simplify_eq.
  - apply Hb. rewrite <-Hi. rewrite !lookup_app.
    destruct (B1 !! i) eqn:E; [done|]. apply lookup_ge_None in E.
    destruct (i - length B1)%nat eqn:E'; [lia|done].
Qed.

Lemma hash_repr_cases h m key :
  hash_repr h m →
  ∃ B1 c B2, h = hash_of (B1 ++ c :: B2) ∧ hash_ok (B1 ++ c :: B2) ∧
    m = list_to_map (concat (B1 ++ c :: B2)) ∧ length B1 = bucket key ∧
    ((m !! key = None ∧ key ∉ c.*1) ∨
     ∃ c1 v c2, c = c1 ++ (key, v) :: c2 ∧ m !! key = Some v ∧ key ∉ c1.*1).
Proof.
  intros (B&->&Hok&->). pose proof (bucket_range key) as Hr.
  destruct (lookup_lt_is_Some_2 B (bucket key)) as [c Hc]; [destruct Hok; lia|].
  apply list_elem_of_split_length in Hc as (B1&B2&->&Hlen).
  exists B1, c, B2. split_and!; try done.
  destruct (other_buckets _ _ _ key Hok) as [Hk1 Hk2]; [done|].
  destruct (decide (key ∈ c.*1)) as [Hin|Hin].
  - right. destruct Hok as (_&Hnd&_).
    apply list_elem_of_fmap in Hin as ([k v]&Heq&Hin). cbn in Heq. subst k.
    apply list_elem_of_split in Hin as (c1&c2&->). exists c1, v, c2.
    rewrite concat_middle, <-app_assoc, app_assoc in Hnd |- *. cbn in Hnd |- *.
    split_and!; [done|by apply assoc_lookup|].
    apply (NoDup_fst_middle _ _ v v) in Hnd as (_&Hnin&_).
    rewrite !fmap_app in Hnin. set_solver.
  - left. split; [|done]. apply assoc_absent.
    rewrite concat_middle, !fmap_app. set_solver.
Qed.

Lemma owned_chain_of c : owned_chain (chain_of c) = 3 * Z.of_nat (length c).
Proof.
  induction c as [|[k v] c IH]; [done|]. rewrite chain_of_cons.
  change (3 + owned_chain (chain_of c) = 3 * Z.of_nat (S (length c))). lia.
Qed.
Lemma hash_owned_live b n z :
  hash_owned (mk_hash (BLive b) n z) = 1 + owned_table b.
Proof. done. Qed.
Lemma owned_table_cons x b : owned_table (x :: b) = owned_chain x + owned_table b.
Proof. done. Qed.
Lemma owned_buckets B :
  owned_table (chain_of <$> B) = 3 * Z.of_nat (length (concat B)).
Proof.
  induction B as [|c B IH]; [done|].
  rewrite fmap_cons, owned_table_cons, owned_chain_of, IH. cbn [concat]. rewrite length_app. lia.
Qed.
Lemma owned_buckets_middle b1 x b2 :
  owned_table (b1 ++ x :: b2) = owned_table (b1 ++ [] :: b2) + owned_chain x.
Proof.
  induction b1 as [|y b1 IH]; cbn [app]; rewrite !owned_table_cons; [|rewrite IH];
    change (owned_chain []) with 0; lia.
Qed.
Lemma owned_chain_app (c1 c2 : list hashnode) : owned_chain (c1 ++ c2) = owned_chain c1 + owned_chain c2.
Proof.
  induction c1 as [|x c1 IH]; [done|]. cbn [app].
  change (owned_node x + owned_chain (c1 ++ c2) = owned_node x + owned_chain c1 + owned_chain c2). lia.
Qed.
Lemma hash_owned_of B : hash_owned (hash_of B) = 1 + 3 * Z.of_nat (length (concat B)).
Proof. unfold hash_of. by rewrite hash_owned_live, owned_buckets. Qed.

Lemma create_node_spec k v a :
  wp (_create_node k v)
    (λ n a', al_live a' = al_live a + (if n is Some _ then 3 else 0) ∧
       (n = None ∨ n = Some (mk_node (CStr k) (CStr v))) ∧
       (supplied a → n ≠ None ∧ supplied a')) a.
Proof.
  unfold _create_node. eapply wp_seq; [apply malloc_spec|]. intros [] a1 (Hl1&Hs1); cbn [negb].
  2: { cbn. split_and!; [lia|by left|naive_solver]. }
  eapply wp_seq; [apply str_dup_spec|]. intros p a2 (Hp&Hl2&Hs2). case_decide; mem_step.
  { subst p. cbn in *. split_and!; [lia|by left|naive_solver]. }
  destruct Hp as [->|]; [|done].
  eapply wp_mono; [apply str_dup_spec|]. intros q a3 (Hq&Hl3&Hs3). case_decide; mem_step; cbn in *.
  { subst q. cbn in *. split_and!; [lia|by left|naive_solver]. }
  destruct Hq as [->|]; [|done]. cbn in *. split_and!; [lia|by right|naive_solver].
Qed.


Lemma hash_get_spec h a m k :
  hash_repr h m →
  wp (kvs_hash_get engine_inst (Some k))
    (λ r s', s' = (h, a) ∧ r = match m !! k with Some v => CStr v | None => CNull end) (h, a).
Proof.
  intros (B1&c&B2&->&Hok&->&Hlen&[[-> Hk]|(c1&v&c2&->&->&Hk)])%(hash_repr_cases _ _ k);
    unfold kvs_hash_get; rewrite bucket_hash;
    apply wp_bind, wp_on_fst; (eapply wp_chain; [apply hash_of_app|by rewrite length_fmap|]);
    apply wp_bind; eapply wp_lift_pure.
  - by apply chain_find_absent.
  - done.
  - by apply chain_find_present.
  - done.
Qed.

Lemma hash_exist_spec h a m k :
  hash_repr h m →
  wp (kvs_hash_exist engine_inst (Some k))
    (λ r s', s' = (h, a) ∧ (r = 0 ↔ is_Some (m !! k))) (h, a).
Proof.
  intros Hr. unfold kvs_hash_exist.
  eapply wp_seq; [by apply hash_get_spec|]. intros r s' [-> ->].
  by destruct (m !! k).
Qed.

Lemma hash_of_eq b1 x b2 B n :
  b1 ++ x :: b2 = chain_of <$> B → n = Z.of_nat (length (concat B)) →
  mk_hash (BLive (b1 ++ x :: b2)) MAX_TABLE_SIZE (i32 n) = hash_of B.
Proof. by intros -> ->. Qed.

Lemma hash_of_eq' b B z :
  b = chain_of <$> B → z = i32 (Z.of_nat (length (concat B))) →
  mk_hash (BLive b) MAX_TABLE_SIZE z = hash_of B.
Proof. by intros -> ->. Qed.

(** SET of a key the table lacks: the new node heads its bucket, or malloc
    failed and the table is as it was. *)
Lemma hash_set_new B1 c B2 k v a :
  length B1 = bucket k → k ∉ c.*1 →
  wp (kvs_hash_set engine_inst (Some k) (Some v))
    (λ r s', balanced (hash_of (B1 ++ c :: B2), a) s' ∧
       ((r = 0 ∧ s'.1 = hash_of (B1 ++ ((k, v) :: c) :: B2)) ∨
        (r = -2 ∧ s'.1 = hash_of (B1 ++ c :: B2))) ∧
       (supplied a → r = 0 ∧ supplied s'.2))
    (hash_of (B1 ++ c :: B2), a).
Proof.
  intros Hlen Hk. unfold kvs_hash_set. rewrite bucket_hash.
  apply wp_bind, wp_on_fst. eapply wp_chain; [apply hash_of_app|by rewrite length_fmap|].
  apply wp_bind. eapply wp_lift_pure; [by apply chain_find_absent|]. mem_step.
  eapply wp_mono; [apply create_node_spec|]. intros n a' (Hl&Hn&Hs).
  unfold balanced; cbn [fst snd eng_owned hash_engine]. destruct Hn as [->| ->]; mem_step.
  { split_and!; [cbn in *; lia|by right|naive_solver]. }
  eapply wp_set_chain; [apply hash_of_app|by rewrite length_fmap|]. unfold add_count. mem_step.
  cbn [nodes max_slots count hash_of].
  assert (mk_hash (BLive ((chain_of <$> B1) ++ (mk_node (CStr k) (CStr v) :: chain_of c) :: (chain_of <$> B2)))
    MAX_TABLE_SIZE (i32 (i32 (Z.of_nat (length (concat (B1 ++ c :: B2)))) + 1))
    = hash_of (B1 ++ ((k, v) :: c) :: B2)) as ->.
  { replace (i32 (i32 _ + 1)) with (i32 (Z.of_nat (length (concat (B1 ++ c :: B2))) + 1)) by word.
    apply hash_of_eq; [by rewrite fmap_app|].
    rewrite !concat_middle, !length_app. cbn. lia. }
  rewrite !hash_owned_of, !concat_middle, !length_app. cbn [length al_live].
  split_and!; [lia|by left|naive_solver].
Qed.

(** MOD of a stored key; on a malloc failure its value is left dangling. *)
Lemma hash_mod_old B1 c1 k w c2 B2 v a :
  length B1 = bucket k → k ∉ c1.*1 →
  wp (kvs_hash_mod engine_inst (Some k) (Some v))
    (λ r s', balanced (hash_of (B1 ++ (c1 ++ (k, w) :: c2) :: B2), a) s' ∧
       ((r = 0 ∧ s'.1 = hash_of (B1 ++ (c1 ++ (k, v) :: c2) :: B2)) ∨
        (r = -2 ∧ nodes s'.1 = BLive ((chain_of <$> B1) ++
           (chain_of c1 ++ mk_node (CStr k) CFreed :: chain_of c2) :: (chain_of <$> B2)))) ∧
       (supplied a → r = 0 ∧ supplied s'.2))
    (hash_of (B1 ++ (c1 ++ (k, w) :: c2) :: B2), a).
Proof.
  intros Hlen Hk. unfold kvs_hash_mod. rewrite bucket_hash.
  apply wp_bind, wp_on_fst. eapply wp_chain; [apply hash_of_app|by rewrite length_fmap|].
  apply wp_bind. eapply wp_lift_pure; [by apply chain_find_present|].
  assert (∀ p, set_found_value (chain_of (c1 ++ (k, w) :: c2)) (chain_of ((k, w) :: c2)) p
     = chain_of c1 ++ mk_node (CStr k) p :: chain_of c2) as Hset.
  { intros p. rewrite chain_of_app, chain_of_cons. cbn [set_found_value node_key].
    rewrite length_app, Nat.add_sub. by rewrite take_app_length. }
  rewrite chain_of_cons in Hset |- *. cbn [node_value]. mem_step.
  eapply wp_set_chain; [apply hash_of_app|by rewrite length_fmap|]. rewrite Hset. mem_step.
  eapply wp_mono; [apply str_dup_spec|]. intros p a' (Hp&Hl&Hs). cbn [al_live] in Hl.
  unfold balanced; cbn [fst snd eng_owned hash_engine max_slots count hash_of].
  case_decide; mem_step.
  { subst p. cbn in Hl. split_and!; [|by right|naive_solver].
    rewrite hash_owned_live, owned_buckets_middle, owned_chain_app.
    unfold hash_of. rewrite hash_owned_live, fmap_app. cbn [fmap list_fmap].
    rewrite (owned_buckets_middle _ (chain_of _)), chain_of_app, chain_of_cons, owned_chain_app.
    change (owned_chain (mk_node (CStr k) CFreed :: chain_of c2)) with (2 + owned_chain (chain_of c2)).
    change (owned_chain (mk_node (CStr k) (CStr w) :: chain_of c2)) with (3 + owned_chain (chain_of c2)).
    unfold fmap. lia. }
  destruct Hp as [->|]; [|done]. cbn in Hl.
  eapply wp_set_chain; [done|by rewrite length_fmap|]. rewrite Hset. mem_step.
  cbn [max_slots count].
  rewrite (hash_of_eq _ _ _ (B1 ++ (c1 ++ (k, v) :: c2) :: B2)).
  - rewrite !hash_owned_of, !concat_middle, !length_app. cbn [length].
    split_and!; [lia|by left|naive_solver].
  - by rewrite fmap_app, fmap_cons, chain_of_app, chain_of_cons.
  - rewrite !concat_middle, !length_app. done.
Qed.

(** The second search of DEL: behind a prefix without the key. *)
Lemma del_after_absent idx key pre c (s : kvs_hash * alloc) :
  key ∉ c.*1 → del_after idx key pre (chain_of c) s = Ok (-1, s).
Proof.
  revert pre. induction c as [|[k v] c IH]; intros pre; [done|].
  rewrite fmap_cons, not_elem_of_cons. intros [Hne Hk].
  rewrite chain_of_cons. cbn [del_after]. unfold bind at 1, read_str; cbn.
  by rewrite strcmp_eqb_ne, IH.
Qed.
Lemma del_after_present b1 x b2 key pre c1 v c2 h a :
  key ∉ c1.*1 → nodes h = BLive (b1 ++ x :: b2) →
  wp (del_after (Z.of_nat (length b1)) key pre (chain_of (c1 ++ (key, v) :: c2)))
    (λ r s', r = 0 ∧
       s' = (mk_hash (BLive (b1 ++ (pre ++ chain_of (c1 ++ c2)) :: b2)) (max_slots h)
               (i32 (count h - 1)), mk_alloc (al_plan a) (al_live a - 3) (al_rand a))) (h, a).
Proof.
  revert pre. induction c1 as [|[k w] c1 IH]; intros pre Hk Hn; cbn [app];
    rewrite chain_of_cons; cbn [del_after node_key node_value].
  - apply wp_bind, wp_read_str. rewrite strcmp_refl. cbn [Z.eqb]. mem_step.
    eapply wp_set_chain; [done|done|]. unfold add_count. mem_step. cbn [al_plan al_live].
    split; [done|]. by rewrite <-!Z.sub_add_distr.
  - rewrite fmap_cons, not_elem_of_cons in Hk. destruct Hk as [Hne Hk].
    apply wp_bind, wp_read_str. rewrite strcmp_eqb_ne by done.
    eapply wp_mono; [by apply IH|]. intros r s' [-> ->]. split; [done|].
    by rewrite chain_of_cons, <-app_assoc.
Qed.

Lemma hash_del_old B1 c1 k v c2 B2 a :
  length B1 = bucket k → k ∉ c1.*1 →
  wp (kvs_hash_del engine_inst (Some k))
    (λ r s', r = 0 ∧ s' = (hash_of (B1 ++ (c1 ++ c2) :: B2), mk_alloc (al_plan a) (al_live a - 3) (al_rand a)))
    (hash_of (B1 ++ (c1 ++ (k, v) :: c2) :: B2), a).
Proof.
  intros Hlen Hk. unfold kvs_hash_del. rewrite bucket_hash.
  apply wp_bind, wp_on_fst. eapply wp_chain; [apply hash_of_app|by rewrite length_fmap|].
  assert (i32 (count (hash_of (B1 ++ (c1 ++ (k, v) :: c2) :: B2)) - 1)
    = i32 (Z.of_nat (length (concat (B1 ++ (c1 ++ c2) :: B2))))) as Hcnt.
  { unfold hash_of; cbn [count]. rewrite !concat_middle, !length_app. cbn [length]. word. }
  destruct c1 as [|[k' w] c1]; cbn [app]; rewrite chain_of_cons; cbn [node_key node_value].
  - apply wp_bind, wp_read_str. rewrite strcmp_refl. cbn [Z.eqb]. mem_step.
    eapply wp_set_chain; [apply hash_of_app|by rewrite length_fmap|]. unfold add_count. mem_step.
    cbn [nodes max_slots count al_plan al_live app] in *. split; [done|].
    rewrite <-!Z.sub_add_distr. f_equal. by apply hash_of_eq'; [rewrite fmap_app|].
  - rewrite fmap_cons, not_elem_of_cons in Hk. destruct Hk as [Hne Hk].
    apply wp_bind, wp_read_str. rewrite strcmp_eqb_ne by done.
    rewrite <-Hlen, <-(length_fmap chain_of B1).
    eapply wp_mono; [eapply del_after_present; [done|apply hash_of_app]|].
    intros r s' [-> ->]. split; [done|]. f_equal. by apply hash_of_eq'; [rewrite fmap_app|].
Qed.

Lemma destroy_chain_spec b1 b2 c x h a :
  nodes h = BLive (b1 ++ x :: b2) →
  wp (destroy_chain (chain_of c) (Z.of_nat (length b1)))
    (λ _ s', al_live s'.2 = al_live a - 3 * Z.of_nat (length c) ∧ max_slots s'.1 = max_slots h ∧
             ∃ y, nodes s'.1 = BLive (b1 ++ y :: b2)) (h, a).
Proof.
  revert x h a. induction c as [|[k v] c IH]; intros x h a Hn.
  { change (al_live a = al_live a - 3 * 0 ∧ max_slots h = max_slots h ∧
            ∃ y, nodes h = BLive (b1 ++ y :: b2)). split_and!; [lia|done|by exists x]. }
  rewrite chain_of_cons. cbn [destroy_chain node_key node_value]. mem_step.
  eapply wp_set_chain; [done|done|]. mem_step.
  eapply wp_mono; [by eapply IH|]. intros [] s' (Hl&Hm&Hy). cbn [fst snd max_slots al_live length] in *. split_and!; [lia|done|done].
Qed.

Lemma destroy_buckets_spec B b1 h a :
  nodes h = BLive (b1 ++ (chain_of <$> B)) →
  wp (destroy_buckets (length B) (length b1))
    (λ _ s', al_live s'.2 = al_live a - 3 * Z.of_nat (length (concat B)) ∧
             ∃ b, nodes s'.1 = BLive b) (h, a).
Proof.
  revert b1 h a. induction B as [|c B IH]; intros b1 h a Hn; cbn [length destroy_buckets].
  { change (al_live a = al_live a - 3 * 0 ∧ ∃ b, nodes h = BLive b). split; [lia|by eexists]. }
  apply wp_bind, wp_on_fst. eapply wp_chain; [done|done|].
  eapply wp_seq; [by eapply destroy_chain_spec|]. intros [] [h' a'] (Hl&Hm&y&Hy). cbn in *.
  specialize (IH (b1 ++ [y]) h' a'). rewrite <-app_assoc, length_app, Nat.add_1_r in IH.
  eapply wp_mono; [by apply IH|]. intros [] s' (Hl'&?). split; [|done].
  rewrite length_app. lia.
Qed.

Lemma hash_law_create a :
  supplied a →
  wp (kvs_hash_create engine_inst)
    (λ r s', r = 0 ∧ hash_repr s'.1 ∅ ∧ supplied s'.2 ∧ balanced (eng_zero, a) s') (eng_zero, a).
Proof.
  intros Ha. unfold kvs_hash_create. rewrite decide_False by done. mem_step.
  eapply wp_mono; [by apply supplied_malloc|]. intros ? a' (->&Ha'&Hl). mem_step. cbn [negb].
  mem_step. assert (concat (replicate MAX_TABLE_SIZE []) = ([] : list (string * string))) as Hc.
  { generalize MAX_TABLE_SIZE. by induction n. }
  assert (mk_hash (BLive (replicate MAX_TABLE_SIZE [])) MAX_TABLE_SIZE 0
          = hash_of (replicate MAX_TABLE_SIZE [])) as ->.
  { unfold hash_of. rewrite Hc. by rewrite fmap_replicate. }
  split_and!; [done| |done|].
  - exists (replicate MAX_TABLE_SIZE []). split; [done|]. split; [|by rewrite Hc].
    split; [done|]. split; [rewrite Hc; constructor|].
    by intros i c [-> ?]%lookup_replicate.
  - unfold balanced. cbn [fst snd eng_owned hash_engine]. rewrite hash_owned_of, Hc.
    change (hash_owned eng_zero) with 0. cbn [length]. lia.
Qed.

Lemma hash_law_set_new e a m k v :
  hash_repr e m → m !! k = None → True → supplied a →
  wp (kvs_hash_set engine_inst (Some k) (Some v))
    (λ r s', r = 0 ∧ hash_repr s'.1 (<[k:=v]> m) ∧ supplied s'.2 ∧ balanced (e, a) s') (e, a).
Proof.
  intros Hr Hm _ Ha. destruct (hash_repr_cases e m k Hr)
    as (B1&c&B2&->&Hok&->&Hlen&[[_ Hk]|(?&?&?&?&?&_)]); [|congruence].
  eapply wp_mono; [by apply hash_set_new|].
  intros r [e' a'] (Hbal&[(->&He)|(?&_)]&Hs); [|naive_solver lia]. cbn in He. subst e'.
  split_and!; [done| |by apply Hs|done].
  assert (NoDup (concat (B1 ++ ((k, v) :: c) :: B2)).*1) as Hnd.
  { rewrite concat_middle, fmap_app. cbn. rewrite <-Permutation_middle, <-fmap_app, <-concat_middle.
    apply NoDup_cons. split; [by apply assoc_absent|apply Hok]. }
  eexists. split; [done|]. split.
  - eapply hash_ok_replace; [done|done|]. apply Forall_cons. split; [done|].
    destruct Hok as (_&_&Hb). apply (Hb (length B1)). by apply list_lookup_middle.
  - rewrite !concat_middle in *. cbn [app] in *. by rewrite list_to_map_middle.
Qed.

Lemma hash_law_set_old e a m k v :
  hash_repr e m → is_Some (m !! k) → True →
  wp (kvs_hash_set engine_inst (Some k) (Some v)) (λ r s', s' = (e, a) ∧ 0 < r) (e, a).
Proof.
  intros Hr [w Hw] _. destruct (hash_repr_cases e m k Hr)
    as (B1&c&B2&->&Hok&->&Hlen&[[? Hk]|(c1&u&c2&->&_&Hk)]); [congruence|].
  unfold kvs_hash_set. rewrite bucket_hash.
  apply wp_bind, wp_on_fst. eapply wp_chain; [apply hash_of_app|by rewrite length_fmap|].
  apply wp_bind. by eapply wp_lift_pure; [by apply chain_find_present|].
Qed.

Lemma hash_law_mod_old e a m k v :
  hash_repr e m → is_Some (m !! k) → supplied a →
  wp (kvs_hash_mod engine_inst (Some k) (Some v))
    (λ r s', r = 0 ∧ hash_repr s'.1 (<[k:=v]> m) ∧ supplied s'.2 ∧ balanced (e, a) s') (e, a).
Proof.
  intros Hr [w Hw] Ha. destruct (hash_repr_cases e m k Hr)
    as (B1&c&B2&->&Hok&->&Hlen&[[? Hk]|(c1&u&c2&->&_&Hk)]); [congruence|].
  eapply wp_mono; [by apply hash_mod_old|].
  intros r [e' a'] (Hbal&[(->&He)|(?&_)]&Hs); [|naive_solver lia]. cbn in He. subst e'.
  split_and!; [done| |by apply Hs|done].
  pose proof (proj1 (proj2 Hok)) as Hnd.
  rewrite concat_middle, <-app_assoc, app_assoc in Hnd. cbn in Hnd.
  eexists. split; [done|]. split.
  - eapply hash_ok_replace; [done| |].
    + rewrite concat_middle, <-app_assoc, app_assoc. cbn. by eapply (NoDup_fst_middle _ _ u v).
    + destruct Hok as (_&_&Hb). specialize (Hb (length B1) _ (list_lookup_middle _ _ _ _ eq_refl)).
      rewrite Forall_app, Forall_cons in *. done.
  - rewrite !concat_middle, <-!app_assoc, !(app_assoc (concat B1)). cbn.
    symmetry. by apply assoc_replace.
Qed.

Lemma hash_law_mod_new e a m k v :
  hash_repr e m → m !! k = None →
  wp (kvs_hash_mod engine_inst (Some k) (Some v)) (λ r s', s' = (e, a) ∧ 0 < r) (e, a).
Proof.
  intros Hr Hm. destruct (hash_repr_cases e m k Hr)
    as (B1&c&B2&->&Hok&->&Hlen&[[_ Hk]|(?&?&?&?&?&_)]); [|congruence].
  unfold kvs_hash_mod. rewrite bucket_hash.
  apply wp_bind, wp_on_fst. eapply wp_chain; [apply hash_of_app|by rewrite length_fmap|].
  apply wp_bind. by eapply wp_lift_pure; [by apply chain_find_absent|].
Qed.

Lemma hash_law_del_old e a m k :
  hash_repr e m → is_Some (m !! k) → supplied a →
  wp (kvs_hash_del engine_inst (Some k))
    (λ r s', r = 0 ∧ hash_repr s'.1 (delete k m) ∧ supplied s'.2 ∧ balanced (e, a) s') (e, a).
Proof.
  intros Hr [w Hw] Ha. destruct (hash_repr_cases e m k Hr)
    as (B1&c&B2&->&Hok&->&Hlen&[[? Hk]|(c1&u&c2&->&_&Hk)]); [congruence|].
  eapply wp_mono; [by apply hash_del_old|]. intros r s' (->&->). cbn [fst snd].
  pose proof (proj1 (proj2 Hok)) as Hnd.
  rewrite concat_middle, <-app_assoc, app_assoc in Hnd. cbn in Hnd.
  split_and!; [done| |done|].
  - eexists. split; [done|]. split.
    + eapply hash_ok_replace; [done| |].
      * rewrite concat_middle, <-app_assoc, app_assoc. by eapply (NoDup_fst_middle _ _ u u).
      * destruct Hok as (_&_&Hb). specialize (Hb (length B1) _ (list_lookup_middle _ _ _ _ eq_refl)).
        rewrite Forall_app, Forall_cons in Hb. rewrite Forall_app. tauto.
    + rewrite !concat_middle, <-!app_assoc, !(app_assoc (concat B1)). cbn.
      symmetry. by apply assoc_remove.
  - unfold balanced. cbn [fst snd eng_owned hash_engine al_live].
    rewrite !hash_owned_of, !concat_middle, !length_app. cbn [length]. lia.
Qed.

(** DEL of a key that is not stored answers -1, a negative number. *)
Lemma hash_del_new e a m k :
  hash_repr e m → m !! k = None →
  wp (kvs_hash_del engine_inst (Some k)) (λ r s', r = -1 ∧ s' = (e, a)) (e, a).
Proof.
  intros Hr Hm. destruct (hash_repr_cases e m k Hr)
    as (B1&c&B2&->&Hok&->&Hlen&[[_ Hk]|(?&?&?&?&?&_)]); [|congruence].
  unfold kvs_hash_del. rewrite bucket_hash.
  apply wp_bind, wp_on_fst. eapply wp_chain; [apply hash_of_app|by rewrite length_fmap|].
  destruct c as [|[k' v] c]; [done|]. rewrite chain_of_cons. cbn [node_key].
  rewrite fmap_cons, not_elem_of_cons in Hk. destruct Hk as [Hne Hk].
  apply wp_bind, wp_read_str. rewrite strcmp_eqb_ne by done.
  eapply wp_lift_pure; [by apply del_after_absent|]. done.
Qed.
Lemma hash_law_del_new e a m k :
  hash_repr e m → m !! k = None →
  wp (kvs_hash_del engine_inst (Some k)) (λ r s', r = -1 ∧ s' = (e, a)) (e, a).
Proof. apply hash_del_new. Qed.

Lemma hash_law_destroy e a m :
  hash_repr e m →
  wp (kvs_hash_destroy engine_inst) (λ _ s', al_live s'.2 = al_live a - eng_owned e) (e, a).
Proof.
  intros (B&->&(Hlen&_)&_). unfold kvs_hash_destroy. rewrite decide_False by done. mem_step.
  cbn [max_slots hash_of]. rewrite <-Hlen.
  eapply wp_mono; [by apply (destroy_buckets_spec B [])|].
  intros [] [h a'] (Hl&b&Hb). mem_step. cbn [fst snd] in *. rewrite Hb. mem_step.
  cbn [eng_owned hash_engine al_live]. rewrite hash_owned_of. lia.
Qed.

#[export] Instance hash_laws : KvLaws kvs_hash := {|
  eng_repr := hash_repr;
  eng_cap m := True;
  eng_missing m := -1;
  law_create := hash_law_create;
  law_get := hash_get_spec;
  law_exist := hash_exist_spec;
  law_set_new := hash_law_set_new;
  law_set_old := hash_law_set_old;
  law_mod_old := hash_law_mod_old;
  law_mod_new := hash_law_mod_new;
  law_del_old := hash_law_del_old;
  law_del_new := hash_law_del_new;
  law_destroy := hash_law_destroy |}.

(** ** Concrete tables *)

Lemma concat_empty n : concat (replicate n []) = ([] : list (string * string)).
Proof. by induction n. Qed.
Lemma empty_table_repr : hash_repr (hash_of (replicate MAX_TABLE_SIZE [])) ∅.
Proof.
  exists (replicate MAX_TABLE_SIZE []). split; [done|]. split; [|by rewrite concat_empty].
  split; [done|]. split; [rewrite concat_empty; constructor|]. by intros i c [-> ?]%lookup_replicate.
Qed.
Lemma single_table_repr k v :
  hash_repr (hash_of (<[bucket k:=[(k, v)]]> (replicate MAX_TABLE_SIZE []))) {[k := v]}.
Proof.
  pose proof (bucket_range k) as Hb.
  assert (∃ n, <[bucket k:=[(k, v)]]> (replicate MAX_TABLE_SIZE [])
    = replicate (bucket k) [] ++ [(k, v)] :: replicate n []) as [n Hn].
  { exists (MAX_TABLE_SIZE - S (bucket k))%nat.
    replace MAX_TABLE_SIZE with (bucket k + S (MAX_TABLE_SIZE - S (bucket k)))%nat at 1 by lia.
    rewrite replicate_add. cbn [replicate]. apply list_insert_middle. by rewrite length_replicate. }
  eexists. split; [done|]. split; [split_and!|].
  - by rewrite length_insert, length_replicate.
  - rewrite Hn, concat_middle, !concat_empty. apply NoDup_singleton.
  - intros i c [(<-&<-&_)|[? [-> _]%lookup_replicate]]%list_lookup_insert_Some; [|constructor].
    by constructor.
  - rewrite Hn, concat_middle, !concat_empty. done.
Qed.

Lemma set_found_middle c1 k w c2 p :
  set_found_value (chain_of (c1 ++ (k, w) :: c2)) (chain_of ((k, w) :: c2)) p
  = chain_of c1 ++ mk_node (CStr k) p :: chain_of c2.
Proof.
  rewrite chain_of_app, chain_of_cons. cbn [set_found_value node_key].
  rewrite length_app, Nat.add_sub. by rewrite take_app_length.
Qed.
(** The search stops at the key's node, whatever its value field holds. *)
Lemma chain_find_at {S} c1 key p (c : list hashnode) (s : S) :
  key ∉ c1.*1 →
  chain_find (chain_of c1 ++ mk_node (CStr key) p :: c) key s = Ok (mk_node (CStr key) p :: c, s).
Proof.
  induction c1 as [|[k w] c1 IH].
  { intros _. change (chain_of []) with (@nil hashnode). cbn. unfold bind, read_str; cbn.
    by rewrite strcmp_refl. }
  rewrite fmap_cons, not_elem_of_cons. intros [Hne Hk].
  rewrite chain_of_cons. cbn. unfold bind, read_str; cbn.
  by rewrite strcmp_eqb_ne, IH.
Qed.

(** ** What the engine guarantees *)

(** C18: The hash engine implements the map but for one return code: create, any run of
    SET, GET, DEL, MOD and EXIST, and destroy; the answers are the map's (GET the value or
    NULL; SET and MOD 0 when they are done and a positive code when the key is present or
    missing; EXIST 0 exactly when the key is there; DEL 0 when the key was there), except
    that DEL of a missing key returns -1, the code of an error, and changes nothing; no
    step reads or frees memory it must not, and at the end every block taken has been
    given back.  (malloc succeeds.) *)
Theorem hash_session_refines a os :
  supplied a →
  wp (eng_session (E:=kvs_hash) os)
    (λ rs s', answers_ok (λ _, -1) ∅ os rs ∧ al_live s'.2 = al_live a)
    (mk_hash BNull 0 0, a).
Proof.
  intros Ha. eapply wp_mono; [exact (eng_session_refines (E:=kvs_hash) a os Ha (roomy_always ∅ os (λ _, I)))|].
  intros rs s' [? Hl]. split; [done|]. rewrite Hl. change (eng_owned eng_zero) with 0. lia.
Qed.
Lemma hash_session_refines_witness :
  wp (eng_session (E:=kvs_hash) [OpSet "ab" "v"; OpSet "ba" "w"; OpDel "ab"; OpDel "ab"; OpGet "ba"])
    (λ rs s', rs = [RInt 0; RInt 0; RInt 0; RInt (-1); RPtr (CStr "w")] ∧ al_live s'.2 = 0)
    (mk_hash BNull 0 0, mk_alloc [] 0 []).
Proof.
  eapply wp_mono; [apply (hash_session_refines (mk_alloc [] 0 [])
    [OpSet "ab" "v"; OpSet "ba" "w"; OpDel "ab"; OpDel "ab"; OpGet "ba"]); repeat constructor|].
  intros rs s' [H ?]. split; [|done]. read_answers H. reflexivity.
Defined.

(** DEL of a key the table does not hold changes nothing and returns -1, a
    negative code, which the protocol layer reports as an error rather than as a
    missing key. *)
Theorem hash_del_missing_code e a m k :
  hash_repr e m → m !! k = None →
  kvs_hash_del engine_inst (Some k) (e, a) = Ok (-1, (e, a)).
Proof. intros. apply wp_det. by eapply hash_del_new. Qed.
Lemma hash_del_missing_code_witness :
  kvs_hash_del engine_inst (Some "k") (hash_of (replicate MAX_TABLE_SIZE []), mk_alloc [] 1 [])
  = Ok (-1, (hash_of (replicate MAX_TABLE_SIZE []), mk_alloc [] 1 [])).
Proof. apply (hash_del_missing_code _ _ ∅ "k"); [apply empty_table_repr|reflexivity]. Defined.

(** When malloc fails inside MOD of a stored key, MOD returns -2, the old
    value has been freed and the node still holds its address: the next GET of
    the key returns that dangling pointer. *)
Theorem hash_mod_failure_dangles e a p m k v :
  hash_repr e m → is_Some (m !! k) → al_plan a = false :: p →
  wp (kvs_hash_mod engine_inst (Some k) (Some v))
    (λ r s', r = -2 ∧ kvs_hash_get engine_inst (Some k) s' = Ok (CFreed, s')) (e, a).
Proof.
  intros Hr [w Hw] Hp. destruct (hash_repr_cases e m k Hr)
    as (B1&c&B2&->&Hok&->&Hlen&[[? Hk]|(c1&u&c2&->&_&Hk)]); [congruence|].
  unfold kvs_hash_mod. rewrite bucket_hash.
  apply wp_bind, wp_on_fst. eapply wp_chain; [apply hash_of_app|by rewrite length_fmap|].
  apply wp_bind. eapply wp_lift_pure; [by apply chain_find_present|].
  rewrite chain_of_cons. cbn [node_value]. mem_step.
  eapply wp_set_chain; [apply hash_of_app|by rewrite length_fmap|]. mem_step.
  eapply wp_lift_any; [by apply str_dup_fail|]. rewrite decide_True by done. mem_step.
  split; [done|]. apply wp_det. unfold kvs_hash_get. rewrite bucket_hash.
  apply wp_bind, wp_on_fst. eapply wp_chain; [done|by rewrite length_fmap|].
  rewrite <-chain_of_cons, set_found_middle. apply wp_bind.
  eapply wp_lift_pure; [by apply chain_find_at|]. done.
Qed.
Lemma hash_mod_failure_dangles_witness :
  wp (kvs_hash_mod engine_inst (Some "k") (Some "w"))
    (λ r s', r = -2 ∧ kvs_hash_get engine_inst (Some "k") s' = Ok (CFreed, s'))
    (hash_of (<[bucket "k":=[("k", "v")]]> (replicate MAX_TABLE_SIZE [])), mk_alloc [false] 4 []).
Proof.
  apply (hash_mod_failure_dangles _ _ [] {["k" := "v"]}).
  - apply single_table_repr.
  - by exists "v".
  - reflexivity.
Defined.
