(* ===== verification/KvSkiptable.v ===== *)
(** The skip-list engine (Project1_KVstore/src/kvs_skiptable.c), the engine of
    the default build: nodes in a heap indexed by address, each with an array of
    forward pointers, and a table with the head node and the current level. *)
From S2P Require Import Prelude KvMem KvSpec.

Definition SKIPTABLE_MAX_LEVEL : nat := 16.

Record skipnode : Type := mk_skip {
  sk_key : charp; sk_value : charp; sk_level : nat; sk_forward : list (option loc) }.
(** [st_heap] is the memory the nodes live in. *)
Record kvs_skiptable : Type := mk_table {
  st_heap : gmap loc skipnode; st_head : option loc; st_level : nat; st_count : Z }.

(** ** Memory *)

Definition set_heap (h : gmap loc skipnode) (t : kvs_skiptable) : kvs_skiptable :=
  mk_table h (st_head t) (st_level t) (st_count t).
Definition set_level (n : nat) (t : kvs_skiptable) : kvs_skiptable :=
  mk_table (st_heap t) (st_head t) n (st_count t).
Definition set_count (n : Z) (t : kvs_skiptable) : kvs_skiptable :=
  mk_table (st_heap t) (st_head t) (st_level t) n.
Definition set_fwd (f : list (option loc)) (n : skipnode) : skipnode :=
  mk_skip (sk_key n) (sk_value n) (sk_level n) f.
Definition set_sk_value (v : charp) (n : skipnode) : skipnode :=
  mk_skip (sk_key n) v (sk_level n) (sk_forward n).

Definition load (p : option loc) : M kvs_skiptable skipnode :=
  t ← get;
  match p with
  | None => undef NullDeref
  | Some l => from_opt DanglingDeref (st_heap t !! l)
  end.
Definition store (p : option loc) (n : skipnode) : M kvs_skiptable unit :=
  load p;;
  modify (λ t, if p is Some l then set_heap (<[l:=n]> (st_heap t)) t else t).
Definition unmap (l : loc) : M kvs_skiptable unit := modify (λ t, set_heap (delete l (st_heap t)) t).

(** p->forward[i] *)
Definition forward (p : option loc) (i : nat) : M kvs_skiptable (option loc) :=
  n ← load p; from_opt OutOfBounds (sk_forward n !! i).
Definition set_forward (p : option loc) (i : nat) (q : option loc) : M kvs_skiptable unit :=
  n ← load p;
  if (length (sk_forward n) <=? i)%nat then undef OutOfBounds else
  store p (set_fwd (<[i:=q]> (sk_forward n)) n).

(** ** Operations *)

Definition skiptable_create_node (key value : cstr) (level : nat)
    : M (kvs_skiptable * alloc) (option loc) :=
  ok ← on_snd (kvs_malloc 152);
  if negb ok then ret None else
  k ← match key with None => ret CNull | Some key => on_snd (str_dup key) end;
  if decide (is_Some key ∧ k = CNull) then
    on_snd kvs_free_block;; ret None else
  v ← match value with None => ret CNull | Some value => on_snd (str_dup value) end;
  if decide (is_Some value ∧ v = CNull) then
    on_snd (kvs_free k);; on_snd kvs_free_block;; ret None else
  h ← on_fst (gets st_heap);
  let l := fresh (dom h) in
  on_fst (modify (set_heap (<[l:=mk_skip k v level (replicate SKIPTABLE_MAX_LEVEL None)]> h)));;
  ret (Some l).

(** while (rand()/RAND_MAX < P && level < MAX) level++; from [level], with at
    most [n] rounds to go. *)
Fixpoint random_level_loop (n level : nat) : M alloc nat :=
  b ← rand_below_half;
  match n with
  | S n => if b then random_level_loop n (S level) else ret level
  | O => ret level
  end.
Definition skiptable_random_level : M alloc nat := random_level_loop (SKIPTABLE_MAX_LEVEL - 1) 1.

(** while (cur->forward[i] != NULL && strcmp(cur->forward[i]->key, key) < 0)
    cur = cur->forward[i]; *)
Fixpoint walk (fuel : nat) (cur : option loc) (i : nat) (key : string)
    : M kvs_skiptable (option loc) :=
  match fuel with
  | O => no_fuel
  | S fuel =>
      next ← forward cur i;
      if next is Some _ then
        n ← load next;
        s ← read_str (sk_key n);
        if strcmp s key <? 0 then walk fuel next i key else ret cur
      else ret cur
  end.

(** for (int i = n - 1; i >= 0; i--) { walk at level i; update[i] = cur; } *)
Fixpoint descend (n : nat) (cur : option loc) (key : string) (update : list (option loc))
    : M kvs_skiptable (option loc * list (option loc)) :=
  match n with
  | O => ret (cur, update)
  | S i =>
      fuel ← gets (λ t, S (size (st_heap t)));
      cur ← walk fuel cur i key;
      descend i cur key (<[i:=cur]> update)
  end.

Definition no_update : list (option loc) := replicate SKIPTABLE_MAX_LEVEL None.

Definition skiptable_search_node (table : engine_ptr) (key : cstr) : M kvs_skiptable (option loc) :=
  match table, key with
  | engine_inst, Some key =>
      t ← get;
      ' (cur, _) ← descend (st_level t) (st_head t) key no_update;
      cur ← forward cur 0;
      if cur is Some _ then
        n ← load cur;
        s ← read_str (sk_key n);
        if strcmp s key =? 0 then ret cur else ret None
      else ret None
  | _, _ => ret None
  end.

Definition kvs_skiptable_create (table : engine_ptr) : M (kvs_skiptable * alloc) Z :=
  if decide (table = engine_null) then ret (-1) else
  head ← skiptable_create_node None None SKIPTABLE_MAX_LEVEL;
  on_fst (modify (λ t, mk_table (st_heap t) head (st_level t) (st_count t)));;
  if head is None then ret (-1) else
  on_fst (modify (set_level 1));;
  on_fst (modify (set_count 0));;
  ret 0.

Fixpoint skip_destroy_loop (fuel : nat) (cur : option loc) : M (kvs_skiptable * alloc) unit :=
  match cur with
  | None => ret ()
  | Some l =>
      match fuel with
      | O => no_fuel
      | S fuel =>
          next ← on_fst (forward cur 0);
          n ← on_fst (load cur);
          on_snd (kvs_free (sk_key n));;
          on_snd (kvs_free (sk_value n));;
          on_fst (unmap l);; on_snd kvs_free_block;;
          skip_destroy_loop fuel next
      end
  end.

Definition kvs_skiptable_destroy (table : engine_ptr) : M (kvs_skiptable * alloc) unit :=
  if decide (table = engine_null) then ret () else
  t ← on_fst get;
  match st_head t with
  | None => ret ()
  | Some hd =>
      cur ← on_fst (forward (st_head t) 0);
      skip_destroy_loop (size (st_heap t)) cur;;
      on_fst (unmap hd);; on_snd kvs_free_block;;
      on_fst (modify (λ t, mk_table (st_heap t) None 0 0))
  end.

(** for (int i = from; i < from + n; i++) update[i] = table->head; *)
Fixpoint raise_update (n i : nat) (hd : option loc) (update : list (option loc)) : list (option loc) :=
  match n with O => update | S n => raise_update n (S i) hd (<[i:=hd]> update) end.

(** for (i < i + n) { node->forward[i] = update[i]->forward[i];
    update[i]->forward[i] = node; } *)
Fixpoint link_loop (n i : nat) (node : option loc) (update : list (option loc))
    : M kvs_skiptable unit :=
  match n with
  | O => ret ()
  | S n =>
      p ← from_opt OutOfBounds (update !! i);
      q ← forward p i;
      set_forward node i q;;
      set_forward p i node;;
      link_loop n (S i) node update
  end.

Definition kvs_skiptable_set (table : engine_ptr) (key value : cstr)
    : M (kvs_skiptable * alloc) Z :=
  match table, key, value with
  | engine_inst, Some key, Some value =>
      t ← on_fst get;
      ' (cur, update) ← on_fst (descend (st_level t) (st_head t) key no_update);
      cur ← on_fst (forward cur 0);
      hit ← (if cur is Some _ then
               n ← on_fst (load cur);
               s ← read_str (sk_key n);
               ret (strcmp s key =? 0)
             else ret false);
      if hit : bool then ret 1 else
      level ← on_snd skiptable_random_level;
      let raised := (st_level t <? level)%nat in
      let update := if raised
        then raise_update (level - st_level t) (st_level t) (st_head t) update else update in
      on_fst (modify (λ t, if raised then set_level level t else t));;
      node ← skiptable_create_node (Some key) (Some value) level;
      if node is None then ret (-1) else
      on_fst (link_loop level 0 node update);;
      on_fst (modify (λ t, set_count (i32 (st_count t + 1)) t));;
      ret 0
  | _, _, _ => ret (-1)
  end.

Definition kvs_skiptable_get (table : engine_ptr) (key : cstr) : M (kvs_skiptable * alloc) charp :=
  node ← on_fst (skiptable_search_node table key);
  if node is None then ret CNull else
  n ← on_fst (load node);
  ret (sk_value n).

Definition kvs_skiptable_mod (table : engine_ptr) (key value : cstr)
    : M (kvs_skiptable * alloc) Z :=
  match table, key, value with
  | engine_inst, Some key, Some value =>
      node ← on_fst (skiptable_search_node table (Some key));
      if node is None then ret 1 else
      new_value ← on_snd (str_dup value);
      if decide (new_value = CNull) then ret (-1) else
      n ← on_fst (load node);
      on_snd (kvs_free (sk_value n));;
      on_fst (store node (set_sk_value new_value n));;
      ret 0
  | _, _, _ => ret (-1)
  end.

(** for (...; i < table->level; i++) { if (update[i]->forward[i] != cur) break;
    update[i]->forward[i] = cur->forward[i]; } *)
Fixpoint unlink_loop (n i : nat) (cur : option loc) (update : list (option loc))
    : M kvs_skiptable unit :=
  match n with
  | O => ret ()
  | S n =>
      p ← from_opt OutOfBounds (update !! i);
      q ← forward p i;
      if decide (q = cur) then
        q' ← forward cur i;
        set_forward p i q';;
        unlink_loop n (S i) cur update
      else ret ()
  end.

(** while (table->level > 1 && table->head->forward[table->level - 1] == NULL)
    table->level--; with [n] = table->level. *)
Fixpoint shrink_loop (n : nat) : M kvs_skiptable unit :=
  match n with
  | S (S _ as n') =>
      t ← get;
      q ← forward (st_head t) n';
      if q is None then modify (set_level n');; shrink_loop n' else ret ()
  | _ => ret ()
  end.

Definition kvs_skiptable_del (table : engine_ptr) (key : cstr) : M (kvs_skiptable * alloc) Z :=
  match table, key with
  | engine_inst, Some key =>
      t ← on_fst get;
      ' (cur, update) ← on_fst (descend (st_level t) (st_head t) key no_update);
      cur ← on_fst (forward cur 0);
      match cur with
      | None => ret 1
      | Some l =>
          n ← on_fst (load cur);
          s ← read_str (sk_key n);
          if negb (strcmp s key =? 0) then ret 1 else
          on_fst (unlink_loop (st_level t) 0 cur update);;
          n ← on_fst (load cur);
          on_snd (kvs_free (sk_key n));;
          on_snd (kvs_free (sk_value n));;
          on_fst (unmap l);; on_snd kvs_free_block;;
          on_fst (shrink_loop (st_level t));;
          on_fst (modify (λ t, set_count (i32 (st_count t - 1)) t));;
          ret 0
      end
  | _, _ => ret (-1)
  end.

Definition kvs_skiptable_exist (table : engine_ptr) (key : cstr) : M (kvs_skiptable * alloc) Z :=
  node ← on_fst (skiptable_search_node table key);
  if node is None then ret 1 else ret 0.

Definition skip_cost (n : skipnode) : Z := 1 + owned_str (sk_key n) + owned_str (sk_value n).
Definition skip_owned (t : kvs_skiptable) : Z := heap_cost skip_cost (st_heap t).
#[global] Arguments skip_owned : simpl never.

#[export] Instance skip_engine : KvEngine kvs_skiptable := {|
  eng_create := kvs_skiptable_create; eng_destroy := kvs_skiptable_destroy;
  eng_set := kvs_skiptable_set; eng_get := kvs_skiptable_get; eng_del := kvs_skiptable_del;
  eng_mod := kvs_skiptable_mod; eng_exist := kvs_skiptable_exist;
  eng_zero := mk_table ∅ None 0 0; eng_owned := skip_owned |}.

(** A run on concrete inputs, coin flips included. *)
Example skip_session_run :
  eng_session (E:=kvs_skiptable) [OpSet "b" "1"; OpSet "a" "2"; OpSet "c" "3"; OpGet "a"; OpDel "b"; OpGet "b"; OpMod "c" "4"; OpGet "c"]
   (eng_zero, mk_alloc [] 0 [true;false;false;true;true;false])
  = Ok ([RInt 0; RInt 0; RInt 0; RPtr (CStr "2"); RInt 0; RPtr CNull; RInt 0; RPtr (CStr "4")], (eng_zero, mk_alloc [] 0 [])).
Proof. vm_compute. reflexivity. Qed.

(** ** The shape of the list *)

#[local] Arguments Nat.ltb : simpl never.

(** A node's address, fields and height, without its forward pointers. *)
Record cell : Type := mk_cell { c_loc : loc; c_key : charp; c_val : charp; c_lvl : nat }.
Implicit Types (c : cell) (P : list cell) (nx : nat → option loc) (h : gmap loc skipnode).

(** The forward array of a node of height [lvl] whose successor at level i is
    [nx i]. *)
Definition fwds (lvl : nat) (nx : nat → option loc) : list (option loc) :=
  (λ i, if (i <? lvl)%nat then nx i else None) <$> seq 0 SKIPTABLE_MAX_LEVEL.
Definition cell_node c nx : skipnode := mk_skip (c_key c) (c_val c) (c_lvl c) (fwds (c_lvl c) nx).

(** The first node of [P] that has level i, or what follows [P] there. *)
Fixpoint next_at P nx (i : nat) : option loc :=
  match P with
  | [] => nx i
  | c :: P => if (i <? c_lvl c)%nat then Some (c_loc c) else next_at P nx i
  end.

(** The nodes of [P] are in memory, each linked at each of its levels to the
    next node of that level. *)
Fixpoint linked h P nx : Prop :=
  match P with
  | [] => True
  | c :: P => h !! c_loc c = Some (cell_node c (next_at P nx)) ∧ linked h P nx
  end.

(** The last node of [c :: P] that has level i. *)
Fixpoint pred (i : nat) c P : cell :=
  match P with
  | [] => c
  | c' :: P => if (i <? c_lvl c')%nat then pred i c' P else pred i c P
  end.

Lemma fwds_lookup lvl nx i :
  (i < SKIPTABLE_MAX_LEVEL)%nat →
  fwds lvl nx !! i = Some (if (i <? lvl)%nat then nx i else None).
Proof.
  intros. unfold fwds. rewrite list_lookup_fmap, lookup_seq_lt by done. done.
Qed.
Lemma length_fwds lvl nx : length (fwds lvl nx) = SKIPTABLE_MAX_LEVEL.
Proof. unfold fwds. by rewrite length_fmap, length_seq. Qed.
Lemma fwds_ext lvl nx nx' :
  (∀ i, (i < lvl)%nat → nx i = nx' i) → fwds lvl nx = fwds lvl nx'.
Proof.
  intros Heq. apply list_fmap_ext. intros j x _.
  destruct (Nat.ltb_spec x lvl); [by apply Heq|done].
Qed.

Lemma next_at_app P1 P2 nx i : next_at (P1 ++ P2) nx i = next_at P1 (next_at P2 nx) i.
Proof. induction P1 as [|c P1 IH]; cbn; [done|]. by rewrite IH. Qed.
Lemma next_at_ext P nx nx' i : nx i = nx' i → next_at P nx i = next_at P nx' i.
Proof. intros. induction P as [|c P IH]; cbn; [done|]. by rewrite IH. Qed.

Lemma linked_app h P1 P2 nx :
  linked h (P1 ++ P2) nx ↔ linked h P1 (next_at P2 nx) ∧ linked h P2 nx.
Proof.
  induction P1 as [|c P1 IH]; cbn; [tauto|]. rewrite IH.
  assert (cell_node c (next_at (P1 ++ P2) nx) = cell_node c (next_at P1 (next_at P2 nx))) as ->; [|tauto].
  unfold cell_node. f_equal. apply fwds_ext. intros. apply next_at_app.
Qed.
Lemma linked_ext h P nx nx' :
  (∀ i, (i < SKIPTABLE_MAX_LEVEL)%nat → nx i = nx' i) → linked h P nx → linked h P nx'.
Proof.
  intros Heq. induction P as [|c P IH]; cbn; [done|]. intros [-> HP]. split; [|auto].
  unfold cell_node, fwds. do 2 f_equal. apply list_fmap_ext. intros j x Hj.
  apply lookup_seq in Hj as [-> Hj]. destruct (_ <? _)%nat; [|done].
  by apply next_at_ext, Heq.
Qed.
(** Memory outside the nodes of [P] does not matter. *)
Lemma linked_frame h h' P nx :
  (∀ c, c ∈ P → h' !! c_loc c = h !! c_loc c) → linked h P nx → linked h' P nx.
Proof.
  intros Hh. induction P as [|c P IH]; cbn; [done|]. intros [Hc HP]. split.
  - rewrite Hh; [done|]. apply list_elem_of_here.
  - apply IH; [|done]. intros c' ?. apply Hh. by apply list_elem_of_further.
Qed.
Lemma linked_insert h P nx l n :
  l ∉ c_loc <$> P → linked h P nx → linked (<[l:=n]> h) P nx.
Proof.
  intros Hl. apply linked_frame. intros c Hc. apply lookup_insert_ne. intros ->.
  apply Hl. by apply list_elem_of_fmap_2.
Qed.
Lemma linked_delete h P nx l : l ∉ c_loc <$> P → linked h P nx → linked (delete l h) P nx.
Proof.
  intros Hl. apply linked_frame. intros c Hc. apply lookup_delete_ne. intros ->.
  apply Hl. by apply list_elem_of_fmap_2.
Qed.

Lemma pred_split i c P :
  ∃ A B, c :: P = A ++ pred i c P :: B ∧ Forall (λ b, c_lvl b ≤ i)%nat B ∧
         (A = [] ∧ pred i c P = c ∨ (i < c_lvl (pred i c P))%nat).
Proof.
  revert c. induction P as [|c' P IH]; intros c; cbn [pred].
  { exists [], []. by split_and!; [|constructor|left]. }
  destruct (Nat.ltb_spec i (c_lvl c')).
  - destruct (IH c') as (A&B&Heq&HB&HA). exists (c :: A), B. split_and!; [by cbn; f_equal|done|].
    destruct HA as [[-> Hp]|?]; [|by right]. rewrite Hp. by right.
  - destruct (IH c) as (A&B&Heq&HB&HA). destruct A as [|a A]; cbn in Heq.
    + injection Heq as Hp Heq. exists [], (c' :: B). rewrite <-Heq, <-Hp. split_and!; [done| |by left].
      constructor; [lia|by rewrite Heq].
    + injection Heq as <- Heq. exists (c :: c' :: A), B.
      split_and!; [cbn; by do 2 f_equal|done|]. destruct HA as [[? ?]|?]; [done|by right].
Qed.
Lemma pred_app i c A c' B : (i < c_lvl c')%nat → pred i c (A ++ c' :: B) = pred i c' B.
Proof.
  intros Hi. revert c. induction A as [|a A IH]; intros c; cbn [pred app].
  - destruct (Nat.ltb_spec i (c_lvl c')); [done|lia].
  - by destruct (_ <? _)%nat.
Qed.
Lemma pred_low i c P : Forall (λ b, c_lvl b ≤ i)%nat P → pred i c P = c.
Proof.
  induction 1 as [|b P Hb HP IH]; cbn; [done|]. rewrite (proj2 (Nat.ltb_ge _ _)) by done. apply IH.
Qed.
Lemma next_at_low i P nx : Forall (λ b, c_lvl b ≤ i)%nat P → next_at P nx i = nx i.
Proof.
  induction 1 as [|b P Hb HP IH]; cbn; [done|]. rewrite (proj2 (Nat.ltb_ge _ _)) by done. apply IH.
Qed.

(** ** Reading and redirecting forward pointers *)

Lemma wp_load (Q : skipnode → kvs_skiptable → Prop) t l n :
  st_heap t !! l = Some n → Q n t → wp (load (Some l)) Q t.
Proof. intros Hl HQ. unfold load. mem_step. by eapply wp_from_opt. Qed.
Lemma wp_store (Q : unit → kvs_skiptable → Prop) t l n n' :
  st_heap t !! l = Some n → Q () (set_heap (<[l:=n']> (st_heap t)) t) →
  wp (store (Some l) n') Q t.
Proof. intros Hl HQ. unfold store. mem_step. by eapply wp_load. Qed.
Lemma wp_forward (Q : option loc → kvs_skiptable → Prop) t c nx i :
  st_heap t !! c_loc c = Some (cell_node c nx) → (i < SKIPTABLE_MAX_LEVEL)%nat →
  Q (if (i <? c_lvl c)%nat then nx i else None) t → wp (forward (Some (c_loc c)) i) Q t.
Proof.
  intros Hl Hi HQ. unfold forward. mem_step. eapply wp_load; [done|].
  eapply wp_from_opt; [by apply fwds_lookup|done].
Qed.

Lemma fwds_insert lvl nx i q :
  (i < lvl)%nat → (lvl ≤ SKIPTABLE_MAX_LEVEL)%nat →
  <[i:=q]> (fwds lvl nx) = fwds lvl (upd nx i q).
Proof.
  intros Hi Hlvl. apply list_eq. intros j.
  destruct (decide (j < SKIPTABLE_MAX_LEVEL)%nat) as [Hj|Hj].
  - rewrite (fwds_lookup _ _ j) by done. destruct (decide (i = j)) as [->|Hne].
    + rewrite list_lookup_insert_eq by (by rewrite length_fwds).
      rewrite upd_eq. destruct (Nat.ltb_spec j lvl); [done|lia].
    + rewrite list_lookup_insert_ne by done. rewrite fwds_lookup by done.
      by rewrite upd_ne.
  - rewrite !lookup_ge_None_2; [done|..]; rewrite ?length_insert, length_fwds; lia.
Qed.
Lemma wp_set_forward (Q : unit → kvs_skiptable → Prop) t c nx i q :
  st_heap t !! c_loc c = Some (cell_node c nx) →
  (i < c_lvl c)%nat → (c_lvl c ≤ SKIPTABLE_MAX_LEVEL)%nat →
  Q () (set_heap (<[c_loc c:=cell_node c (upd nx i q)]> (st_heap t)) t) →
  wp (set_forward (Some (c_loc c)) i q) Q t.
Proof.
  intros Hl Hi Hlvl HQ. unfold set_forward. mem_step. eapply wp_load; [done|].
  cbn [sk_forward cell_node]. rewrite length_fwds.
  destruct (Nat.leb_spec SKIPTABLE_MAX_LEVEL i); [lia|].
  rewrite fwds_insert by done. by eapply wp_store.
Qed.

Lemma linked_low h P nx i q :
  Forall (λ b, c_lvl b ≤ i)%nat P → linked h P nx → linked h P (upd nx i q).
Proof.
  induction 1 as [|b P Hb HP IH]; cbn; [done|]. intros [-> ?]. split; [|auto].
  unfold cell_node. do 2 f_equal. apply fwds_ext. intros j Hj.
  apply next_at_ext. by rewrite upd_ne by lia.
Qed.

(** Redirecting level i of the last node that has it redirects the whole
    prefix at that level, and at no other. *)
Lemma redirect h c P nx i :
  linked h (c :: P) nx → NoDup (c_loc <$> c :: P) → (i < c_lvl (pred i c P))%nat →
  ∃ nx', h !! c_loc (pred i c P) = Some (cell_node (pred i c P) nx') ∧ nx' i = nx i ∧
    ∀ q, linked (<[c_loc (pred i c P):=cell_node (pred i c P) (upd nx' i q)]> h)
           (c :: P) (upd nx i q).
Proof.
  intros Hl Hnd Hi. destruct (pred_split i c P) as (A&B&Heq&HB&_).
  revert Hi Heq. generalize (pred i c P). intros p Hi Heq. rewrite Heq in *. clear Heq.
  rewrite fmap_app, fmap_cons in Hnd. apply NoDup_app in Hnd as (_&Hd&HndB).
  apply NoDup_cons in HndB as [HpB _].
  assert (c_loc p ∉ c_loc <$> A) as HpA.
  { intros Hin. apply (Hd _ Hin). apply list_elem_of_here. }
  rewrite linked_app in Hl. destruct Hl as (HA&Hp&HlB). exists (next_at B nx).
  split_and!; [done|by apply next_at_low|]. intros q. rewrite linked_app. cbn [linked]. split_and!.
  - apply linked_insert; [done|]. eapply linked_ext; [|done]. intros j Hj. cbn.
    destruct (decide (j = i)) as [->|].
    + destruct (Nat.ltb_spec i (c_lvl p)); [done|lia].
    + rewrite (next_at_ext B nx (upd nx i q)); [done|]. by rewrite upd_ne.
  - rewrite lookup_insert_eq. unfold cell_node. do 2 f_equal. apply fwds_ext. intros j Hj.
    destruct (decide (j = i)) as [->|].
    + by rewrite upd_eq, next_at_low, upd_eq.
    + rewrite upd_ne by done. apply next_at_ext. by rewrite upd_ne.
  - apply linked_insert; [done|]. by apply linked_low.
Qed.

(** ** The search *)

Definition key_below (key : string) c : Prop := ∃ k, c_key c = CStr k ∧ str_lt k key.
(** What follows at level i is NULL or a node whose key is not below [key]. *)
Definition stops h nx (key : string) (i : nat) : Prop :=
  match nx i with
  | None => True
  | Some l => ∃ n k, h !! l = Some n ∧ sk_key n = CStr k ∧ ¬ str_lt k key
  end.

Lemma walk_spec t key i nx nxc c P fuel :
  st_heap t !! c_loc c = Some (cell_node c nxc) → nxc i = next_at P nx i →
  linked (st_heap t) P nx → Forall (key_below key) P → stops (st_heap t) nx key i →
  (i < SKIPTABLE_MAX_LEVEL)%nat → (i < c_lvl c)%nat → (length P < fuel)%nat →
  wp (walk fuel (Some (c_loc c)) i key)
    (λ r t', t' = t ∧ r = Some (c_loc (pred i c P))) t.
Proof.
  intros Hc Hnx Hl HP Hs Hi. revert c nxc fuel Hc Hnx.
  induction P as [|c' P IH]; intros c nxc [|fuel] Hc Hnx Hlvl Hf; try (cbn in Hf; lia);
    cbn [walk length] in *.
  - apply wp_bind. eapply wp_forward; [done|done|]. rewrite (proj2 (Nat.ltb_lt _ _)) by done.
    rewrite Hnx. cbn [next_at]. unfold stops in Hs. destruct (nx i) as [l|]; [|done].
    destruct Hs as (n&k&Hn&Hk&Hlt). mem_step. eapply wp_load; [done|]. rewrite Hk. mem_step.
    apply wp_read_str. destruct (Z.ltb_spec (strcmp k key) 0) as [Hk'|]; [|done].
    by apply strcmp_lt in Hk'.
  - cbn [linked next_at pred] in *. destruct Hl as [Hc' Hl].
    apply Forall_cons in HP as [(k&Hk&Hlt) HP].
    destruct (Nat.ltb_spec i (c_lvl c')) as [Hi'|Hi'].
    + apply wp_bind. eapply wp_forward; [done|done|]. rewrite (proj2 (Nat.ltb_lt _ _)) by done.
      rewrite Hnx. mem_step. eapply wp_load; [done|]. cbn [sk_key cell_node]. rewrite Hk. mem_step.
      apply wp_read_str. rewrite (proj2 (Z.ltb_lt _ _)) by by apply strcmp_lt.
      eapply IH; eauto. lia.
    + eapply (IH Hl HP c nxc (S fuel)); eauto. lia.
Qed.

(** From the head, level after level, [update[i]] becomes the last node below
    the key that has level i, and the search ends at level 0's. *)
Fixpoint updates n (hc : cell) P (u : list (option loc)) : list (option loc) :=
  match n with
  | O => u
  | S i => updates i hc P (<[i:=Some (c_loc (pred i hc P))]> u)
  end.

Lemma descend_spec t key nx hc P n u :
  linked (st_heap t) (hc :: P) nx → Forall (key_below key) P →
  (∀ i, (i < n)%nat → stops (st_heap t) nx key i) →
  (n ≤ SKIPTABLE_MAX_LEVEL)%nat → c_lvl hc = SKIPTABLE_MAX_LEVEL →
  (length P ≤ size (st_heap t))%nat →
  wp (descend n (Some (c_loc (pred n hc P))) key u)
    (λ r t', t' = t ∧ r = (Some (c_loc (pred 0 hc P)), updates n hc P u)) t.
Proof.
  intros Hl HP Hs Hn Hlvl Hsz. revert u. induction n as [|i IH]; intros u; cbn [descend updates].
  { done. }
  mem_step. destruct (pred_split (S i) hc P) as (A&B&Heq&HB&HA).
  assert (i < c_lvl (pred (S i) hc P))%nat as Hi by (destruct HA as [[_ ->]|]; lia).
  assert (pred i hc P = pred i (pred (S i) hc P) B) as Hp.
  { destruct A as [|a A]; cbn in Heq.
    - injection Heq as Hp HPB. by rewrite <-Hp, <-HPB.
    - injection Heq as <- HPB. rewrite HPB at 1. by apply pred_app. }
  revert Heq Hp Hi. generalize (pred (S i) hc P). intros c Heq Hp Hi.
  rewrite Heq in Hl. apply linked_app in Hl as Hl'. destruct Hl' as (_&Hc&HlB).
  assert (Forall (key_below key) B) as HBk.
  { destruct A as [|a A]; cbn in Heq; injection Heq as -> ->; [done|].
    by apply Forall_app in HP as [_ [_ ?]%Forall_cons]. }
  assert (length B ≤ length P)%nat.
  { apply (f_equal length) in Heq. rewrite length_app in Heq. cbn in Heq. lia. }
  eapply wp_mono; [eapply walk_spec; eauto; try lia; apply Hs; lia|].
  intros r ? [-> ->]. rewrite <-Hp. apply IH; [|lia].
  intros; apply Hs; lia.
Qed.
Lemma length_updates n hc P u : length (updates n hc P u) = length u.
Proof. revert u. induction n as [|n IH]; intros u; cbn; [done|]. by rewrite IH, length_insert. Qed.
Lemma updates_lookup n hc P u i :
  (n ≤ length u)%nat →
  updates n hc P u !! i = if (i <? n)%nat then Some (Some (c_loc (pred i hc P))) else u !! i.
Proof.
  revert u. induction n as [|n IH]; intros u Hu; cbn [updates]; [done|].
  rewrite IH by (rewrite length_insert; lia).
  destruct (Nat.ltb_spec i n), (Nat.ltb_spec i (S n)); try lia; [done| |].
  - assert (i = n) as -> by lia. apply list_lookup_insert_eq. lia.
  - apply list_lookup_insert_ne. lia.
Qed.

(** ** The representation of a map *)

Record ent : Type := mk_ent { e_loc : loc; e_key : string; e_val : string; e_lvl : nat }.
Implicit Types (L : list ent) (e : ent).
Definition cell_of e : cell := mk_cell (e_loc e) (CStr (e_key e)) (CStr (e_val e)) (e_lvl e).
Definition head_cell (hd : loc) : cell := mk_cell hd CNull CNull SKIPTABLE_MAX_LEVEL.
Definition nil_nx : nat → option loc := λ _, None.
Definition pairs L : list (string * string) := (λ e, (e_key e, e_val e)) <$> L.

(** A table at level [lv] whose list is [L], sorted by key, in a memory that
    holds the head, the nodes of [L] and nothing else. *)
Record table_ok h (hd : loc) (lv : nat) L : Prop := {
  ok_linked : linked h (head_cell hd :: (cell_of <$> L)) nil_nx;
  ok_nodup : NoDup (c_loc <$> head_cell hd :: (cell_of <$> L));
  ok_cost : heap_cost skip_cost h = 1 + 3 * Z.of_nat (length L);
  ok_size : size h = S (length L);
  ok_sorted : StronglySorted str_lt (e_key <$> L);
  ok_level : (1 ≤ lv ≤ SKIPTABLE_MAX_LEVEL)%nat;
  ok_heights : Forall (λ e, 1 ≤ e_lvl e ≤ lv)%nat L }.

Definition table_of h hd lv L : kvs_skiptable := mk_table h (Some hd) lv (i32 (Z.of_nat (length L))).
Definition skip_repr (t : kvs_skiptable) (m : gmap string string) : Prop :=
  ∃ h hd lv L, t = table_of h hd lv L ∧ table_ok h hd lv L ∧ m = list_to_map (pairs L).

(** A sorted list splits at a key: what is below it, the key's own entry when
    there is one, what is above it. *)
Lemma sorted_split (key : string) L :
  StronglySorted str_lt (e_key <$> L) →
  ∃ L1 L2, L = L1 ++ L2 ∧ Forall (λ e, str_lt (e_key e) key) L1 ∧
    (Forall (λ e, str_lt key (e_key e)) L2 ∨
     ∃ e L3, L2 = e :: L3 ∧ e_key e = key ∧ Forall (λ e, str_lt key (e_key e)) L3).
Proof.
  induction L as [|e L IH]; cbn; intros Hs.
  { exists [], []. split_and!; [done|constructor|left; constructor]. }
  apply StronglySorted_inv in Hs as [Hs He].
  apply (Forall_fmap e_key) in He. unfold compose in He.
  destruct (str_trichotomy (e_key e) key) as [Hlt|[Heq|Hgt]].
  - destruct (IH Hs) as (L1&L2&->&H1&H2). exists (e :: L1), L2.
    split_and!; [done|by constructor|done].
  - exists [], (e :: L). split_and!; [done|constructor|]. right. exists e, L.
    subst key. split_and!; [done|done|]. exact He.
  - exists [], (e :: L). split_and!; [done|constructor|]. left. constructor; [done|].
    eapply Forall_impl; [exact He|]. intros e' ?. cbn in *. by eapply str_lt_trans.
Qed.
Lemma sorted_app_keys L1 (R : list string) :
  StronglySorted str_lt ((e_key <$> L1) ++ R) ↔
  StronglySorted str_lt (e_key <$> L1) ∧ StronglySorted str_lt R ∧
  Forall (λ e, Forall (str_lt (e_key e)) R) L1.
Proof.
  induction L1 as [|e L1 IH]; cbn.
  { split; [intros; split_and!; [constructor|done|constructor]|tauto]. }
  split.
  - intros [Hs He]%StronglySorted_inv. apply IH in Hs as (?&?&?).
    apply Forall_app in He as [??]. split_and!; [by constructor|done|by constructor].
  - intros ([? ?]%StronglySorted_inv&?&[? ?]%Forall_cons). constructor; [tauto|].
    by apply Forall_app.
Qed.
Lemma sorted_nodup L : StronglySorted str_lt (e_key <$> L) → NoDup (pairs L).*1.
Proof.
  intros Hs. unfold pairs. rewrite <-list_fmap_compose. induction L as [|e L IH]; cbn in *; [constructor|].
  apply StronglySorted_inv in Hs as [Hs He]. constructor; [|by apply IH].
  intros Hin. rewrite Forall_forall in He. by apply (str_lt_irrefl (e_key e)), He.
Qed.

Lemma pairs_app L1 L2 : pairs (L1 ++ L2) = pairs L1 ++ pairs L2.
Proof. apply fmap_app. Qed.
Lemma pairs_cons e L : pairs (e :: L) = (e_key e, e_val e) :: pairs L.
Proof. done. Qed.
Lemma pairs_below key L : Forall (λ e, str_lt (e_key e) key) L → key ∉ (pairs L).*1.
Proof.
  intros HL. unfold pairs. rewrite <-list_fmap_compose. intros (e&->&He)%list_elem_of_fmap.
  rewrite Forall_forall in HL. by apply (str_lt_irrefl (e_key e)), HL.
Qed.
Lemma pairs_above key L : Forall (λ e, str_lt key (e_key e)) L → key ∉ (pairs L).*1.
Proof.
  intros HL. unfold pairs. rewrite <-list_fmap_compose. intros (e&->&He)%list_elem_of_fmap.
  rewrite Forall_forall in HL. by apply (str_lt_irrefl (e_key e)), HL.
Qed.

(** What the search and the link loops use of a table split at a key. *)
Record split_ok h (hd : loc) (lv : nat) L1 L2 (key : string) : Prop := {
  sp_table : table_ok h hd lv (L1 ++ L2);
  sp_below : Forall (λ e, str_lt (e_key e) key) L1;
  sp_above : Forall (λ e, ¬ str_lt (e_key e) key) L2 }.

Section split.
Context h hd lv L1 L2 key (Hsp : split_ok h hd lv L1 L2 key).
Let hc := head_cell hd.
Let P := cell_of <$> L1.
Let nx := next_at (cell_of <$> L2) nil_nx.
Let t := table_of h hd lv (L1 ++ L2).

Lemma split_linked : linked h (hc :: P) nx ∧ linked h (cell_of <$> L2) nil_nx.
Proof.
  pose proof (ok_linked _ _ _ _ (sp_table _ _ _ _ _ _ Hsp)) as Hl.
  rewrite fmap_app, app_comm_cons in Hl. by apply linked_app in Hl.
Qed.
Lemma split_below : Forall (key_below key) P.
Proof.
  apply Forall_fmap. eapply Forall_impl; [apply (sp_below _ _ _ _ _ _ Hsp)|].
  intros e He. by exists (e_key e).
Qed.
Lemma split_heights : Forall (λ e, 1 ≤ e_lvl e ≤ lv)%nat L1 ∧ Forall (λ e, 1 ≤ e_lvl e ≤ lv)%nat L2.
Proof. apply Forall_app, (sp_table _ _ _ _ _ _ Hsp). Qed.
Lemma split_level : (1 ≤ lv ≤ SKIPTABLE_MAX_LEVEL)%nat.
Proof. apply (sp_table _ _ _ _ _ _ Hsp). Qed.
Lemma split_nodup : NoDup (c_loc <$> hc :: P).
Proof.
  pose proof (ok_nodup _ _ _ _ (sp_table _ _ _ _ _ _ Hsp)) as Hn.
  rewrite fmap_app, app_comm_cons, fmap_app in Hn. by apply NoDup_app in Hn as [? _].
Qed.
Lemma split_low i : (lv ≤ i)%nat → Forall (λ c, c_lvl c ≤ i)%nat P.
Proof.
  intros Hi. apply Forall_fmap. eapply Forall_impl; [apply split_heights|].
  intros e He. cbn in *. lia.
Qed.

Lemma next_stops L (HL : Forall (λ e, ¬ str_lt (e_key e) key) L) i :
  linked h (cell_of <$> L) nil_nx → stops h (next_at (cell_of <$> L) nil_nx) key i.
Proof.
  unfold stops. induction HL as [|e L He HL IH]; [done|]. cbn [fmap list_fmap next_at linked].
  intros [Hc Hl]. destruct (_ <? _)%nat; [|by apply IH]. eexists _, _. split_and!; [exact Hc|done|done].
Qed.

Lemma descend_table :
  wp (descend (st_level t) (st_head t) key no_update)
    (λ r t', t' = t ∧ r.1 = Some (c_loc (pred 0 hc P)) ∧ length r.2 = SKIPTABLE_MAX_LEVEL ∧
      ∀ i, (i < lv)%nat → r.2 !! i = Some (Some (c_loc (pred i hc P)))) t.
Proof.
  pose proof split_linked as [Hl Hl2]. pose proof split_level as Hlv.
  cbn [st_level st_head table_of t].
  assert (pred lv hc P = hc) as Hp by by apply pred_low, split_low.
  assert (Some hd = Some (c_loc (pred lv hc P))) as Hhd by by rewrite Hp.
  rewrite Hhd at 1. eapply wp_mono.
  { apply (descend_spec _ _ nx); [done|apply split_below| |lia|done|].
    - intros i _. apply next_stops; [apply (sp_above _ _ _ _ _ _ Hsp)|done].
    - change (length P ≤ size h)%nat. rewrite (ok_size _ _ _ _ (sp_table _ _ _ _ _ _ Hsp)), length_app.
      unfold P. rewrite length_fmap. lia. }
  intros [cur u] t' [-> [= -> ->]]. cbn. rewrite length_updates. split_and!; [done..|].
  intros i Hi. rewrite updates_lookup by (change (lv ≤ SKIPTABLE_MAX_LEVEL)%nat; lia). by rewrite (proj2 (Nat.ltb_lt _ _)).
Qed.

Lemma pred_has i : (i < lv)%nat → (i < c_lvl (pred i hc P) ≤ SKIPTABLE_MAX_LEVEL)%nat.
Proof.
  intros Hi. pose proof split_level. destruct (pred_split i hc P) as (A&B&Heq&_&HA). split.
  - destruct HA as [[_ ->]|]; [|done]. cbn. lia.
  - assert (Forall (λ c, c_lvl c ≤ SKIPTABLE_MAX_LEVEL)%nat (hc :: P)) as Hf.
    { constructor; [done|]. eapply Forall_impl; [apply (split_low lv); lia|].
      intros c Hc. cbn in *. lia. }
    rewrite Heq in Hf. by apply Forall_app in Hf as [_ [? _]%Forall_cons].
Qed.

(** cur->forward[0]: the first node not below the key. *)
Lemma forward_pred0 (Q : option loc → kvs_skiptable → Prop) :
  Q (e_loc <$> head L2) t → wp (forward (Some (c_loc (pred 0 hc P))) 0) Q t.
Proof.
  intros HQ. pose proof split_linked as [Hl Hl2]. pose proof split_level.
  pose proof (pred_has 0 ltac:(lia)) as [Hp _].
  destruct (redirect _ _ _ _ 0 Hl split_nodup Hp) as (nx'&Hc&Hnx&_).
  eapply wp_forward; [done|unfold SKIPTABLE_MAX_LEVEL; lia|].
  rewrite (proj2 (Nat.ltb_lt _ _)) by done. rewrite Hnx. unfold nx.
  pose proof split_heights as [_ H2]. destruct L2 as [|e L2']; [done|]. cbn in *.
  apply Forall_cons in H2 as [? _]. by rewrite (proj2 (Nat.ltb_lt _ _)) by lia.
Qed.
End split.

(** Where a key stands in a table that represents a map. *)
Lemma skip_repr_cases t m key :
  skip_repr t m →
  ∃ h hd lv L1 L2, t = table_of h hd lv (L1 ++ L2) ∧ split_ok h hd lv L1 L2 key ∧
    m = list_to_map (pairs (L1 ++ L2)) ∧
    ((m !! key = None ∧ Forall (λ e, str_lt key (e_key e)) L2) ∨
     ∃ e L3, L2 = e :: L3 ∧ e_key e = key ∧ m !! key = Some (e_val e)).
Proof.
  intros (h&hd&lv&L&->&Hok&->). destruct (sorted_split key L (ok_sorted _ _ _ _ Hok))
    as (L1&L2&->&H1&H2). exists h, hd, lv, L1, L2. split_and!; [done| |done|].
  - split; [done|done|]. destruct H2 as [H2|(e&L3&->&<-&H3)].
    + eapply Forall_impl; [exact H2|]. intros e He. by apply str_lt_asym.
    + constructor; [apply str_lt_irrefl|]. eapply Forall_impl; [exact H3|].
      intros e' He. by apply str_lt_asym.
  - destruct H2 as [H2|(e&L3&->&<-&H3)].
    + left. split; [|done]. apply assoc_absent. rewrite pairs_app, fmap_app.
      intros [?|?]%elem_of_app; [by eapply pairs_below|by eapply pairs_above].
    + right. exists e, L3. split_and!; try done. rewrite pairs_app, pairs_cons.
      apply assoc_lookup. rewrite <-pairs_cons, <-pairs_app. apply sorted_nodup, Hok.
Qed.

Lemma split_head h hd lv L1 e L3 key :
  split_ok h hd lv L1 (e :: L3) key →
  h !! e_loc e = Some (cell_node (cell_of e) (next_at (cell_of <$> L3) nil_nx)).
Proof. intros Hsp. apply (split_linked _ _ _ _ _ _ Hsp). Qed.

Lemma search_split h hd lv L1 L2 key :
  split_ok h hd lv L1 L2 key →
  wp (skiptable_search_node engine_inst (Some key))
    (λ r t', t' = table_of h hd lv (L1 ++ L2) ∧
       r = match L2 with
           | e :: _ => if decide (e_key e = key) then Some (e_loc e) else None
           | [] => None
           end) (table_of h hd lv (L1 ++ L2)).
Proof.
  intros Hsp. unfold skiptable_search_node. mem_step.
  eapply wp_mono; [by apply descend_table|]. intros [cur u] ? (->&Hcur&_&_). cbn in Hcur. subst cur.
  mem_step. apply (forward_pred0 _ _ _ _ _ _ Hsp). destruct L2 as [|e L3]; [done|].
  cbn [head fmap option_fmap option_map]. mem_step.
  eapply wp_load; [by eapply split_head|]. cbn [sk_key cell_node cell_of c_key]. mem_step.
  apply wp_read_str. destruct (decide (e_key e = key)) as [<-|Hne].
  - by rewrite strcmp_refl.
  - by rewrite strcmp_eqb_ne.
Qed.
Lemma skip_search_spec t m key :
  skip_repr t m →
  wp (skiptable_search_node engine_inst (Some key))
    (λ r t', t' = t ∧
       match m !! key with
       | None => r = None
       | Some v => ∃ l n, r = Some l ∧ st_heap t !! l = Some n ∧ sk_value n = CStr v
       end) t.
Proof.
  intros (h&hd&lv&L1&L2&->&Hsp&->&Hc)%(skip_repr_cases _ _ key).
  eapply wp_mono; [by apply search_split|]. intros r ? [-> ->]. split; [done|].
  destruct Hc as [[-> H2]|(e&L3&->&<-&->)].
  - destruct L2 as [|e L3]; [done|]. apply Forall_cons in H2 as [He _].
    apply decide_False. intros <-. by apply str_lt_irrefl in He.
  - rewrite decide_True by done. eexists _, _. split_and!; [done|by eapply split_head|done].
Qed.

Lemma skip_get_spec t a m k :
  skip_repr t m →
  wp (kvs_skiptable_get engine_inst (Some k))
    (λ r s', s' = (t, a) ∧ r = match m !! k with Some v => CStr v | None => CNull end) (t, a).
Proof.
  intros Hr. unfold kvs_skiptable_get. mem_step.
  eapply wp_mono; [by eapply skip_search_spec|]. intros r ? [-> Hm].
  destruct (m !! k) as [v|]; [|by subst r]. destruct Hm as (l&n&->&Hl&Hv). mem_step.
  by eapply wp_load.
Qed.
Lemma skip_exist_spec t a m k :
  skip_repr t m →
  wp (kvs_skiptable_exist engine_inst (Some k))
    (λ r s', s' = (t, a) ∧ (r = 0 ↔ is_Some (m !! k))) (t, a).
Proof.
  intros Hr. unfold kvs_skiptable_exist. mem_step.
  eapply wp_mono; [by eapply skip_search_spec|]. intros r ? [-> Hm].
  destruct (m !! k) as [v|].
  - destruct Hm as (l&n&->&_). mem_step. naive_solver.
  - subst r. mem_step. split; [done|]. split; [done|]. by intros [].
Qed.

(** ** MOD *)

(** Rewriting a node's fields where it stands. *)
Lemma linked_replace h P1 c c' P2 nx :
  c_loc c' = c_loc c → c_lvl c' = c_lvl c → NoDup (c_loc <$> P1 ++ c :: P2) →
  linked h (P1 ++ c :: P2) nx →
  linked (<[c_loc c:=cell_node c' (next_at P2 nx)]> h) (P1 ++ c' :: P2) nx.
Proof.
  intros Hloc Hlvl Hnd. rewrite fmap_app, fmap_cons in Hnd.
  apply NoDup_app in Hnd as (_&Hd&[Hc _]%NoDup_cons).
  assert (c_loc c ∉ c_loc <$> P1) as Hc1 by (intros Hin; apply (Hd _ Hin), list_elem_of_here).
  rewrite !linked_app. cbn [linked]. intros (H1&_&H2). split_and!.
  - apply linked_insert; [done|]. eapply linked_ext; [|done]. intros i _. cbn.
    by rewrite Hlvl, Hloc.
  - rewrite Hloc. apply lookup_insert_eq.
  - by apply linked_insert.
Qed.

Definition set_e_val (v : string) e : ent := mk_ent (e_loc e) (e_key e) v (e_lvl e).
Lemma table_ok_replace h hd lv L1 e L3 v :
  table_ok h hd lv (L1 ++ e :: L3) →
  table_ok (<[e_loc e:=cell_node (cell_of (set_e_val v e)) (next_at (cell_of <$> L3) nil_nx)]> h)
    hd lv (L1 ++ set_e_val v e :: L3).
Proof.
  intros Hok. pose proof (ok_linked _ _ _ _ Hok) as Hl. pose proof (ok_nodup _ _ _ _ Hok) as Hn.
  rewrite fmap_app, fmap_cons, app_comm_cons in Hl, Hn. pose proof Hl as Hl'.
  apply linked_app in Hl' as (_&He&_). cbn [c_loc cell_of] in He. split.
  - rewrite fmap_app, fmap_cons, app_comm_cons.
    apply (linked_replace _ _ (cell_of e) (cell_of (set_e_val v e))); done.
  - pose proof (ok_nodup _ _ _ _ Hok) as Hn'.
    rewrite !fmap_cons, !fmap_app, !fmap_cons in Hn' |- *. exact Hn'.
  - rewrite (heap_cost_same _ _ _ _ _ He) by done. rewrite (ok_cost _ _ _ _ Hok).
    rewrite !length_app. done.
  - rewrite map_size_insert_Some by by eexists. rewrite (ok_size _ _ _ _ Hok), !length_app. done.
  - pose proof (ok_sorted _ _ _ _ Hok) as Hs. by rewrite fmap_app, fmap_cons in Hs |- *.
  - apply Hok.
  - pose proof (ok_heights _ _ _ _ Hok) as Hh. by rewrite Forall_app, Forall_cons in Hh |- *.
Qed.

Lemma skip_repr_replace h hd lv L1 e L3 v :
  table_ok h hd lv (L1 ++ e :: L3) →
  skip_repr
    (set_heap (<[e_loc e:=cell_node (cell_of (set_e_val v e)) (next_at (cell_of <$> L3) nil_nx)]> h)
       (table_of h hd lv (L1 ++ e :: L3)))
    (<[e_key e:=v]> (list_to_map (pairs (L1 ++ e :: L3)))).
Proof.
  intros Hok. eexists _, hd, lv, (L1 ++ set_e_val v e :: L3). split_and!.
  - unfold set_heap, table_of. cbn. by rewrite !length_app.
  - by apply table_ok_replace.
  - rewrite !pairs_app, !pairs_cons. cbn. symmetry. apply assoc_replace.
    rewrite <-pairs_cons, <-pairs_app. apply sorted_nodup, Hok.
Qed.

Lemma skip_owned_repr h hd lv L : table_ok h hd lv L →
  skip_owned (table_of h hd lv L) = 1 + 3 * Z.of_nat (length L).
Proof. intros Hok. apply Hok. Qed.

(** MOD copies the new value before it frees the old one: without memory the
    table is untouched. *)
Lemma skip_mod_spec t a m k v :
  skip_repr t m →
  wp (kvs_skiptable_mod engine_inst (Some k) (Some v))
    (λ r s', balanced (t, a) s' ∧ (supplied a → supplied s'.2) ∧
       match m !! k with
       | None => r = 1 ∧ s' = (t, a)
       | Some _ => (r = 0 ∧ skip_repr s'.1 (<[k:=v]> m)) ∨ (r = -1 ∧ s'.1 = t ∧ ¬ supplied a)
       end) (t, a).
Proof.
  intros (h&hd&lv&L1&L2&->&Hsp&->&Hc)%(skip_repr_cases _ _ k).
  unfold kvs_skiptable_mod. mem_step.
  eapply wp_mono; [by apply search_split|]. intros r ? [-> ->].
  destruct Hc as [[-> H2]|(e&L3&->&<-&->)].
  { destruct L2 as [|e L3]; [by mem_step|]. apply Forall_cons in H2 as [He _].
    rewrite decide_False by (intros <-; by apply str_lt_irrefl in He). by mem_step. }
  rewrite decide_True by done. mem_step.
  eapply wp_mono; [apply str_dup_spec|]. intros p a' (Hp&Hlive&Hsup). case_decide as Hnull; mem_step.
  { subst p. cbn in Hlive. unfold balanced; cbn. split_and!; [lia|naive_solver|].
    right. naive_solver. }
  destruct Hp as [->|]; [|done]. eapply wp_load; [by eapply split_head|].
  cbn [sk_value cell_node cell_of c_val]. mem_step.
  eapply wp_store; [by eapply split_head|]. cbn [al_live owned_str] in *.
  pose proof (skip_repr_replace h hd lv L1 e L3 v (sp_table _ _ _ _ _ _ Hsp)) as Hrep.
  split_and!; [|naive_solver|left; split; [done|exact Hrep]].
  unfold balanced. cbn [fst snd eng_owned skip_engine al_live].
  rewrite (skip_owned_repr _ _ _ _ (sp_table _ _ _ _ _ _ Hsp)).
  unfold skip_owned. cbn [st_heap set_heap table_of].
  set (n := set_sk_value (CStr v) _).
  change n with (cell_node (cell_of (set_e_val v e)) (next_at (cell_of <$> L3) nil_nx)).
  rewrite (ok_cost _ _ _ _ (table_ok_replace _ _ _ _ _ _ v (sp_table _ _ _ _ _ _ Hsp))).
  rewrite !length_app. cbn [length]. lia.
Qed.

(** ** SET *)

(** The height is between 1 and the maximum, whatever rand() yields. *)
Lemma random_level_loop_spec n level a :
  wp (random_level_loop n level)
    (λ r a', (level ≤ r ≤ level + n)%nat ∧ al_live a' = al_live a ∧ al_plan a' = al_plan a) a.
Proof.
  revert level a. induction n as [|n IH]; intros level a; cbn [random_level_loop]; mem_step.
  - destruct a as [p z [|b r]]; cbn; split_and!; lia || done.
  - destruct a as [p z [|b r]]; cbn.
    + split_and!; lia || done.
    + destruct b; cbn; [|split_and!; lia || done].
      eapply wp_mono; [apply IH|]. intros r' a' (?&?&?). split_and!; lia || done.
Qed.
Lemma random_level_spec a :
  wp skiptable_random_level
    (λ r a', (1 ≤ r ≤ SKIPTABLE_MAX_LEVEL)%nat ∧ al_live a' = al_live a ∧ al_plan a' = al_plan a) a.
Proof. apply random_level_loop_spec. Qed.

Lemma length_raise_update n i hd u : length (raise_update n i hd u) = length u.
Proof. revert i u. induction n as [|n IH]; intros; cbn; [done|]. by rewrite IH, length_insert. Qed.
Lemma raise_update_lookup n i hd u j :
  (i + n ≤ length u)%nat →
  raise_update n i hd u !! j =
    if decide (i ≤ j < i + n)%nat then Some hd else u !! j.
Proof.
  revert i u. induction n as [|n IH]; intros i u Hu; cbn.
  { rewrite decide_False by lia. done. }
  rewrite IH by (rewrite length_insert; lia).
  destruct (decide (S i ≤ j < S i + n)%nat).
  - by rewrite decide_True by lia.
  - destruct (decide (j = i)) as [->|].
    + rewrite decide_True by lia. apply list_lookup_insert_eq. lia.
    + rewrite decide_False by lia. by apply list_lookup_insert_ne.
Qed.

Lemma skip_create_node_spec t a key value lvl :
  wp (skiptable_create_node (Some key) (Some value) lvl)
    (λ r s', al_live s'.2 = al_live a + (if r is Some _ then 3 else 0) ∧
       (supplied a → is_Some r ∧ supplied s'.2) ∧
       match r with
       | None => s'.1 = t
       | Some l => st_heap t !! l = None ∧
           s'.1 = set_heap (<[l:=mk_skip (CStr key) (CStr value) lvl
                                   (replicate SKIPTABLE_MAX_LEVEL None)]> (st_heap t)) t
       end) (t, a).
Proof.
  unfold skiptable_create_node. mem_step.
  eapply wp_mono; [apply malloc_spec|]. intros [] a1 (Hl1&Hs1); cbn [negb]; mem_step.
  2: { split_and!; [lia|naive_solver|done]. }
  eapply wp_mono; [apply str_dup_spec|]. intros p a2 ([->| ->]&Hl2&Hs2).
  2: { rewrite decide_True by (split; [by eexists|done]). mem_step. cbn in *.
       split_and!; [lia|naive_solver|done]. }
  rewrite decide_False by (by intros [_ ?]). mem_step.
  eapply wp_mono; [apply str_dup_spec|]. intros q a3 ([->| ->]&Hl3&Hs3).
  2: { rewrite decide_True by (split; [by eexists|done]). mem_step. cbn in *.
       split_and!; [lia|naive_solver|done]. }
  rewrite decide_False by (by intros [_ ?]). mem_step. cbn [owned_str] in *.
  split_and!; [lia|naive_solver|apply not_elem_of_dom, is_fresh|done].
Qed.
Lemma create_head_spec t a lvl :
  wp (skiptable_create_node None None lvl)
    (λ r s', al_live s'.2 = al_live a + (if r is Some _ then 1 else 0) ∧
       (supplied a → is_Some r ∧ supplied s'.2) ∧
       match r with
       | None => s'.1 = t
       | Some l => st_heap t !! l = None ∧
           s'.1 = set_heap (<[l:=mk_skip CNull CNull lvl
                                   (replicate SKIPTABLE_MAX_LEVEL None)]> (st_heap t)) t
       end) (t, a).
Proof.
  unfold skiptable_create_node. mem_step.
  eapply wp_mono; [apply malloc_spec|]. intros [] a1 (Hl1&Hs1); cbn [negb]; mem_step.
  2: {  split_and!; [lia|naive_solver|done]. }
  rewrite decide_False by (by intros [[? ?] _]). mem_step.
  rewrite decide_False by (by intros [[? ?] _]). mem_step.
  split_and!; [lia|naive_solver|apply not_elem_of_dom, is_fresh|done].
Qed.

(** Redirecting the prefix one level further: below level j it leads to [f],
    from j on still to [g]. *)
Definition split_nx (j : nat) (f g : nat → option loc) : nat → option loc :=
  λ i, if (i <? j)%nat then f i else g i.
Lemma split_nx_step j f g i : upd (split_nx j f g) j (f j) i = split_nx (S j) f g i.
Proof.
  unfold split_nx, upd. destruct (Nat.eqb_spec i j) as [->|].
  - by rewrite (proj2 (Nat.ltb_lt _ _)) by lia.
  - destruct (Nat.ltb_spec i j), (Nat.ltb_spec i (S j)); try done; lia.
Qed.
Lemma split_nx_at j f g : split_nx j f g j = g j.
Proof. unfold split_nx. by rewrite Nat.ltb_irrefl. Qed.

Lemma pred_in i c P : c_loc (pred i c P) ∈ c_loc <$> c :: P.
Proof. destruct (pred_split i c P) as (A&B&->&_). rewrite fmap_app, fmap_cons. set_solver. Qed.

Section redirect_step.
Context (t : kvs_skiptable) (hc : cell) P (f g : nat → option loc) (j : nat)
  (Hl : linked (st_heap t) (hc :: P) (split_nx j f g))
  (Hnd : NoDup (c_loc <$> hc :: P))
  (Hj : (j < c_lvl (pred j hc P) ≤ SKIPTABLE_MAX_LEVEL)%nat).
Let p := c_loc (pred j hc P).

Lemma wp_forward_pred (Q : option loc → kvs_skiptable → Prop) :
  Q (g j) t → wp (forward (Some p) j) Q t.
Proof.
  destruct (redirect _ _ _ _ j Hl Hnd (proj1 Hj)) as (nx'&Hc&Hnx&_). intros HQ.
  eapply wp_forward; [done|lia|]. rewrite (proj2 (Nat.ltb_lt _ _)) by lia.
  by rewrite Hnx, split_nx_at.
Qed.
Lemma wp_redirect (Q : unit → kvs_skiptable → Prop) :
  (∀ n n0, st_heap t !! p = Some n0 → skip_cost n = skip_cost n0 →
     linked (<[p:=n]> (st_heap t)) (hc :: P) (split_nx (S j) f g) →
     Q () (set_heap (<[p:=n]> (st_heap t)) t)) →
  wp (set_forward (Some p) j (f j)) Q t.
Proof.
  intros HQ. destruct (redirect _ _ _ _ j Hl Hnd (proj1 Hj)) as (nx'&Hc&Hnx&Hr).
  eapply wp_set_forward; [done|lia|lia|]. eapply HQ; [done|done|].
  eapply linked_ext; [|apply Hr]. intros i _. apply split_nx_step.
Qed.
End redirect_step.

Lemma next_at_in P i l : next_at P nil_nx i = Some l → l ∈ c_loc <$> P.
Proof.
  induction P as [|c P IH]; cbn [next_at]; [done|]. rewrite fmap_cons, elem_of_cons.
  destruct (_ <? _)%nat; [intros [= ->]; by left|auto].
Qed.

Section loops.
Context (hc : cell) P e L2 (u : list (option loc)).
Hypothesis Hnd : NoDup (c_loc <$> hc :: P).
Hypothesis Hdisj : ∀ l : loc, l ∈ c_loc <$> hc :: P → l ∉ c_loc <$> (cell_of <$> e :: L2).
Hypothesis He : e_loc e ∉ c_loc <$> (cell_of <$> L2).
Hypothesis Hlvl : (e_lvl e ≤ SKIPTABLE_MAX_LEVEL)%nat.
Let l := e_loc e.
Let g := next_at (cell_of <$> L2) nil_nx.

Lemma disj_e : l ∉ c_loc <$> hc :: P.
Proof. intros Hin. apply (Hdisj l Hin). rewrite !fmap_cons. apply list_elem_of_here. Qed.
Lemma disj_L2 k : k ∈ c_loc <$> hc :: P → k ∉ c_loc <$> (cell_of <$> L2).
Proof.
  intros Hk ?. apply (Hdisj k Hk). rewrite !fmap_cons. by apply list_elem_of_further.
Qed.

(** The heap while the new node is being threaded in: it is on the levels
    below j. *)
Record linking h (j : nat) : Prop := {
  lk_pre : linked h (hc :: P) (split_nx j (λ _, Some l) g);
  lk_new : h !! l = Some (cell_node (cell_of e) (split_nx j g nil_nx));
  lk_post : linked h (cell_of <$> L2) nil_nx }.

Lemma link_loop_spec n j t :
  (n + j = e_lvl e)%nat → linking (st_heap t) j →
  (∀ i, (i < e_lvl e)%nat → u !! i = Some (Some (c_loc (pred i hc P)))) →
  (∀ i, (i < e_lvl e)%nat → (i < c_lvl (pred i hc P) ≤ SKIPTABLE_MAX_LEVEL)%nat) →
  wp (link_loop n j (Some l) u)
    (λ _ t', ∃ h, t' = set_heap h t ∧ linking h (e_lvl e) ∧
       heap_cost skip_cost h = heap_cost skip_cost (st_heap t) ∧ size h = size (st_heap t)) t.
Proof.
  intros Hn Hi Hu Hp. revert j t Hn Hi. induction n as [|n IH]; intros j t Hn Hi; cbn [link_loop].
  { replace j with (e_lvl e) in Hi by lia. exists (st_heap t). split_and!; try done.
    by destruct t. }
  assert (j < e_lvl e)%nat as Hj by lia. destruct Hi as [Hpre Hnew Hpost].
  apply wp_bind. eapply wp_from_opt; [by apply Hu|].
  apply wp_bind. eapply wp_forward_pred; [done|done|by apply Hp|].
  apply wp_bind. eapply (wp_set_forward _ _ (cell_of e)); [done|done|done|].
  set (h1 := <[_:=_]> _). pose proof disj_e as Hl.
  assert (linked h1 (hc :: P) (split_nx j (λ _, Some l) g)) as Hpre1 by by apply linked_insert.
  apply wp_bind. eapply (wp_redirect (set_heap h1 t) _ _ (λ _, Some l)); [done|done|by apply Hp|].
  intros m m0 Hm0 Hcost Hlk. pose proof (pred_in j hc P) as Hin.
  eapply wp_mono; [apply IH; [lia|]|].
  - split; cbn [st_heap set_heap].
    + done.
    + rewrite lookup_insert_ne by (intros Heq; apply Hl; by rewrite <-Heq).
      unfold h1. rewrite lookup_insert_eq. unfold cell_node. do 2 f_equal. apply fwds_ext.
      intros. apply split_nx_step.
    + apply linked_insert; [by apply disj_L2|]. by apply linked_insert.
  - intros [] t' (h'&->&Hlk'&Hc'&Hs'). exists h'. split; [done|]. split; [done|].
    cbn [st_heap set_heap] in *. rewrite Hc', Hs'. split.
    + rewrite (heap_cost_same _ _ _ _ _ Hm0) by done. unfold h1. by eapply heap_cost_same.
    + rewrite map_size_insert_Some by by eexists. unfold h1.
      by rewrite map_size_insert_Some by by eexists.
Qed.

(** The heap while the node is being taken out: it is still on the levels from
    j on. *)
Record unlinking h (j : nat) : Prop := {
  ul_pre : linked h (hc :: P) (split_nx j g (next_at (cell_of <$> (e :: L2)) nil_nx));
  ul_old : h !! l = Some (cell_node (cell_of e) g);
  ul_post : linked h (cell_of <$> L2) nil_nx }.

Lemma split_nx_done j i : (e_lvl e ≤ j)%nat → split_nx j g (next_at (cell_of <$> (e :: L2)) nil_nx) i = g i.
Proof.
  intros Hj. unfold split_nx. destruct (Nat.ltb_spec i j); [done|].
  rewrite fmap_cons. cbn [next_at cell_of c_lvl].
  by rewrite (proj2 (Nat.ltb_ge _ _)) by lia.
Qed.

Lemma unlink_loop_spec n j t :
  (e_lvl e ≤ n + j)%nat → (n + j ≤ SKIPTABLE_MAX_LEVEL)%nat → unlinking (st_heap t) j →
  (∀ i, (i < n + j)%nat → u !! i = Some (Some (c_loc (pred i hc P)))) →
  (∀ i, (i < n + j)%nat → (i < c_lvl (pred i hc P) ≤ SKIPTABLE_MAX_LEVEL)%nat) →
  wp (unlink_loop n j (Some l) u)
    (λ _ t', ∃ h, t' = set_heap h t ∧ linked h (hc :: P) g ∧
       h !! l = Some (cell_node (cell_of e) g) ∧ linked h (cell_of <$> L2) nil_nx ∧
       heap_cost skip_cost h = heap_cost skip_cost (st_heap t) ∧ size h = size (st_heap t)) t.
Proof.
  revert j t. induction n as [|n IH]; intros j t Hn Hmax Hi Hu Hp; cbn [unlink_loop];
    destruct Hi as [Hpre Hold Hpost].
  { exists (st_heap t). split_and!; try done; [by destruct t|].
    eapply linked_ext; [|done]. intros i _. by apply split_nx_done. }
  apply wp_bind. eapply wp_from_opt; [apply Hu; lia|].
  apply wp_bind. eapply wp_forward_pred; [done|done|apply Hp; lia|].
  rewrite fmap_cons. cbn [next_at cell_of c_lvl c_loc]. destruct (Nat.ltb_spec j (e_lvl e)) as [Hj|Hj].
  - rewrite decide_True by done. pose proof disj_e as Hl.
    apply wp_bind. eapply (wp_forward _ _ (cell_of e)); [done|lia|].
    rewrite (proj2 (Nat.ltb_lt _ _)) by done.
    apply wp_bind. eapply wp_redirect; [done|done|apply Hp; lia|].
    intros m m0 Hm0 Hcost Hlk. pose proof (pred_in j hc P) as Hin.
    eapply wp_mono; [apply IH; try lia|].
    + split; [done| |apply linked_insert; [by apply disj_L2|done]]. cbn [st_heap set_heap].
      by rewrite lookup_insert_ne by (intros Heq; apply Hl; by rewrite <-Heq).
    + intros; apply Hu; lia.
    + intros; apply Hp; lia.
    + intros [] t' (h'&->&?&?&?&Hc'&Hs'). exists h'. split_and!; try done.
      * rewrite Hc'. cbn. by eapply heap_cost_same.
      * rewrite Hs'. cbn. by rewrite map_size_insert_Some by by eexists.
  - rewrite decide_False by (intros Heq; apply next_at_in in Heq; done).
    exists (st_heap t). split_and!; try done; [by destruct t|].
    eapply linked_ext; [|done]. intros i _. by apply split_nx_done.
Qed.
End loops.

Lemma linked_in h P nx l : linked h P nx → l ∈ c_loc <$> P → is_Some (h !! l).
Proof.
  induction P as [|c P IH]; cbn [linked]; [by intros _ ?%elem_of_nil|].
  rewrite fmap_cons, elem_of_cons. intros [Hc HP] [->|?]; [by eexists|auto].
Qed.
Lemma fwds_none lvl nx : (∀ i, nx i = None) → fwds lvl nx = replicate SKIPTABLE_MAX_LEVEL None.
Proof.
  intros Hnx. apply list_eq. intros i. destruct (decide (i < SKIPTABLE_MAX_LEVEL)%nat).
  - rewrite fwds_lookup, lookup_replicate_2 by done. by destruct (_ <? _)%nat; rewrite ?Hnx.
  - rewrite !lookup_ge_None_2; rewrite ?length_fwds, ?length_replicate; lia || done.
Qed.
Lemma table_nodup hd L1 L2 :
  NoDup (c_loc <$> head_cell hd :: (cell_of <$> L1 ++ L2)) ↔
  NoDup (c_loc <$> head_cell hd :: (cell_of <$> L1)) ∧
  (∀ l : loc, l ∈ c_loc <$> head_cell hd :: (cell_of <$> L1) → l ∉ c_loc <$> (cell_of <$> L2)) ∧
  NoDup (c_loc <$> (cell_of <$> L2)).
Proof. by rewrite fmap_app, app_comm_cons, fmap_app, NoDup_app. Qed.
Lemma table_linked h hd L1 L2 :
  linked h (head_cell hd :: (cell_of <$> L1 ++ L2)) nil_nx ↔
  linked h (head_cell hd :: (cell_of <$> L1)) (next_at (cell_of <$> L2) nil_nx) ∧
  linked h (cell_of <$> L2) nil_nx.
Proof. by rewrite fmap_app, app_comm_cons, linked_app. Qed.

(** Raising the level of a table leaves it well formed. *)
Lemma table_ok_raise h hd lv lv' L :
  (lv ≤ lv' ≤ SKIPTABLE_MAX_LEVEL)%nat → table_ok h hd lv L → table_ok h hd lv' L.
Proof.
  intros Hlv [???????]. split; [done..|lia|]. eapply Forall_impl; [done|]. intros e' ?. cbn in *. lia.
Qed.

(** Threading a fresh node in. *)
Lemma table_ok_insert h h' hd lv L1 e L2 :
  split_ok h hd lv L1 L2 (e_key e) → Forall (λ e', str_lt (e_key e) (e_key e')) L2 →
  h !! e_loc e = None → (1 ≤ e_lvl e ≤ lv)%nat →
  linking (head_cell hd) (cell_of <$> L1) e L2 h' (e_lvl e) →
  heap_cost skip_cost h' = 3 + heap_cost skip_cost h → size h' = S (size h) →
  table_ok h' hd lv (L1 ++ e :: L2).
Proof.
  intros [Hok Hlo _] Hhi Hl Hlvl [Hpre Hnew Hpost] Hcost Hsz. split.
  - apply table_linked. split; [|split; [|done]].
    + eapply linked_ext; [|done]. intros i _. unfold split_nx. cbn.
      by destruct (_ <? _)%nat.
    + cbn [c_loc cell_of]. rewrite Hnew. unfold cell_node. do 2 f_equal. apply fwds_ext. intros i Hi.
      unfold split_nx. by rewrite (proj2 (Nat.ltb_lt _ _)).
  - assert (e_loc e ∉ c_loc <$> head_cell hd :: (cell_of <$> L1 ++ L2)) as Hnin.
    { intros Hin. apply (linked_in _ _ _ _ (ok_linked _ _ _ _ Hok)) in Hin as [? ?]. congruence. }
    pose proof (ok_nodup _ _ _ _ Hok) as Hnd. 
    rewrite !fmap_cons, !fmap_app, ?fmap_cons in Hnin, Hnd |- *.
    change (c_loc <$> (cell_of <$> e :: L2)) with (e_loc e :: (c_loc <$> (cell_of <$> L2))).
    rewrite app_comm_cons, <-Permutation_middle. by apply NoDup_cons.
  - rewrite Hcost, (ok_cost _ _ _ _ Hok), !length_app. cbn. lia.
  - rewrite Hsz, (ok_size _ _ _ _ Hok), !length_app. cbn. lia.
  - pose proof (ok_sorted _ _ _ _ Hok) as Hs. rewrite fmap_app, fmap_cons in *.
    rewrite sorted_app_keys in *. destruct Hs as (H1&H2&H12). split_and!; [done| |].
    + constructor; [done|]. by apply (Forall_fmap e_key).
    + rewrite Forall_forall in *. intros e' He'. constructor; [by apply Hlo|by apply H12].
  - apply Hok.
  - pose proof (ok_heights _ _ _ _ Hok) as Hh. rewrite Forall_app in *. rewrite Forall_cons. tauto.
Qed.

Lemma pairs_insert L1 e L2 :
  NoDup (pairs (L1 ++ e :: L2)).*1 →
  list_to_map (pairs (L1 ++ e :: L2))
  =@{gmap string string} <[e_key e:=e_val e]> (list_to_map (pairs (L1 ++ L2))).
Proof. rewrite !pairs_app, pairs_cons. apply list_to_map_middle. Qed.
Lemma pairs_delete L1 e L2 :
  NoDup (pairs (L1 ++ e :: L2)).*1 →
  list_to_map (pairs (L1 ++ L2))
  =@{gmap string string} delete (e_key e) (list_to_map (pairs (L1 ++ e :: L2))).
Proof. rewrite !pairs_app, pairs_cons. apply assoc_remove. Qed.

(** The part of SET after the search missed: node creation and threading. *)
Lemma set_link_spec h hd lv L1 L2 k v lvl u a :
  split_ok h hd lv L1 L2 k → Forall (λ e', str_lt k (e_key e')) L2 →
  (1 ≤ lvl ≤ lv)%nat →
  (∀ i, (i < lv)%nat → u !! i = Some (Some (c_loc (pred i (head_cell hd) (cell_of <$> L1))))) →
  wp (skiptable_create_node (Some k) (Some v) lvl)
    (λ node s1, (supplied a → is_Some node ∧ supplied s1.2) ∧
       al_live s1.2 = al_live a + (if node is Some _ then 3 else 0) ∧
       match node with
       | None => s1.1 = table_of h hd lv (L1 ++ L2)
       | Some l => wp (link_loop lvl 0 node u)
           (λ _ t2, ∃ h', t2 = mk_table h' (Some hd) lv (i32 (Z.of_nat (length (L1 ++ L2)))) ∧
                     table_ok h' hd lv (L1 ++ mk_ent l k v lvl :: L2)) s1.1
       end) (table_of h hd lv (L1 ++ L2), a).
Proof.
  intros Hsp Hhi Hlvl Hu. eapply wp_mono; [apply skip_create_node_spec|].
  intros [l|] [t1 a1] (Hlive&Hsup&Ht1); cbn [fst snd] in *; [|done].
  split_and!; [done|done|]. destruct Ht1 as [Hfresh ->]. cbn [st_heap table_of] in Hfresh.
  set (e := mk_ent l k v lvl). pose proof (split_linked _ _ _ _ _ _ Hsp) as [Hlk1 Hlk2].
  pose proof (proj1 (table_nodup _ _ _) (ok_nodup _ _ _ _ (sp_table _ _ _ _ _ _ Hsp))) as (Hnd1&Hd&Hnd2).
  assert (∀ P nx, linked h P nx → l ∉ c_loc <$> P) as Hl.
  { intros P nx HP Hin. apply (linked_in _ _ _ _ HP) in Hin as [? ?]. cbn in *. congruence. }
  pose proof (split_level _ _ _ _ _ _ Hsp).
  eapply wp_mono.
  { apply (link_loop_spec (head_cell hd) (cell_of <$> L1) e L2 u Hnd1).
    - intros x Hx. rewrite !fmap_cons, not_elem_of_cons. split; [|by apply Hd].
      intros ->. by apply (Hl _ _ Hlk1).
    - by apply (Hl _ _ Hlk2).
    - unfold e; cbn [e_lvl]; lia.
    - unfold e; cbn [e_lvl]; lia.
    - split; cbn [st_heap set_heap table_of].
      + apply linked_insert; [by eapply Hl|done].
      + rewrite lookup_insert_eq. unfold cell_node. by rewrite fwds_none.
      + apply linked_insert; [by eapply Hl|done].
    - intros i Hi. unfold e in Hi; cbn [e_lvl] in Hi. apply Hu. lia.
    - intros i Hi. unfold e in Hi; cbn [e_lvl] in Hi. eapply pred_has; [done|lia]. }
  intros [] t2 (h'&->&Hlink&Hcost&Hsz). exists h'. split; [done|].
  cbn [st_heap set_heap table_of] in *.
  eapply (table_ok_insert h); [done|done|done|done|done| |].
  - rewrite Hcost, heap_cost_fresh by done.
    change (heap_cost skip_cost h + 3 = 3 + heap_cost skip_cost h). lia.
  - rewrite Hsz, map_size_insert_None by done. done.
Qed.

(** A height above the table's level raises the level and completes update[]
    with the head. *)
Lemma raise_spec h hd lv L1 L2 key lvl u :
  split_ok h hd lv L1 L2 key → (1 ≤ lvl ≤ SKIPTABLE_MAX_LEVEL)%nat →
  length u = SKIPTABLE_MAX_LEVEL →
  (∀ i, (i < lv)%nat → u !! i = Some (Some (c_loc (pred i (head_cell hd) (cell_of <$> L1))))) →
  let u' := if (lv <? lvl)%nat then raise_update (lvl - lv) lv (Some hd) u else u in
  split_ok h hd (lv `max` lvl) L1 L2 key ∧
  ∀ i, (i < lv `max` lvl)%nat → u' !! i = Some (Some (c_loc (pred i (head_cell hd) (cell_of <$> L1)))).
Proof.
  intros Hsp Hlvl Hlen Hu. pose proof (split_level _ _ _ _ _ _ Hsp). cbn zeta. split.
  { destruct Hsp as [Hok ? ?]. split; [|done|done]. eapply table_ok_raise; [|done]. lia. }
  intros i Hi. destruct (Nat.ltb_spec lv lvl); [|apply Hu; lia].
  rewrite raise_update_lookup by lia. destruct (decide _); [|apply Hu; lia].
  rewrite pred_low; [done|]. eapply split_low; [done|lia].
Qed.

Lemma skip_set_spec t a m k v :
  skip_repr t m →
  wp (kvs_skiptable_set engine_inst (Some k) (Some v))
    (λ r s', balanced (t, a) s' ∧ (supplied a → supplied s'.2) ∧
       match m !! k with
       | Some _ => r = 1 ∧ s' = (t, a)
       | None => (r = 0 ∧ skip_repr s'.1 (<[k:=v]> m)) ∨ (r = -1 ∧ skip_repr s'.1 m ∧ ¬ supplied a)
       end) (t, a).
Proof.
  intros (h&hd&lv&L1&L2&->&Hsp&->&Hc)%(skip_repr_cases _ _ k).
  unfold kvs_skiptable_set. mem_step.
  eapply wp_mono; [by apply descend_table|]. intros [cur u] ? (->&Hcur&Hlen&Hu). cbn in Hcur, Hlen, Hu.
  subst cur. mem_step. apply (forward_pred0 _ _ _ _ _ _ Hsp).
  destruct Hc as [[-> Hhi]|(e&L3&->&<-&->)].
  2: { cbn [head fmap option_fmap option_map]. mem_step. eapply wp_load; [by eapply split_head|].
       cbn [sk_key cell_node cell_of c_key]. mem_step. apply wp_read_str. rewrite strcmp_refl. mem_step.
       split_and!; done. }
  apply wp_bind, (wp_mono _ (λ hit s1, hit = false ∧ s1 = (table_of h hd lv (L1 ++ L2), a))).
  { destruct L2 as [|e L3]; [done|]. cbn [head fmap option_fmap option_map]. mem_step.
    eapply wp_load; [by eapply split_head|]. cbn [sk_key cell_node cell_of c_key]. mem_step.
    apply wp_read_str. apply Forall_cons in Hhi as [He _]. rewrite strcmp_eqb_ne; [done|].
    intros <-. by apply str_lt_irrefl in He. }
  intros ? ? [-> ->]. mem_step. eapply wp_mono; [apply random_level_spec|].
  intros lvl a1 (Hlvl&Hlive1&Hplan1). mem_step. cbn [st_level st_head table_of].
  destruct (raise_spec _ _ _ _ _ _ lvl u Hsp Hlvl Hlen Hu) as [Hsp' Hu'].
  set (t1 := if (lv <? lvl)%nat then _ else table_of _ _ _ _).
  assert (t1 = table_of h hd (lv `max` lvl) (L1 ++ L2)) as ->.
  { unfold t1, set_level, table_of. cbn. destruct (Nat.ltb_spec lv lvl); do 2 f_equal; lia. }
  eapply wp_mono; [eapply set_link_spec; eauto; lia|].
  intros [l|] [t2 a2] (Hsup&Hlive&Ht2); cbn [fst snd] in *; mem_step.
  - eapply wp_mono; [exact Ht2|]. intros [] t3 (h'&->&Hok). mem_step.
    unfold set_count. cbn [st_heap st_head st_level st_count]. rewrite i32_wrap.
    set (e := mk_ent l k v lvl) in *. assert (∀ z, z = Z.of_nat (length (L1 ++ e :: L2)) →
      mk_table h' (Some hd) (lv `max` lvl) (i32 z) = table_of h' hd (lv `max` lvl) (L1 ++ e :: L2))
      as -> by by intros z ->. 2: { rewrite !length_app; cbn [length]; lia. }
    split_and!; [|unfold supplied in *; rewrite Hplan1 in Hsup; naive_solver|left; split; [done|]].
    + unfold balanced. cbn [fst snd eng_owned skip_engine].
      rewrite (skip_owned_repr _ _ _ _ Hok), (skip_owned_repr _ _ _ _ (sp_table _ _ _ _ _ _ Hsp)).
      rewrite !length_app. cbn [length]. lia.
    + eexists _, _, _, _. split_and!; [done|done|]. symmetry. apply pairs_insert, sorted_nodup, Hok.
  - subst t2. split_and!.
    + unfold balanced. cbn [fst snd eng_owned skip_engine].
      rewrite (skip_owned_repr _ _ _ _ (sp_table _ _ _ _ _ _ Hsp)).
      rewrite (skip_owned_repr _ _ _ _ (sp_table _ _ _ _ _ _ Hsp')). lia.
    + unfold supplied in *. rewrite Hplan1 in Hsup. naive_solver.
    + right. split_and!; [done| |].
      * eexists _, _, _, _. split_and!; [done|apply Hsp'|done].
      * unfold supplied in *. rewrite Hplan1 in Hsup. intros ?. by destruct Hsup as [[? ?] _].
Qed.

(** ** DEL *)

(** Taking the unlinked node out of memory. *)
Lemma table_ok_delete h h' hd lv L1 e L2 :
  table_ok h hd lv (L1 ++ e :: L2) →
  linked h' (head_cell hd :: (cell_of <$> L1)) (next_at (cell_of <$> L2) nil_nx) →
  h' !! e_loc e = Some (cell_node (cell_of e) (next_at (cell_of <$> L2) nil_nx)) →
  linked h' (cell_of <$> L2) nil_nx →
  heap_cost skip_cost h' = heap_cost skip_cost h → size h' = size h →
  table_ok (delete (e_loc e) h') hd lv (L1 ++ L2).
Proof.
  intros Hok Hl1 He Hl2 Hcost Hsz.
  pose proof (proj1 (table_nodup _ _ _) (ok_nodup _ _ _ _ Hok)) as (Hnd1&Hd&Hnd2).
  change (NoDup (e_loc e :: (c_loc <$> (cell_of <$> L2)))) in Hnd2. apply NoDup_cons in Hnd2 as [He2 Hnd2]. split.
  - apply table_linked. split; apply linked_delete; try done.
    intros Hin. apply (Hd _ Hin). apply list_elem_of_here.
  - apply table_nodup. split_and!; [done| |done]. intros l Hl Hl'. apply (Hd l Hl).
    by apply list_elem_of_further.
  - rewrite (heap_cost_delete _ _ _ _ He), Hcost, (ok_cost _ _ _ _ Hok), !length_app.
    change (skip_cost _) with 3. cbn [length]. lia.
  - rewrite map_size_delete_Some by by eexists. rewrite Hsz, (ok_size _ _ _ _ Hok), !length_app.
    cbn [length]. lia.
  - pose proof (ok_sorted _ _ _ _ Hok) as Hs. rewrite fmap_app, fmap_cons in Hs.
    rewrite fmap_app. rewrite sorted_app_keys in Hs |- *.
    destruct Hs as (H1&[H2 _]%StronglySorted_inv&H12). split_and!; [done|done|].
    eapply Forall_impl; [exact H12|]. by intros e' [_ ?]%Forall_cons.
  - apply Hok.
  - pose proof (ok_heights _ _ _ _ Hok) as Hh. rewrite Forall_app, Forall_cons in *. tauto.
Qed.

(** Lowering the level while the head has no successor at the top level. *)
Lemma shrink_spec h hd lv L n :
  table_ok h hd lv L →
  wp (shrink_loop lv) (λ _ t, ∃ lv', t = mk_table h (Some hd) lv' n ∧ table_ok h hd lv' L)
    (mk_table h (Some hd) lv n).
Proof.
  induction lv as [|[|lv] IH]; intros Hok; cbn [shrink_loop].
  - by eexists.
  - by eexists.
  - mem_step. pose proof (ok_linked _ _ _ _ Hok) as [Hhd _]. pose proof (ok_level _ _ _ _ Hok) as Hlv.
    eapply (wp_forward _ _ (head_cell hd)); [done|lia|].
    rewrite (proj2 (Nat.ltb_lt _ _)) by (cbn; unfold SKIPTABLE_MAX_LEVEL in *; lia).
    destruct (next_at _ _ _) eqn:Hnx; mem_step; [by eexists|].
    apply IH. destruct Hok. split; [done..|lia|].
    clear -Hnx ok_heights0. induction ok_heights0 as [|e L He HL IH]; [constructor|].
    rewrite fmap_cons in Hnx. cbn [next_at cell_of c_lvl] in Hnx.
    destruct (Nat.ltb_spec (S lv) (e_lvl e)); [done|]. constructor; [lia|by apply IH].
Qed.

Lemma skip_del_spec t a m k :
  skip_repr t m →
  wp (kvs_skiptable_del engine_inst (Some k))
    (λ r s', match m !! k with
       | Some _ => r = 0 ∧ skip_repr s'.1 (delete k m) ∧ balanced (t, a) s' ∧ (supplied a → supplied s'.2)
       | None => r = 1 ∧ s' = (t, a)
       end) (t, a).
Proof.
  intros (h&hd&lv&L1&L2&->&Hsp&->&Hc)%(skip_repr_cases _ _ k).
  unfold kvs_skiptable_del. mem_step.
  eapply wp_mono; [by apply descend_table|]. intros [cur u] ? (->&Hcur&Hlen&Hu). cbn in Hcur, Hlen, Hu.
  subst cur. mem_step. apply (forward_pred0 _ _ _ _ _ _ Hsp).
  destruct Hc as [[-> Hhi]|(e&L3&->&<-&->)].
  { destruct L2 as [|e L3]; [done|]. cbn [head fmap option_fmap option_map]. mem_step.
    eapply wp_load; [by eapply split_head|]. cbn [sk_key cell_node cell_of c_key]. mem_step.
    apply wp_read_str. apply Forall_cons in Hhi as [He _]. rewrite strcmp_eqb_ne; [done|].
    intros <-. by apply str_lt_irrefl in He. }
  cbn [head fmap option_fmap option_map]. mem_step. eapply wp_load; [by eapply split_head|].
  cbn [sk_key cell_node cell_of c_key]. mem_step. apply wp_read_str. rewrite strcmp_refl. cbn [negb Z.eqb].
  mem_step. pose proof (sp_table _ _ _ _ _ _ Hsp) as Hok.
  pose proof (proj1 (table_nodup _ _ _) (ok_nodup _ _ _ _ Hok)) as (Hnd1&Hd&Hnd2).
  pose proof (split_linked _ _ _ _ _ _ Hsp) as [Hl1 Hl2]. pose proof (split_level _ _ _ _ _ _ Hsp).
  pose proof (split_heights _ _ _ _ _ _ Hsp) as [_ [? _]%Forall_cons].
  change (NoDup (e_loc e :: (c_loc <$> (cell_of <$> L3)))) in Hnd2. apply NoDup_cons in Hnd2 as [He2 _]. cbn [st_level table_of].
  eapply wp_mono.
  { eapply (unlink_loop_spec _ _ e L3); [exact Hnd1|exact Hd|exact He2|lia|lia|lia| | |].
    - split; [exact Hl1|apply Hl2|apply Hl2].
    - intros i Hi. apply Hu. lia.
    - intros i Hi. eapply pred_has; [done|lia]. }
  intros [] t2 (h'&->&Hl1'&He'&Hl2'&Hcost&Hsz). mem_step. eapply wp_load; [exact He'|].
  cbn [sk_key sk_value cell_node cell_of c_key c_val]. mem_step.
  assert (table_ok (delete (e_loc e) h') hd lv (L1 ++ L3)) as Hok'.
  { eapply table_ok_delete; [exact Hok|done..]. }
  unfold unmap. mem_step. eapply wp_mono; [exact (shrink_spec _ _ _ _ _ Hok')|].
  intros [] t3 (lv'&->&Hok''). mem_step. unfold set_count. cbn [st_heap st_head st_level st_count].
  cbn [st_count set_heap table_of]. rewrite i32_wrap_sub.
  assert (mk_table (delete (e_loc e) h') (Some hd) lv' (i32 (Z.of_nat (length (L1 ++ e :: L3)) - 1))
    = table_of (delete (e_loc e) h') hd lv' (L1 ++ L3)) as ->.
  { unfold table_of. do 2 f_equal. rewrite !length_app. cbn [length]. lia. }
  split_and!; [done| | |done].
  - eexists _, _, _, _. split_and!; [done|exact Hok''|]. symmetry. apply pairs_delete, sorted_nodup, Hok.
  - unfold balanced. cbn [fst snd eng_owned skip_engine al_live].
    rewrite (skip_owned_repr _ _ _ _ Hok), (skip_owned_repr _ _ _ _ Hok'').
    rewrite !length_app. cbn [length]. lia.
Qed.

(** ** The laws *)

Lemma skip_destroy_loop_spec L t a fuel :
  linked (st_heap t) (cell_of <$> L) nil_nx → NoDup (c_loc <$> (cell_of <$> L)) →
  Forall (λ e, 1 ≤ e_lvl e)%nat L → (length L ≤ fuel)%nat →
  wp (skip_destroy_loop fuel (e_loc <$> head L))
    (λ _ s', al_live s'.2 = al_live a - 3 * Z.of_nat (length L)) (t, a).
Proof.
  revert t a fuel. induction L as [|e L IH]; intros t a fuel Hl Hnd Hlvl Hf; cbn [head fmap option_fmap option_map].
  { destruct fuel; cbn; lia. }
  destruct fuel as [|fuel]; [cbn in Hf; lia|]. cbn [skip_destroy_loop].
  rewrite fmap_cons in Hl. destruct Hl as [He Hl]. apply Forall_cons in Hlvl as [Hle Hlvl]. cbn [c_loc cell_of] in He.
  change (NoDup (e_loc e :: (c_loc <$> (cell_of <$> L)))) in Hnd. apply NoDup_cons in Hnd as [He2 Hnd].
  mem_step. eapply (wp_forward _ _ (cell_of e)); [exact He|unfold SKIPTABLE_MAX_LEVEL; lia|].
  rewrite (proj2 (Nat.ltb_lt _ _)) by (cbn; lia). mem_step.
  eapply wp_load; [done|]. cbn [sk_key sk_value cell_node cell_of c_key c_val]. mem_step.
  unfold unmap. mem_step.
  assert (next_at (cell_of <$> L) nil_nx 0 = e_loc <$> head L) as ->.
  { destruct L as [|e' L']; [done|]. apply Forall_cons in Hlvl as [? _]. cbn.
    by rewrite (proj2 (Nat.ltb_lt _ _)) by lia. }
  eapply wp_mono; [apply IH|].
  - cbn [st_heap set_heap]. by apply linked_delete.
  - done.
  - done.
  - cbn in Hf. lia.
  - intros [] s' ->. cbn [al_live length]. lia.
Qed.
Lemma skip_law_destroy t a m :
  skip_repr t m →
  wp (kvs_skiptable_destroy engine_inst) (λ _ s', al_live s'.2 = al_live a - eng_owned t) (t, a).
Proof.
  intros (h&hd&lv&L&->&Hok&_). unfold kvs_skiptable_destroy. rewrite decide_False by done. mem_step.
  cbn [st_head table_of]. mem_step. pose proof (ok_linked _ _ _ _ Hok) as [Hhd Hl].
  eapply (wp_forward _ _ (head_cell hd)); [done|unfold SKIPTABLE_MAX_LEVEL; lia|].
  cbn [c_lvl head_cell]. change (0 <? SKIPTABLE_MAX_LEVEL)%nat with true. cbn match.
  pose proof (ok_heights _ _ _ _ Hok) as Hh.
  assert (next_at (cell_of <$> L) nil_nx 0 = e_loc <$> head L) as ->.
  { destruct L as [|e' L']; [done|]. apply Forall_cons in Hh as [? _]. cbn.
    by rewrite (proj2 (Nat.ltb_lt _ _)) by lia. }
  pose proof (ok_nodup _ _ _ _ Hok) as [_ Hnd]%NoDup_cons.
  mem_step. eapply wp_mono; [apply skip_destroy_loop_spec|].
  - done.
  - done.
  - eapply Forall_impl; [done|]. intros e He. cbn in *. lia.
  - change (length L ≤ size h)%nat. rewrite (ok_size _ _ _ _ Hok). lia.
  - intros [] s' Hlive. destruct s' as [t' a']. unfold unmap. mem_step. cbn [al_live snd] in *.
    cbn [eng_owned skip_engine]. rewrite (skip_owned_repr _ _ _ _ Hok). lia.
Qed.

(** The table right after creation. *)
Lemma head_table_ok hd :
  table_ok (<[hd:=mk_skip CNull CNull SKIPTABLE_MAX_LEVEL (replicate SKIPTABLE_MAX_LEVEL None)]> ∅) hd 1 [].
Proof.
  split.
  - split; [|done]. cbn [c_loc head_cell]. rewrite lookup_insert_eq. unfold cell_node.
    cbn [c_lvl head_cell]. by rewrite fwds_none.
  - apply NoDup_singleton.
  - rewrite heap_cost_fresh by done. by rewrite heap_cost_empty.
  - by rewrite map_size_insert_None.
  - constructor.
  - unfold SKIPTABLE_MAX_LEVEL; lia.
  - constructor.
Qed.
Lemma empty_skip_repr hd :
  skip_repr (mk_table (<[hd:=mk_skip CNull CNull SKIPTABLE_MAX_LEVEL (replicate SKIPTABLE_MAX_LEVEL None)]> ∅)
               (Some hd) 1 0) ∅.
Proof. eexists _, hd, 1%nat, []. split_and!; [done|apply head_table_ok|done]. Qed.

Lemma skip_law_create a :
  supplied a →
  wp (kvs_skiptable_create engine_inst)
    (λ r s', r = 0 ∧ skip_repr s'.1 ∅ ∧ supplied s'.2 ∧ balanced (eng_zero, a) s') (eng_zero, a).
Proof.
  intros Ha. unfold kvs_skiptable_create. rewrite decide_False by done. mem_step.
  eapply wp_mono; [apply create_head_spec|]. intros r [t a'] (Hlive&Hsup&Ht).
  destruct (Hsup Ha) as [[hd ->] Ha']. cbn [fst snd] in *. destruct Ht as [_ ->]. mem_step.
  cbn [st_heap st_level st_count set_heap eng_zero skip_engine].
  set (h := <[hd:=_]> _). pose proof (head_table_ok hd : table_ok h hd 1 []) as Hok.
  split_and!; [done| |done|].
  - exists h, hd, 1%nat, []. by split_and!.
  - unfold balanced. cbn [fst snd eng_owned skip_engine].

    pose proof (skip_owned_repr _ _ _ _ Hok) as Ho. unfold skip_owned in Ho |- *.
    cbn [st_heap set_level set_count table_of length] in Ho |- *. rewrite heap_cost_empty. lia.
Qed.

Lemma skip_law_set_new t a m k v :
  skip_repr t m → m !! k = None → True → supplied a →
  wp (kvs_skiptable_set engine_inst (Some k) (Some v))
    (λ r s', r = 0 ∧ skip_repr s'.1 (<[k:=v]> m) ∧ supplied s'.2 ∧ balanced (t, a) s') (t, a).
Proof.
  intros Hr Hm _ Ha. eapply wp_mono; [by eapply skip_set_spec|]. rewrite Hm. naive_solver.
Qed.
Lemma skip_law_set_old t a m k v :
  skip_repr t m → is_Some (m !! k) → True →
  wp (kvs_skiptable_set engine_inst (Some k) (Some v)) (λ r s', s' = (t, a) ∧ 0 < r) (t, a).
Proof.
  intros Hr [w Hw] _. eapply wp_mono; [by eapply skip_set_spec|]. rewrite Hw. naive_solver lia.
Qed.
Lemma skip_law_mod_old t a m k v :
  skip_repr t m → is_Some (m !! k) → supplied a →
  wp (kvs_skiptable_mod engine_inst (Some k) (Some v))
    (λ r s', r = 0 ∧ skip_repr s'.1 (<[k:=v]> m) ∧ supplied s'.2 ∧ balanced (t, a) s') (t, a).
Proof.
  intros Hr [w Hw] Ha. eapply wp_mono; [by eapply skip_mod_spec|]. rewrite Hw. naive_solver.
Qed.
Lemma skip_law_mod_new t a m k v :
  skip_repr t m → m !! k = None →
  wp (kvs_skiptable_mod engine_inst (Some k) (Some v)) (λ r s', s' = (t, a) ∧ 0 < r) (t, a).
Proof.
  intros Hr Hm. eapply wp_mono; [by eapply skip_mod_spec|]. rewrite Hm. naive_solver lia.
Qed.
Lemma skip_law_del_old t a m k :
  skip_repr t m → is_Some (m !! k) → supplied a →
  wp (kvs_skiptable_del engine_inst (Some k))
    (λ r s', r = 0 ∧ skip_repr s'.1 (delete k m) ∧ supplied s'.2 ∧ balanced (t, a) s') (t, a).
Proof.
  intros Hr [w Hw] Ha. eapply wp_mono; [by eapply skip_del_spec|]. rewrite Hw. naive_solver.
Qed.
Lemma skip_law_del_new t a m k :
  skip_repr t m → m !! k = None →
  wp (kvs_skiptable_del engine_inst (Some k)) (λ r s', r = 1 ∧ s' = (t, a)) (t, a).
Proof.
  intros Hr Hm. eapply wp_mono; [by eapply skip_del_spec|]. rewrite Hm. naive_solver.
Qed.

#[export] Instance skip_laws : KvLaws kvs_skiptable := {|
  eng_repr := skip_repr;
  eng_cap m := True;
  eng_missing m := 1;
  law_create := skip_law_create;
  law_get := skip_get_spec;
  law_exist := skip_exist_spec;
  law_set_new := skip_law_set_new;
  law_set_old := skip_law_set_old;
  law_mod_old := skip_law_mod_old;
  law_mod_new := skip_law_mod_new;
  law_del_old := skip_law_del_old;
  law_del_new := skip_law_del_new;
  law_destroy := skip_law_destroy |}.

#[export] Instance skip_del_code : KvDelCode kvs_skiptable.
Proof. done. Qed.
#[export] Instance skip_safe : KvSafe kvs_skiptable.
Proof.
  split; intros t a m k v Hr; (eapply wp_mono; [by eapply skip_set_spec || by eapply skip_mod_spec|]);
    intros r [t' a'] (Hb&_&Hm); (split; [|done]); destruct (m !! k); naive_solver lia.
Qed.

(** ** What the engine guarantees *)

(** C10: The skip list implements the map, whatever the coin flips: create, any
    run of SET, GET, DEL, MOD and EXIST, and destroy; every answer is the map's (GET
    the value or NULL; SET and MOD 0 when they are done and a positive code when the key
    is present or missing; EXIST 0 exactly when the key is there; DEL 0 when the key was
    there and 1 when it was not), every search ends, no step reads or frees memory it
    must not, and at the end every block taken has been given back.  (malloc succeeds.) *)
Theorem skip_session_refines a os :
  supplied a →
  wp (eng_session (E:=kvs_skiptable) os)
    (λ rs s', answers_ok (λ _, 1) ∅ os rs ∧ al_live s'.2 = al_live a)
    (mk_table ∅ None 0 0, a).
Proof.
  intros Ha. eapply wp_mono; [exact (eng_session_refines (E:=kvs_skiptable) a os Ha (roomy_always ∅ os (λ _, I)))|].
  intros rs s' [? Hl]. split; [done|]. rewrite Hl. change (eng_owned eng_zero) with 0. lia.
Qed.
Lemma skip_session_refines_witness :
  wp (eng_session (E:=kvs_skiptable) [OpSet "b" "1"; OpSet "a" "2"; OpMod "b" "3"; OpDel "a"; OpDel "a"; OpGet "b"])
    (λ rs s', rs = [RInt 0; RInt 0; RInt 0; RInt 0; RInt 1; RPtr (CStr "3")] ∧ al_live s'.2 = 0)
    (mk_table ∅ None 0 0, mk_alloc [] 0 [true; true; false; true]).
Proof.
  eapply wp_mono; [apply (skip_session_refines (mk_alloc [] 0 [true; true; false; true])
    [OpSet "b" "1"; OpSet "a" "2"; OpMod "b" "3"; OpDel "a"; OpDel "a"; OpGet "b"]); repeat constructor|].
  intros rs s' [H ?]. split; [|done]. read_answers H. reflexivity.
Defined.

(** SET and MOD keep the map when they fail: with malloc failing at any call,
    a negative return code leaves the stored map as it was, and whatever was
    allocated on the way has been freed or belongs to the table. *)
Theorem skip_failure_keeps_map t a m k v :
  skip_repr t m →
  wp (kvs_skiptable_set engine_inst (Some k) (Some v))
    (λ r s', (r < 0 → skip_repr s'.1 m) ∧
             al_live s'.2 - skip_owned s'.1 = al_live a - skip_owned t) (t, a) ∧
  wp (kvs_skiptable_mod engine_inst (Some k) (Some v))
    (λ r s', (r < 0 → skip_repr s'.1 m) ∧
             al_live s'.2 - skip_owned s'.1 = al_live a - skip_owned t) (t, a).
Proof.
  intros Hr. split; [exact (safe_set t a m k v Hr)|exact (safe_mod t a m k v Hr)].
Qed.
Lemma skip_failure_keeps_map_witness :
  let t := mk_table {[1%positive := mk_skip CNull CNull 16 (replicate 16 None)]} (Some 1%positive) 1 0 in
  let a := mk_alloc [true; true; false] 1 [true; true; false] in
  wp (kvs_skiptable_set engine_inst (Some "k") (Some "v"))
    (λ r s', (r < 0 → skip_repr s'.1 ∅) ∧
             al_live s'.2 - skip_owned s'.1 = al_live a - skip_owned t) (t, a) ∧
  wp (kvs_skiptable_mod engine_inst (Some "k") (Some "v"))
    (λ r s', (r < 0 → skip_repr s'.1 ∅) ∧
             al_live s'.2 - skip_owned s'.1 = al_live a - skip_owned t) (t, a).
Proof. apply skip_failure_keeps_map. apply empty_skip_repr. Defined.

(** The height a new node gets is between 1 and SKIPTABLE_MAX_LEVEL for
    every sequence of rand() outcomes, and drawing it touches no memory. *)
Theorem random_level_in_range a :
  wp skiptable_random_level
    (λ r a', (1 ≤ r ≤ SKIPTABLE_MAX_LEVEL)%nat ∧ al_live a' = al_live a ∧ al_plan a' = al_plan a) a.
Proof. apply random_level_spec. Qed.
