(* ===== verification/KvRbtree.v ===== *)
(** The red-black tree engine (Project1_KVstore/src/kvs_rbtree.c): nodes in a heap
    indexed by address, linked to their children and their parent, with a
    sentinel node nil for the leaves and the parent of the root. *)
From S2P Require Import Prelude KvMem KvSpec.

Definition RED : Z := 1.
Definition BLACK : Z := 2.

Record rbtree_node : Type := mk_rb {
  rb_color : Z; rb_right : option loc; rb_left : option loc; rb_parent : option loc;
  rb_key : charp; rb_value : charp }.
(** [rt_heap] is the memory the nodes live in. *)
Record rbtree : Type := mk_rbtree {
  rt_heap : gmap loc rbtree_node; rt_root : option loc; rt_nil : option loc }.

(** ** Memory *)

(** The two sides of a node; the code spells out both of each symmetric pair. *)
Inductive side : Type := Left | Right.
#[export] Instance side_eq_dec : EqDecision side.
Proof. solve_decision. Defined.
Definition other (d : side) : side := match d with Left => Right | Right => Left end.

Definition set_rb_color (c : Z) (n : rbtree_node) : rbtree_node :=
  mk_rb c (rb_right n) (rb_left n) (rb_parent n) (rb_key n) (rb_value n).
Definition rb_child (d : side) (n : rbtree_node) : option loc :=
  match d with Left => rb_left n | Right => rb_right n end.
Definition set_rb_child (d : side) (p : option loc) (n : rbtree_node) : rbtree_node :=
  match d with
  | Left => mk_rb (rb_color n) (rb_right n) p (rb_parent n) (rb_key n) (rb_value n)
  | Right => mk_rb (rb_color n) p (rb_left n) (rb_parent n) (rb_key n) (rb_value n)
  end.
Definition set_rb_parent (p : option loc) (n : rbtree_node) : rbtree_node :=
  mk_rb (rb_color n) (rb_right n) (rb_left n) p (rb_key n) (rb_value n).
Definition set_rb_key (k : charp) (n : rbtree_node) : rbtree_node :=
  mk_rb (rb_color n) (rb_right n) (rb_left n) (rb_parent n) k (rb_value n).
Definition set_rb_value (v : charp) (n : rbtree_node) : rbtree_node :=
  mk_rb (rb_color n) (rb_right n) (rb_left n) (rb_parent n) (rb_key n) v.

Definition rload (p : option loc) : M rbtree rbtree_node :=
  t ← get;
  match p with
  | None => undef NullDeref
  | Some l => from_opt DanglingDeref (rt_heap t !! l)
  end.
(** p->field, and p->field = v *)
Definition field {A} (f : rbtree_node → A) (p : option loc) : M rbtree A := n ← rload p; ret (f n).
Definition set_field (g : rbtree_node → rbtree_node) (p : option loc) : M rbtree unit :=
  n ← rload p;
  modify (λ t, if p is Some l then mk_rbtree (<[l:=g n]> (rt_heap t)) (rt_root t) (rt_nil t) else t).
Definition set_root (p : option loc) : M rbtree unit := modify (λ t, mk_rbtree (rt_heap t) p (rt_nil t)).
(** T->nil *)
Definition T_nil : M rbtree (option loc) := gets rt_nil.

(** ** Walking *)

(** while (x->d != T->nil) x = x->d; *)
Fixpoint extreme (fuel : nat) (d : side) (x : option loc) : M rbtree (option loc) :=
  match fuel with
  | O => no_fuel
  | S fuel =>
      y ← field (rb_child d) x;
      nl ← T_nil;
      if decide (y = nl) then ret x else extreme fuel d y
  end.
Definition rbtree_mini (x : option loc) : M rbtree (option loc) :=
  fuel ← gets (λ t, S (size (rt_heap t))); extreme fuel Left x.
Definition rbtree_maxi (x : option loc) : M rbtree (option loc) :=
  fuel ← gets (λ t, S (size (rt_heap t))); extreme fuel Right x.

(** while ((y != T->nil) && (x == y->right)) { x = y; y = y->parent; } *)
Fixpoint ascend (fuel : nat) (x y : option loc) : M rbtree (option loc) :=
  match fuel with
  | O => no_fuel
  | S fuel =>
      nl ← T_nil;
      if decide (y = nl) then ret y else
      r ← field rb_right y;
      if decide (x = r) then
        p ← field rb_parent y;
        ascend fuel y p
      else ret y
  end.
Definition rbtree_successor (x : option loc) : M rbtree (option loc) :=
  y ← field rb_parent x;
  r ← field rb_right x;
  nl ← T_nil;
  if decide (r = nl) then fuel ← gets (λ t, S (size (rt_heap t))); ascend fuel x y
  else r ← field rb_right x; rbtree_mini r.

(** rbtree_search *)
Fixpoint search_loop (fuel : nat) (node : option loc) (key : string) : M rbtree (option loc) :=
  match fuel with
  | O => no_fuel
  | S fuel =>
      nl ← T_nil;
      if decide (node = nl) then ret nl else
      k ← field rb_key node;
      s ← read_str k;
      if strcmp key s <? 0 then p ← field rb_left node; search_loop fuel p key
      else if 0 <? strcmp key s then p ← field rb_right node; search_loop fuel p key
      else ret node
  end.
Definition rbtree_search (key : string) : M rbtree (option loc) :=
  t ← get; search_loop (S (size (rt_heap t))) (rt_root t) key.

(** The keys and values rbtree_traversal prints, in its order. *)
Fixpoint traversal (fuel : nat) (node : option loc) : M rbtree (list (string * string)) :=
  match fuel with
  | O => no_fuel
  | S fuel =>
      nl ← T_nil;
      if decide (node = nl) then ret [] else
      l ← field rb_left node;
      before ← traversal fuel l;
      k ← field rb_key node; k ← read_str k;
      v ← field rb_value node; v ← read_str v;
      r ← field rb_right node;
      after ← traversal fuel r;
      ret (before ++ (k, v) :: after)
  end.
Definition rbtree_traversal (node : option loc) : M rbtree (list (string * string)) :=
  fuel ← gets (λ t, S (size (rt_heap t))); traversal fuel node.

(** ** Rotations *)

(** The link to [x] from its parent [p], or from T->root, becomes a link to [y]; the
    code tests the child on side [d] first. *)
Definition replace_child (d : side) (p x y : option loc) : M rbtree unit :=
  nl ← T_nil;
  if decide (p = nl) then set_root y else
  q ← field (rb_child d) p;
  if decide (x = q) then set_field (set_rb_child d y) p
  else set_field (set_rb_child (other d) y) p.

(** [rotate Left] is rbtree_left_rotate and [rotate Right], its mirror image,
    rbtree_right_rotate: the child of [x] on the other side takes its place. *)
Definition rotate (d : side) (x : option loc) : M rbtree unit :=
  y ← field (rb_child (other d)) x;
  b ← field (rb_child d) y;
  set_field (set_rb_child (other d) b) x;;
  b ← field (rb_child d) y;
  nl ← T_nil;
  (if decide (b = nl) then ret () else set_field (set_rb_parent x) b);;
  p ← field rb_parent x;
  set_field (set_rb_parent p) y;;
  p ← field rb_parent x;
  replace_child d p x y;;
  set_field (set_rb_child d x) y;;
  set_field (set_rb_parent y) x.
Definition rbtree_left_rotate : option loc → M rbtree unit := rotate Left.
Definition rbtree_right_rotate : option loc → M rbtree unit := rotate Right.

(** ** Insertion *)

(** One round of rbtree_insert_fixup when z's parent is the child of its own parent
    on side [d]; the z of the next round. *)
Definition insert_round (d : side) (z : option loc) : M rbtree (option loc) :=
  zp ← field rb_parent z;
  zpp ← field rb_parent zp;
  y ← field (rb_child (other d)) zpp;
  yc ← field rb_color y;
  if yc =? RED then
    set_field (set_rb_color BLACK) zp;;
    set_field (set_rb_color BLACK) y;;
    set_field (set_rb_color RED) zpp;;
    ret zpp
  else
    q ← field (rb_child (other d)) zp;
    z ← (if decide (z = q) then rotate d zp;; ret zp else ret z);
    zp ← field rb_parent z;
    set_field (set_rb_color BLACK) zp;;
    zpp ← field rb_parent zp;
    set_field (set_rb_color RED) zpp;;
    rotate (other d) zpp;;
    ret z.
Fixpoint insert_fixup_loop (fuel : nat) (z : option loc) : M rbtree unit :=
  match fuel with
  | O => no_fuel
  | S fuel =>
      zp ← field rb_parent z;
      c ← field rb_color zp;
      if c =? RED then
        zpp ← field rb_parent zp;
        q ← field rb_left zpp;
        z ← (if decide (zp = q) then insert_round Left z else insert_round Right z);
        insert_fixup_loop fuel z
      else ret ()
  end.
Definition rbtree_insert_fixup (z : option loc) : M rbtree unit :=
  fuel ← gets (λ t, S (size (rt_heap t)));
  insert_fixup_loop fuel z;;
  t ← get;
  set_field (set_rb_color BLACK) (rt_root t).

(** The descent of rbtree_insert from [x] below [y]: the last node, or [None] when
    the key is there already. *)
Fixpoint insert_loop (fuel : nat) (key : string) (y x : option loc) : M rbtree (option (option loc)) :=
  match fuel with
  | O => no_fuel
  | S fuel =>
      nl ← T_nil;
      if decide (x = nl) then ret (Some y) else
      k ← field rb_key x;
      s ← read_str k;
      if strcmp key s <? 0 then p ← field rb_left x; insert_loop fuel key x p
      else if 0 <? strcmp key s then p ← field rb_right x; insert_loop fuel key x p
      else ret None
  end.
Definition rbtree_insert (z : option loc) : M rbtree unit :=
  t ← get;
  k ← field rb_key z;
  key ← read_str k;
  y ← insert_loop (S (size (rt_heap t))) key (rt_nil t) (rt_root t);
  match y with
  | None => ret ()
  | Some y =>
      set_field (set_rb_parent y) z;;
      (if decide (y = rt_nil t) then set_root z else
         k ← field rb_key y;
         s ← read_str k;
         if strcmp key s <? 0 then set_field (set_rb_child Left z) y
         else set_field (set_rb_child Right z) y);;
      set_field (set_rb_child Left (rt_nil t)) z;;
      set_field (set_rb_child Right (rt_nil t)) z;;
      set_field (set_rb_color RED) z;;
      rbtree_insert_fixup z
  end.

(** ** Deletion *)

(** The rest of a round once the sibling [w] of x is black; the x of the next round. *)
Definition delete_black (d : side) (x w : option loc) : M rbtree (option loc) :=
  wl ← field rb_left w;
  lc ← field rb_color wl;
  wr ← field rb_right w;
  rc ← field rb_color wr;
  if (lc =? BLACK) && (rc =? BLACK) then
    set_field (set_rb_color RED) w;;
    field rb_parent x
  else
    far ← field (rb_child (other d)) w;
    fc ← field rb_color far;
    w ← (if fc =? BLACK then
           near ← field (rb_child d) w;
           set_field (set_rb_color BLACK) near;;
           set_field (set_rb_color RED) w;;
           rotate (other d) w;;
           xp ← field rb_parent x;
           field (rb_child (other d)) xp
         else ret w);
    xp ← field rb_parent x;
    c ← field rb_color xp;
    set_field (set_rb_color c) w;;
    xp ← field rb_parent x;
    set_field (set_rb_color BLACK) xp;;
    far ← field (rb_child (other d)) w;
    set_field (set_rb_color BLACK) far;;
    xp ← field rb_parent x;
    rotate d xp;;
    gets rt_root.
(** One round of rbtree_delete_fixup when x is the child of its parent on side [d]. *)
Definition delete_round (d : side) (x : option loc) : M rbtree (option loc) :=
  xp ← field rb_parent x;
  w ← field (rb_child (other d)) xp;
  wc ← field rb_color w;
  w ← (if wc =? RED then
         set_field (set_rb_color BLACK) w;;
         xp ← field rb_parent x;
         set_field (set_rb_color RED) xp;;
         xp ← field rb_parent x;
         rotate d xp;;
         xp ← field rb_parent x;
         field (rb_child (other d)) xp
       else ret w);
  delete_black d x w.
Fixpoint delete_fixup_loop (fuel : nat) (x : option loc) : M rbtree (option loc) :=
  match fuel with
  | O => no_fuel
  | S fuel =>
      t ← get;
      if decide (x = rt_root t) then ret x else
      c ← field rb_color x;
      if c =? BLACK then
        xp ← field rb_parent x;
        q ← field rb_left xp;
        x ← (if decide (x = q) then delete_round Left x else delete_round Right x);
        delete_fixup_loop fuel x
      else ret x
  end.
Definition rbtree_delete_fixup (x : option loc) : M rbtree unit :=
  fuel ← gets (λ t, S (S (size (rt_heap t))));
  x ← delete_fixup_loop fuel x;
  set_field (set_rb_color BLACK) x.

(** if (y != z): the two nodes exchange key and value. *)
Definition swap_entries (z y : option loc) : M rbtree unit :=
  if decide (y = z) then ret () else
  zk ← field rb_key z;
  yk ← field rb_key y;
  set_field (set_rb_key yk) z;;
  set_field (set_rb_key zk) y;;
  zv ← field rb_value z;
  yv ← field rb_value y;
  set_field (set_rb_value yv) z;;
  set_field (set_rb_value zv) y.
Definition rbtree_delete (z : option loc) : M rbtree (option loc) :=
  nl ← T_nil;
  l ← field rb_left z;
  r ← field rb_right z;
  y ← (if decide (l = nl ∨ r = nl) then ret z else rbtree_successor z);
  l ← field rb_left y;
  r ← field rb_right y;
  let x := if decide (l = nl) then r else l in
  p ← field rb_parent y;
  set_field (set_rb_parent p) x;;
  p ← field rb_parent y;
  replace_child Left p y x;;
  swap_entries z y;;
  c ← field rb_color y;
  (if c =? BLACK then rbtree_delete_fixup x else ret ());;
  ret y.

(** ** The engine *)

Definition kvs_rbtree_create (inst : engine_ptr) : M (rbtree * alloc) Z :=
  if decide (inst = engine_null) then ret 1 else
  ok ← on_snd (kvs_malloc 48);
  if negb ok then on_fst (modify (λ t, mk_rbtree (rt_heap t) (rt_root t) None));; ret (-1) else
  h ← on_fst (gets rt_heap);
  let l := fresh (dom h) in
  on_fst (modify (λ t, mk_rbtree (<[l:=mk_rb BLACK (Some l) (Some l) (Some l) CNull CNull]> h) (Some l) (Some l)));;
  ret 0.

(** kvs_free(cur->key); kvs_free(cur->value); kvs_free(cur); *)
Definition free_node (cur : option loc) : M (rbtree * alloc) unit :=
  k ← on_fst (field rb_key cur);
  on_snd (kvs_free k);;
  v ← on_fst (field rb_value cur);
  on_snd (kvs_free v);;
  on_fst (modify (λ t, if cur is Some l then mk_rbtree (delete l (rt_heap t)) (rt_root t) (rt_nil t) else t));;
  on_snd kvs_free_block.

Fixpoint destroy_loop (fuel : nat) : M (rbtree * alloc) unit :=
  t ← on_fst get;
  if decide (rt_root t = rt_nil t) then ret () else
  match fuel with
  | O => no_fuel
  | S fuel =>
      mini ← on_fst (rbtree_mini (rt_root t));
      cur ← on_fst (rbtree_delete mini);
      free_node cur;;
      destroy_loop fuel
  end.
Definition kvs_rbtree_destroy (inst : engine_ptr) : M (rbtree * alloc) unit :=
  if decide (inst = engine_null) then ret () else
  t ← on_fst get;
  match rt_nil t with
  | None => ret ()
  | Some _ =>
      destroy_loop (size (rt_heap t));;
      on_fst (modify (λ t, mk_rbtree (if rt_nil t is Some l then delete l (rt_heap t) else rt_heap t) None None));;
      on_snd kvs_free_block
  end.

Definition kvs_rbtree_set (inst : engine_ptr) (key value : cstr) : M (rbtree * alloc) Z :=
  match inst, key, value with
  | engine_inst, Some key, Some value =>
      found ← on_fst (rbtree_search key);
      nl ← on_fst T_nil;
      if negb (bool_decide (found = nl)) then ret 1 else
      ok ← on_snd (kvs_malloc 48);
      if negb ok then ret (-2) else
      k ← on_snd (str_dup key);
      if decide (k = CNull) then on_snd kvs_free_block;; ret (-2) else
      v ← on_snd (str_dup value);
      if decide (v = CNull) then on_snd (kvs_free k);; on_snd kvs_free_block;; ret (-2) else
      h ← on_fst (gets rt_heap);
      let l := fresh (dom h) in
      on_fst (modify (λ t, mk_rbtree (<[l:=mk_rb 0 None None None k v]> h) (rt_root t) (rt_nil t)));;
      on_fst (rbtree_insert (Some l));;
      ret 0
  | _, _, _ => ret (-1)
  end.

Definition kvs_rbtree_get (inst : engine_ptr) (key : cstr) : M (rbtree * alloc) charp :=
  match inst, key with
  | engine_inst, Some key =>
      node ← on_fst (rbtree_search key);
      nl ← on_fst T_nil;
      if decide (node = None ∨ node = nl) then ret CNull else on_fst (field rb_value node)
  | _, _ => ret CNull
  end.

Definition kvs_rbtree_del (inst : engine_ptr) (key : cstr) : M (rbtree * alloc) Z :=
  match inst, key with
  | engine_inst, Some key =>
      node ← on_fst (rbtree_search key);
      nl ← on_fst T_nil;
      if decide (node = None ∨ node = nl) then ret 1 else
      cur ← on_fst (rbtree_delete node);
      free_node cur;;
      ret 0
  | _, _ => ret (-1)
  end.

Definition kvs_rbtree_mod (inst : engine_ptr) (key value : cstr) : M (rbtree * alloc) Z :=
  match inst, key, value with
  | engine_inst, Some key, Some value =>
      node ← on_fst (rbtree_search key);
      nl ← on_fst T_nil;
      if decide (node = None ∨ node = nl) then ret 1 else
      old ← on_fst (field rb_value node);
      on_snd (kvs_free old);;
      v ← on_snd (str_dup value);
      on_fst (set_field (set_rb_value v) node);;
      if decide (v = CNull) then ret (-2) else ret 0
  | _, _, _ => ret (-1)
  end.

Definition kvs_rbtree_exist (inst : engine_ptr) (key : cstr) : M (rbtree * alloc) Z :=
  match inst, key with
  | engine_inst, Some key =>
      node ← on_fst (rbtree_search key);
      nl ← on_fst T_nil;
      if decide (node = None ∨ node = nl) then ret 1 else ret 0
  | _, _ => ret (-1)
  end.

Definition rb_cost (n : rbtree_node) : Z := 1 + owned_str (rb_key n) + owned_str (rb_value n).
Definition rb_owned (t : rbtree) : Z := heap_cost rb_cost (rt_heap t).
#[global] Arguments rb_owned : simpl never.

#[export] Instance rb_engine : KvEngine rbtree := {|
  eng_create := kvs_rbtree_create; eng_destroy := kvs_rbtree_destroy;
  eng_set := kvs_rbtree_set; eng_get := kvs_rbtree_get; eng_del := kvs_rbtree_del;
  eng_mod := kvs_rbtree_mod; eng_exist := kvs_rbtree_exist;
  eng_zero := mk_rbtree ∅ None None; eng_owned := rb_owned |}.

(** A run on concrete inputs with rotations on both sides. *)
Definition rb_keys : list string := ["m"; "f"; "t"; "c"; "h"; "p"; "w"; "a"; "d"; "g"; "b"; "e"; "i"; "j"; "k"].
Example rb_session_run :
  eng_session (E:=rbtree) (((λ k, OpSet k k) <$> rb_keys) ++ ((λ k, OpDel k) <$> ["m"; "a"; "t"; "w"; "p"; "zz"; "h"; "f"]) ++ [OpGet "k"; OpGet "m"])
   (eng_zero, mk_alloc [] 0 [])
  = Ok (((λ _, RInt 0) <$> rb_keys) ++ [RInt 0; RInt 0; RInt 0; RInt 0; RInt 0; RInt 1; RInt 0; RInt 0; RPtr (CStr "k"); RPtr CNull], (eng_zero, mk_alloc [] 0 [])).
Proof. vm_compute. reflexivity. Qed.
