(* ===== verification/KvRbShape.v ===== *)
(** The red-black tree engine: how a heap represents a tree, and what reading,
    colouring and rotating do to the tree. *)
From S2P Require Import Prelude KvMem KvSpec KvRbtree.

(** ** Trees *)

(** Colour, address, key, value, left and right subtree of a node. *)
Inductive tree : Type :=
| Leaf
| Node (c : Z) (l : loc) (k v : string) (a b : tree).

Fixpoint locs (t : tree) : list loc :=
  match t with Leaf => [] | Node _ l _ _ a b => l :: locs a ++ locs b end.
Fixpoint inorder (t : tree) : list (string * string) :=
  match t with Leaf => [] | Node _ _ k v a b => inorder a ++ (k, v) :: inorder b end.
Definition color_of (t : tree) : Z := match t with Leaf => BLACK | Node c _ _ _ _ _ => c end.

(** The node with [a] on side [d] and [b] on the other. *)
Definition dnode (d : side) (c : Z) (l : loc) (k v : string) (a b : tree) : tree :=
  match d with Left => Node c l k v a b | Right => Node c l k v b a end.

(** A node above the focus, the focus being its child on side [f_side]. *)
Record frame : Type := mk_frame {
  f_side : side; f_color : Z; f_loc : loc; f_key : string; f_value : string; f_sib : tree }.
Definition plug1 (f : frame) (t : tree) : tree :=
  dnode (f_side f) (f_color f) (f_loc f) (f_key f) (f_value f) t (f_sib f).
(** The tree with [t] in the focus, the frames from the focus up to the root. *)
Fixpoint plug (fs : list frame) (t : tree) : tree :=
  match fs with [] => t | f :: fs => plug fs (plug1 f t) end.
Fixpoint flocs (fs : list frame) : list loc :=
  match fs with [] => [] | f :: fs => f_loc f :: locs (f_sib f) ++ flocs fs end.

Lemma locs_dnode d c l k v a b : locs (dnode d c l k v a b) ≡ₚ l :: locs a ++ locs b.
Proof. destruct d; cbn; solve_Permutation. Qed.
Lemma locs_plug fs t : locs (plug fs t) ≡ₚ flocs fs ++ locs t.
Proof.
  revert t. induction fs as [|f fs IH]; intros t; cbn [plug flocs]; [done|]. rewrite IH. unfold plug1.
  rewrite locs_dnode. cbn. solve_Permutation.
Qed.
Lemma dnode_other d c l k v a b : dnode (other d) c l k v a b = dnode d c l k v b a.
Proof. by destruct d. Qed.
Lemma plug_app fs gs t : plug (fs ++ gs) t = plug gs (plug fs t).
Proof. revert t. induction fs as [|f fs IH]; intros t; cbn; [done|]. apply IH. Qed.

Lemma length_flocs fs : (length fs ≤ length (flocs fs))%nat.
Proof. induction fs as [|f fs IH]; cbn; [lia|]. rewrite length_app. lia. Qed.
Lemma plug_ne_leaf fs t : t ≠ Leaf → plug fs t ≠ Leaf.
Proof. revert t. induction fs as [|f fs IH]; intros t Ht; cbn; [done|]. apply IH. unfold plug1. by destruct (f_side f). Qed.

(** ** Representation *)

Section shape.
Context (n : loc).
Abbreviation nl := (Some n).
Implicit Types (h X : gmap loc rbtree_node) (p q : option loc).

Definition ptr (t : tree) : option loc := match t with Leaf => nl | Node _ l _ _ _ _ => Some l end.
(** The node record with [a] on side [d] and [b] on the other. *)
Definition dn (d : side) (c : Z) (a b p : option loc) (k v : string) : rbtree_node :=
  match d with Left => mk_rb c b a p (CStr k) (CStr v) | Right => mk_rb c a b p (CStr k) (CStr v) end.
Fixpoint tr h p (t : tree) : Prop :=
  match t with
  | Leaf => True
  | Node c l k v a b =>
      h !! l = Some (mk_rb c (ptr b) (ptr a) p (CStr k) (CStr v)) ∧ tr h (Some l) a ∧ tr h (Some l) b
  end.
Definition par (fs : list frame) : option loc := match fs with [] => nl | f :: _ => Some (f_loc f) end.
(** The nodes above the focus, whose link into it is [q]. *)
Fixpoint cx h (fs : list frame) q : Prop :=
  match fs with
  | [] => True
  | f :: fs =>
      h !! f_loc f = Some (dn (f_side f) (f_color f) q (ptr (f_sib f)) (par fs) (f_key f) (f_value f)) ∧
      tr h (Some (f_loc f)) (f_sib f) ∧ cx h fs (Some (f_loc f))
  end.
Fixpoint rootp (fs : list frame) q : option loc :=
  match fs with [] => q | f :: fs => rootp fs (Some (f_loc f)) end.

(** The state [s] holds the tree [t]; [X] is the rest of its heap, the sentinel
    included. *)
Record rep (s : rbtree) X (t : tree) : Prop := {
  rep_tr : tr (rt_heap s) nl t;
  rep_root : rt_root s = ptr t;
  rep_nil : rt_nil s = nl;
  rep_nodup : NoDup (locs t);
  rep_out : ∀ l, l ∈ locs t → X !! l = None;
  rep_rest : ∀ l, l ∉ locs t → rt_heap s !! l = X !! l;
}.
(** The sentinel: black, and never the address of a node. *)
Definition has_nil X : Prop := ∃ p, X !! n = Some (mk_rb BLACK nl nl p CNull CNull).

Lemma ptr_dnode d c l k v a b : ptr (dnode d c l k v a b) = Some l.
Proof. by destruct d. Qed.
Lemma ptr_plug fs t : ptr (plug fs t) = rootp fs (ptr t).
Proof.
  revert t. induction fs as [|f fs IH]; intros t; cbn; [done|]. rewrite IH. unfold plug1. by rewrite ptr_dnode.
Qed.
Lemma tr_dnode h p d c l k v a b :
  tr h p (dnode d c l k v a b) ↔
  h !! l = Some (dn d c (ptr a) (ptr b) p k v) ∧ tr h (Some l) a ∧ tr h (Some l) b.
Proof. destruct d; cbn; tauto. Qed.
Lemma tr_plug h fs t : tr h nl (plug fs t) ↔ cx h fs (ptr t) ∧ tr h (par fs) t.
Proof.
  revert t. induction fs as [|f fs IH]; intros t; cbn [plug cx par]; [tauto|].
  rewrite IH. unfold plug1. rewrite ptr_dnode, tr_dnode. tauto.
Qed.

Lemma tr_frame h h' p t : (∀ l, l ∈ locs t → h' !! l = h !! l) → tr h p t → tr h' p t.
Proof.
  revert p. induction t as [|c l k v a IHa b IHb]; intros p Hl; cbn; [done|]. intros (Hn&Ha&Hb).
  split; [rewrite Hl; [done|left]|]. split; [apply IHa|apply IHb]; try done; intros l' Hl'; apply Hl; cbn;
    right; apply elem_of_app; auto.
Qed.
Lemma cx_frame h h' fs q : (∀ l, l ∈ flocs fs → h' !! l = h !! l) → cx h fs q → cx h' fs q.
Proof.
  revert q. induction fs as [|f fs IH]; intros q Hl; cbn; [done|]. intros (Hn&Hs&Hc).
  split; [rewrite Hl; [done|left]|]. split.
  - eapply tr_frame; [|done]. intros l Hin. apply Hl. cbn. right. apply elem_of_app. auto.
  - apply IH; [|done]. intros l Hin. apply Hl. cbn. right. apply elem_of_app. auto.
Qed.
(** Giving the root of a subtree another parent. *)
Lemma tr_reparent h h' p p' t :
  NoDup (locs t) → tr h p t →
  (∀ l, l ∈ locs t → h' !! l = if decide (Some l = ptr t) then set_rb_parent p' <$> h !! l else h !! l) →
  tr h' p' t.
Proof.
  destruct t as [|c l k v a b]; [done|]. cbn. intros [Hnin Hnd]%NoDup_cons (Hn&Ha&Hb) Hl.
  split; [rewrite Hl by left; rewrite decide_True, Hn by done; done|].
  split; (eapply tr_frame; [|done]); intros l' Hl'; rewrite Hl by (right; apply elem_of_app; auto);
    (rewrite decide_False; [done|]); intros [= ->]; apply Hnin; apply elem_of_app; auto.
Qed.

Lemma rb_child_dn d c a b p k v : rb_child d (dn d c a b p k v) = a.
Proof. by destruct d. Qed.
Lemma rb_child_other_dn d c a b p k v : rb_child (other d) (dn d c a b p k v) = b.
Proof. by destruct d. Qed.
Lemma set_child_dn d c a b p k v q : set_rb_child d q (dn d c a b p k v) = dn d c q b p k v.
Proof. by destruct d. Qed.
Lemma set_child_other_dn d c a b p k v q : set_rb_child (other d) q (dn d c a b p k v) = dn d c a q p k v.
Proof. by destruct d. Qed.
Lemma set_parent_dn d c a b p k v q : set_rb_parent q (dn d c a b p k v) = dn d c a b q k v.
Proof. by destruct d. Qed.
Lemma set_color_dn d c a b p k v c' : set_rb_color c' (dn d c a b p k v) = dn d c' a b p k v.
Proof. by destruct d. Qed.
Lemma parent_dn d c a b p k v : rb_parent (dn d c a b p k v) = p.
Proof. by destruct d. Qed.
Lemma color_dn d c a b p k v : rb_color (dn d c a b p k v) = c.
Proof. by destruct d. Qed.

(** ** Single statements *)

Definition with_heap (h : gmap loc rbtree_node) (s : rbtree) : rbtree := mk_rbtree h (rt_root s) (rt_nil s).
Lemma wp_field {A} (f : rbtree_node → A) l x s (Q : A → rbtree → Prop) :
  rt_heap s !! l = Some x → Q (f x) s → wp (field f (Some l)) Q s.
Proof. intros Hl HQ. unfold field, rload. wp_step. unfold from_opt. rewrite Hl. wp_step. done. Qed.
Lemma wp_set_field g l x s (Q : unit → rbtree → Prop) :
  rt_heap s !! l = Some x → Q () (with_heap (<[l:=g x]> (rt_heap s)) s) → wp (set_field g (Some l)) Q s.
Proof. intros Hl HQ. unfold set_field, rload. wp_step. unfold from_opt. rewrite Hl. wp_step. done. Qed.

(** ** The represented tree *)

Lemma rep_split s X fs t :
  rep s X (plug fs t) → cx (rt_heap s) fs (ptr t) ∧ tr (rt_heap s) (par fs) t ∧ NoDup (flocs fs ++ locs t).
Proof. intros [Ht _ _ Hnd _ _]. apply tr_plug in Ht as [? ?]. split_and!; try done. by rewrite <-locs_plug. Qed.

(** Rebuilding the representation after changes around the focus. *)
Lemma rep_update s s' X fs t t' :
  rep s X (plug fs t) → cx (rt_heap s') fs (ptr t') → tr (rt_heap s') (par fs) t' →
  rt_root s' = rootp fs (ptr t') → rt_nil s' = rt_nil s → locs t' ≡ₚ locs t →
  (∀ l, l ∉ flocs fs → l ∉ locs t → rt_heap s' !! l = rt_heap s !! l) →
  rep s' X (plug fs t').
Proof.
  intros [Ht Hr Hn Hnd Hout Hrest] Hc Ht' Hr' Hn' Hp Hl.
  assert (Hpp : locs (plug fs t') ≡ₚ locs (plug fs t)) by by rewrite !locs_plug, Hp.
  constructor.
  - by apply tr_plug.
  - by rewrite ptr_plug.
  - congruence.
  - by rewrite Hpp.
  - intros l. rewrite Hpp. apply Hout.
  - intros l. rewrite Hpp. intros Hin. rewrite <-Hrest by done.
    rewrite locs_plug, elem_of_app in Hin. apply Hl; tauto.
Qed.

Lemma rep_lookup s X fs d c l k v a b :
  rep s X (plug fs (dnode d c l k v a b)) →
  rt_heap s !! l = Some (dn d c (ptr a) (ptr b) (par fs) k v).
Proof. intros (_&Ht&_)%rep_split. by apply tr_dnode in Ht as [? _]. Qed.
Lemma rep_lookup_frame s X f fs t :
  rep s X (plug (f :: fs) t) →
  rt_heap s !! f_loc f = Some (dn (f_side f) (f_color f) (ptr t) (ptr (f_sib f)) (par fs) (f_key f) (f_value f)).
Proof. apply rep_lookup. Qed.
Lemma rep_lookup_nil s X t : has_nil X → rep s X t → ∃ p, rt_heap s !! n = Some (mk_rb BLACK nl nl p CNull CNull).
Proof.
  intros [p Hp] [_ _ _ _ Hout Hrest]. exists p. rewrite Hrest; [done|]. intros Hin. by rewrite (Hout n) in Hp.
Qed.
Lemma rep_ne_nil s X fs t l : has_nil X → rep s X (plug fs t) → l ∈ flocs fs ++ locs t → Some l ≠ nl.
Proof.
  intros [p Hp] [_ _ _ _ Hout _] Hin [= ->]. rewrite (Hout n) in Hp; [done|]. by rewrite locs_plug.
Qed.

(** The nodes and the sentinel are all in the heap. *)
Lemma tr_lookup h p t l : tr h p t → l ∈ locs t → is_Some (h !! l).
Proof.
  revert p. induction t as [|c l' k v a IHa b IHb]; intros p; cbn; [by intros _ ?%not_elem_of_nil|].
  intros (Hl&Ha&Hb) [->|[Hin|Hin]%elem_of_app]%elem_of_cons; eauto.
Qed.
Lemma rep_size s X t : has_nil X → rep s X t → (length (locs t) < size (rt_heap s))%nat.
Proof.
  intros HX Hr. destruct (rep_lookup_nil s X t HX Hr) as [p Hp].
  assert (Hnd : NoDup (n :: locs t)).
  { apply NoDup_cons. split; [|apply Hr]. intros Hin. by eapply (rep_ne_nil s X [] t n). }
  rewrite <-size_dom. enough (length (n :: locs t) ≤ size (dom (rt_heap s)))%nat by (cbn in *; lia).
  rewrite <-(size_list_to_set (C:=gset loc)) by done.
  apply subseteq_size. intros l. rewrite elem_of_list_to_set, elem_of_dom.
  intros [->|Hin]%elem_of_cons; [by rewrite Hp|]. eapply tr_lookup; [apply Hr|done].
Qed.

(** The colour of a subtree, a leaf's being that of the sentinel. *)
Lemma rep_color s X fs t : has_nil X → rep s X (plug fs t) → ∃ l x, ptr t = Some l ∧ rt_heap s !! l = Some x ∧ rb_color x = color_of t.
Proof.
  intros HX Hr. destruct t as [|c l k v a b].
  - apply rep_lookup_nil in Hr as [p Hp]; [|done]. by eexists _, _.
  - apply (rep_lookup s X fs Left c l k v a b) in Hr. by eexists _, _.
Qed.
Lemma wp_field_color s X fs t (Q : Z → rbtree → Prop) :
  has_nil X → rep s X (plug fs t) → Q (color_of t) s → wp (field rb_color (ptr t)) Q s.
Proof. intros HX Hr HQ. apply (rep_color _ _ fs t HX) in Hr as (l&x&->&Hl&Hc). eapply wp_field; [done|]. by rewrite Hc. Qed.

(** The parent of the focus has the colour of the first frame, that of the root
    the colour of the sentinel. *)
Definition top_color (fs : list frame) : Z := match fs with [] => BLACK | f :: _ => f_color f end.
Lemma wp_field_par_color s X fs t (Q : Z → rbtree → Prop) :
  has_nil X → rep s X (plug fs t) → Q (top_color fs) s → wp (field rb_color (par fs)) Q s.
Proof.
  intros HX Hr HQ. destruct fs as [|f fs]; cbn [par].
  - apply rep_lookup_nil in Hr as [p Hp]; [|done]. by eapply wp_field.
  - apply rep_lookup_frame in Hr. eapply wp_field; [done|]. by rewrite color_dn.
Qed.

(** Writing a field of the focus other than its links. *)
Lemma set_node_rep g s X fs d c l k v a b c' k' v' :
  (∀ a b p, g (dn d c a b p k v) = dn d c' a b p k' v') →
  rep s X (plug fs (dnode d c l k v a b)) →
  wp (set_field g (Some l)) (λ _ s', rep s' X (plug fs (dnode d c' l k' v' a b))) s.
Proof.
  intros Hg Hr. pose proof (rep_lookup _ _ _ _ _ _ _ _ _ _ Hr) as Hl. eapply wp_set_field; [done|].
  destruct (rep_split _ _ _ _ Hr) as (Hc&Ht&Hnd). rewrite Hg. rewrite ptr_dnode in Hc.
  rewrite locs_dnode in Hnd. apply NoDup_app in Hnd as (Hnf&Hdisj&[Hnl Hnab]%NoDup_cons).
  apply tr_dnode in Ht as (_&Ha&Hb).
  eapply rep_update; [exact Hr|..].
  - rewrite ptr_dnode. eapply cx_frame; [|done]. intros l' Hin. cbn. apply lookup_insert_ne.
    intros ->. apply (Hdisj _ Hin). left.
  - apply tr_dnode. cbn. rewrite lookup_insert_eq. split; [done|].
    split; (eapply tr_frame; [|done]); intros l' Hin; apply lookup_insert_ne; intros ->; apply Hnl, elem_of_app; auto.
  - cbn. rewrite (rep_root _ _ _ Hr), ptr_plug. by rewrite !ptr_dnode.
  - done.
  - by rewrite !locs_dnode.
  - intros l' _ Hin. cbn. apply lookup_insert_ne. intros ->. apply Hin. rewrite locs_dnode. left.
Qed.
(** Colouring the focus. *)
Lemma set_color_rep s X fs d c l k v a b c' :
  rep s X (plug fs (dnode d c l k v a b)) →
  wp (set_field (set_rb_color c') (Some l)) (λ _ s', rep s' X (plug fs (dnode d c' l k v a b))) s.
Proof. apply set_node_rep. intros. apply set_color_dn. Qed.
(** Writing a node above the focus. *)
Lemma set_frame_rep g s X gs f fs t f' :
  (∀ a b p, g (dn (f_side f) (f_color f) a b p (f_key f) (f_value f)) = dn (f_side f) (f_color f') a b p (f_key f') (f_value f')) →
  f_side f' = f_side f → f_loc f' = f_loc f → f_sib f' = f_sib f →
  rep s X (plug (gs ++ f :: fs) t) →
  wp (set_field g (Some (f_loc f))) (λ _ s', rep s' X (plug (gs ++ f' :: fs) t)) s.
Proof.
  intros Hg Hs Hl Hb. rewrite plug_app. intros Hr.
  eapply wp_mono; [eapply set_node_rep; [exact Hg|exact Hr]|]. intros [] s' Hr'.
  rewrite plug_app. cbn [plug]. unfold plug1. by rewrite Hs, Hl, Hb.
Qed.
(** Writing a node that is not in the tree. *)
Lemma rep_out_lookup s X t l x : rep s X t → X !! l = Some x → rt_heap s !! l = Some x.
Proof. intros Hr Hx. rewrite (rep_rest _ _ _ Hr); [done|]. intros Hin. by rewrite (rep_out _ _ _ Hr) in Hx. Qed.
Lemma set_out_rep g s X t l x :
  rep s X t → X !! l = Some x → wp (set_field g (Some l)) (λ _ s', rep s' (<[l:=g x]> X) t) s.
Proof.
  intros Hr Hx. eapply wp_set_field; [by eapply rep_out_lookup|].
  assert (Hl : l ∉ locs t) by (intros Hin; by rewrite (rep_out _ _ _ Hr) in Hx).
  destruct Hr as [Ht Hro Hn Hnd Ho Hre]. constructor; try done.
  - eapply tr_frame; [|exact Ht]. intros l' Hin. apply lookup_insert_ne. by intros ->.
  - intros l' Hin. rewrite lookup_insert_ne by (by intros ->). by apply Ho.
  - intros l' Hin. cbn. destruct (decide (l' = l)) as [->|]; [by rewrite !lookup_insert_eq|].
    rewrite !lookup_insert_ne by done. by apply Hre.
Qed.
Lemma set_color_frame s X f fs t c' l :
  rep s X (plug (f :: fs) t) → f_loc f = l →
  wp (set_field (set_rb_color c') (Some l))
    (λ _ s', rep s' X (plug (mk_frame (f_side f) c' (f_loc f) (f_key f) (f_value f) (f_sib f) :: fs) t)) s.
Proof. intros Hr <-. revert Hr. apply set_color_rep. Qed.

(** Re-linking the focus from above. *)
Lemma replace_child_spec d s fs lx y t (Q : unit → rbtree → Prop) :
  rt_nil s = nl → (∀ l, l ∈ flocs fs → Some l ≠ nl) → Some lx ≠ nl → lx ∉ flocs fs → NoDup (flocs fs) →
  cx (rt_heap s) fs (Some lx) → rt_root s = rootp fs (Some lx) → y = ptr t →
  (∀ s', rt_nil s' = nl → cx (rt_heap s') fs y → rt_root s' = rootp fs y →
     (∀ l, l ∉ flocs fs → rt_heap s' !! l = rt_heap s !! l) → Q () s') →
  wp (replace_child d (par fs) (Some lx) y) Q s.
Proof.
  intros Hnil Hfn Hxn Hx Hnd Hc Hroot -> HQ. unfold replace_child, T_nil. wp_step. rewrite Hnil.
  destruct fs as [|f fs]; cbn [par].
  { rewrite decide_True by done. unfold set_root. wp_step. by apply HQ. }
  rewrite decide_False by (apply Hfn; left). cbn [cx] in Hc. destruct Hc as (Hl&Hs&Hc).
  cbn [flocs] in Hnd, Hx. apply NoDup_cons in Hnd as [Hnf Hnd].
  apply wp_bind. eapply wp_field; [exact Hl|].
  set (g := set_rb_child (f_side f) (ptr t)).
  assert (Hset : wp (set_field g (Some (f_loc f))) Q s).
  { eapply wp_set_field; [exact Hl|]. subst g. rewrite set_child_dn. apply HQ; [done| |done|].
    - cbn. rewrite lookup_insert_eq. split; [done|].
      split; [eapply tr_frame; [|exact Hs]|eapply cx_frame; [|exact Hc]]; intros l Hin; apply lookup_insert_ne;
        intros <-; apply Hnf, elem_of_app; auto.
    - intros l Hin. cbn. apply lookup_insert_ne. intros <-. apply Hin. left. }
  assert (Hsib : Some lx ≠ ptr (f_sib f)).
  { intros Heq. apply Hx. right. apply elem_of_app. left. destruct (f_sib f); [done|]. injection Heq as ->. left. }
  destruct d, (f_side f) eqn:Hside; cbn [rb_child dn rb_left rb_right other].
  - by rewrite decide_True.
  - by rewrite decide_False.
  - by rewrite decide_False.
  - by rewrite decide_True.
Qed.

(** if (b != T->nil) b->parent = x; *)
Lemma adopt_spec s b lx (Q : unit → rbtree → Prop) :
  rt_nil s = nl → (∀ l, l ∈ locs b → Some l ≠ nl) → (∀ l, ptr b = Some l → b ≠ Leaf → is_Some (rt_heap s !! l)) →
  (∀ h, (∀ l, h !! l = if decide (Some l = ptr b ∧ l ∈ locs b) then set_rb_parent lx <$> rt_heap s !! l else rt_heap s !! l) →
     Q () (with_heap h s)) →
  wp (nl ← T_nil; if decide (ptr b = nl) then ret () else set_field (set_rb_parent lx) (ptr b)) Q s.
Proof.
  intros Hnil Hb Hin HQ. unfold T_nil. wp_step. rewrite Hnil. destruct b as [|cb lb kb vb b1 b2].
  - rewrite decide_True by done. wp_step. replace s with (with_heap (rt_heap s) s) by (by destruct s).
    apply HQ. intros l. rewrite decide_False; [done|]. by intros [_ ?%not_elem_of_nil].
  - cbn [ptr] in *. rewrite decide_False by (apply Hb; left).
    destruct (Hin lb) as [x Hx]; [done|done|]. eapply wp_set_field; [exact Hx|]. apply HQ. intros l.
    destruct (decide (l = lb)) as [->|Hne].
    + rewrite lookup_insert_eq, decide_True by (split; [done|left]). by rewrite Hx.
    + rewrite lookup_insert_ne by done. rewrite decide_False; [done|]. naive_solver.
Qed.

Lemma wp_assoc {S A B C} (m : M S A) (f : A → M S B) (g : B → M S C) Q s :
  wp (bind (bind m f) g) Q s → wp (x ← m; y ← f x; g y) Q s.
Proof. unfold wp, bind. by destruct (m s) as [[]| |]. Qed.

(** Give a name to the heap of the goal. *)
Ltac name_heap H := cbn [rt_heap with_heap]; lazymatch goal with |- context [with_heap ?h _] => set (H := h) end.

(** The nodes a rotation touches are distinct and outside the context. *)
Lemma rotate_disjoint fs lx ly (a b c : list loc) :
  NoDup (flocs fs ++ lx :: ly :: a ++ b ++ c) →
  lx ≠ ly ∧ lx ∉ flocs fs ∧ ly ∉ flocs fs ∧ lx ∉ b ∧ ly ∉ b ∧
  (∀ l, l ∈ a → l ≠ lx ∧ l ≠ ly ∧ l ∉ b ∧ l ∉ flocs fs) ∧
  (∀ l, l ∈ b → l ≠ lx ∧ l ≠ ly ∧ l ∉ flocs fs) ∧
  (∀ l, l ∈ c → l ≠ lx ∧ l ≠ ly ∧ l ∉ b ∧ l ∉ flocs fs) ∧ NoDup b ∧ NoDup (flocs fs).
Proof. intros Hnd. rewrite !NoDup_app, !NoDup_cons, !NoDup_app in Hnd. set_solver. Qed.

Lemma locs_rotated d clx lx kx vx cly ly ky vy a b c :
  locs (dnode d clx lx kx vx a (dnode d cly ly ky vy b c)) ≡ₚ lx :: ly :: locs a ++ locs b ++ locs c.
Proof. rewrite !locs_dnode. solve_Permutation. Qed.

(** The writes of a rotation, taken together, give the rotated tree. *)
Lemma rotated_rep d s s' X fs clx lx kx vx cly ly ky vy a b c :
  rep s X (plug fs (dnode d clx lx kx vx a (dnode d cly ly ky vy b c))) →
  cx (rt_heap s') fs (Some ly) → rt_root s' = rootp fs (Some ly) → rt_nil s' = rt_nil s →
  rt_heap s' !! lx = Some (dn d clx (ptr a) (ptr b) (Some ly) kx vx) →
  rt_heap s' !! ly = Some (dn d cly (Some lx) (ptr c) (par fs) ky vy) →
  (∀ l, l ≠ lx → l ≠ ly → l ∉ flocs fs → rt_heap s' !! l =
    if decide (Some l = ptr b ∧ l ∈ locs b) then set_rb_parent (Some lx) <$> rt_heap s !! l else rt_heap s !! l) →
  rep s' X (plug fs (dnode d cly ly ky vy (dnode d clx lx kx vx a b) c)).
Proof.
  intros Hr Hcx Hroot Hnil Hx Hy Hh. destruct (rep_split _ _ _ _ Hr) as (_&Ht&Hnd).
  pose proof (locs_rotated d clx lx kx vx cly ly ky vy a b c) as Hlocs. rewrite Hlocs in Hnd. destruct (rotate_disjoint _ _ _ _ _ _ Hnd) as (Hxy&_&_&_&_&Hda&Hdb&Hdc&Hnb&_).
  apply tr_dnode in Ht as (_&Ha&Ht). apply tr_dnode in Ht as (_&Hb&Hc).
  eapply rep_update; [exact Hr|..].
  - by rewrite ptr_dnode.
  - apply tr_dnode. rewrite ptr_dnode. split; [done|]. split; [apply tr_dnode; split; [done|]; split|].
    + eapply tr_frame; [|exact Ha]. intros l Hl. apply Hda in Hl as (?&?&?&?). rewrite Hh, decide_False by (done || tauto). done.
    + eapply (tr_reparent (rt_heap s) _ (Some ly)); [done|exact Hb|]. intros l Hl. apply Hdb in Hl as Hl'. destruct Hl' as (?&?&?).
      rewrite Hh by done. destruct (decide (Some l = ptr b)); [by rewrite decide_True|by rewrite decide_False by tauto].
    + eapply tr_frame; [|exact Hc]. intros l Hl. apply Hdc in Hl as (?&?&?&?). rewrite Hh, decide_False by (done || tauto). done.
  - by rewrite ptr_dnode.
  - done.
  - rewrite Hlocs, !locs_dnode. solve_Permutation.
  - intros l Hlf Hlt. rewrite Hlocs in Hlt. assert (l ≠ lx ∧ l ≠ ly ∧ l ∉ locs b) as (?&?&?) by set_solver.
    rewrite Hh, decide_False by (done || tauto). done.
Qed.

(** A rotation takes the child on the other side to the place of its parent. *)
Lemma rotate_spec d s X fs clx lx kx vx cly ly ky vy a b c :
  has_nil X → rep s X (plug fs (dnode d clx lx kx vx a (dnode d cly ly ky vy b c))) →
  wp (rotate d (Some lx))
    (λ _ s', rep s' X (plug fs (dnode d cly ly ky vy (dnode d clx lx kx vx a b) c))) s.
Proof.
  intros HX Hr. destruct (rep_split _ _ _ _ Hr) as (Hcx&Ht&Hnd). pose proof (λ l, rep_ne_nil s X fs _ l HX Hr) as Hne.
  pose proof (rep_root _ _ _ Hr) as Hroot. rewrite ptr_plug, ptr_dnode in Hroot. pose proof (rep_nil _ _ _ Hr) as Hnil.
  assert (Hne' : ∀ l, l ∈ flocs fs ++ lx :: ly :: locs a ++ locs b ++ locs c → Some l ≠ nl).
  { intros l Hin. apply Hne. by rewrite locs_rotated. }
  rewrite locs_rotated in Hnd. destruct (rotate_disjoint _ _ _ _ _ _ Hnd) as (Hxy&Hxf&Hyf&Hlxb&Hlyb&_&Hdb&_&_&Hnf).
  rewrite ptr_dnode in Hcx. apply tr_dnode in Ht as (Hlx&_&Ht). apply tr_dnode in Ht as (Hly&Hb&_). rewrite ptr_dnode in Hlx.
  unfold rotate. apply wp_bind. eapply wp_field; [exact Hlx|]. rewrite rb_child_other_dn.
  apply wp_bind. eapply wp_field; [exact Hly|]. rewrite rb_child_dn.
  apply wp_bind. eapply wp_set_field; [exact Hlx|]. rewrite set_child_other_dn.
  name_heap h1. apply wp_bind. eapply wp_field; [cbn; unfold h1; rewrite lookup_insert_ne; [exact Hly|done]|].
  rewrite rb_child_dn. apply wp_assoc, wp_bind. apply adopt_spec; [done| | |].
  { intros l Hin. apply Hne'. rewrite !elem_of_app, !elem_of_cons, !elem_of_app. tauto. }
  { intros l Hl Hleaf. destruct b as [|cb lb kb vb b1 b2]; [done|]. injection Hl as <-. cbn. unfold h1.
    rewrite lookup_insert_ne by (intros ->; apply Hlxb; left). destruct Hb as [Hb _]. by eexists. }
  intros h2 Hh2. cbn [rt_heap with_heap] in Hh2.
  assert (H2 : ∀ l, l ∉ locs b → h2 !! l = h1 !! l) by (intros l Hl; rewrite Hh2, decide_False; [done|tauto]).
  assert (H2x : h2 !! lx = Some (dn d clx (ptr a) (ptr b) (par fs) kx vx)) by (rewrite H2 by done; apply lookup_insert_eq).
  assert (H2y : h2 !! ly = Some (dn d cly (ptr b) (ptr c) (Some lx) ky vy)) by (rewrite H2 by done; unfold h1; by rewrite lookup_insert_ne).
  apply wp_bind. eapply wp_field; [exact H2x|]. rewrite parent_dn.
  apply wp_bind. eapply wp_set_field; [exact H2y|]. rewrite set_parent_dn.
  name_heap h3.
  apply wp_bind. eapply wp_field; [cbn; unfold h3; rewrite lookup_insert_ne by done; exact H2x|]. rewrite parent_dn.
  apply wp_bind.
  eapply (replace_child_spec d _ fs lx (Some ly) (dnode d cly ly ky vy (dnode d clx lx kx vx a b) c));
    cbn [rt_nil rt_root rt_heap with_heap]; [done| |apply Hne'; set_solver|done|done| |done|by rewrite ptr_dnode|].
  { intros l Hl. apply Hne'. apply elem_of_app. by left. }
  { eapply cx_frame; [|exact Hcx]. intros l Hl. unfold h3. rewrite lookup_insert_ne by (by intros ->).
    rewrite H2 by (intros Hin; by apply Hdb in Hin as (_&_&?)). apply lookup_insert_ne. by intros ->. }
  intros s4 Hn4 Hc4 Hr4 Hh4. apply wp_bind. eapply wp_set_field; [by rewrite Hh4 by done; apply lookup_insert_eq|]. rewrite set_child_dn.
  eapply wp_set_field; [cbn; rewrite lookup_insert_ne, Hh4 by done; unfold h3; rewrite lookup_insert_ne by done; exact H2x|].
  rewrite set_parent_dn. name_heap h5. eapply rotated_rep; [exact Hr|..]; cbn [rt_heap rt_root rt_nil with_heap].
  - eapply cx_frame; [|exact Hc4]. intros l Hl. unfold h5. rewrite !lookup_insert_ne; [done|by intros ->|by intros ->].
  - done.
  - congruence.
  - apply lookup_insert_eq.
  - unfold h5. rewrite lookup_insert_ne by done. apply lookup_insert_eq.
  - intros l Hlx' Hly' Hlf. unfold h5. rewrite !lookup_insert_ne, Hh4 by congruence. unfold h3.
    rewrite lookup_insert_ne, Hh2 by congruence. unfold h1. by rewrite lookup_insert_ne by congruence.
Qed.
End shape.
