(* ===== verification/KvRbFix.v ===== *)
(** The red-black tree engine: the two repair loops restore the red-black
    properties, keep the order of the keys, and end within their fuel. *)
From S2P Require Import Prelude KvMem KvSpec KvRbtree KvRbShape.

(** ** The red-black properties *)

(** No red node has a red child, and every path has [m] black nodes. *)
Inductive rb : tree → nat → Prop :=
| rb_leaf : rb Leaf 0
| rb_red l k v a b m :
    rb a m → rb b m → color_of a = BLACK → color_of b = BLACK → rb (Node RED l k v a b) m
| rb_black l k v a b m : rb a m → rb b m → rb (Node BLACK l k v a b) (S m).

(** Frames that accept a subtree of black height [m]; the root is black. *)
Inductive ctx_ok : list frame → nat → Prop :=
| ok_top m : ctx_ok [] m
| ok_black f fs m : f_color f = BLACK → rb (f_sib f) m → ctx_ok fs (S m) → ctx_ok (f :: fs) m
| ok_red f fs m : f_color f = RED → rb (f_sib f) m → color_of (f_sib f) = BLACK →
    fs ≠ [] → top_color fs = BLACK → ctx_ok fs m → ctx_ok (f :: fs) m.

Lemma rb_red_or_black t m : rb t m → color_of t = RED ∨ color_of t = BLACK.
Proof. destruct 1; cbn; auto. Qed.
Lemma rb_dred d l k v a b m :
  rb a m → rb b m → color_of a = BLACK → color_of b = BLACK → rb (dnode d RED l k v a b) m.
Proof. destruct d; by constructor. Qed.
Lemma rb_dblack d l k v a b m : rb a m → rb b m → rb (dnode d BLACK l k v a b) (S m).
Proof. destruct d; by constructor. Qed.
Lemma color_dnode d c l k v a b : color_of (dnode d c l k v a b) = c.
Proof. by destruct d. Qed.
Lemma rb_dnode_inv d c l k v a b m :
  rb (dnode d c l k v a b) m →
  (c = RED ∧ rb a m ∧ rb b m ∧ color_of a = BLACK ∧ color_of b = BLACK) ∨
  (c = BLACK ∧ ∃ m', m = S m' ∧ rb a m' ∧ rb b m').
Proof. destruct d; inversion 1; subst; eauto 10. Qed.
Lemma ctx_top_color fs m : ctx_ok fs m → top_color fs ≠ RED → top_color fs = BLACK.
Proof. by destruct 1. Qed.
Lemma rb_nonleaf t m : rb t (S m) → t ≠ Leaf.
Proof. by inversion 1. Qed.

Lemma plug_rb fs t m :
  ctx_ok fs m → rb t m → (color_of t = RED → top_color fs = BLACK) → ∃ m', rb (plug fs t) m'.
Proof.
  intros Hc. revert t. induction Hc as [m|f fs m Hf Hs _ IH|f fs m Hf Hs Hsb _ Htop _ IH]; intros t Ht Hcol; cbn [plug].
  - by exists m.
  - apply IH; unfold plug1; rewrite ?Hf; [by apply rb_dblack|]. by rewrite color_dnode.
  - cbn in Hcol. rewrite Hf in Hcol. assert (color_of t = BLACK) by (destruct (rb_red_or_black _ _ Ht) as [Hr|]; [by apply Hcol in Hr|done]).
    apply IH; unfold plug1; rewrite ?Hf; [by apply rb_dred|done].
Qed.
Lemma plug_root_black fs t m : ctx_ok fs m → fs ≠ [] → color_of (plug fs t) = BLACK.
Proof.
  intros Hc. revert t. induction Hc as [m|f fs m Hf Hs Hc IH|f fs m Hf Hs Hsb Hne Htop _ IH]; intros t Hn; cbn [plug]; [done| |by apply IH].
  destruct fs as [|g fs]; [unfold plug1; cbn [plug]; by rewrite color_dnode|by apply IH].
Qed.

Lemma node_dnode d c l k v a b : ∃ a' b', Node c l k v a b = dnode d c l k v a' b'.
Proof. destruct d; [by exists a, b|by exists b, a]. Qed.

(** ** Order *)

Lemma inorder_plug fs t t' : inorder t = inorder t' → inorder (plug fs t) = inorder (plug fs t').
Proof.
  revert t t'. induction fs as [|f fs IH]; intros t t' Ht; cbn; [done|]. apply IH. unfold plug1.
  destruct (f_side f); cbn; by rewrite Ht.
Qed.
Lemma inorder_recolor d c c' l k v a b : inorder (dnode d c l k v a b) = inorder (dnode d c' l k v a b).
Proof. by destruct d. Qed.
Lemma inorder_rotate d c1 x kx vx c2 y ky vy a b e :
  inorder (dnode d c1 x kx vx a (dnode d c2 y ky vy b e)) =
  inorder (dnode d c2 y ky vy (dnode d c1 x kx vx a b) e).
Proof. destruct d; cbn; by rewrite <-?app_assoc. Qed.
Lemma inorder_child d c l k v a a' b b' :
  inorder a = inorder a' → inorder b = inorder b' → inorder (dnode d c l k v a b) = inorder (dnode d c l k v a' b').
Proof. destruct d; cbn; by intros -> ->. Qed.

(** The other child of a frame in the focus. *)
Definition flip (f : frame) (t : tree) : frame := mk_frame (other (f_side f)) (f_color f) (f_loc f) (f_key f) (f_value f) t.
Lemma plug_flip f fs t : plug (f :: fs) t = plug (flip f t :: fs) (f_sib f).
Proof. cbn. unfold plug1, flip. cbn. by destruct (f_side f). Qed.
Definition paint (c : Z) (f : frame) : frame := mk_frame (f_side f) c (f_loc f) (f_key f) (f_value f) (f_sib f).
Definition paint_t (c : Z) (t : tree) : tree := match t with Leaf => Leaf | Node _ l k v a b => Node c l k v a b end.

(** Two trees with the same entries. *)
Ltac inorder_eq := cbn; repeat (rewrite <-app_assoc; cbn); try reflexivity.

(** Write frames out. *)
Ltac frames := cbn [plug paint flip f_side f_color f_loc f_key f_value f_sib]; unfold plug1;
  cbn [f_side f_color f_loc f_key f_value f_sib].
Ltac frames_in H := cbn [plug paint flip f_side f_color f_loc f_key f_value f_sib] in H; unfold plug1 in H;
  cbn [f_side f_color f_loc f_key f_value f_sib] in H.
(** Move the focus up one frame. *)
Ltac up H := lazymatch type of H with context [plug (?f :: ?fs) ?t] => change (plug (f :: fs) t) with (plug fs (plug1 f t)) in H end.

Section fix_.
Context (n : loc) (X : gmap loc rbtree_node) (HX : has_nil n X).
Abbreviation rep := (KvRbShape.rep n).
Abbreviation ptr := (KvRbShape.ptr n).
Abbreviation par := (KvRbShape.par n).

(** Reading around the focus. *)
Lemma wp_frame_child s f fs t d (Q : option loc → rbtree → Prop) :
  rep s X (plug (f :: fs) t) →
  Q (if decide (d = f_side f) then ptr t else ptr (f_sib f)) s → wp (field (rb_child d) (Some (f_loc f))) Q s.
Proof.
  intros Hr HQ. eapply wp_field; [by eapply rep_lookup_frame|]. by destruct d, (f_side f).
Qed.
Lemma wp_frame_parent s f fs t (Q : option loc → rbtree → Prop) :
  rep s X (plug (f :: fs) t) → Q (par fs) s → wp (field rb_parent (Some (f_loc f))) Q s.
Proof. intros Hr HQ. eapply wp_field; [by eapply rep_lookup_frame|]. by rewrite parent_dn. Qed.
Lemma wp_node_parent s fs d c l k v a b (Q : option loc → rbtree → Prop) :
  rep s X (plug fs (dnode d c l k v a b)) → Q (par fs) s → wp (field rb_parent (Some l)) Q s.
Proof. intros Hr HQ. eapply wp_field; [by eapply rep_lookup|]. by rewrite parent_dn. Qed.
Lemma wp_node_child s fs d c l k v a b e (Q : option loc → rbtree → Prop) :
  rep s X (plug fs (dnode d c l k v a b)) → Q (if decide (e = d) then ptr a else ptr b) s →
  wp (field (rb_child e) (Some l)) Q s.
Proof. intros Hr HQ. eapply wp_field; [by eapply rep_lookup|]. by destruct e, d. Qed.

(** p->parent for the focus; the sentinel's parent is what the code stored there. *)
Lemma wp_focus_parent s fs t (Q : option loc → rbtree → Prop) :
  rep s X (plug fs t) → (t = Leaf → X !! n = Some (mk_rb BLACK (Some n) (Some n) (par fs) CNull CNull)) →
  Q (par fs) s → wp (field rb_parent (ptr t)) Q s.
Proof.
  intros Hr Hn HQ. destruct t as [|c l k v a b].
  - eapply (wp_field rb_parent n); [|exact (HQ : Q (rb_parent (mk_rb BLACK (Some n) (Some n) (par fs) CNull CNull)) s)]. rewrite (rep_rest _ _ _ _ Hr); [by apply Hn|].
    intros Hin. apply (rep_out _ _ _ _ Hr) in Hin. by rewrite Hn in Hin.
  - by apply (wp_node_parent s fs Left c l k v a b).
Qed.

(** Two subtrees of a node are different nodes. *)
Lemma sib_ne s f fs t :
  rep s X (plug (f :: fs) t) → t ≠ Leaf ∨ f_sib f ≠ Leaf → ptr t ≠ ptr (f_sib f).
Proof.
  intros Hr Hn. pose proof (λ l, rep_ne_nil n s X (f :: fs) t l HX Hr) as Hne.
  apply rep_split in Hr as (_&_&Hnd). cbn [flocs app] in Hnd, Hne.
  destruct t as [|? lt ? ? ? ?], (f_sib f) as [|? ls ? ? ? ?]; cbn [KvRbShape.ptr locs] in *.
  - by destruct Hn.
  - intros Heq. eapply Hne; [|symmetry; exact Heq]. set_solver.
  - intros Heq. eapply Hne; [|exact Heq]. set_solver.
  - intros [= ->]. rewrite NoDup_cons, !NoDup_app in Hnd. set_solver.
Qed.

Lemma paint_sib s f fs t c :
  rep s X (plug (f :: fs) t) → f_sib f ≠ Leaf →
  wp (set_field (set_rb_color c) (ptr (f_sib f)))
    (λ _ s', rep s' X (plug (mk_frame (f_side f) (f_color f) (f_loc f) (f_key f) (f_value f) (paint_t c (f_sib f)) :: fs) t)) s.
Proof.
  intros Hr Hs. rewrite plug_flip in Hr. destruct (f_sib f) as [|c0 l k v a b] eqn:Hsib; [done|].
  eapply wp_mono; [eapply (set_color_rep n s X _ Left); exact Hr|]. intros [] s' Hr'.
  rewrite plug_flip. cbn [f_sib paint_t]. exact Hr'.
Qed.

Lemma side_cases (d e : side) : e = d ∨ e = other d.
Proof. destruct d, e; auto. Qed.
Lemma other_ne d : other d ≠ d.
Proof. by destruct d. Qed.
Lemma other_other d : other (other d) = d.
Proof. by destruct d. Qed.

(** Statements that keep the tree's entries. *)
Definition same (t t' : tree) : Prop := inorder t = inorder t'.

(** ** Insertion *)

(** What a round leaves: a red focus nearer to the root. *)
Definition round_post (t : tree) (len : nat) (q : option loc) (s : rbtree) : Prop :=
  ∃ fs z m, rep s X (plug fs z) ∧ q = ptr z ∧ color_of z = RED ∧ rb z m ∧ ctx_ok fs m ∧
    same t (plug fs z) ∧ (length fs < len)%nat.

(** The last part of a round: the uncle is black and the focus on the outer side. *)
Lemma insert_outer s f g fs z m d :
  rep s X (plug (f :: g :: fs) z) → f_side f = d → f_side g = d → f_color f = RED →
  color_of z = RED → rb z m → rb (f_sib f) m → color_of (f_sib f) = BLACK → rb (f_sib g) m → color_of (f_sib g) = BLACK →
  ctx_ok fs (S m) →
  wp (zp ← field rb_parent (ptr z);
      set_field (set_rb_color BLACK) zp;;
      zpp ← field rb_parent zp;
      set_field (set_rb_color RED) zpp;;
      rotate (other d) zpp;;
      ret (ptr z)) (round_post (plug (f :: g :: fs) z) (S (S (length fs)))) s.
Proof.
  intros Hr Hf Hg Hfc Hz Hrz Hrf Hcf Hrg Hcg Hc. destruct z as [|cz lz kz vz a b]; [done|]. cbn [ptr].
  apply wp_bind. eapply (wp_node_parent s (f :: g :: fs) Left); [exact Hr|]. cbn [par].
  eapply wp_seq; [eapply set_color_frame; [exact Hr|done]|]. intros [] s1 Hr1.
  apply wp_bind. change (f_loc f) with (f_loc (paint BLACK f)). eapply wp_frame_parent; [exact Hr1|]. cbn [par]. up Hr1.
  eapply wp_seq; [eapply set_color_frame; [exact Hr1|done]|]. intros [] s2 Hr2.
  destruct f as [? ? lf kf vf sf], g as [? ? lg kg vg sg]. cbn in Hf, Hg, Hfc, Hrf, Hcf, Hrg, Hcg. subst.
  frames_in Hr2.
  rewrite <-(dnode_other d _ lg), <-(dnode_other d _ lf) in Hr2.
  eapply wp_seq; [eapply (rotate_spec _ (other d)); [done|exact Hr2]|]. intros [] s3 Hr3. apply wp_ret.
  exists (mk_frame d BLACK lf kf vf (dnode (other d) RED lg kg vg sg sf) :: fs), (Node cz lz kz vz a b), m.
  split_and!; try done.
  - cbn. unfold plug1. cbn. by rewrite <-dnode_other.
  - constructor; cbn; [done|by apply rb_dred|done].
  - unfold same. cbn [plug]. apply inorder_plug. frames.
    destruct d; cbn; by rewrite <-?app_assoc.
  - cbn. lia.
Qed.

Lemma insert_round_spec s f g fs z m d :
  rep s X (plug (f :: g :: fs) z) → f_color f = RED → f_side g = d →
  color_of z = RED → rb z m → ctx_ok (f :: g :: fs) m →
  wp (insert_round d (ptr z)) (round_post (plug (f :: g :: fs) z) (S (S (length fs)))) s.
Proof.
  intros Hr Hf Hg Hz Hrz Hc. inversion Hc as [|? ? ? Hf'|? ? ? _ Hrf Hcf _ Htop Hc']; subst; [by rewrite Hf in Hf'|].
  cbn in Htop. inversion Hc' as [|? ? ? _ Hrg Hcfs|? ? ? Hf']; subst; [|by rewrite Htop in Hf'].
  destruct z as [|cz lz kz vz a b]; [done|]. cbn in Hz. subst cz. unfold insert_round. cbn [ptr].
  remember (f_side g) as d eqn:Hg. symmetry in Hg.
  apply wp_bind. eapply (wp_node_parent s (f :: g :: fs) Left); [exact Hr|]. cbn [par].
  apply wp_bind. eapply wp_frame_parent; [exact Hr|]. cbn [par].
  apply wp_bind. eapply wp_frame_child; [exact Hr|].
  rewrite decide_False by (rewrite Hg; apply other_ne).
  assert (Hr' := Hr). up Hr'.
  rewrite plug_flip in Hr'.
  apply wp_bind. eapply wp_field_color; [done|exact Hr'|].
  destruct (rb_red_or_black _ _ Hrg) as [Hcg|Hcg]; rewrite Hcg.
  - (* the uncle is red *)
    change (RED =? RED) with true. cbv iota.
    eapply wp_seq; [eapply set_color_frame; [exact Hr|done]|]. intros [] s1 Hr1.
    up Hr1.
    eapply wp_seq; [apply paint_sib; [exact Hr1|by destruct (f_sib g)]|]. intros [] s2 Hr2.
    eapply wp_seq; [eapply set_color_frame; [exact Hr2|done]|]. intros [] s3 Hr3. apply wp_ret.
    up Hr3.
    destruct (f_sib g) as [|cg lg' kg vg ga gb] eqn:Hsg; [done|]. cbn in Hcg. subst cg.
    inversion Hrg as [|? ? ? ? ? ? Hga Hgb _ _|]; subst.
    eexists fs, _, (S m). split; [exact Hr3|]. split_and!.
    + unfold plug1. by rewrite ptr_dnode.
    + unfold plug1. by rewrite color_dnode.
    + frames. apply rb_dred; [by apply rb_dblack|by constructor|by rewrite color_dnode|done].
    + done.
    + cbn [plug]. apply inorder_plug. unfold plug1. rewrite Hsg. cbn [f_side f_color f_loc f_key f_value f_sib].
      destruct (f_side g), (f_side f); reflexivity.
    + lia.
  - (* the uncle is black *)
    change (BLACK =? RED) with false. cbv iota.
    apply wp_bind. eapply wp_frame_child; [exact Hr|].
    destruct (side_cases d (f_side f)) as [Hd|Hd]; rewrite Hd.
    + rewrite (decide_False (P:=other d = d)) by apply other_ne.
      rewrite decide_False by (apply (sib_ne s f (g :: fs) (Node RED lz kz vz a b)); [exact Hr|by left]).
      apply wp_bind, wp_ret. by apply (insert_outer s f g fs (Node RED lz kz vz a b) m d).
    + rewrite (decide_True (P:=other d = other d)) by done. cbn [ptr]. rewrite decide_True by done. apply wp_bind.
      destruct (node_dnode d RED lz kz vz a b) as (a'&b'&Hz). rewrite Hz in Hr, Hrz |- *.
      assert (Hrot := Hr). up Hrot. unfold plug1 in Hrot. rewrite Hf, Hd, dnode_other in Hrot.
      eapply wp_seq; [eapply rotate_spec; [done|exact Hrot]|]. intros [] s1 Hr1. apply wp_ret.
      apply rb_dnode_inv in Hrz as [(_&Ha&Hb&Hca&Hcb)|[? _]]; [|done].
      pose proof (insert_outer s1 (mk_frame d RED lz kz vz b') g fs
        (dnode d RED (f_loc f) (f_key f) (f_value f) (f_sib f) a') m d) as Ho. rewrite ptr_dnode in Ho.
      eapply wp_mono; [apply Ho|]; try done.
      * by rewrite color_dnode.
      * by apply rb_dred.
      * intros q s2 (fs2&z2&m2&Hr2&Hq&Hz2&Hrb2&Hc2&Hsame&Hlen). exists fs2, z2, m2. split_and!; try done.
        unfold same in *. rewrite <-Hsame. cbn [plug]. apply inorder_plug. unfold plug1. cbn. rewrite Hf, Hd.
        rewrite Hg. destruct d; inorder_eq.
Qed.

Lemma ctx_ok_color f fs m : ctx_ok (f :: fs) m → f_color f = RED ∨ f_color f = BLACK.
Proof. inversion 1; auto. Qed.

(** p == p->parent->left, for the focus p *)
Lemma wp_is_left {A} s f fs t (k1 k2 : M rbtree A) Q :
  rep s X (plug (f :: fs) t) → t ≠ Leaf ∨ f_sib f ≠ Leaf →
  wp (if f_side f then k1 else k2) Q s →
  wp (q ← field rb_left (Some (f_loc f)); if decide (ptr t = q) then k1 else k2) Q s.
Proof.
  intros Hr Hn HQ. change rb_left with (rb_child Left). apply wp_bind. eapply wp_frame_child; [exact Hr|].
  pose proof (sib_ne s f fs t Hr Hn). destruct (f_side f); cbn [decide].
  - by rewrite (decide_True (P:=Left = Left)), decide_True.
  - by rewrite (decide_False (P:=Left = Right)), decide_False.
Qed.

Lemma insert_fixup_loop_spec fuel fs z m s :
  (length fs < fuel)%nat → rep s X (plug fs z) → color_of z = RED → rb z m → ctx_ok fs m →
  wp (insert_fixup_loop fuel (ptr z))
    (λ _ s', ∃ t m', rep s' X t ∧ rb t m' ∧ t ≠ Leaf ∧ same (plug fs z) t) s.
Proof.
  revert fs z m s. induction fuel as [|fuel IH]; intros fs z m s Hf Hr Hz Hrz Hc; [lia|].
  assert (Hzn : z ≠ Leaf) by (by destruct z). cbn [insert_fixup_loop].
  apply wp_bind. eapply (wp_focus_parent s fs z); [exact Hr|done|].
  apply wp_bind. eapply wp_field_par_color; [done|exact Hr|].
  destruct (decide (top_color fs = RED)) as [Htop|Htop].
  - rewrite Htop. change (RED =? RED) with true. cbv iota.
    destruct fs as [|f fs]; [done|]. cbn in Htop.
    inversion Hc as [|? ? ? Hf'|? ? ? _ _ _ Hne _ _]; subst; [by rewrite Htop in Hf'|].
    destruct fs as [|g fs]; [done|]. cbn [par].
    apply wp_bind. eapply wp_frame_parent; [exact Hr|]. cbn [par].
    assert (Hr' := Hr). up Hr'.
    assert (Hp : ptr (plug1 f z) = Some (f_loc f)) by (unfold plug1; by rewrite ptr_dnode). rewrite <-Hp.
    apply wp_assoc, (wp_seq _ _ (round_post (plug (f :: g :: fs) z) (S (S (length fs))))).
    { apply (wp_is_left s g fs (plug1 f z)); [exact Hr'|left; unfold plug1; by destruct (f_side f)|].
      destruct (f_side g) eqn:Hg; by eapply insert_round_spec. }
    intros q s' (fs'&z'&m'&Hr2&->&Hz2&Hrz2&Hc2&Hs2&Hlen).
    eapply wp_mono; [eapply (IH fs' z' m'); try done; cbn in Hf; lia|].
    intros [] s2 (t&m2&?&?&?&?). exists t, m2. split_and!; try done. by unfold same in *; etrans.
  - rewrite (proj2 (Z.eqb_neq _ _)) by done. apply wp_ret.
    destruct (plug_rb fs z m Hc Hrz) as [m' Hm']; [intros _; by eapply ctx_top_color|].
    exists (plug fs z), m'. split_and!; try done. by apply plug_ne_leaf.
Qed.

Lemma rb_paint_black t m : rb t m → ∃ m', rb (paint_t BLACK t) m'.
Proof. destruct 1; cbn; eexists; by constructor. Qed.

(** p->color = c for the focus, the sentinel staying black *)
Lemma paint_focus s fs t c :
  rep s X (plug fs t) → t ≠ Leaf ∨ c = BLACK →
  wp (set_field (set_rb_color c) (ptr t)) (λ _ s', rep s' X (plug fs (paint_t c t))) s.
Proof.
  intros Hr Hc. destruct t as [|c0 l k v a b].
  - destruct Hc as [?| ->]; [done|]. destruct (rep_lookup_nil n s X _ HX Hr) as [p Hp].
    eapply wp_set_field; [exact Hp|]. cbn [set_rb_color rb_right rb_left rb_parent rb_key rb_value].
    unfold with_heap. rewrite insert_id by done. by destruct s.
  - by eapply (set_color_rep n s X fs Left).
Qed.

Lemma insert_fixup_spec fs z m s :
  rep s X (plug fs z) → color_of z = RED → rb z m → ctx_ok fs m →
  wp (rbtree_insert_fixup (ptr z))
    (λ _ s', ∃ t m', rep s' X t ∧ rb t m' ∧ color_of t = BLACK ∧ same (plug fs z) t) s.
Proof.
  intros Hr Hz Hrz Hc. unfold rbtree_insert_fixup. wp_step.
  eapply wp_mono; [eapply insert_fixup_loop_spec; try done|].
  { pose proof (rep_size n s X _ HX Hr). rewrite locs_plug, length_app in *. pose proof (length_flocs fs). lia. }
  intros [] s1 (t&m1&Hr1&Hm1&Hn1&Hs1). wp_step. rewrite (rep_root _ _ _ _ Hr1).
  eapply wp_mono; [apply (paint_focus s1 [] t BLACK Hr1); by right|]. intros [] s2 Hr2.
  destruct (rb_paint_black _ _ Hm1) as [m2 Hm2]. exists (paint_t BLACK t), m2. split_and!; try done.
  - by destruct t.
  - unfold same in *. rewrite Hs1. by destruct t.
Qed.

(** ** Deletion *)

(** A subtree whose paths have one black node less than the rest, unless its root is
    painted black. *)
Definition deficient (t : tree) (m : nat) : Prop :=
  (color_of t = BLACK ∧ rb t m) ∨ (color_of t = RED ∧ rb (paint_t BLACK t) (S m)).
(** The sentinel, when it is the focus, knows its parent. *)
Definition nil_par (fs : list frame) (t : tree) : Prop :=
  t = Leaf → X !! n = Some (mk_rb BLACK (Some n) (Some n) (par fs) CNull CNull).
(** Rounds left for a focus. *)
Definition rounds (fs : list frame) (t : tree) : nat := length fs + (if decide (color_of t = BLACK) then 1 else 0).
Definition delete_post (t0 : tree) (bound : nat) (q : option loc) (s : rbtree) : Prop :=
  ∃ fs t m, rep s X (plug fs t) ∧ q = ptr t ∧ t ≠ Leaf ∧ deficient t m ∧ ctx_ok fs (S m) ∧
    same t0 (plug fs t) ∧ (rounds fs t < bound)%nat.

Lemma plug_other d c l k v a b fs :
  plug fs (dnode d c l k v a b) = plug (mk_frame (other d) c l k v a :: fs) b.
Proof. cbn. unfold plug1. cbn. by rewrite dnode_other. Qed.

(** Reading and colouring below a node [l] with the focus on side [d] and the
    sibling node [lw]. *)
Lemma paint_near s fs d c l k v a b c' :
  rep s X (plug fs (dnode d c l k v a b)) → a ≠ Leaf →
  wp (set_field (set_rb_color c') (ptr a)) (λ _ s', rep s' X (plug fs (dnode d c l k v (paint_t c' a) b))) s.
Proof. intros Hr Ha. apply (paint_focus s (mk_frame d c l k v b :: fs) a c' Hr). by left. Qed.
Lemma paint_far s fs d c l k v a b c' :
  rep s X (plug fs (dnode d c l k v a b)) → b ≠ Leaf →
  wp (set_field (set_rb_color c') (ptr b)) (λ _ s', rep s' X (plug fs (dnode d c l k v a (paint_t c' b)))) s.
Proof.
  intros Hr Hb. rewrite plug_other in Hr. eapply wp_mono; [apply (paint_focus _ _ _ c' Hr); by left|].
  intros [] s' Hr'. by rewrite plug_other.
Qed.
Lemma wp_child_color s fs d c l k v a b e (Q : Z → rbtree → Prop) :
  rep s X (plug fs (dnode d c l k v a b)) → Q (color_of (if decide (e = d) then a else b)) s →
  wp (field rb_color (if decide (e = d) then ptr a else ptr b)) Q s.
Proof.
  intros Hr HQ. destruct (decide (e = d)).
  - by eapply (wp_field_color n s X (mk_frame d c l k v b :: fs)).
  - rewrite plug_other in Hr. by eapply wp_field_color.
Qed.
Lemma paint_dnode c' d c l k v a b : paint_t c' (dnode d c l k v a b) = dnode d c' l k v a b.
Proof. by destruct d. Qed.
Lemma dnode_ne d c l k v a b : dnode d c l k v a b ≠ Leaf.
Proof. by destruct d. Qed.

(** The last case of a round: the far child of the sibling is red. *)
Lemma delete_last s fs d cf lf kf vf x lw kw vw a b m :
  let t0 := dnode d cf lf kf vf x (dnode d BLACK lw kw vw a b) in
  rep s X (plug fs t0) → nil_par (mk_frame d cf lf kf vf (dnode d BLACK lw kw vw a b) :: fs) x →
  rb x m → rb a m → rb b m → color_of b = RED → color_of x = BLACK →
  (cf = RED ∧ fs ≠ [] ∧ top_color fs = BLACK ∧ ctx_ok fs (S m)) ∨ (cf = BLACK ∧ ctx_ok fs (S (S m))) →
  wp (xp ← field rb_parent (ptr x);
      c ← field rb_color xp;
      set_field (set_rb_color c) (Some lw);;
      xp ← field rb_parent (ptr x);
      set_field (set_rb_color BLACK) xp;;
      far ← field (rb_child (other d)) (Some lw);
      set_field (set_rb_color BLACK) far;;
      xp ← field rb_parent (ptr x);
      rotate d xp;;
      gets rt_root)
    (delete_post (plug fs t0) (length fs + (if decide (cf = BLACK) then 2 else 1))) s.
Proof.
  intros t0 Hr Hn Hx Ha Hb Hcb Hcx Hc.
  set (w := dnode d BLACK lw kw vw a b) in *.
  apply wp_bind. eapply (wp_focus_parent s (mk_frame d cf lf kf vf w :: fs)); [exact Hr|done|]. cbn [par f_loc].
  apply wp_bind. eapply wp_field; [by eapply rep_lookup|]. rewrite color_dn.
  eapply wp_seq; [rewrite <-(ptr_dnode n d BLACK lw kw vw a b); apply paint_far; [exact Hr|apply dnode_ne]|].
  intros [] s1 Hr1. subst w. rewrite paint_dnode in Hr1. set (w := dnode d cf lw kw vw a b) in *.
  apply wp_bind. eapply (wp_focus_parent s1 (mk_frame d cf lf kf vf w :: fs)); [exact Hr1|done|]. cbn [par f_loc].
  eapply wp_seq; [by eapply set_color_rep|]. intros [] s2 Hr2.
  assert (Hr2' := Hr2). rewrite plug_other in Hr2'.
  apply wp_bind. eapply wp_node_child; [exact Hr2'|]. rewrite decide_False by apply other_ne.
  eapply wp_seq; [apply paint_far; [exact Hr2'|by destruct b]|]. intros [] s3 Hr3.
  rewrite <-plug_other in Hr3. destruct b as [|cb lb kb vb b1 b2]; [done|]. cbn in Hcb. subst cb. cbn [paint_t] in Hr3.
  apply wp_bind. eapply (wp_focus_parent s3 (mk_frame d BLACK lf kf vf _ :: fs)); [exact Hr3|done|]. cbn [par f_loc].
  eapply wp_seq; [by eapply rotate_spec|]. intros [] s4 Hr4. wp_step. rewrite (rep_root _ _ _ _ Hr4).
  set (t' := dnode d cf lw kw vw (dnode d BLACK lf kf vf x a) (Node BLACK lb kb vb b1 b2)) in *.
  assert (Hb' : rb (Node BLACK lb kb vb b1 b2) (S m)) by (inversion Hb; subst; by constructor).
  assert (Hx' : rb (dnode d BLACK lf kf vf x a) (S m)) by by apply rb_dblack.
  assert (∃ m', rb (plug fs t') m' ∧ color_of (plug fs t') = BLACK) as (m'&Hm'&Hcol).
  { destruct Hc as [(->&Hne&Htop&Hc)|[-> Hc]].
    - destruct (plug_rb fs t' (S m) Hc) as [m' Hm']; [apply rb_dred; rewrite ?color_dnode; done|done|].
      exists m'. split; [done|]. by eapply plug_root_black.
    - destruct (plug_rb fs t' (S (S m)) Hc) as [m' Hm']; [by apply rb_dblack|by unfold t'; rewrite color_dnode|].
      exists m'. split; [done|]. destruct fs; [by apply color_dnode|by eapply plug_root_black]. }
  exists [], (plug fs t'), m'. split_and!; try done.
  - apply plug_ne_leaf, dnode_ne.
  - by left.
  - constructor.
  - unfold same. cbn [plug]. apply inorder_plug. unfold t0, t'. destruct d; inorder_eq.
  - unfold rounds. rewrite decide_True by done. cbn.
    destruct Hc as [(->&Hne&_)|[-> _]]; [destruct fs; [done|]; cbn; rewrite decide_False by done|rewrite decide_True by done]; lia.
Qed.

(** What the frames of a node [cf] accept once its subtree lacks a black node. *)
Definition lacking (cf : Z) (fs : list frame) (m : nat) : Prop :=
  (cf = RED ∧ fs ≠ [] ∧ top_color fs = BLACK ∧ ctx_ok fs (S m)) ∨ (cf = BLACK ∧ ctx_ok fs (S (S m))).

(** When the near child is the red one, it takes the sibling's place first. *)
Lemma delete_inner s fs d cf lf kf vf x lw kw vw a b m :
  let t0 := dnode d cf lf kf vf x (dnode d BLACK lw kw vw a b) in
  rep s X (plug fs t0) → nil_par (mk_frame d cf lf kf vf x :: fs) x →
  rb a m → rb b m → color_of a = RED → color_of b = BLACK →
  wp (near ← field (rb_child d) (Some lw);
      set_field (set_rb_color BLACK) near;;
      set_field (set_rb_color RED) (Some lw);;
      rotate (other d) (Some lw);;
      xp ← field rb_parent (ptr x);
      field (rb_child (other d)) xp)
    (λ q s', ∃ la ka va p r, q = Some la ∧ color_of r = RED ∧ rb p m ∧ rb r m ∧
       let t1 := dnode d cf lf kf vf x (dnode d BLACK la ka va p r) in
       rep s' X (plug fs t1) ∧ same (plug fs t0) (plug fs t1)) s.
Proof.
  intros t0 Hr Hn Ha Hb Hca Hcb. assert (Hr0 := Hr). unfold t0 in Hr0. rewrite plug_other in Hr0.
  apply wp_bind. eapply wp_node_child; [exact Hr0|]. rewrite decide_True by done.
  destruct a as [|ca la ka va a1 a2]; [done|]. cbn in Hca. subst ca.
  eapply wp_seq; [apply paint_near; [exact Hr0|done]|]. intros [] s1 Hr1. cbn [paint_t] in Hr1.
  eapply wp_seq; [by eapply set_color_rep|]. intros [] s2 Hr2.
  destruct (node_dnode d BLACK la ka va a1 a2) as (p&q&Hpq). rewrite Hpq in Hr2.
  assert (Hpq' : Node RED la ka va a1 a2 = dnode d RED la ka va p q).
  { destruct d; cbn in Hpq |- *; congruence. }
  rewrite Hpq' in Ha. apply rb_dnode_inv in Ha as [(_&Hp&Hq&Hcp&Hcq)|[? _]]; [|done].
  rewrite <-(dnode_other d RED lw), <-(dnode_other d BLACK la) in Hr2.
  eapply wp_seq; [by eapply rotate_spec|]. intros [] s3 Hr3.
  rewrite (dnode_other d BLACK la), dnode_other, <-plug_other in Hr3.
  apply wp_bind. eapply (wp_focus_parent s3 (mk_frame d cf lf kf vf _ :: fs)); [exact Hr3|done|]. cbn [par f_loc].
  eapply wp_node_child; [exact Hr3|]. rewrite decide_False by apply other_ne. rewrite ptr_dnode.
  eexists la, ka, va, p, _. split_and!; [done| |done| |exact Hr3|].
  - by rewrite color_dnode.
  - by apply rb_dred.
  - apply inorder_plug. unfold t0. rewrite Hpq'. destruct d; inorder_eq.
Qed.

Lemma delete_black_spec s fs d cf lf kf vf x lw kw vw a b m :
  let t0 := dnode d cf lf kf vf x (dnode d BLACK lw kw vw a b) in
  rep s X (plug fs t0) → nil_par (mk_frame d cf lf kf vf x :: fs) x →
  rb x m → rb a m → rb b m → color_of x = BLACK → lacking cf fs m →
  wp (delete_black d (ptr x) (Some lw))
    (delete_post (plug fs t0) (length fs + (if decide (cf = BLACK) then 2 else 1))) s.
Proof.
  intros t0 Hr Hn Hx Ha Hb Hcx Hc. assert (Hr0 := Hr). unfold t0 in Hr0. rewrite plug_other in Hr0.
  unfold delete_black. change rb_left with (rb_child Left). change rb_right with (rb_child Right).
  apply wp_bind. eapply wp_node_child; [exact Hr0|]. apply wp_bind. eapply wp_child_color; [exact Hr0|].
  apply wp_bind. eapply wp_node_child; [exact Hr0|]. apply wp_bind. eapply wp_child_color; [exact Hr0|].
  replace (_ && _) with ((color_of a =? BLACK) && (color_of b =? BLACK)) by (destruct d; [done|apply andb_comm]).
  destruct ((color_of a =? BLACK) && (color_of b =? BLACK)) eqn:Hboth.
  - apply andb_true_iff in Hboth as [Hca%Z.eqb_eq Hcb%Z.eqb_eq].
    eapply wp_seq; [by eapply set_color_rep|]. intros [] s1 Hr1. rewrite <-plug_other in Hr1.
    eapply (wp_focus_parent s1 (mk_frame d cf lf kf vf _ :: fs)); [exact Hr1|done|]. cbn [par f_loc].
    set (t1 := dnode d cf lf kf vf x (dnode d RED lw kw vw a b)) in *.
    assert (Hw : rb (dnode d RED lw kw vw a b) m) by by apply rb_dred.
    eexists fs, t1, (if decide (cf = BLACK) then S m else m). split_and!; [done| | | | | |].
    + unfold t1. by rewrite ptr_dnode.
    + apply dnode_ne.
    + unfold deficient, t1. rewrite paint_dnode, color_dnode. destruct Hc as [[-> _]|[-> _]].
      * right. rewrite decide_False by done. split; [done|]. by apply rb_dblack.
      * left. rewrite decide_True by done. split; [done|]. by apply rb_dblack.
    + destruct Hc as [(->&_&_&Hc)|[-> Hc]]; [by rewrite decide_False|by rewrite decide_True].
    + apply inorder_plug. unfold t0, t1. destruct d; inorder_eq.
    + unfold rounds, t1. rewrite color_dnode. destruct (decide _); lia.
  - apply wp_bind. eapply wp_node_child; [exact Hr0|]. apply wp_bind. eapply wp_child_color; [exact Hr0|].
    rewrite (decide_False (P:=other d = d)) by apply other_ne.
    destruct (decide (color_of b = BLACK)) as [Hcb|Hcb].
    + rewrite Hcb in *. change (BLACK =? BLACK) with true in *. cbv iota. rewrite andb_true_r in Hboth.
      apply Z.eqb_neq in Hboth. destruct (rb_red_or_black _ _ Ha) as [Hca|]; [|done].
      eapply wp_seq; [by apply (delete_inner s fs d cf lf kf vf x lw kw vw a b m)|].
      intros q s1 (la&ka&va&p&r&->&Hcr&Hp&Hrr&Hr1&Hs1).
      eapply wp_mono; [by apply (delete_last s1 fs d cf lf kf vf x la ka va p r m)|].
      intros q s2 (fs2&t2&m2&?&?&?&?&?&?&?). exists fs2, t2, m2. split_and!; try done. unfold same in *; etrans; done.
    + rewrite (proj2 (Z.eqb_neq _ _)) by done. apply wp_bind, wp_ret.
      destruct (rb_red_or_black _ _ Hb) as [Hcb'|]; [|done].
      by apply (delete_last s fs d cf lf kf vf x lw kw vw a b m).
Qed.

Lemma lacking_inv f fs m : ctx_ok (f :: fs) (S m) → lacking (f_color f) fs m ∧ rb (f_sib f) (S m) ∧
  (f_color f = RED → color_of (f_sib f) = BLACK).
Proof.
  unfold lacking. inversion 1 as [|? ? ? Hf|? ? ? Hf]; subst; rewrite Hf; split_and!; try done; auto.
Qed.

Lemma delete_round_spec s f fs x m d :
  rep s X (plug (f :: fs) x) → nil_par (f :: fs) x → f_side f = d →
  rb x m → color_of x = BLACK → ctx_ok (f :: fs) (S m) →
  wp (delete_round d (ptr x)) (delete_post (plug (f :: fs) x) (length fs + 2)) s.
Proof.
  intros Hr Hn Hd Hx Hcx Hctx. destruct (lacking_inv _ _ _ Hctx) as (Hl&Hw&Hfw).
  destruct f as [? cf lf kf vf w]. cbn in Hd, Hl, Hw, Hfw. subst.
  assert (Hwn : w ≠ Leaf) by by eapply rb_nonleaf.
  destruct w as [|cw lw kw vw w1 w2]; [done|]. destruct (node_dnode d cw lw kw vw w1 w2) as (a&b&Hab).
  rewrite Hab in *. clear Hab w1 w2 Hwn. frames_in Hr. frames. unfold delete_round.
  apply wp_bind. eapply (wp_focus_parent s (mk_frame d cf lf kf vf _ :: fs)); [exact Hr|done|]. cbn [par f_loc].
  apply wp_bind. eapply wp_node_child; [exact Hr|]. rewrite decide_False by apply other_ne. rewrite ptr_dnode.
  assert (Hr0 := Hr). rewrite plug_other in Hr0.
  apply wp_bind. eapply wp_field; [by eapply rep_lookup|]. rewrite color_dn.
  rewrite color_dnode in Hfw.
  apply rb_dnode_inv in Hw as [(->&Ha&Hb&Hca&Hcb)|(->&m'&[= <-]&Ha&Hb)].
  - (* the sibling is red *)
    destruct Hl as [(->&_)|[-> Hc]]; [by specialize (Hfw eq_refl)|].
    change (RED =? RED) with true. cbv iota. apply wp_bind.
    eapply wp_seq; [by eapply set_color_rep|]. intros [] s1 Hr1. rewrite <-plug_other in Hr1.
    apply wp_bind. eapply (wp_focus_parent s1 (mk_frame d BLACK lf kf vf _ :: fs)); [exact Hr1|done|]. cbn [par f_loc].
    eapply wp_seq; [by eapply set_color_rep|]. intros [] s2 Hr2.
    apply wp_bind. eapply (wp_focus_parent s2 (mk_frame d RED lf kf vf _ :: fs)); [exact Hr2|done|]. cbn [par f_loc].
    eapply wp_seq; [by eapply rotate_spec|]. intros [] s3 Hr3.
    change (plug fs (dnode d BLACK lw kw vw ?t b)) with (plug (mk_frame d BLACK lw kw vw b :: fs) t) in Hr3.
    apply wp_bind. eapply (wp_focus_parent s3 (mk_frame d RED lf kf vf a :: mk_frame d BLACK lw kw vw b :: fs)); [exact Hr3|done|]. cbn [par f_loc].
    eapply wp_node_child; [exact Hr3|]. rewrite decide_False by apply other_ne.
    assert (Han : a ≠ Leaf) by by eapply rb_nonleaf.
    destruct a as [|ca la ka va a1 a2]; [done|]. cbn in Hca. subst ca. cbn [KvRbShape.ptr].
    destruct (node_dnode d BLACK la ka va a1 a2) as (p&q&Hpq). rewrite Hpq in Hr3, Ha |- *.
    apply rb_dnode_inv in Ha as [[? _]|(_&m'&[= <-]&Hp&Hq)]; [done|].
    eapply wp_mono; [apply (delete_black_spec s3 (mk_frame d BLACK lw kw vw b :: fs) d RED lf kf vf x la ka va p q m); try done|].
    { left. split_and!; try done. by constructor. }
    intros r s4 (fs2&t2&m2&?&?&?&?&?&Hs4&Hlt). exists fs2, t2, m2. split_and!; try done.
    + unfold same in *. rewrite <-Hs4. cbn [plug]. apply inorder_plug. frames. destruct d; inorder_eq.
    + rewrite decide_False in Hlt by done. cbn in Hlt. lia.
  - (* the sibling is black *)
    change (BLACK =? RED) with false. cbv iota. apply wp_bind, wp_ret.
    eapply wp_mono; [by apply (delete_black_spec s fs d cf lf kf vf x lw kw vw a b m)|].
    intros r s4 (fs2&t2&m2&?&?&?&?&?&Hs4&Hlt). exists fs2, t2, m2. split_and!; try done.
    destruct (decide (cf = BLACK)); lia.
Qed.

Lemma deficient_black t m : deficient t m → ∃ m', rb (paint_t BLACK t) m'.
Proof. intros [[_ Ht]|[_ Ht]]; [by eapply rb_paint_black|by exists (S m)]. Qed.
Lemma deficient_color t m : deficient t m → color_of t ≠ BLACK → color_of t = RED.
Proof. intros [[? _]|[? _]]; done. Qed.

(** The focus is the root exactly when nothing is above it. *)
Lemma focus_root s fs t : rep s X (plug fs t) → ptr t = rt_root s ↔ fs = [].
Proof.
  intros Hr. rewrite (rep_root _ _ _ _ Hr). rewrite ptr_plug. split; [|by intros ->]. destruct fs as [|f fs]; [done|].
  cbn [rootp]. intros Heq. exfalso.
  assert (Hin : ∀ gs q, ∃ l, rootp gs (Some q) = Some l ∧ l ∈ q :: flocs gs).
  { induction gs as [|g gs IH]; intros q; cbn [rootp flocs]; [exists q; split; [done|left]|].
    destruct (IH (f_loc g)) as (l&->&Hl). exists l. split; [done|]. set_solver. }
  destruct (Hin fs (f_loc f)) as (l&Hl&Hlin). rewrite Hl in Heq.
  pose proof (rep_ne_nil n s X (f :: fs) t l HX Hr) as Hne. apply rep_split in Hr as (_&_&Hnd).
  destruct t as [|c lt k v a b]; cbn [KvRbShape.ptr flocs locs app] in *.
  - apply Hne; [|done]. set_solver.
  - injection Heq as <-. rewrite NoDup_cons, !NoDup_app in Hnd. set_solver.
Qed.

Lemma delete_fixup_loop_spec fuel fs x m s :
  (rounds fs x < fuel)%nat → rep s X (plug fs x) → nil_par fs x → deficient x m → ctx_ok fs (S m) →
  wp (delete_fixup_loop fuel (ptr x))
    (λ q s', ∃ fs' x', rep s' X (plug fs' x') ∧ q = ptr x' ∧ same (plug fs x) (plug fs' x') ∧
       ∃ m', rb (plug fs' (paint_t BLACK x')) m' ∧ color_of (plug fs' (paint_t BLACK x')) = BLACK) s.
Proof.
  revert fs x m s. induction fuel as [|fuel IH]; intros fs x m s Hf Hr Hn Hx Hc; [lia|].
  cbn [delete_fixup_loop]. wp_step.
  destruct (decide (ptr x = rt_root s)) as [Hroot|Hroot].
  { apply wp_ret. exists fs, x. split_and!; try done. apply (focus_root s fs x Hr) in Hroot as ->.
    destruct (deficient_black x m Hx) as [m' Hm']. exists m'. split; [done|]. by destruct x. }
  apply wp_bind. eapply wp_field_color; [done|exact Hr|].
  destruct (decide (color_of x = BLACK)) as [Hcx|Hcx].
  - rewrite Hcx. change (BLACK =? BLACK) with true. cbv iota.
    destruct Hx as [[_ Hx]|[Hcx' _]]; [|by rewrite Hcx in Hcx'].
    destruct fs as [|f fs]; [by destruct Hroot; apply (focus_root s [])|].
    apply wp_bind. eapply (wp_focus_parent s (f :: fs)); [exact Hr|done|]. cbn [par].
    apply wp_assoc, (wp_seq _ _ (delete_post (plug (f :: fs) x) (length fs + 2))).
    { destruct (lacking_inv _ _ _ Hc) as (_&Hw&_).
      apply (wp_is_left s f fs x); [exact Hr|right; by eapply rb_nonleaf|].
      destruct (f_side f) eqn:Hd; by eapply delete_round_spec. }
    intros q s1 (fs1&x1&m1&Hr1&->&Hx1&Hdef&Hc1&Hs1&Hlt).
    eapply wp_mono; [apply (IH fs1 x1 m1 s1); try done|].
    { unfold rounds in *. rewrite decide_True in Hf by done. cbn in Hf. lia. }
    { by intros ?. }
    intros q s2 (fs2&x2&?&?&?&?). exists fs2, x2. split_and!; try done. unfold same in *; by etrans.
  - rewrite (proj2 (Z.eqb_neq _ _)) by done. apply wp_ret. exists fs, x. split_and!; try done.
    destruct Hx as [[? _]|[_ Hx]]; [done|].
    destruct (plug_rb fs (paint_t BLACK x) (S m) Hc Hx) as [m' Hm']; [by destruct x|]. exists m'. split; [done|].
    eapply plug_root_black; [done|]. intros ->. by destruct Hroot; apply (focus_root s []).
Qed.

Lemma delete_fixup_spec s fs x m :
  rep s X (plug fs x) → nil_par fs x → deficient x m → ctx_ok fs (S m) →
  wp (rbtree_delete_fixup (ptr x))
    (λ _ s', ∃ t m', rep s' X t ∧ rb t m' ∧ color_of t = BLACK ∧ same (plug fs x) t) s.
Proof.
  intros Hr Hn Hx Hc. unfold rbtree_delete_fixup. wp_step.
  eapply wp_mono; [eapply delete_fixup_loop_spec; try done|].
  { pose proof (rep_size n s X _ HX Hr). rewrite locs_plug, length_app in *. pose proof (length_flocs fs).
    unfold rounds. destruct (decide _); lia. }
  intros q s1 (fs1&x1&Hr1&->&Hs1&m1&Hm1&Hc1).
  eapply wp_mono; [apply (paint_focus s1 fs1 x1 BLACK Hr1); by right|]. intros [] s2 Hr2.
  exists (plug fs1 (paint_t BLACK x1)), m1. split_and!; try done.
  unfold same in *. rewrite Hs1. apply inorder_plug. by destruct x1.
Qed.
End fix_.
