(* ===== verification/KvRbOps.v ===== *)
(** The red-black tree engine: what searching, inserting and deleting do to the
    represented tree. *)
From stdpp Require Import sorting.
From S2P Require Import Prelude KvMem KvSpec KvRbtree KvRbShape KvRbFix.

(** ** Order *)

(** The entries before and after the focus. *)
Fixpoint fl (fs : list frame) : list (string * string) :=
  match fs with
  | [] => []
  | f :: fs => match f_side f with Left => fl fs | Right => fl fs ++ inorder (f_sib f) ++ [(f_key f, f_value f)] end
  end.
Fixpoint fr (fs : list frame) : list (string * string) :=
  match fs with
  | [] => []
  | f :: fs => match f_side f with Left => (f_key f, f_value f) :: inorder (f_sib f) ++ fr fs | Right => fr fs end
  end.
Lemma inorder_split fs t : inorder (plug fs t) = fl fs ++ inorder t ++ fr fs.
Proof.
  revert t. induction fs as [|f fs IH]; intros t; cbn [plug fl fr]; [by rewrite app_nil_r|].
  rewrite IH. unfold plug1. destruct (f_side f); inorder_eq.
Qed.
Lemma fl_app fs gs : fl (fs ++ gs) = fl gs ++ fl fs.
Proof.
  induction fs as [|f fs IH]; cbn; [by rewrite app_nil_r|]. rewrite IH. destruct (f_side f); inorder_eq.
Qed.
Lemma fr_app fs gs : fr (fs ++ gs) = fr fs ++ fr gs.
Proof. induction fs as [|f fs IH]; cbn; [done|]. rewrite IH. destruct (f_side f); inorder_eq. Qed.

Definition sorted (L : list (string * string)) : Prop := StronglySorted str_lt L.*1.
Lemma sorted_app L1 L2 :
  sorted (L1 ++ L2) ↔ sorted L1 ∧ sorted L2 ∧ ∀ x y, x ∈ L1.*1 → y ∈ L2.*1 → str_lt x y.
Proof. unfold sorted. rewrite fmap_app, StronglySorted_app. tauto. Qed.
Lemma sorted_cons k v L : sorted ((k, v) :: L) ↔ sorted L ∧ ∀ y, y ∈ L.*1 → str_lt k y.
Proof.
  unfold sorted. rewrite fmap_cons. cbn. split.
  - intros [Hs Hf]%StronglySorted_inv. by rewrite Forall_forall in Hf.
  - intros [Hs Hf]. constructor; [done|]. by apply Forall_forall.
Qed.
Lemma sorted_keys_nodup L : sorted L → NoDup L.*1.
Proof.
  unfold sorted. induction 1 as [|k ks Hs IH Hf]; constructor; [|done]. intros Hin.
  rewrite Forall_forall in Hf. by apply (str_lt_irrefl k), Hf.
Qed.
Lemma sorted_remove pre e post : sorted (pre ++ e :: post) → sorted (pre ++ post).
Proof.
  destruct e as [k v]. rewrite !sorted_app, sorted_cons. intros (?&[? ?]&Hlt). split_and!; try done.
  intros x y Hx Hy. apply Hlt; [done|]. rewrite fmap_cons. by right.
Qed.
Lemma sorted_value pre k v w post : sorted (pre ++ (k, v) :: post) → sorted (pre ++ (k, w) :: post).
Proof. unfold sorted. by rewrite !fmap_app, !fmap_cons. Qed.

(** The keys around the focus are on their sides of [key]. *)
Definition brackets (key : string) (fs : list frame) : Prop :=
  (∀ x, x ∈ (fl fs).*1 → str_lt x key) ∧ (∀ x, x ∈ (fr fs).*1 → str_lt key x).

Lemma brackets_step key c l k v a b fs d :
  sorted (inorder (plug fs (Node c l k v a b))) → brackets key fs →
  (if d is Left then str_lt key k else str_lt k key) →
  brackets key (mk_frame d c l k v (if d is Left then b else a) :: fs).
Proof.
  rewrite inorder_split. cbn [inorder]. rewrite !sorted_app, sorted_cons.
  intros (_&((_&[_ Hkb]&Hab)&_&_)&_) [Hl Hr] Hd.
  destruct d; (split; cbn [fl fr f_side f_key f_value f_sib]); try done; intros x.
  - rewrite fmap_cons, fmap_app. intros [->|[Hx|Hx]%elem_of_app]%elem_of_cons; [done| |by apply Hr].
    etrans; [exact Hd|]. by apply Hkb.
  - rewrite !fmap_app. intros [Hx|[Hx| ->%list_elem_of_singleton]%elem_of_app]%elem_of_app; [by apply Hl| |done].
    etrans; [|exact Hd]. apply Hab; [done|]. rewrite fmap_cons. left.
Qed.
Lemma brackets_absent key fs : brackets key fs → key ∉ (inorder (plug fs Leaf)).*1.
Proof.
  intros [Hl Hr]. rewrite inorder_split. cbn. rewrite fmap_app.
  intros [Hx|Hx]%elem_of_app; [apply Hl in Hx|apply Hr in Hx]; by apply str_lt_irrefl in Hx.
Qed.

(** ** Height *)

Fixpoint height (t : tree) : nat :=
  match t with Leaf => 0 | Node _ _ _ _ a b => S (height a `max` height b) end.
Lemma height_locs t : (height t ≤ length (locs t))%nat.
Proof. induction t as [|c l k v a IHa b IHb]; cbn; [lia|]. rewrite length_app. lia. Qed.
(** At most every other node of a path is red, and the black ones make a full tree. *)
Lemma rb_height t m : rb t m → (height t ≤ 2 * m + (if decide (color_of t = RED) then 1 else 0))%nat.
Proof.
  induction 1 as [|l k v a b m Ha IHa Hb IHb Hca Hcb|l k v a b m Ha IHa Hb IHb]; cbn [height color_of]; [lia| |].
  - rewrite decide_True by done. rewrite decide_False in IHa by (by rewrite Hca). rewrite decide_False in IHb by (by rewrite Hcb). lia.
  - rewrite decide_False by done. destruct (decide (color_of a = RED)), (decide (color_of b = RED)); lia.
Qed.
Lemma rb_size t m : rb t m → (2 ^ m ≤ S (length (locs t)))%nat.
Proof.
  induction 1 as [|l k v a b m Ha IHa Hb IHb Hca Hcb|l k v a b m Ha IHa Hb IHb]; cbn [locs length]; [done| |];
    rewrite length_app; [lia|]. rewrite Nat.pow_succ_r'. lia.
Qed.
Lemma rb_log_height t m :
  rb t m → color_of t = BLACK → (height t ≤ 2 * Nat.log2 (S (length (locs t))))%nat.
Proof.
  intros Ht Hc. pose proof (rb_height t m Ht) as Hh. rewrite decide_False in Hh by (by rewrite Hc).
  apply rb_size, Nat.log2_le_mono in Ht. rewrite Nat.log2_pow2 in Ht by lia. lia.
Qed.

(** A red-black tree taken apart at the focus. *)
Lemma rb_unplug fs t m :
  rb (plug fs t) m → color_of (plug fs t) = BLACK →
  ∃ m', ctx_ok fs m' ∧ rb t m' ∧ (color_of t = RED → fs ≠ [] ∧ top_color fs = BLACK).
Proof.
  revert t. induction fs as [|f fs IH]; intros t Ht Hc; cbn [plug] in *.
  { exists m. split_and!; [constructor|done|]. intros Hr. by rewrite Hr in Hc. }
  destruct (IH _ Ht Hc) as (m1&Hctx&Ht1&Hcol). unfold plug1 in Ht1, Hcol. rewrite color_dnode in Hcol.
  apply rb_dnode_inv in Ht1 as [(Hf&Hrt&Hrs&Hct&Hcs)|(Hf&m2&->&Hrt&Hrs)].
  - destruct (Hcol Hf) as [? ?]. exists m1. split_and!; [by apply ok_red|done|]. intros Hr. by rewrite Hr in Hct.
  - exists m2. split_and!; [by apply ok_black|done|]. by intros _.
Qed.

Section ops.
Context (n : loc).
Abbreviation nl := (Some n).
Abbreviation rep := (KvRbShape.rep n).
Abbreviation ptr := (KvRbShape.ptr n).
Abbreviation par := (KvRbShape.par n).
Abbreviation has_nil := (KvRbShape.has_nil n).
Implicit Types (X : gmap loc rbtree_node).

(** ** Searching *)

Lemma wp_node_key s X fs c l k v a b (Q : string → rbtree → Prop) :
  rep s X (plug fs (Node c l k v a b)) → Q k s →
  wp (key ← field rb_key (Some l); read_str key) Q s.
Proof.
  intros Hr HQ. apply wp_bind. eapply wp_field; [by apply (rep_lookup n s X fs Left c l k v a b)|]. done.
Qed.

Lemma search_loop_spec fuel key s X fs t :
  (height t < fuel)%nat → has_nil X → rep s X (plug fs t) → sorted (inorder (plug fs t)) → brackets key fs →
  wp (search_loop fuel (ptr t) key)
    (λ q s', s' = s ∧
       ((∃ gs c l v a b, plug fs t = plug gs (Node c l key v a b) ∧ q = Some l) ∨
        (key ∉ (inorder (plug fs t)).*1 ∧ q = nl))) s.
Proof.
  revert fs t. induction fuel as [|fuel IH]; intros fs t Hf HX Hr Hs Hb; [lia|]. cbn [search_loop].
  unfold T_nil. wp_step. rewrite (rep_nil _ _ _ _ Hr). destruct t as [|c l k v a b]; cbn [KvRbShape.ptr].
  { rewrite decide_True by done. apply wp_ret. split; [done|]. right. split; [by apply brackets_absent|done]. }
  rewrite decide_False by (eapply (rep_ne_nil n s X fs); [done|exact Hr|rewrite elem_of_app; right; left]).
  cbn [height] in Hf.
  apply wp_assoc, wp_bind. eapply wp_node_key; [exact Hr|].
  destruct (str_trichotomy key k) as [Hlt|[->|Hlt]].
  - rewrite (proj2 (Z.ltb_lt _ _)) by by apply strcmp_lt.
    apply wp_bind. eapply wp_field; [by apply (rep_lookup n s X fs Left c l k v a b)|].
    apply (IH (mk_frame Left c l k v b :: fs) a); try done; [lia|]. by apply (brackets_step key c l k v a b fs Left).
  - rewrite strcmp_refl. cbn. split; [done|]. left. by exists fs, c, l, v, a, b.
  - assert (strcmp key k <? 0 = false) as -> by (apply Z.ltb_ge; pose proof (proj2 (strcmp_gt key k) Hlt); lia).
    rewrite (proj2 (Z.ltb_lt _ _)) by by apply strcmp_gt.
    apply wp_bind. eapply wp_field; [by apply (rep_lookup n s X fs Left c l k v a b)|].
    apply (IH (mk_frame Right c l k v a :: fs) b); try done; [lia|]. by apply (brackets_step key c l k v a b fs Right).
Qed.
Lemma search_spec key s X t :
  has_nil X → rep s X t → sorted (inorder t) →
  wp (rbtree_search key)
    (λ q s', s' = s ∧
       ((∃ gs c l v a b, t = plug gs (Node c l key v a b) ∧ q = Some l) ∨
        (key ∉ (inorder t).*1 ∧ q = nl))) s.
Proof.
  intros HX Hr Hs. unfold rbtree_search. wp_step. rewrite (rep_root _ _ _ _ Hr).
  apply (search_loop_spec _ key s X []); try done; [|by split; intros ? ?%not_elem_of_nil].
  pose proof (rep_size n s X t HX Hr). pose proof (height_locs t). lia.
Qed.

(** ** The least node *)

Lemma extreme_left_spec fuel s X fs c l k v a b :
  (length (locs (Node c l k v a b)) ≤ fuel)%nat → has_nil X → rep s X (plug fs (Node c l k v a b)) →
  wp (extreme fuel Left (Some l))
    (λ q s', s' = s ∧ ∃ gs c' l' k' v' r, Node c l k v a b = plug gs (Node c' l' k' v' Leaf r) ∧ fl gs = [] ∧ q = Some l') s.
Proof.
  revert fs c l k v a b. induction fuel as [|fuel IH]; intros fs c l k v a b Hf HX Hr; [by apply Nat.le_0_r in Hf|].
  cbn [extreme]. apply wp_bind. eapply wp_field; [by apply (rep_lookup n s X fs Left c l k v a b)|].
  unfold T_nil. wp_step. rewrite (rep_nil _ _ _ _ Hr). cbn [rb_child dn rb_left].
  destruct a as [|ca la ka va a1 a2].
  - rewrite decide_True by done. apply wp_ret. split; [done|]. by exists [], c, l, k, v, b.
  - assert (Hr' : rep s X (plug (mk_frame Left c l k v b :: fs) (Node ca la ka va a1 a2))) by done.
    rewrite decide_False by (eapply (rep_ne_nil n s X _); [done|exact Hr'|rewrite elem_of_app; right; left]).
    eapply wp_mono; [eapply IH; try done; cbn [locs length] in *; rewrite !length_app in *; cbn [length] in *; rewrite ?length_app in *; lia|].
    intros q s' (->&gs&c'&l'&k'&v'&r&Heq&Hfl&->). split; [done|].
    exists (gs ++ [mk_frame Left c l k v b]), c', l', k', v', r. split_and!; [|by rewrite fl_app|done].
    rewrite plug_app, <-Heq. done.
Qed.
Lemma mini_spec s X fs c l k v a b :
  has_nil X → rep s X (plug fs (Node c l k v a b)) →
  wp (rbtree_mini (Some l))
    (λ q s', s' = s ∧ ∃ gs c' l' k' v' r, Node c l k v a b = plug gs (Node c' l' k' v' Leaf r) ∧ fl gs = [] ∧ q = Some l') s.
Proof.
  intros HX Hr. unfold rbtree_mini. wp_step. eapply extreme_left_spec; [|done|exact Hr].
  pose proof (rep_size n s X _ HX Hr) as Hsz. rewrite locs_plug, length_app in Hsz. lia.
Qed.
Lemma successor_spec s X fs c l k v a cb lb kb vb b1 b2 :
  has_nil X → rep s X (plug fs (Node c l k v a (Node cb lb kb vb b1 b2))) →
  wp (rbtree_successor (Some l))
    (λ q s', s' = s ∧ ∃ gs c' l' k' v' r,
       Node cb lb kb vb b1 b2 = plug gs (Node c' l' k' v' Leaf r) ∧ fl gs = [] ∧ q = Some l') s.
Proof.
  intros HX Hr. pose proof (rep_lookup n s X fs Left c l k v _ _ Hr) as Hl. unfold rbtree_successor.
  apply wp_bind. eapply wp_field; [exact Hl|]. apply wp_bind. eapply wp_field; [exact Hl|].
  unfold T_nil. wp_step. rewrite (rep_nil _ _ _ _ Hr). cbn [dn rb_right KvRbShape.ptr].
  assert (Hr' : rep s X (plug (mk_frame Right c l k v a :: fs) (Node cb lb kb vb b1 b2))) by done.
  rewrite decide_False by (eapply (rep_ne_nil n s X _); [done|exact Hr'|rewrite elem_of_app; right; left]).
  apply wp_bind. eapply wp_field; [exact Hl|]. by eapply mini_spec.
Qed.

(** ** Unlinking *)

(** The sentinel with a recorded parent. *)
Definition nil_node (p : option loc) : rbtree_node := mk_rb BLACK nl nl p CNull CNull.
Definition with_nil (x : tree) (p : option loc) X : gmap loc rbtree_node :=
  if x is Leaf then <[n:=nil_node p]> X else X.
Lemma with_nil_ne x p X l : l ≠ n → with_nil x p X !! l = X !! l.
Proof. intros. destruct x; [by apply lookup_insert_ne|done]. Qed.
Lemma with_nil_has x p X : has_nil X → has_nil (with_nil x p X).
Proof. intros HX. destruct x; [|done]. exists p. apply lookup_insert_eq. Qed.
Lemma has_nil_insert X l y : has_nil X → l ≠ n → has_nil (<[l:=y]> X).
Proof. intros [p Hp] Hl. exists p. by rewrite lookup_insert_ne. Qed.

(** x->parent = y->parent, where x may be the sentinel *)
Lemma wp_set_par s X fs x p (Q : unit → rbtree → Prop) :
  has_nil X → rep s X (plug fs x) →
  (∀ h, (∀ l, h !! l = if decide (Some l = ptr x) then set_rb_parent p <$> rt_heap s !! l else rt_heap s !! l) →
     (x = Leaf → h !! n = Some (nil_node p)) → Q () (with_heap h s)) →
  wp (set_field (set_rb_parent p) (ptr x)) Q s.
Proof.
  intros HX Hr HQ. destruct (rep_color n s X fs x HX Hr) as (l&y&Hp&Hl&_). rewrite Hp. eapply wp_set_field; [exact Hl|].
  apply HQ.
  - intros l'. destruct (decide (Some l' = ptr x)) as [Heq|Hne].
    + rewrite Hp in Heq. injection Heq as ->. by rewrite lookup_insert_eq, Hl.
    + rewrite lookup_insert_ne; [done|]. intros ->. by rewrite Hp in Hne.
  - intros ->. cbn in Hp. injection Hp as <-. rewrite lookup_insert_eq.
    destruct (rep_lookup_nil n s X _ HX Hr) as [p0 Hp0]. rewrite Hl in Hp0. by injection Hp0 as ->.
Qed.

(** A node with one child [x] is unlinked from the tree. *)
Lemma splice_spec s X fs d c l k v x (Q : unit → rbtree → Prop) :
  has_nil X → rep s X (plug fs (dnode d c l k v Leaf x)) →
  (∀ s', rep s' (<[l:=dn d c nl (ptr x) (par fs) k v]> (with_nil x (par fs) X)) (plug fs x) → Q () s') →
  wp (p ← field rb_parent (Some l);
      set_field (set_rb_parent p) (ptr x);;
      p ← field rb_parent (Some l);
      replace_child Left p (Some l) (ptr x)) Q s.
Proof.
  intros HX Hr HQ. pose proof (rep_lookup n s X fs d c l k v _ _ Hr) as Hl.
  destruct (rep_split n s X fs _ Hr) as (Hcx&Ht&Hnd). rewrite ptr_dnode in Hcx.
  apply tr_dnode in Ht as (_&_&Ht). cbn [KvRbShape.ptr] in Hl.
  assert (Hne : ∀ l', l' ∈ flocs fs ++ l :: locs x → l' ≠ n).
  { intros l' Hin ->. eapply (rep_ne_nil n s X fs _ n HX Hr); [|done]. rewrite elem_of_app, locs_dnode in *. exact Hin. }
  rewrite locs_dnode in Hnd. cbn [locs app] in Hnd.
  assert (NoDup (flocs fs) ∧ l ∉ flocs fs ∧ l ∉ locs x ∧ NoDup (locs x) ∧ (∀ l', l' ∈ locs x → l' ∉ flocs fs)) as (Hnf&Hlf&Hlx&Hnx&Hxf).
  { rewrite NoDup_app, NoDup_cons in Hnd. set_solver. }
  assert (Hxp : ∀ l', Some l' = ptr x → l' ∉ l :: flocs fs).
  { intros l' Heq Hin. assert (l' = n ∨ l' ∈ locs x) as [->|Hlx'].
    { destruct x as [|c' lx kx vx xa xb]; injection Heq as ->; [by left|right; left]. }
    - apply (Hne n); [|done]. set_solver.
    - set_solver. }
  apply wp_bind. eapply wp_field; [exact Hl|]. rewrite parent_dn. apply wp_bind.
  eapply (wp_set_par s X (mk_frame (other d) c l k v Leaf :: fs) x); [done|by rewrite <-plug_other|].
  intros h Hh Hhn.
  assert (Hh1 : ∀ l', l' ∈ l :: flocs fs → h !! l' = rt_heap s !! l').
  { intros l' Hin. rewrite Hh, decide_False; [done|]. intros Heq. by apply (Hxp l'). }
  apply wp_bind. eapply wp_field; [cbn; rewrite Hh1 by left; exact Hl|]. rewrite parent_dn.
  eapply (replace_child_spec n Left _ fs l (ptr x) x); cbn [rt_nil rt_heap rt_root with_heap].
  - apply Hr.
  - intros l' Hin [= ->]. by apply (Hne n); [apply elem_of_app; left|].
  - intros [= ->]. apply (Hne n); [|done]. apply elem_of_app. right. left.
  - done.
  - done.
  - eapply cx_frame; [|exact Hcx]. intros l' Hin. apply Hh1. by right.
  - rewrite (rep_root _ _ _ _ Hr), ptr_plug, ptr_dnode. done.
  - done.
  - intros s' Hn' Hc' Hr' Hh'. apply HQ. pose proof Hr as [_ _ _ _ Hout Hrest]. constructor.
    + apply tr_plug. split; [done|].
      eapply (tr_frame _ h); [intros l' Hin; apply Hh'; by apply Hxf|].
      eapply tr_reparent; [done|exact Ht|]. intros l' _. apply Hh.
    + by rewrite ptr_plug.
    + done.
    + rewrite locs_plug, NoDup_app. split_and!; [done|set_solver|done].
    + intros l'. rewrite locs_plug. intros Hin. rewrite lookup_insert_ne by (intros ->; set_solver).
      rewrite with_nil_ne by (apply Hne; set_solver). apply Hout. rewrite locs_plug, locs_dnode. set_solver.
    + intros l'. rewrite locs_plug. intros Hin. rewrite Hh' by set_solver.
      destruct (decide (l' = l)) as [->|Hll]; [rewrite lookup_insert_eq, Hh1 by left; exact Hl|].
      rewrite lookup_insert_ne by done. destruct (decide (Some l' = ptr x)) as [Heq|Hnx'].
      * destruct x as [|cx lx kx vx xa xb]; [|injection Heq as ->; set_solver].
        injection Heq as ->. cbn [with_nil]. rewrite lookup_insert_eq. by apply Hhn.
      * rewrite Hh, decide_False by done. rewrite Hrest by (rewrite locs_plug, locs_dnode; set_solver).
        destruct x; [|done]. cbn [with_nil]. rewrite lookup_insert_ne; [done|]. intros ->. done.
Qed.

(** ** Deletion *)

(** From the node y that leaves the tree to the end of the unlinking; [K] is the rest. *)
Lemma unlink_spec {A} (K : option loc → M rbtree A) s X fs d c l k v x Q :
  has_nil X → rep s X (plug fs (dnode d c l k v Leaf x)) →
  (∀ s', rep s' (<[l:=dn d c nl (ptr x) (par fs) k v]> (with_nil x (par fs) X)) (plug fs x) → wp (K (ptr x)) Q s') →
  wp (yl ← field rb_left (Some l);
      yr ← field rb_right (Some l);
      let x := if decide (yl = nl) then yr else yl in
      p ← field rb_parent (Some l);
      set_field (set_rb_parent p) x;;
      p ← field rb_parent (Some l);
      replace_child Left p (Some l) x;;
      K x) Q s.
Proof.
  intros HX Hr HK. change rb_left with (rb_child Left). change rb_right with (rb_child Right).
  apply wp_bind. eapply wp_node_child; [exact Hr|]. apply wp_bind. eapply wp_node_child; [exact Hr|].
  assert (∀ y, y = ptr x →
    wp (p ← field rb_parent (Some l); set_field (set_rb_parent p) y;; p ← field rb_parent (Some l);
        replace_child Left p (Some l) y;; K y) Q s) as Hgo.
  { intros y ->. pose proof (splice_spec s X fs d c l k v x (λ _, wp (K (ptr x)) Q) HX Hr HK) as Hs.
    unfold wp, bind in *. destruct (field rb_parent (Some l) s) as [[p s1]| |]; try done.
    destruct (set_field _ _ s1) as [[[] s2]| |]; try done.
    destruct (field rb_parent (Some l) s2) as [[p' s3]| |]; try done.
    by destruct (replace_child _ _ _ _ s3) as [[[] s4]| |]. }
  cbv zeta. apply Hgo. destruct d; cbn; [by rewrite decide_True|].
  destruct x as [|cx lx kx vx xa xb]; cbn; [by rewrite decide_True|].
  rewrite decide_False; [done|]. rewrite plug_other in Hr.
  eapply (rep_ne_nil n s X _); [done|exact Hr|rewrite elem_of_app; right; left].
Qed.

(** if (y->color == BLACK) rbtree_delete_fixup(T, x); return y; *)
Lemma rebalance_spec s X fs x l y m d k v :
  has_nil X → rep s X (plug fs x) → X !! l = Some y →
  (x = Leaf → X !! n = Some (nil_node (par fs))) →
  ctx_ok fs m → rb (dnode d (rb_color y) l k v Leaf x) m →
  (rb_color y = RED → fs ≠ []) →
  wp (c ← field rb_color (Some l); (if c =? BLACK then rbtree_delete_fixup (ptr x) else ret ());; ret (Some l))
    (λ q s', ∃ t m', q = Some l ∧ rep s' X t ∧ rb t m' ∧ color_of t = BLACK ∧ inorder t = inorder (plug fs x)) s.
Proof.
  intros HX Hr Hl Hn Hctx Hrb Hfs.
  apply wp_bind. eapply wp_field; [by eapply rep_out_lookup|].
  apply rb_dnode_inv in Hrb as [(Hc&Hleaf&Hx&_&Hcx)|(Hc&m'&->&Hleaf&Hx)]; rewrite Hc.
  - change (RED =? BLACK) with false. cbv iota. wp_step.
    destruct (plug_rb fs x m Hctx Hx) as [m' Hm']; [intros Hr'; by rewrite Hr' in Hcx|].
    exists (plug fs x), m'. split_and!; try done. eapply plug_root_black; [done|by apply Hfs].
  - change (BLACK =? BLACK) with true. cbv iota. inversion Hleaf; subst.
    eapply wp_seq; [apply (delete_fixup_spec n X HX s fs x 0 Hr Hn)|].
    + destruct (rb_red_or_black _ _ Hx) as [Hcx|Hcx]; [right|by left]. split; [done|].
      destruct Hx; try done. cbn. by constructor.
    + done.
    + intros [] s' (t&m'&Hr'&Hm'&Hc'&Hs'). apply wp_ret. exists t, m'. by split_and!.
Qed.

Lemma ctx_ok_frame gs f f' fs m :
  f_color f' = f_color f → f_sib f' = f_sib f → ctx_ok (gs ++ f :: fs) m → ctx_ok (gs ++ f' :: fs) m.
Proof.
  intros Hc Hs. revert m. induction gs as [|g gs IH]; intros m; cbn.
  - inversion 1; subst; [apply ok_black|apply ok_red]; congruence.
  - inversion 1 as [|? ? ? Hg Hr Hx|? ? ? Hg Hr Hcs Hne Htop Hx]; subst; [apply ok_black; auto|].
    apply ok_red; auto; [by destruct gs|]. destruct gs; cbn in *; congruence.
Qed.
Lemma par_frame gs f f' fs : f_loc f' = f_loc f → par (gs ++ f' :: fs) = par (gs ++ f :: fs).
Proof. intros Hl. destruct gs; cbn; [by rewrite Hl|done]. Qed.

(** What rbtree_delete leaves: the node it returns holds the deleted key and value
    and is no longer in the tree. *)
Definition deleted X (k v : string) (L : list (string * string)) (q : option loc) (s : rbtree) : Prop :=
  ∃ l y x p t m, q = Some l ∧ l ≠ n ∧ X !! l = None ∧
    rep s (<[l:=y]> (with_nil x p X)) t ∧ rb_key y = CStr k ∧ rb_value y = CStr v ∧
    rb t m ∧ color_of t = BLACK ∧ inorder t = L.

(** rbtree_delete from the choice of y on. *)
Definition delete_from (z y : option loc) : M rbtree (option loc) :=
  yl ← field rb_left y;
  yr ← field rb_right y;
  let x := if decide (yl = nl) then yr else yl in
  p ← field rb_parent y;
  set_field (set_rb_parent p) x;;
  p ← field rb_parent y;
  replace_child Left p y x;;
  swap_entries z y;;
  c ← field rb_color y;
  (if c =? BLACK then rbtree_delete_fixup x else ret ());;
  ret y.
Abbreviation delete_rest z y :=
  (λ x, swap_entries z y;; c ← field rb_color y; (if c =? BLACK then rbtree_delete_fixup x else ret ());; ret y).

Lemma out_of_tree s X fs d c l k v a b :
  has_nil X → rep s X (plug fs (dnode d c l k v a b)) → X !! l = None ∧ l ≠ n.
Proof.
  intros HX Hr. split; [eapply (rep_out _ _ _ _ Hr)|intros ->; eapply (rep_ne_nil n s X fs _ n HX Hr); [|done]];
    rewrite ?locs_plug, elem_of_app, locs_dnode; right; left.
Qed.

(** The case of at most one child: z itself is unlinked. *)
Lemma delete_here s X fs d c l k v x m :
  has_nil X → rep s X (plug fs (dnode d c l k v Leaf x)) →
  rb (plug fs (dnode d c l k v Leaf x)) m → color_of (plug fs (dnode d c l k v Leaf x)) = BLACK →
  wp (delete_from (Some l) (Some l)) (deleted X k v (fl fs ++ inorder x ++ fr fs)) s.
Proof.
  intros HX Hr Hrb Hcol. destruct (out_of_tree _ _ _ _ _ _ _ _ _ _ HX Hr) as [Hxl Hln].
  destruct (rb_unplug fs _ m Hrb Hcol) as (m'&Hctx&Hrb'&Hfs). rewrite color_dnode in Hfs.
  eapply (unlink_spec (delete_rest (Some l) (Some l))); [done|exact Hr|]. intros s1 Hr1.
  unfold swap_entries. rewrite decide_True by done. apply wp_bind, wp_ret.
  eapply wp_mono; [eapply (rebalance_spec s1 _ fs x l _ m' d k v)|].
  - by apply has_nil_insert, Hln; apply with_nil_has.
  - exact Hr1.
  - apply lookup_insert_eq.
  - intros ->. rewrite lookup_insert_ne by done. cbn. apply lookup_insert_eq.
  - done.
  - by rewrite color_dn.
  - rewrite color_dn. intros Hc. by apply Hfs.
  - intros q s2 (t&m2&->&Hr2&Hm2&Hc2&Hin). eexists l, _, x, (par fs), t, m2. split_and!; try done; try by destruct d.
    by rewrite Hin, inorder_split.
Qed.

(** The node z above exchanges its entry with y. *)
Lemma swap_entries_spec s X gs f fs x l y ky vy :
  rep s X (plug (gs ++ f :: fs) x) → X !! l = Some y → f_loc f ≠ l → rb_key y = CStr ky → rb_value y = CStr vy →
  wp (swap_entries (Some (f_loc f)) (Some l))
    (λ _ s', rep s' (<[l:=set_rb_value (CStr (f_value f)) (set_rb_key (CStr (f_key f)) y)]> X)
       (plug (gs ++ mk_frame (f_side f) (f_color f) (f_loc f) ky vy (f_sib f) :: fs) x)) s.
Proof.
  intros Hr Hl Hne Hky Hvy. unfold swap_entries. rewrite decide_False by congruence.
  assert (Hz : ∀ s1 X1 f1, rep s1 X1 (plug (gs ++ f1 :: fs) x) →
    rt_heap s1 !! f_loc f1 = Some (dn (f_side f1) (f_color f1) (ptr (plug gs x)) (ptr (f_sib f1)) (par fs) (f_key f1) (f_value f1))).
  { intros s1 X1 f1. rewrite plug_app. apply rep_lookup_frame. }
  assert (Hk : ∀ d c a b p k v, rb_key (dn d c a b p k v) = CStr k) by by intros [].
  assert (Hv : ∀ d c a b p k v, rb_value (dn d c a b p k v) = CStr v) by by intros [].
  apply wp_bind. eapply wp_field; [by eapply Hz|]. apply wp_bind. eapply wp_field; [by eapply rep_out_lookup|].
  rewrite Hky, Hk. set (f1 := mk_frame (f_side f) (f_color f) (f_loc f) ky (f_value f) (f_sib f)).
  eapply wp_seq; [apply (set_frame_rep n _ s X gs f fs x f1); [by destruct (f_side f)|done..|exact Hr]|].
  intros [] s1 Hr1. eapply wp_seq; [eapply set_out_rep; [exact Hr1|exact Hl]|]. intros [] s2 Hr2.
  apply wp_bind. eapply wp_field; [apply (Hz _ _ f1 Hr2)|].
  apply wp_bind. eapply wp_field; [eapply rep_out_lookup; [exact Hr2|apply lookup_insert_eq]|].
  change (rb_value (set_rb_key ?k y)) with (rb_value y). rewrite Hvy, Hv.
  set (f2 := mk_frame (f_side f) (f_color f) (f_loc f) ky vy (f_sib f)).
  eapply wp_seq; [eapply (set_frame_rep n _ s2 _ gs f1 fs x f2); [by destruct (f_side f)|done..|exact Hr2]|].
  intros [] s3 Hr3. eapply wp_mono; [eapply set_out_rep; [exact Hr3|apply lookup_insert_eq]|].
  intros [] s4. by rewrite insert_insert_eq.
Qed.

(** The case of two children: the successor leaves the tree and z takes its entry. *)
Lemma delete_successor s X fs gs c l k v a c' l' k' v' r m :
  let t := Node c l k v a (plug gs (Node c' l' k' v' Leaf r)) in
  fl gs = [] → has_nil X → rep s X (plug fs t) → rb (plug fs t) m → color_of (plug fs t) = BLACK →
  wp (delete_from (Some l) (Some l'))
    (deleted X k v (fl fs ++ inorder a ++ inorder (plug gs (Node c' l' k' v' Leaf r)) ++ fr fs)) s.
Proof.
  intros t Hgs HX Hr Hrb Hcol. set (fz := mk_frame Right c l k v a).
  assert (Ht : plug fs t = plug (gs ++ fz :: fs) (Node c' l' k' v' Leaf r)) by by rewrite plug_app.
  rewrite Ht in Hr, Hrb, Hcol. destruct (out_of_tree s X _ Left c' l' k' v' _ _ HX Hr) as [Hxl Hln].
  destruct (rb_unplug _ _ m Hrb Hcol) as (m'&Hctx&Hrb'&Hfs). cbn [color_of] in Hfs.
  assert (Hll : l ≠ l').
  { intros ->. destruct (rep_split n s X _ _ Hr) as (_&_&Hnd). apply NoDup_app in Hnd as (_&Hd&_).
    apply (Hd l'); [|left]. clear. induction gs as [|g gs IH]; cbn; [left|]. right. apply elem_of_app. by right. }
  eapply (unlink_spec (delete_rest (Some l) (Some l')) s X _ Left); [done|exact Hr|]. intros s1 Hr1.
  eapply wp_seq; [eapply (swap_entries_spec s1 _ gs fz fs r l' _ k' v' Hr1); [apply lookup_insert_eq|done..]|].
  intros [] s2 Hr2. rewrite insert_insert_eq in Hr2. cbn [fz f_side f_color f_loc f_sib f_key f_value] in Hr2.
  set (fz' := mk_frame Right c l k' v' a) in *.
  eapply wp_mono; [eapply (rebalance_spec s2 _ (gs ++ fz' :: fs) r l' _ m' Left k' v'); [|exact Hr2|apply lookup_insert_eq|..]|].
  - by apply has_nil_insert, Hln; apply with_nil_has.
  - intros ->. rewrite lookup_insert_ne by done. cbn [with_nil]. rewrite lookup_insert_eq. by rewrite (par_frame gs fz fz').
  - by apply (ctx_ok_frame gs fz fz').
  - done.
  - intros _. by destruct gs.
  - intros q s3 (t3&m3&->&Hr3&Hm3&Hc3&Hin). eexists l', _, r, (par (gs ++ fz :: fs)), t3, m3. split_and!; try done.
    rewrite Hin, !inorder_split, fl_app, fr_app, Hgs. cbn [fl fr fz' f_side f_sib f_key f_value app inorder]. inorder_eq.
Qed.

Lemma delete_spec s X fs c l k v a b m :
  has_nil X → rep s X (plug fs (Node c l k v a b)) →
  rb (plug fs (Node c l k v a b)) m → color_of (plug fs (Node c l k v a b)) = BLACK →
  wp (rbtree_delete (Some l)) (deleted X k v (fl fs ++ inorder a ++ inorder b ++ fr fs)) s.
Proof.
  intros HX Hr Hrb Hcol. unfold rbtree_delete, T_nil. apply wp_bind, wp_gets. rewrite (rep_nil _ _ _ _ Hr).
  pose proof (rep_lookup n s X fs Left c l k v a b Hr) as Hl.
  apply wp_bind. eapply wp_field; [exact Hl|]. apply wp_bind. eapply wp_field; [exact Hl|]. cbn [dn rb_left rb_right].
  destruct (decide (ptr a = nl ∨ ptr b = nl)) as [Hone|Htwo].
  - apply wp_bind, wp_ret. change (wp (delete_from (Some l) (Some l)) (deleted X k v (fl fs ++ inorder a ++ inorder b ++ fr fs)) s).
    assert (a = Leaf ∨ b = Leaf) as [->| ->].
    { assert (∀ e t, rep s X (plug (mk_frame e c l k v (if e is Left then b else a) :: fs) t) → ptr t = nl → t = Leaf) as Hleaf.
      { intros e t Hr' Hp. destruct t as [|ct lt kt vt ta tb]; [done|]. exfalso.
        eapply (rep_ne_nil n s X _ _ lt HX Hr'); [rewrite elem_of_app; right; left|exact Hp]. }
      destruct Hone as [Hp|Hp]; [left; by apply (Hleaf Left)|right; by apply (Hleaf Right)]. }
    + by eapply (delete_here s X fs Left c l k v b m).
    + rewrite (app_assoc (inorder a)), app_nil_r. by eapply (delete_here s X fs Right c l k v a m).
  - destruct b as [|cb lb kb vb b1 b2]; [tauto|].
    eapply wp_seq; [by eapply successor_spec|]. intros q s' (->&gs&c'&l'&k'&v'&r&Heq&Hgs&->).
    change (wp (delete_from (Some l) (Some l')) (deleted X k v (fl fs ++ inorder a ++ inorder (Node cb lb kb vb b1 b2) ++ fr fs)) s).
    rewrite Heq in *. by eapply delete_successor.
Qed.

(** ** Insertion *)

Lemma insert_loop_spec fuel key s X fs t :
  (length (locs t) < fuel)%nat → has_nil X → rep s X (plug fs t) → sorted (inorder (plug fs t)) → brackets key fs →
  key ∉ (inorder t).*1 →
  wp (insert_loop fuel key (par fs) (ptr t))
    (λ r s', s' = s ∧ ∃ gs, plug fs t = plug gs Leaf ∧ brackets key gs ∧ r = Some (par gs)) s.
Proof.
  revert fs t. induction fuel as [|fuel IH]; intros fs t Hf HX Hr Hs Hb Hk; [lia|]. cbn [insert_loop].
  unfold T_nil. wp_step. rewrite (rep_nil _ _ _ _ Hr). destruct t as [|c l k v a b]; cbn [KvRbShape.ptr].
  { rewrite decide_True by done. apply wp_ret. split; [done|]. by exists fs. }
  rewrite decide_False by (eapply (rep_ne_nil n s X fs); [done|exact Hr|rewrite elem_of_app; right; left]).
  cbn [locs length] in Hf. rewrite length_app in Hf. cbn [inorder] in Hk. rewrite fmap_app, fmap_cons in Hk. cbn in Hk.
  apply wp_assoc, wp_bind. eapply wp_node_key; [exact Hr|].
  destruct (str_trichotomy key k) as [Hlt|[->|Hlt]].
  - rewrite (proj2 (Z.ltb_lt _ _)) by by apply strcmp_lt.
    apply wp_bind. eapply wp_field; [by apply (rep_lookup n s X fs Left c l k v a b)|].
    apply (IH (mk_frame Left c l k v b :: fs) a); try done; [lia| |set_solver].
    by apply (brackets_step key c l k v a b fs Left).
  - set_solver.
  - assert (strcmp key k <? 0 = false) as -> by (apply Z.ltb_ge; pose proof (proj2 (strcmp_gt key k) Hlt); lia).
    rewrite (proj2 (Z.ltb_lt _ _)) by by apply strcmp_gt.
    apply wp_bind. eapply wp_field; [by apply (rep_lookup n s X fs Left c l k v a b)|].
    apply (IH (mk_frame Right c l k v a :: fs) b); try done; [lia| |set_solver].
    by apply (brackets_step key c l k v a b fs Right).
Qed.

(** The new leaf is hung below the last node of the descent. *)
Lemma hang_spec s X gs lz key y :
  has_nil X → rep s X (plug gs Leaf) → brackets key gs → X !! lz = Some y → lz ≠ n →
  wp (if decide (par gs = nl) then set_root (Some lz) else
        k ← field rb_key (par gs);
        s ← read_str k;
        if strcmp key s <? 0 then set_field (set_rb_child Left (Some lz)) (par gs)
        else set_field (set_rb_child Right (Some lz)) (par gs))
    (λ _ s', cx n (rt_heap s') gs (Some lz) ∧ rt_root s' = rootp gs (Some lz) ∧ rt_nil s' = nl ∧
       ∀ l, l ∉ flocs gs → rt_heap s' !! l = rt_heap s !! l) s.
Proof.
  intros HX Hr [Hl Hg] Hy Hlz. destruct (rep_split n s X gs Leaf Hr) as (Hcx&_&Hnd).
  cbn [locs] in Hnd. rewrite app_nil_r in Hnd. destruct gs as [|f gs]; cbn [KvRbShape.par].
  { rewrite decide_True by done. apply wp_modify. cbn. split_and!; try done; try apply Hr. }
  rewrite decide_False by (eapply (rep_ne_nil n s X (f :: gs) Leaf); [done|exact Hr|left]).
  pose proof (rep_lookup_frame n s X f gs Leaf Hr) as Hf. cbn [cx] in Hcx. destruct Hcx as (_&Hs&Hc).
  cbn [flocs] in Hnd. apply NoDup_cons in Hnd as [Hnf Hnd].
  assert (Hlink : wp (set_field (set_rb_child (f_side f) (Some lz)) (Some (f_loc f)))
    (λ _ s', cx n (rt_heap s') (f :: gs) (Some lz) ∧ rt_root s' = rootp (f :: gs) (Some lz) ∧ rt_nil s' = nl ∧
       ∀ l, l ∉ flocs (f :: gs) → rt_heap s' !! l = rt_heap s !! l) s).
  { eapply wp_set_field; [exact Hf|]. rewrite set_child_dn. cbn. split; [|split; [rewrite (rep_root _ _ _ _ Hr), ptr_plug; done|split; [apply Hr|]]].
    - rewrite lookup_insert_eq. split_and!; [done|eapply tr_frame; [|exact Hs]|eapply cx_frame; [|exact Hc]];
        intros l Hin; apply lookup_insert_ne; intros <-; apply Hnf, elem_of_app; auto.
    - intros l Hin. apply lookup_insert_ne. intros <-. apply Hin. left. }
  apply wp_bind. eapply wp_field; [exact Hf|].
  replace (rb_key _) with (CStr (f_key f)) by by destruct (f_side f). apply wp_bind, wp_read_str.
  destruct (f_side f) eqn:Hside.
  - rewrite (proj2 (Z.ltb_lt _ _)); [exact Hlink|]. apply strcmp_lt, Hg. cbn. rewrite Hside, fmap_cons. left.
  - assert (strcmp key (f_key f) <? 0 = false) as ->; [|exact Hlink].
    assert (Hlt : str_lt (f_key f) key) by (apply Hl; cbn; rewrite Hside, !fmap_app, fmap_cons; cbn; set_solver).
    apply Z.ltb_ge. pose proof (proj2 (strcmp_gt key (f_key f)) Hlt). lia.
Qed.

(** z->left = z->right = T->nil, z->color = RED *)
Lemma leaf_spec s0 s X gs lz key v y :
  rep s0 X (plug gs Leaf) → X !! lz = Some y → lz ≠ n →
  rb_parent y = par gs → rb_key y = CStr key → rb_value y = CStr v →
  cx n (rt_heap s) gs (Some lz) → rt_root s = rootp gs (Some lz) → rt_nil s = nl →
  (∀ l, l ∉ flocs gs → rt_heap s !! l = rt_heap s0 !! l) →
  wp (set_field (set_rb_child Left nl) (Some lz);;
      set_field (set_rb_child Right nl) (Some lz);;
      set_field (set_rb_color RED) (Some lz))
    (λ _ s', rep s' (delete lz X) (plug gs (Node RED lz key v Leaf Leaf))) s.
Proof.
  intros Hr Hy Hlz Hp Hk Hv Hcx Hroot Hnil Hh.
  assert (Hout : lz ∉ flocs gs).
  { intros Hin. pose proof (rep_out _ _ _ _ Hr lz) as Ho. rewrite Hy in Ho. discriminate Ho.
    rewrite locs_plug. apply elem_of_app. by left. }
  assert (Hl : rt_heap s !! lz = Some y) by (rewrite Hh by done; by eapply rep_out_lookup).
  eapply wp_seq; [eapply wp_set_field; [exact Hl|]|]; [exact (eq_refl : (λ _ s', s' = _) () _)|]. intros [] s1 ->.
  eapply wp_seq; [eapply wp_set_field; [apply lookup_insert_eq|]|]; [exact (eq_refl : (λ _ s', s' = _) () _)|]. intros [] s2 ->.
  eapply wp_set_field; [apply lookup_insert_eq|]. cbn [with_heap rt_heap rt_root rt_nil]. rewrite !insert_insert_eq.
  destruct y as [cy ry ly py ky vy]. cbn in Hp, Hk, Hv. subst py ky vy.
  cbn [set_rb_child set_rb_color rb_color rb_right rb_left rb_parent rb_key rb_value].
  destruct Hr as [Ht _ _ Hnd Ho Hre]. rewrite locs_plug in Hnd. cbn [locs] in Hnd. rewrite app_nil_r in Hnd.
  constructor; cbn [with_heap rt_heap rt_root rt_nil].
  - apply tr_plug. split.
    + eapply cx_frame; [|exact Hcx]. intros l Hin. apply lookup_insert_ne. by intros ->.
    + cbn. by rewrite lookup_insert_eq.
  - by rewrite ptr_plug.
  - done.
  - rewrite locs_plug. cbn. by apply NoDup_snoc.
  - intros l. rewrite locs_plug. cbn. intros [Hin| ->%list_elem_of_singleton]%elem_of_app.
    + rewrite lookup_delete_ne by (by intros ->). apply Ho. rewrite locs_plug. apply elem_of_app. by left.
    + apply lookup_delete_eq.
  - intros l. rewrite locs_plug. cbn. rewrite not_elem_of_app, list_elem_of_singleton. intros [Hin Hne].
    rewrite lookup_insert_ne, lookup_delete_ne by done. rewrite Hh by done. apply Hre.
    rewrite locs_plug, elem_of_app. intros [?|?%not_elem_of_nil]; done.
Qed.

Definition inserted X (k v : string) (L : list (string * string)) (s : rbtree) : Prop :=
  ∃ t m pre post, rep s X t ∧ rb t m ∧ color_of t = BLACK ∧
    L = pre ++ post ∧ inorder t = pre ++ (k, v) :: post ∧ sorted (inorder t).

Lemma insert_spec s X t m lz y key v :
  has_nil X → rep s X t → rb t m → color_of t = BLACK → sorted (inorder t) → key ∉ (inorder t).*1 →
  X !! lz = Some y → lz ≠ n → rb_key y = CStr key → rb_value y = CStr v →
  wp (rbtree_insert (Some lz)) (λ _, inserted (delete lz X) key v (inorder t)) s.
Proof.
  intros HX Hr Hrb Hcol Hs Hkey Hy Hlz Hk Hv. unfold rbtree_insert. apply wp_bind, wp_get. rewrite (rep_nil _ _ _ _ Hr), (rep_root _ _ _ _ Hr).
  apply wp_bind. eapply wp_field; [by eapply rep_out_lookup|]. rewrite Hk. apply wp_bind, wp_read_str.
  eapply wp_seq; [apply (insert_loop_spec _ key s X [] t); try done; [|by split; intros ? ?%not_elem_of_nil]|].
  { pose proof (rep_size n s X t HX Hr). lia. }
  intros r s' (->&gs&Hplug&Hb&->). cbn [plug] in Hplug. subst t.
  eapply wp_seq; [eapply set_out_rep; [exact Hr|exact Hy]|]. intros [] s1 Hr1.
  set (X1 := <[lz:=set_rb_parent (par gs) y]> X) in *.
  assert (HX1 : has_nil X1) by by apply has_nil_insert.
  eapply wp_seq; [eapply (hang_spec s1 X1 gs lz key); try done; apply lookup_insert_eq|].
  intros [] s2 (Hcx&Hroot&Hnil&Hh).
  pose proof (leaf_spec s1 s2 X1 gs lz key v _ Hr1 (lookup_insert_eq _ _ _) Hlz eq_refl Hk Hv Hcx Hroot Hnil Hh) as Hleaf.
  assert (Hfix : ∀ s3, rep s3 (delete lz X1) (plug gs (Node RED lz key v Leaf Leaf)) →
    wp (rbtree_insert_fixup (Some lz)) (λ _, inserted (delete lz X) key v (inorder (plug gs Leaf))) s3).
  { intros s3 Hr3. destruct (rb_unplug gs Leaf m Hrb Hcol) as (m'&Hctx&Hleaf'&_). inversion Hleaf'; subst.
    assert (HX3 : has_nil (delete lz X1)).
    { destruct HX1 as [p Hp]. exists p. by rewrite lookup_delete_ne. }
    eapply wp_mono; [apply (insert_fixup_spec n _ HX3 gs (Node RED lz key v Leaf Leaf) 0 s3 Hr3); [done|by constructor|done]|].
    intros [] s4 (t'&m4&Hr4&Hm4&Hc4&Hs4). exists t', m4, (fl gs), (fr gs).
    unfold same in Hs4. rewrite inorder_split in Hs4. cbn in Hs4. rewrite <-Hs4.
    split_and!; try done; [by unfold X1 in Hr4; rewrite delete_insert_eq in Hr4|by rewrite inorder_split|].
    rewrite inorder_split in Hs. cbn in Hs. rewrite sorted_app in Hs. destruct Hs as (H1&H2&_), Hb as [Hbl Hbr].
    rewrite sorted_app, sorted_cons. split_and!; try done. intros x z Hx. rewrite fmap_cons.
    intros [->|Hz]%elem_of_cons; [by apply Hbl|]. etrans; [by apply Hbl|by apply Hbr]. }
  unfold wp, bind in *. destruct (set_field (set_rb_child Left nl) (Some lz) s2) as [[[] s3]| |]; try done.
  destruct (set_field (set_rb_child Right nl) (Some lz) s3) as [[[] s4]| |]; try done.
  destruct (set_field (set_rb_color RED) (Some lz) s4) as [[[] s5]| |]; try done. by apply Hfix.
Qed.
End ops.
