(* ===== verification/KvRbEngine.v ===== *)
(** The red-black tree engine: it implements the map of the specification. *)
From S2P Require Import Prelude KvMem KvSpec KvRbtree KvRbShape KvRbFix KvRbOps.

(** ** The representation of a map *)

Abbreviation only_nil n p := ({[n%positive := nil_node n p]} : gmap loc rbtree_node).
(** The heap holds the sentinel [n] and the search tree [T]. *)
Record rb_view (t : rbtree) (n : loc) (p : option loc) (T : tree) : Prop := {
  rv_rep : rep n t (only_nil n p) T;
  rv_rb : ∃ h, rb T h;
  rv_black : color_of T = BLACK;
  rv_sorted : sorted (inorder T);
}.
Definition rb_repr (t : rbtree) (m : gmap string string) : Prop :=
  ∃ n p T, rb_view t n p T ∧ m = list_to_map (inorder T).

Lemma only_nil_has n p : has_nil n (only_nil n p).
Proof. exists p. apply lookup_insert_eq. Qed.
#[local] Hint Resolve only_nil_has : core.
Lemma with_only_nil n x p q : ∃ p', with_nil n x q (only_nil n p) = only_nil n p'.
Proof. destruct x; [exists q; apply insert_insert_eq|by exists p]. Qed.

(** Every node accounts for three blocks, the sentinel for one. *)
Lemma heap_cost_split (L : list loc) (h X : gmap loc rbtree_node) :
  NoDup L → (∀ l, l ∈ L → ∃ x, h !! l = Some x ∧ rb_cost x = 3) → (∀ l, l ∈ L → X !! l = None) →
  (∀ l, l ∉ L → h !! l = X !! l) → heap_cost rb_cost h = heap_cost rb_cost X + 3 * Z.of_nat (length L).
Proof.
  revert h. induction L as [|l L IH]; intros h Hnd Hin Hout Hrest.
  - assert (h = X) as -> by (apply map_eq; intros l; apply Hrest, not_elem_of_nil). cbn. lia.
  - apply NoDup_cons in Hnd as [Hl Hnd]. destruct (Hin l) as (x&Hx&Hc); [left|].
    pose proof (heap_cost_delete rb_cost h l x Hx) as Hd. rewrite IH in Hd; [cbn [length]; lia|done| | |].
    + intros l' Hl'. rewrite lookup_delete_ne by (by intros ->). apply Hin. by right.
    + intros l' Hl'. apply Hout. by right.
    + intros l' Hl'. destruct (decide (l = l')) as [->|Hne]; [rewrite lookup_delete_eq; symmetry; apply Hout; left|].
      rewrite lookup_delete_ne by done. apply Hrest. rewrite not_elem_of_cons. by split.
Qed.
Lemma tr_cost n h p t l : tr n h p t → l ∈ locs t → ∃ x, h !! l = Some x ∧ rb_cost x = 3.
Proof.
  revert p. induction t as [|c l' k v a IHa b IHb]; intros p; cbn; [by intros _ ?%not_elem_of_nil|].
  intros (Hl&Ha&Hb) [->|[Hin|Hin]%elem_of_app]%elem_of_cons; eauto.
Qed.
Lemma length_locs t : length (locs t) = length (inorder t).
Proof. induction t; cbn; [done|]. rewrite !length_app. cbn. lia. Qed.
Lemma view_owned t n p T : rb_view t n p T → rb_owned t = 1 + 3 * Z.of_nat (length (inorder T)).
Proof.
  intros [Hr _ _ _]. unfold rb_owned. rewrite (heap_cost_split (locs T) _ (only_nil n p)).
  - rewrite <-insert_empty, heap_cost_fresh by done. rewrite heap_cost_empty, length_locs. change (rb_cost (nil_node n p)) with 1. lia.
  - apply Hr.
  - intros l. eapply tr_cost, Hr.
  - apply Hr.
  - apply Hr.
Qed.
Lemma view_map t n p T : rb_view t n p T → NoDup (inorder T).*1.
Proof. intros [_ _ _ Hs]. by apply sorted_keys_nodup. Qed.

(** ** Searching *)

Lemma view_search t n p T key :
  rb_view t n p T →
  wp (rbtree_search key)
    (λ q s', s' = t ∧
       ((∃ gs c l v a b, T = plug gs (Node c l key v a b) ∧ q = Some l ∧ l ≠ n ∧
           (list_to_map (inorder T) : gmap string string) !! key = Some v) ∨
        ((list_to_map (inorder T) : gmap string string) !! key = None ∧ q = Some n))) t.
Proof.
  intros Hv. pose proof Hv as [Hr _ _ Hs]. eapply wp_mono; [eapply (search_spec n key); [|exact Hr|exact Hs]; done|].
  intros q s' (->&[(gs&c&l&v&a&b&->&->)|[Hk ->]]); (split; [done|]); [left|right; split; [by apply assoc_absent|done]].
  exists gs, c, l, v, a, b. split_and!; try done.
  - eapply out_of_tree; [|exact (Hr : rep n t _ (plug gs (dnode Left c l key v a b)))]. done.
  - pose proof (view_map _ _ _ _ Hv) as Hnd. rewrite inorder_split in *. cbn [inorder] in *.
    revert Hnd. rewrite <-app_assoc, app_assoc. cbn. apply assoc_lookup.
Qed.

Lemma rb_get_spec t a m k :
  rb_repr t m →
  wp (kvs_rbtree_get engine_inst (Some k))
    (λ r s', s' = (t, a) ∧ r = match m !! k with Some v => CStr v | None => CNull end) (t, a).
Proof.
  intros (n&p&T&Hv&->). unfold kvs_rbtree_get, T_nil. wp_step. eapply wp_mono; [by eapply view_search|].
  intros q s' (->&Hq). wp_step. rewrite (rep_nil _ _ _ _ (rv_rep _ _ _ _ Hv)).
  destruct Hq as [(gs&c&l&v&a1&b1&->&->&Hl&->)|[-> ->]].
  - rewrite decide_False by naive_solver. wp_step.
    eapply wp_field; [exact (rep_lookup n t _ gs Left c l k v a1 b1 (rv_rep _ _ _ _ Hv))|]. done.
  - rewrite decide_True by auto. done.
Qed.
Lemma rb_exist_spec t a m k :
  rb_repr t m →
  wp (kvs_rbtree_exist engine_inst (Some k)) (λ r s', s' = (t, a) ∧ (r = 0 ↔ is_Some (m !! k))) (t, a).
Proof.
  intros (n&p&T&Hv&->). unfold kvs_rbtree_exist, T_nil. wp_step. eapply wp_mono; [by eapply view_search|].
  intros q s' (->&Hq). wp_step. rewrite (rep_nil _ _ _ _ (rv_rep _ _ _ _ Hv)).
  destruct Hq as [(gs&c&l&v&a1&b1&->&->&Hl&->)|[-> ->]].
  - rewrite decide_False by naive_solver. wp_step. split; [done|]. split; eauto.
  - rewrite decide_True by auto. wp_step. split; [done|]. split; [done|by intros []].
Qed.

(** ** Creation *)

Lemma rb_law_create a :
  supplied a →
  wp (kvs_rbtree_create engine_inst)
    (λ r s', r = 0 ∧ rb_repr s'.1 ∅ ∧ supplied s'.2 ∧ balanced (eng_zero, a) s') (eng_zero, a).
Proof.
  intros Ha. unfold kvs_rbtree_create. rewrite decide_False by done. mem_step.
  eapply wp_mono; [by apply supplied_malloc|]. intros ok a1 (->&Ha1&Hl1). mem_step.
  set (l := fresh (dom (∅ : gmap loc rbtree_node))). change (rt_heap (eng_zero (E:=rbtree))) with (∅ : gmap loc rbtree_node).
  fold l. assert (Hv : rb_view (mk_rbtree (<[l:=mk_rb BLACK (Some l) (Some l) (Some l) CNull CNull]> ∅) (Some l) (Some l)) l (Some l) Leaf).
  { constructor; [|exists 0%nat; constructor|done|constructor].
    constructor; try done; [constructor|intros ? []%not_elem_of_nil]. }
  split_and!; try done.
  - by exists l, (Some l), Leaf.
  - unfold balanced. cbn [fst snd eng_owned rb_engine]. pose proof (view_owned _ _ _ _ Hv) as Ho.
    lazymatch goal with |- context [rb_owned (mk_rbtree ?h ?r ?n)] =>
      lazymatch type of Ho with rb_owned ?t = _ => change (rb_owned (mk_rbtree h r n)) with (rb_owned t) end end.
    rewrite Ho. change (rb_owned eng_zero) with 0. cbn. lia.
Qed.

(** ** SET *)

(** The node SET has filled in hangs outside of the tree. *)
Lemma rep_alloc n t p T l y :
  rep n t (only_nil n p) T → rt_heap t !! l = None →
  rep n (mk_rbtree (<[l:=y]> (rt_heap t)) (rt_root t) (rt_nil t)) (<[l:=y]> (only_nil n p)) T ∧ l ≠ n ∧ only_nil n p !! l = None.
Proof.
  intros Hr Hl. assert (Hout : l ∉ locs T).
  { intros Hin. destruct (tr_lookup n _ _ _ _ (rep_tr _ _ _ _ Hr) Hin) as [x Hx]. by rewrite Hl in Hx. }
  assert (Hx : only_nil n p !! l = None) by by rewrite <-(rep_rest _ _ _ _ Hr).
  assert (Hln : l ≠ n) by (intros ->; by rewrite <-insert_empty, lookup_insert_eq in Hx).
  split_and!; try done. destruct Hr as [Ht Hro Hn Hnd Ho Hre]. constructor; try done.
  - eapply tr_frame; [|exact Ht]. intros l' Hin. apply lookup_insert_ne. by intros ->.
  - intros l' Hin. rewrite lookup_insert_ne by (by intros ->). by apply Ho.
  - intros l' Hin. cbn [rt_heap]. destruct (decide (l' = l)) as [->|]; [by rewrite !lookup_insert_eq|].
    rewrite !lookup_insert_ne by done. by apply Hre.
Qed.

Lemma rb_set_spec t a m k v :
  rb_repr t m →
  wp (kvs_rbtree_set engine_inst (Some k) (Some v))
    (λ r s', balanced (t, a) s' ∧ (supplied a → supplied s'.2) ∧
       match m !! k with
       | Some _ => r = 1 ∧ s' = (t, a)
       | None => (r = 0 ∧ rb_repr s'.1 (<[k:=v]> m)) ∨ (r = -2 ∧ s'.1 = t ∧ ¬ supplied a)
       end) (t, a).
Proof.
  intros (n&p&T&Hv&->). unfold kvs_rbtree_set, T_nil. wp_step. eapply wp_mono; [by eapply view_search|].
  intros q s' (->&Hq). wp_step. rewrite (rep_nil _ _ _ _ (rv_rep _ _ _ _ Hv)).
  destruct Hq as [(gs&c&l&v0&a1&b1&->&->&Hl&->)|[Hk ->]].
  { rewrite bool_decide_false by congruence. cbn. by split_and!. }
  rewrite bool_decide_true by done. cbn [negb]. rewrite Hk. wp_step.
  eapply wp_mono; [apply malloc_spec|]. intros [] a1 [Hl1 Hs1]; cbn [negb]; mem_step.
  2: { split_and!; [unfold balanced; cbn; lia|naive_solver|right; naive_solver]. }
  eapply wp_mono; [apply str_dup_spec|]. intros kp a2 (Hkp&Hl2&Hs2); mem_step.
  destruct Hkp as [-> | ->]; [rewrite decide_False by done|rewrite decide_True by done; mem_step].
  2: { cbn in Hl2. split_and!; [unfold balanced; cbn; lia| |right; naive_solver]. unfold supplied in *; cbn; naive_solver. }
  mem_step. eapply wp_mono; [apply str_dup_spec|]. intros vp a3 (Hvp&Hl3&Hs3); mem_step.
  destruct Hvp as [-> | ->]; [rewrite decide_False by done|rewrite decide_True by done; mem_step].
  2: { cbn in Hl2, Hl3. split_and!; [unfold balanced; cbn; lia| |right; naive_solver]. unfold supplied in *; cbn; naive_solver. }
  mem_step. cbn in Hl2, Hl3. set (l := fresh (dom (rt_heap t))). set (y := mk_rb 0 None None None (CStr k) (CStr v)).
  assert (Hfresh : rt_heap t !! l = None) by (apply not_elem_of_dom; apply is_fresh).
  destruct (rep_alloc n t p T l y (rv_rep _ _ _ _ Hv) Hfresh) as (Hr'&Hln&Hxl).
  destruct (rv_rb _ _ _ _ Hv) as [h Hh].
  eapply wp_mono; [eapply (insert_spec n _ _ T h l y k v);
    [by apply has_nil_insert|exact Hr'|exact Hh|apply Hv|apply Hv|by apply assoc_absent|apply lookup_insert_eq|done..]|].
  intros [] t' (T'&h'&pre&post&HrT&HhT&HcT&Hpp&Hin&HsT). mem_step. rewrite delete_insert_id in HrT by done.
  assert (Hv' : rb_view t' n p T') by (constructor; eauto).
  split_and!; [|naive_solver|left; split; [done|]].
  - unfold balanced. cbn [fst snd eng_owned rb_engine]. rewrite (view_owned _ _ _ _ Hv), (view_owned _ _ _ _ Hv'), Hin, Hpp.
    rewrite !length_app. cbn [length]. lia.
  - exists n, p, T'. split; [done|]. rewrite Hin, Hpp. symmetry. apply list_to_map_middle. rewrite <-Hin. by apply sorted_keys_nodup.
Qed.

(** ** MOD *)

Lemma view_new_value t n p gs c l k v w a b :
  rb_view t n p (plug gs (Node c l k v a b)) →
  wp (set_field (set_rb_value (CStr w)) (Some l)) (λ _ t', rb_view t' n p (plug gs (Node c l k w a b))) t.
Proof.
  intros [Hr [h Hh] Hc Hs]. eapply wp_mono.
  { eapply (set_node_rep n (set_rb_value (CStr w)) t _ gs Left c l k v a b c k w); [by intros|exact Hr]. }
  intros [] t' Hr'. destruct (rb_unplug gs _ h Hh Hc) as (h'&Hctx&Hrb&Hcol). cbn [color_of] in Hcol.
  assert (Hrb' : rb (Node c l k w a b) h') by (inversion Hrb; subst; by constructor).
  constructor; [exact Hr'| | |].
  - eapply plug_rb; [done|exact Hrb'|]. intros Hred. by apply Hcol.
  - destruct gs; [exact Hc|]. by eapply plug_root_black.
  - rewrite inorder_split in *. cbn [inorder] in *. revert Hs. rewrite <-!app_assoc, !(app_assoc (fl gs)). cbn. apply sorted_value.
Qed.
Lemma rb_mod_spec t a m k v :
  rb_repr t m → supplied a →
  wp (kvs_rbtree_mod engine_inst (Some k) (Some v))
    (λ r s', match m !! k with
       | Some _ => r = 0 ∧ rb_repr s'.1 (<[k:=v]> m) ∧ supplied s'.2 ∧ balanced (t, a) s'
       | None => r = 1 ∧ s' = (t, a)
       end) (t, a).
Proof.
  intros (n&p&T&Hv&->) Ha. unfold kvs_rbtree_mod, T_nil. wp_step. eapply wp_mono; [by eapply view_search|].
  intros q s' (->&Hq). wp_step. rewrite (rep_nil _ _ _ _ (rv_rep _ _ _ _ Hv)).
  destruct Hq as [(gs&c&l&w&a1&b1&->&->&Hl&Hk)|[Hk ->]]; rewrite Hk.
  2: { rewrite decide_True by auto. by wp_step. }
  rewrite decide_False by naive_solver. wp_step.
  eapply wp_field; [exact (rep_lookup n t _ gs Left c l k w a1 b1 (rv_rep _ _ _ _ Hv))|]. cbn [rb_value dn]. mem_step.
  eapply wp_mono; [apply str_dup_spec|]. intros vp a2 (_&Hlive&Hsup). destruct (Hsup Ha) as [-> Ha2]. mem_step.
  eapply wp_mono; [by eapply view_new_value|]. intros [] t' Hv'. rewrite decide_False by done. mem_step.
  split_and!; try done.
  - eexists n, p, _. split; [exact Hv'|]. pose proof (view_map _ _ _ _ Hv) as Hnd.
    rewrite !inorder_split in *. cbn [inorder] in *. revert Hnd. rewrite <-!app_assoc, !(app_assoc (fl gs)). cbn.
    intros Hnd. symmetry. by apply assoc_replace.
  - unfold balanced. cbn [fst snd eng_owned rb_engine]. rewrite (view_owned _ _ _ _ Hv), (view_owned _ _ _ _ Hv').
    rewrite !inorder_split, !length_app. cbn [inorder]. rewrite !length_app. cbn in *. lia.
Qed.

(** ** DEL *)

Lemma view_delete t n p gs c l k v a b :
  rb_view t n p (plug gs (Node c l k v a b)) →
  wp (rbtree_delete (Some l))
    (λ q t', ∃ l' y, q = Some l' ∧ rt_heap t' !! l' = Some y ∧ rb_key y = CStr k ∧ rb_value y = CStr v ∧
       ∃ p' T', rb_view (mk_rbtree (delete l' (rt_heap t')) (rt_root t') (rt_nil t')) n p' T' ∧
         inorder T' = fl gs ++ inorder a ++ inorder b ++ fr gs) t.
Proof.
  intros Hv. pose proof Hv as [Hr [h Hh] Hc Hs].
  eapply wp_mono; [by eapply delete_spec|]. intros q t' (l'&y&x&p0&T'&h'&->&Hln&Hxl&Hr'&Hky&Hvy&Hh'&Hc'&Hin).
  destruct (with_only_nil n x p p0) as [p' Hp']. rewrite Hp' in Hr'.
  assert (Hxl' : only_nil n p' !! l' = None) by by rewrite <-insert_empty, lookup_insert_ne.
  exists l', y. split_and!; try done; [by eapply rep_out_lookup; [exact Hr'|apply lookup_insert_eq]|].
  exists p', T'. split; [|done]. constructor; [|eauto|done|].
  - assert (Hl' : l' ∉ locs T').
    { intros Hl'. pose proof (rep_out _ _ _ _ Hr' _ Hl') as Ho. by rewrite lookup_insert_eq in Ho. }
    destruct Hr' as [Ht Hro Hn Hnd Ho Hre]. constructor; try done.
    + eapply tr_frame; [|exact Ht]. intros l0 Hl0. apply lookup_delete_ne. by intros ->.
    + intros l0 Hl0. rewrite <-(lookup_insert_ne _ l' l0 y) by (by intros ->). by apply Ho.
    + intros l0 Hl0. cbn [rt_heap]. destruct (decide (l0 = l')) as [->|]; [by rewrite lookup_delete_eq|].
      rewrite lookup_delete_ne by done. rewrite Hre by done. by rewrite lookup_insert_ne.
  - rewrite Hin. rewrite inorder_split in Hs. cbn [inorder] in Hs. revert Hs.
    rewrite <-!app_assoc, !(app_assoc (fl gs)). cbn. apply sorted_remove.
Qed.
(** rbtree_delete, then the three calls of kvs_free. *)
Lemma delete_free_spec t a n p gs c l k v a1 b1 :
  rb_view t n p (plug gs (Node c l k v a1 b1)) →
  wp (cur ← on_fst (rbtree_delete (Some l)); free_node cur)
    (λ _ s', (∃ p' T', rb_view s'.1 n p' T' ∧ inorder T' = fl gs ++ inorder a1 ++ inorder b1 ++ fr gs) ∧
       al_live s'.2 = al_live a - 3 ∧ (supplied a → supplied s'.2)) (t, a).
Proof.
  intros Hv. mem_step. eapply wp_mono; [by eapply view_delete|].
  intros q t' (l'&y&->&Hl&Hky&Hvy&p'&T'&Hv'&Hin). unfold free_node. mem_step.
  eapply wp_field; [exact Hl|]. rewrite Hky. mem_step. eapply wp_field; [exact Hl|]. rewrite Hvy. mem_step.
  split_and!; [by exists p', T'|cbn; lia|done].
Qed.
Lemma rb_del_spec t a m k :
  rb_repr t m →
  wp (kvs_rbtree_del engine_inst (Some k))
    (λ r s', match m !! k with
       | Some _ => r = 0 ∧ rb_repr s'.1 (delete k m) ∧ (supplied a → supplied s'.2) ∧ balanced (t, a) s'
       | None => r = 1 ∧ s' = (t, a)
       end) (t, a).
Proof.
  intros (n&p&T&Hv&->). unfold kvs_rbtree_del, T_nil. wp_step. eapply wp_mono; [by eapply view_search|].
  intros q s' (->&Hq). wp_step. rewrite (rep_nil _ _ _ _ (rv_rep _ _ _ _ Hv)).
  destruct Hq as [(gs&c&l&w&a1&b1&->&->&Hl&Hk)|[Hk ->]]; rewrite Hk.
  2: { rewrite decide_True by auto. by wp_step. }
  rewrite decide_False by naive_solver. apply wp_assoc.
  eapply wp_seq; [by eapply delete_free_spec|]. intros [] [t' a'] ((p'&T'&Hv'&Hin)&Hlive&Hsup). wp_step. cbn in *.
  split_and!; try done.
  - exists n, p', T'. split; [done|]. pose proof (view_map _ _ _ _ Hv) as Hnd. rewrite Hin, inorder_split in *. cbn [inorder] in *.
    revert Hnd. rewrite <-!app_assoc, !(app_assoc (fl gs)). cbn. intros Hnd. symmetry. by apply assoc_remove.
  - unfold balanced. cbn [fst snd eng_owned rb_engine]. rewrite (view_owned _ _ _ _ Hv), (view_owned _ _ _ _ Hv').
    rewrite Hin, inorder_split, !length_app. cbn [inorder]. rewrite !length_app. cbn in *. lia.
Qed.

(** ** Destruction *)

Lemma rb_destroy_loop_spec fuel t a n p T :
  rb_view t n p T → (length (inorder T) ≤ fuel)%nat →
  wp (destroy_loop fuel)
    (λ _ s', rt_nil s'.1 = Some n ∧ al_live s'.2 = al_live a - 3 * Z.of_nat (length (inorder T))) (t, a).
Proof.
  revert t a p T. induction fuel as [|fuel IH]; intros t a p T Hv Hf; pose proof Hv as [Hr _ _ _];
    cbn [destroy_loop]; mem_step; rewrite (rep_root _ _ _ _ Hr), (rep_nil _ _ _ _ Hr).
  - destruct T as [|c l k v a1 b1]; [|cbn in Hf; rewrite length_app in Hf; cbn in Hf; lia].
    rewrite decide_True by done. wp_step. cbn. split; [by rewrite (rep_nil _ _ _ _ Hr)|lia].
  - destruct T as [|c l k v a1 b1].
    + rewrite decide_True by done. wp_step. cbn. split; [by rewrite (rep_nil _ _ _ _ Hr)|lia].
    + assert (Hln : l ≠ n) by by eapply (out_of_tree n t _ [] Left).
      rewrite decide_False by (cbn; congruence). apply wp_bind, wp_on_fst.
      eapply wp_mono; [by eapply (mini_spec n t _ [])|].
      intros q s' (->&gs&c'&l'&k'&v'&r&Heq&Hgs&->). rewrite Heq in Hv |- *. apply wp_assoc.
      eapply wp_seq; [by eapply delete_free_spec|]. intros [] [t' a'] ((p'&T'&Hv'&Hin)&Hlive&_).
      assert (Hlen : length (inorder (plug gs (Node c' l' k' v' Leaf r))) = S (length (inorder T'))).
      { rewrite Hin, inorder_split, !length_app. cbn. rewrite ?length_app. cbn. lia. }
      eapply wp_mono; [apply (IH t' a' p' T' Hv')|].
      * rewrite Heq in Hf. lia.
      * intros [] s2 [? Hl2]. split; [done|]. cbn in Hlive. rewrite Hlen. lia.
Qed.
Lemma rb_law_destroy t a m :
  rb_repr t m →
  wp (kvs_rbtree_destroy engine_inst) (λ _ s', al_live s'.2 = al_live a - eng_owned t) (t, a).
Proof.
  intros (n&p&T&Hv&->). unfold kvs_rbtree_destroy. rewrite decide_False by done. mem_step.
  rewrite (rep_nil _ _ _ _ (rv_rep _ _ _ _ Hv)). mem_step.
  eapply wp_mono; [eapply (rb_destroy_loop_spec _ t a n p T Hv)|].
  - rewrite <-length_locs. pose proof (rep_size n t _ _ (only_nil_has n p) (rv_rep _ _ _ _ Hv)). lia.
  - intros [] [t' a'] [_ Hl]. mem_step. cbn [al_live snd] in *. cbn [eng_owned rb_engine].
    rewrite (view_owned _ _ _ _ Hv). lia.
Qed.

(** ** The contract *)

Lemma rb_law_set_new t a m k v :
  rb_repr t m → m !! k = None → True → supplied a →
  wp (kvs_rbtree_set engine_inst (Some k) (Some v))
    (λ r s', r = 0 ∧ rb_repr s'.1 (<[k:=v]> m) ∧ supplied s'.2 ∧ balanced (t, a) s') (t, a).
Proof. intros Hr Hm _ Ha. eapply wp_mono; [by eapply rb_set_spec|]. rewrite Hm. naive_solver. Qed.
Lemma rb_law_set_old t a m k v :
  rb_repr t m → is_Some (m !! k) → True →
  wp (kvs_rbtree_set engine_inst (Some k) (Some v)) (λ r s', s' = (t, a) ∧ 0 < r) (t, a).
Proof. intros Hr [w Hw] _. eapply wp_mono; [by eapply rb_set_spec|]. rewrite Hw. naive_solver lia. Qed.
Lemma rb_law_mod_old t a m k v :
  rb_repr t m → is_Some (m !! k) → supplied a →
  wp (kvs_rbtree_mod engine_inst (Some k) (Some v))
    (λ r s', r = 0 ∧ rb_repr s'.1 (<[k:=v]> m) ∧ supplied s'.2 ∧ balanced (t, a) s') (t, a).
Proof. intros Hr [w Hw] Ha. eapply wp_mono; [by eapply rb_mod_spec|]. rewrite Hw. naive_solver. Qed.
Lemma rb_law_mod_new t a m k v :
  rb_repr t m → m !! k = None →
  wp (kvs_rbtree_mod engine_inst (Some k) (Some v)) (λ r s', s' = (t, a) ∧ 0 < r) (t, a).
Proof.
  intros (n&p&T&Hv&->) Hk. unfold kvs_rbtree_mod, T_nil. wp_step. eapply wp_mono; [by eapply view_search|].
  intros q s' (->&[(?&?&?&?&?&?&_&_&_&Hk')|[_ ->]]); [by rewrite Hk in Hk'|]. wp_step.
  rewrite (rep_nil _ _ _ _ (rv_rep _ _ _ _ Hv)), decide_True by auto. by wp_step.
Qed.
Lemma rb_law_del_old t a m k :
  rb_repr t m → is_Some (m !! k) → supplied a →
  wp (kvs_rbtree_del engine_inst (Some k))
    (λ r s', r = 0 ∧ rb_repr s'.1 (delete k m) ∧ supplied s'.2 ∧ balanced (t, a) s') (t, a).
Proof. intros Hr [w Hw] Ha. eapply wp_mono; [by eapply rb_del_spec|]. rewrite Hw. naive_solver. Qed.
Lemma rb_law_del_new t a m k :
  rb_repr t m → m !! k = None → wp (kvs_rbtree_del engine_inst (Some k)) (λ r s', r = 1 ∧ s' = (t, a)) (t, a).
Proof. intros Hr Hm. eapply wp_mono; [by eapply rb_del_spec|]. rewrite Hm. naive_solver. Qed.

#[export] Instance rb_laws : KvLaws rbtree := {|
  eng_repr := rb_repr;
  eng_cap m := True;
  eng_missing m := 1;
  law_create := rb_law_create;
  law_get := rb_get_spec;
  law_exist := rb_exist_spec;
  law_set_new := rb_law_set_new;
  law_set_old := rb_law_set_old;
  law_mod_old := rb_law_mod_old;
  law_mod_new := rb_law_mod_new;
  law_del_old := rb_law_del_old;
  law_del_new := rb_law_del_new;
  law_destroy := rb_law_destroy |}.
#[export] Instance rb_del_code : KvDelCode rbtree.
Proof. done. Qed.

(** ** Traversal *)

Lemma traversal_spec fuel s n X fs t :
  has_nil n X → (height t < fuel)%nat → rep n s X (plug fs t) →
  wp (traversal fuel (ptr n t)) (λ L s', s' = s ∧ L = inorder t) s.
Proof.
  intros HX. revert fs t. induction fuel as [|fuel IH]; intros fs t Hf Hr; [lia|]. cbn [traversal].
  unfold T_nil. wp_step. rewrite (rep_nil _ _ _ _ Hr). destruct t as [|c l k v a b]; cbn [ptr].
  { by rewrite decide_True. }
  pose proof (rep_lookup n s X fs Left c l k v a b Hr) as Hl. cbn [height] in Hf.
  rewrite decide_False by (intros [= ->]; by eapply (out_of_tree n s X fs Left)).
  apply wp_bind. eapply wp_field; [exact Hl|]. cbn [dn rb_left].
  eapply wp_seq; [apply (IH (mk_frame Left c l k v b :: fs) a); [lia|exact Hr]|]. intros L1 s1 [-> ->].
  apply wp_bind. eapply wp_field; [exact Hl|]. apply wp_bind, wp_read_str.
  apply wp_bind. eapply wp_field; [exact Hl|]. apply wp_bind, wp_read_str.
  apply wp_bind. eapply wp_field; [exact Hl|]. cbn [dn rb_right].
  eapply wp_seq; [apply (IH (mk_frame Right c l k v a :: fs) b); [lia|exact Hr]|]. intros L2 s2 [-> ->].
  by wp_step.
Qed.

(** ** What the engine guarantees *)

(** C11: The red-black tree engine implements the map: create, any run of SET, GET,
    DEL, MOD and EXIST, and destroy; every answer is the map's (GET the value or NULL;
    SET and MOD 0 when they are done and a positive code when the key is present or
    missing; EXIST 0 exactly when the key is there; DEL 0 when the key was there and 1
    when it was not), every loop ends, no step reads or frees memory it must not, and at
    the end every block taken has been given back.  (malloc succeeds.) *)
Theorem rb_session_refines a os :
  supplied a →
  wp (eng_session (E:=rbtree) os)
    (λ rs s', answers_ok (λ _, 1) ∅ os rs ∧ al_live s'.2 = al_live a)
    (mk_rbtree ∅ None None, a).
Proof.
  intros Ha. eapply wp_mono; [exact (eng_session_refines (E:=rbtree) a os Ha (roomy_always ∅ os (λ _, I)))|].
  intros rs s' [? Hl]. split; [done|]. rewrite Hl. change (eng_owned eng_zero) with 0. lia.
Qed.
Lemma rb_session_refines_witness :
  wp (eng_session (E:=rbtree) [OpSet "b" "1"; OpSet "a" "2"; OpSet "c" "3"; OpDel "b"; OpDel "b"; OpMod "c" "4"; OpGet "c"])
    (λ rs s', rs = [RInt 0; RInt 0; RInt 0; RInt 0; RInt 1; RInt 0; RPtr (CStr "4")] ∧ al_live s'.2 = 0)
    (mk_rbtree ∅ None None, mk_alloc [] 0 []).
Proof.
  eapply wp_mono; [apply (rb_session_refines (mk_alloc [] 0 [])
    [OpSet "b" "1"; OpSet "a" "2"; OpSet "c" "3"; OpDel "b"; OpDel "b"; OpMod "c" "4"; OpGet "c"]); repeat constructor|].
  intros rs s' [H ?]. split; [|done]. read_answers H. reflexivity.
Defined.

(** C12: Searches are logarithmic and the tree stays sorted: after create and any run
    of operations that leaves [N] keys, rbtree_search ends within
    2 log2 (N + 1) + 1 rounds of its loop, for every key, and rbtree_traversal
    prints the entries of the map in the order of their keys. *)
Theorem rb_stays_balanced a os :
  supplied a →
  wp (eng_create (E:=rbtree) engine_inst;; eng_run os)
    (λ _ s', let m := (spec_run ∅ os).2 in
       (∀ key, wp (search_loop (2 * Nat.log2 (S (size m)) + 1) (rt_root s'.1) key) (λ _ t', t' = s'.1) s'.1) ∧
       wp (rbtree_traversal (rt_root s'.1))
         (λ L t', t' = s'.1 ∧ StronglySorted str_lt L.*1 ∧ list_to_map L = m) s'.1) (mk_rbtree ∅ None None, a).
Proof.
  intros Ha. eapply wp_seq; [exact (law_create (E:=rbtree) a Ha)|]. intros r [t1 a1] (_&Hr1&Ha1&_).
  eapply wp_mono; [exact (eng_run_refines (E:=rbtree) t1 a1 ∅ os Hr1 Ha1 (roomy_always ∅ os (λ _, I)))|].
  intros rs [t2 a2] (_&(n&p&T&Hv&Hm)&_). cbn [fst snd] in *. pose proof Hv as [Hr [h Hh] Hc Hs].
  assert (Hsize : size (spec_run ∅ os).2 = length (locs T)).
  { rewrite Hm, length_locs, <-(length_fmap fst). rewrite <-size_dom, dom_list_to_map_L, size_list_to_set by by eapply view_map. done. }
  rewrite Hsize, Hm. pose proof (rb_log_height T h Hh Hc). rewrite (rep_root _ _ _ _ Hr). split.
  - intros key. eapply wp_mono; [eapply (search_loop_spec n _ key t2 _ [] T); try done; [lia|by split; intros ? ?%not_elem_of_nil]|].
    by intros q s' [-> _].
  - unfold rbtree_traversal. wp_step. eapply wp_mono; [eapply (traversal_spec _ t2 n _ [] T); [done| |exact Hr]|].
    + pose proof (rep_size n t2 _ T (only_nil_has n p) Hr). pose proof (height_locs T). lia.
    + by intros L s' [-> ->].
Qed.
Lemma rb_stays_balanced_witness :
  supplied (mk_alloc [] 0 []) ∧
  wp (eng_create (E:=rbtree) engine_inst;; eng_run ((λ k, OpSet k k) <$> rb_keys))
    (λ _ s', ∀ key, wp (search_loop 9 (rt_root s'.1) key) (λ _ t', t' = s'.1) s'.1) (mk_rbtree ∅ None None, mk_alloc [] 0 []).
Proof.
  split; [constructor|].
  eapply wp_mono; [apply (rb_stays_balanced (mk_alloc [] 0 []) ((λ k, OpSet k k) <$> rb_keys)); constructor|].
  intros _ s' [Hs _] key. exact (Hs key).
Defined.

(** ** MOD without memory *)

(** Changing a value does not change what a search finds. *)
Definition revalue (l : loc) (v : charp) (t : rbtree) : rbtree :=
  mk_rbtree (alter (set_rb_value v) l (rt_heap t)) (rt_root t) (rt_nil t).
Lemma field_revalue {A} (f : rbtree_node → A) l v q t (Q : A → rbtree → Prop) :
  (∀ x, f (set_rb_value v x) = f x) →
  wp (field f q) Q t → wp (field f q) (λ a t', t' = revalue l v t ∧ Q a t) (revalue l v t).
Proof.
  intros Hf. unfold wp, field, rload, bind, get. destruct q as [q|]; [|done]. cbn [revalue rt_heap].
  destruct (decide (q = l)) as [->|Hne].
  - rewrite lookup_alter_eq. destruct (rt_heap t !! l) as [x|]; [|done]. cbn. by rewrite Hf.
  - rewrite lookup_alter_ne by done. by destruct (rt_heap t !! q).
Qed.
Lemma search_revalue fuel l v key q t (Q : option loc → Prop) :
  wp (search_loop fuel q key) (λ r _, Q r) t →
  wp (search_loop fuel q key) (λ r t', t' = revalue l v t ∧ Q r) (revalue l v t).
Proof.
  revert q. induction fuel as [|fuel IH]; intros q; [done|]. cbn [search_loop]. unfold T_nil.
  rewrite !wp_bind, !wp_gets. change (rt_nil (revalue l v t)) with (rt_nil t).
  destruct (decide (q = rt_nil t)) as [->|Hne]; [done|]. rewrite !wp_bind. intros Hk.
  eapply wp_mono; [by eapply field_revalue; [|exact Hk]|]. intros k t' [-> Hs]. rewrite wp_bind in Hs |- *.
  destruct k as [|k| |]; try done. change (wp (read_str (CStr k)) ?P ?s) with (P k s) in *. cbv beta in *.
  destruct (strcmp key k <? 0), (0 <? strcmp key k); try done; rewrite wp_bind in Hs |- *;
    (eapply wp_mono; [by eapply field_revalue; [|exact Hs]|]); intros p t' [-> Hp]; by apply IH.
Qed.
Lemma rbtree_search_revalue l v key t (Q : option loc → Prop) :
  wp (rbtree_search key) (λ r _, Q r) t →
  wp (rbtree_search key) (λ r t', t' = revalue l v t ∧ Q r) (revalue l v t).
Proof.
  unfold rbtree_search. rewrite !wp_bind, !wp_get. intros Hs. cbn [revalue rt_heap rt_root].
  rewrite <-(size_dom (D:=gset loc) (alter _ _ _)), dom_alter_L, size_dom. by apply search_revalue.
Qed.
Lemma set_value_revalue l v t x :
  rt_heap t !! l = Some x → with_heap (<[l:=set_rb_value v x]> (rt_heap t)) t = revalue l v t.
Proof.
  intros Hl. unfold with_heap, revalue. f_equal. apply map_eq. intros l'. destruct (decide (l' = l)) as [->|Hne].
  - by rewrite lookup_insert_eq, lookup_alter_eq, Hl.
  - by rewrite lookup_insert_ne, lookup_alter_ne.
Qed.

(** When malloc fails inside MOD of a stored key, MOD returns -2 and the key has
    lost its value: EXIST still finds the key, but GET answers NULL, as for a
    missing one. *)
Theorem rb_mod_failure_loses_value t a p m k v :
  rb_repr t m → is_Some (m !! k) → al_plan a = false :: p →
  wp (kvs_rbtree_mod engine_inst (Some k) (Some v))
    (λ r s', r = -2 ∧ kvs_rbtree_get engine_inst (Some k) s' = Ok (CNull, s') ∧
             kvs_rbtree_exist engine_inst (Some k) s' = Ok (0, s')) (t, a).
Proof.
  intros (n&p0&T&Hv&->) [w Hw] Hp. pose proof (rv_rep _ _ _ _ Hv) as Hr.
  destruct (proj1 (wp_run _ _ _) (view_search t n p0 T k Hv)) as (q&t0&Hrun&->&[(gs&c&l&w'&a1&b1&->&->&Hln&_)|[Hk _]]);
    [|by rewrite Hw in Hk].
  pose proof (rep_lookup n t _ gs Left c l k w' a1 b1 Hr) as Hl. pose proof (rep_nil _ _ _ _ Hr) as Hnil.
  unfold kvs_rbtree_mod, T_nil. wp_step. eapply wp_lift_pure; [exact Hrun|]. wp_step. rewrite Hnil.
  rewrite decide_False by naive_solver. wp_step. eapply wp_field; [exact Hl|]. cbn [rb_value dn]. mem_step.
  eapply wp_lift_any; [by apply str_dup_fail|]. mem_step. eapply wp_set_field; [exact Hl|].
  rewrite (set_value_revalue _ _ _ _ Hl), decide_True by done. mem_step. split; [done|].
  assert (Hq : wp (rbtree_search k) (λ r t', t' = revalue l CNull t ∧ r = Some l) (revalue l CNull t)).
  { apply (rbtree_search_revalue l CNull k t (λ r, r = Some l)). unfold wp. by rewrite Hrun. }
  split; apply wp_det; [unfold kvs_rbtree_get|unfold kvs_rbtree_exist]; unfold T_nil; wp_step;
    (eapply wp_mono; [exact Hq|]); intros q s' [-> ->]; wp_step; change (rt_nil (revalue l CNull t)) with (rt_nil t);
    rewrite Hnil, decide_False by naive_solver; wp_step; [|done].
  eapply wp_field; [cbn [revalue rt_heap]; by rewrite lookup_alter_eq, Hl|]. done.
Qed.
Lemma rb_mod_failure_loses_value_witness :
  wp (kvs_rbtree_mod engine_inst (Some "k") (Some "w"))
    (λ r s', r = -2 ∧ kvs_rbtree_get engine_inst (Some "k") s' = Ok (CNull, s') ∧
             kvs_rbtree_exist engine_inst (Some "k") s' = Ok (0, s'))
    (mk_rbtree (<[2%positive:=mk_rb BLACK (Some 1%positive) (Some 1%positive) (Some 1%positive) (CStr "k") (CStr "v")]> (only_nil 1 (Some 1%positive)))
       (Some 2%positive) (Some 1%positive), mk_alloc [false] 4 []).
Proof.
  eapply (rb_mod_failure_loses_value _ _ _ {["k" := "v"]}); [|by eexists|reflexivity].
  exists 1%positive, (Some 1%positive), (Node BLACK 2 "k" "v" Leaf Leaf). split; [|done].
  constructor; [|exists 1%nat; repeat constructor|done|repeat constructor].
  constructor; try done; cbn [locs].
  - apply NoDup_singleton.
  - intros l ->%list_elem_of_singleton. done.
  - intros l Hl. cbn [rt_heap]. apply lookup_insert_ne. intros <-. apply Hl. left.
Defined.
