(* ===== verification/KvProtocol.v ===== *)
(** The protocol layer of the key/value server (Project1_KVstore/src/kvstore.c):
    splitting a request into tokens, dispatching it to the engine registered in
    g_engine, and the text of the answer.  Generic in the engine. *)
From S2P Require Import Prelude KvMem KvSpec.
From Stdlib Require Import Ascii.

Definition KVS_MAX_TOKENS : nat := 128.
(** The size of the buffers the network layer passes in (include/server.h). *)
Definition BUFFER_LENGTH : nat := 1024.

(** ** strtok *)

(** The delimiters: space, CR, LF and tab. *)
Definition is_delim (c : ascii) : bool :=
  match c with " " | "013" | "010" | "009" => true | _ => false end%char.

Fixpoint skip_delims (s : string) : string :=
  match s with
  | String c s' => if is_delim c then skip_delims s' else s
  | EmptyString => EmptyString
  end.
(** The bytes before the first delimiter, and what follows it. *)
Fixpoint cut_token (s : string) : string * string :=
  match s with
  | EmptyString => ("", "")
  | String c s' =>
      if is_delim c then ("", s') else let '(t, r) := cut_token s' in (String c t, r)
  end.
(** A call of strtok on the unread rest of the message: the next token and the
    new rest. *)
Definition strtok (s : string) : option (string * string) :=
  match skip_delims s with
  | EmptyString => None
  | s' => Some (cut_token s')
  end.

(** while (token != NULL) { tokens[idx++] = token; token = strtok(NULL, ..); }
    The array has KVS_MAX_TOKENS entries and no bound is tested. *)
Fixpoint split_loop {St} (fuel : nat) (tok : option (string * string)) (idx : nat) (tokens : list cstr)
    : M St (Z * list cstr) :=
  match tok with
  | None => ret (Z.of_nat idx, tokens)
  | Some (t, rest) =>
      match fuel with
      | O => no_fuel
      | S fuel =>
          if decide (idx < length tokens)%nat
          then split_loop fuel (strtok rest) (S idx) (<[idx:=Some t]> tokens)
          else undef OutOfBounds
      end
  end.
Definition kvs_split_token {St} (msg : cstr) (tokens : list cstr) : M St (Z * list cstr) :=
  match msg with
  | None => ret (-1, tokens)
  | Some msg => split_loop (String.length msg) (strtok msg) 0 tokens
  end.

(** ** Dispatch *)

Definition command : list string := ["SET"; "GET"; "DEL"; "MOD"; "EXIST"].
Definition KVS_CMD_COUNT : nat := 5.

(** for (cmd = 0; cmd < KVS_CMD_COUNT; cmd++) if (strcmp(tokens[0], command[cmd]) == 0) break; *)
Fixpoint find_cmd (t : string) (cmds : list string) (cmd : nat) : nat :=
  match cmds with
  | [] => cmd
  | c :: cmds => if strcmp t c =? 0 then cmd else find_cmd t cmds (S cmd)
  end.

(** sprintf(response, s): the text and its NUL must fit the buffer; the result is
    the length and the text. *)
Definition sprintf {St} (s : string) : M St (Z * cstr) :=
  if decide (String.length s < BUFFER_LENGTH)%nat
  then ret (Z.of_nat (String.length s), Some s) else undef OutOfBounds.

Definition crlf : string := String "013" (String "010" "").
Definition ERROR : string := "ERROR" ++ crlf.
Definition OK : string := "OK" ++ crlf.
Definition EXIST : string := "EXIST" ++ crlf.
Definition NO_EXIST : string := "NO EXIST" ++ crlf.
Definition BAD_COMMAND : string := "protocol error,please send again!" ++ crlf.

Section protocol.
Context {E : Type} `{KvEngine E}.

Definition reply_set (ret_ : Z) : string :=
  if ret_ <? 0 then ERROR else if ret_ =? 0 then OK else EXIST.
Definition reply_change (ret_ : Z) : string :=
  if ret_ <? 0 then ERROR else if ret_ =? 0 then OK else NO_EXIST.

Definition kvs_filter_protocol (tokens : list cstr) (count : Z) : M (E * alloc) (Z * cstr) :=
  t0 ← from_opt OutOfBounds (tokens !! 0%nat);
  match t0 with
  | None => ret (-1, None)
  | Some t0 =>
      if count =? 0 then ret (-1, None) else
      key ← from_opt OutOfBounds (tokens !! 1%nat);
      value ← from_opt OutOfBounds (tokens !! 2%nat);
      match find_cmd t0 command 0 with
      | 0%nat =>
          if negb (count =? 3) || bool_decide (key = None) || bool_decide (value = None) then sprintf ERROR else
          ret_ ← eng_set engine_inst key value;
          sprintf (reply_set ret_)
      | 1%nat =>
          if negb (count =? 2) || bool_decide (key = None) then sprintf ERROR else
          result ← eng_get engine_inst key;
          if decide (result = CNull) then sprintf NO_EXIST else
          s ← read_str result;
          sprintf (s ++ crlf)
      | 2%nat =>
          if negb (count =? 2) || bool_decide (key = None) then sprintf ERROR else
          ret_ ← eng_del engine_inst key;
          sprintf (reply_change ret_)
      | 3%nat =>
          if negb (count =? 3) || bool_decide (key = None) || bool_decide (value = None) then sprintf ERROR else
          ret_ ← eng_mod engine_inst key value;
          sprintf (reply_change ret_)
      | 4%nat =>
          if negb (count =? 2) || bool_decide (key = None) then sprintf ERROR else
          ret_ ← eng_exist engine_inst key;
          sprintf (if ret_ =? 0 then EXIST else NO_EXIST)
      | _ => sprintf BAD_COMMAND
      end
  end.

(** The answer: its length (negative when nothing was written) and its text. *)
Definition kvs_protocol (msg : cstr) (length : Z) : M (E * alloc) (Z * cstr) :=
  if bool_decide (msg = None) || (length <=? 0) then ret (-1, None) else
  ' (count, tokens) ← kvs_split_token msg (replicate KVS_MAX_TOKENS None);
  if count =? -1 then ret (-1, None) else
  kvs_filter_protocol tokens count.

(** memset(engine, 0, ..); create(engine): the result of create is dropped. *)
Definition init_kvengine : M (E * alloc) Z :=
  on_fst (put eng_zero);;
  eng_create engine_inst;;
  ret 0.
Definition dest_kvengine : M (E * alloc) unit := eng_destroy engine_inst.
End protocol.

(** ** Tokens *)

(** Reference: the fields between delimiters, the empty ones dropped. *)
Fixpoint fields (s : string) : list string :=
  match s with
  | EmptyString => [""]
  | String c s' =>
      if is_delim c then "" :: fields s' else
      match fields s' with f :: fs => String c f :: fs | [] => [] end
  end.
Definition words (s : string) : list string := filter (λ w, w ≠ "") (fields s).

Lemma fields_cons s : ∃ f fs, fields s = f :: fs.
Proof.
  induction s as [|c s (f&fs&IH)]; cbn; [by eexists _, _|].
  destruct (is_delim c); [by eexists _, _|]. rewrite IH. by eexists _, _.
Qed.
Lemma words_delim c s : is_delim c = true → words (String c s) = words s.
Proof. intros Hc. unfold words. cbn. rewrite Hc. by rewrite filter_cons_False by (intros Hne; by apply Hne). Qed.
Lemma words_skip s : words (skip_delims s) = words s.
Proof.
  induction s as [|c s IH]; [done|]. cbn [skip_delims]. destruct (is_delim c) eqn:Hc; [|done].
  by rewrite words_delim.
Qed.
Lemma cut_token_fields s t r :
  cut_token s = (t, r) →
  (fields s = t :: fields r ∨ fields s = [t] ∧ r = "") ∧ (String.length r ≤ String.length s - String.length t)%nat
  ∧ (String.length t ≤ String.length s)%nat.
Proof.
  revert t r. induction s as [|c s IH]; intros t r; cbn.
  { intros [= <- <-]. split_and!; [by right|done|done]. }
  destruct (is_delim c).
  - intros [= <- <-]. split_and!; [by left|cbn; lia|cbn; lia].
  - destruct (cut_token s) as [t' r'] eqn:Hcut. intros [= <- <-].
    destruct (IH _ _ eq_refl) as ([Hf|[Hf ->]]&Hlen&Hlen'); rewrite Hf; cbn; split_and!; auto; lia.
Qed.
(** strtok yields the words one after the other. *)
Lemma strtok_words s :
  match strtok s with
  | None => words s = []
  | Some (t, r) => words s = t :: words r ∧ (String.length r < String.length s)%nat
  end.
Proof.
  unfold strtok. rewrite <-words_skip.
  assert (String.length (skip_delims s) ≤ String.length s)%nat as Hle.
  { induction s as [|c s IH]; [done|]. cbn. destruct (is_delim c); cbn; lia. }
  assert (∀ c s', skip_delims s = String c s' → is_delim c = false) as Hnd.
  { clear Hle. induction s as [|c s IH]; intros c' s'; [done|]. cbn.
    destruct (is_delim c) eqn:Hc; [apply IH|]. by intros [= -> _]. }
  destruct (skip_delims s) as [|c s'] eqn:Hs; [done|].
  specialize (Hnd _ _ eq_refl). destruct (cut_token (String c s')) as [t r] eqn:Hcut.
  assert (t ≠ "") as Ht.
  { cbn in Hcut. rewrite Hnd in Hcut. destruct (cut_token s'). by simplify_eq. }
  pose proof (cut_token_fields _ _ _ Hcut) as (Hf&Hlen&Hlen').
  assert (0 < String.length t)%nat by (destruct t; [done|cbn; lia]).
  split; [|cbn in *; lia]. unfold words. destruct Hf as [->|[-> ->]].
  - by rewrite filter_cons_True.
  - by rewrite filter_cons_True.
Qed.

(** The array after the tokens [ws] were stored. *)
Definition token_array (ws : list string) : list cstr :=
  (Some <$> ws) ++ replicate (KVS_MAX_TOKENS - length ws) None.
Lemma token_array_snoc ws w :
  (length ws < KVS_MAX_TOKENS)%nat →
  <[length ws:=Some w]> (token_array ws) = token_array (ws ++ [w]).
Proof.
  intros Hlen. unfold token_array. rewrite fmap_app, length_app. cbn [length].
  replace (KVS_MAX_TOKENS - length ws)%nat with (S (KVS_MAX_TOKENS - (length ws + 1))) by lia.
  cbn [replicate]. rewrite list_insert_middle by (by rewrite length_fmap). by rewrite <-app_assoc.
Qed.
Lemma length_token_array ws : (length ws ≤ KVS_MAX_TOKENS)%nat → length (token_array ws) = KVS_MAX_TOKENS.
Proof. intros. unfold token_array. rewrite length_app, length_fmap, length_replicate. lia. Qed.

Lemma split_loop_spec {St} fuel ws s (st : St) :
  (String.length s ≤ fuel)%nat → (length ws ≤ KVS_MAX_TOKENS)%nat →
  split_loop fuel (strtok s) (length ws) (token_array ws) st =
    if decide (length (ws ++ words s) ≤ KVS_MAX_TOKENS)%nat
    then Ok ((Z.of_nat (length (ws ++ words s)), token_array (ws ++ words s)), st)
    else UB OutOfBounds.
Proof.
  revert s ws. induction fuel as [|fuel IH]; intros s ws Hf Hlen.
  - destruct s; [|cbn in Hf; lia]. cbn. rewrite app_nil_r. by rewrite decide_True.
  - pose proof (strtok_words s) as Hs. destruct (strtok s) as [[t r]|]; cbn [split_loop].
    + destruct Hs as [-> Hr]. rewrite length_token_array by done. destruct (decide _) as [Hlt|Hge].
      * rewrite token_array_snoc by done.
        specialize (IH r (ws ++ [t])). rewrite length_app in IH. cbn in IH.
        rewrite Nat.add_1_r in IH. rewrite IH by lia. by rewrite <-app_assoc.
      * rewrite decide_False; [done|]. rewrite length_app. cbn. lia.
    + rewrite Hs, app_nil_r. by rewrite decide_True.
Qed.
Lemma split_token_spec {St} msg (st : St) :
  kvs_split_token (Some msg) (replicate KVS_MAX_TOKENS None) st =
    if decide (length (words msg) ≤ KVS_MAX_TOKENS)%nat
    then Ok ((Z.of_nat (length (words msg)), token_array (words msg)), st)
    else UB OutOfBounds.
Proof. apply (split_loop_spec _ []); [done|cbn; lia]. Qed.

(** Tokens and the delimiters between them fit the message. *)
Definition weight (ws : list string) : nat := foldr (λ w n, S (String.length w) + n)%nat 0%nat ws.
Lemma weight_cons w ws : weight (w :: ws) = S (String.length w + weight ws).
Proof. done. Qed.
Lemma fields_weight s : weight (fields s) = S (String.length s).
Proof.
  induction s as [|c s IH]; [done|]. cbn [fields String.length].
  destruct (is_delim c); [by rewrite weight_cons, IH|].
  destruct (fields_cons s) as (f&fs&Hf). rewrite Hf, weight_cons in *. cbn [String.length]. lia.
Qed.
Lemma words_weight s : (weight (words s) ≤ S (String.length s))%nat.
Proof.
  rewrite <-fields_weight. unfold words. induction (fields s) as [|f fs IH]; [done|].
  destruct (decide (f ≠ "")).
  - rewrite filter_cons_True by done. rewrite !weight_cons. lia.
  - rewrite filter_cons_False by done. rewrite !weight_cons. lia.
Qed.
Lemma words_nonempty s w : w ∈ words s → (0 < String.length w)%nat.
Proof.
  unfold words. intros [Hw _]%list_elem_of_filter. destruct w; [done|cbn; lia].
Qed.

(** ** The specification of a request *)

Inductive request : Type :=
| ReqOp (o : kv_op) | ReqBadArgs | ReqUnknown | ReqEmpty.

Definition parse_request (ws : list string) : request :=
  match ws with
  | [] => ReqEmpty
  | c :: args =>
      if decide (c = "SET") then (if args is [k; v] then ReqOp (OpSet k v) else ReqBadArgs)
      else if decide (c = "GET") then (if args is [k] then ReqOp (OpGet k) else ReqBadArgs)
      else if decide (c = "DEL") then (if args is [k] then ReqOp (OpDel k) else ReqBadArgs)
      else if decide (c = "MOD") then (if args is [k; v] then ReqOp (OpMod k v) else ReqBadArgs)
      else if decide (c = "EXIST") then (if args is [k] then ReqOp (OpExist k) else ReqBadArgs)
      else ReqUnknown
  end.

Definition reply_text (o : kv_op) (r : kv_reply) : string :=
  match o, r with
  | OpGet _, Value v => v ++ crlf
  | OpSet _ _, Present | OpExist _, Present => EXIST
  | _, Missing => NO_EXIST
  | _, _ => OK
  end.

Definition text (s : string) : Z * cstr := (Z.of_nat (String.length s), Some s).
(** The answer to a request and the map after it. *)
Definition answer (m : gmap string string) (ws : list string) : (Z * cstr) * gmap string string :=
  match parse_request ws with
  | ReqOp o => (text (reply_text o (spec_step m o).1), (spec_step m o).2)
  | ReqBadArgs => (text ERROR, m)
  | ReqUnknown => (text BAD_COMMAND, m)
  | ReqEmpty => ((-1, None), m)
  end.

(** Values short enough for the answer to GET to fit the buffer. *)
Definition small (m : gmap string string) : Prop :=
  map_Forall (λ _ v, String.length v + 6 < BUFFER_LENGTH)%nat m.

Lemma wp_sprintf {St} s (Q : Z * cstr → St → Prop) st :
  (String.length s < BUFFER_LENGTH)%nat → Q (text s) st → wp (sprintf s) Q st.
Proof. intros. unfold sprintf. by rewrite decide_True. Qed.

Lemma find_cmd_spec t :
  find_cmd t command 0 =
    if decide (t = "SET") then 0%nat else if decide (t = "GET") then 1%nat
    else if decide (t = "DEL") then 2%nat else if decide (t = "MOD") then 3%nat
    else if decide (t = "EXIST") then 4%nat else 5%nat.
Proof.
  unfold command. cbn [find_cmd].
  repeat (case_decide; [subst; by rewrite ?strcmp_refl | rewrite strcmp_eqb_ne by done]). done.
Qed.

Lemma token_array_lookup ws i :
  (length ws ≤ KVS_MAX_TOKENS)%nat → (i < KVS_MAX_TOKENS)%nat →
  token_array ws !! i = Some (ws !! i).
Proof.
  intros Hlen Hi. unfold token_array. destruct (ws !! i) as [w|] eqn:Hw.
  - rewrite lookup_app_l by (rewrite length_fmap; by eapply lookup_lt_Some).
    by rewrite list_lookup_fmap, Hw.
  - apply lookup_ge_None in Hw. rewrite lookup_app_r, length_fmap by (by rewrite length_fmap).
    apply lookup_replicate_2. lia.
Qed.

Section refinement.
Context {E : Type} `{HE : KvEngine E, HL : !KvLaws E, HD : !KvDelCode E}.

(** A SET finds room. *)
Definition room (m : gmap string string) (ws : list string) : Prop :=
  match parse_request ws with ReqOp (OpSet _ _) => eng_cap m | _ => True end.

(** The part of an engine operation and its answer that all commands share. *)
Lemma filter_op_spec e a m o :
  eng_repr e m → small m → supplied a → (if o is OpSet _ _ then eng_cap m else True) →
  wp (match o with
      | OpSet k v => ret_ ← eng_set engine_inst (Some k) (Some v); sprintf (reply_set ret_)
      | OpGet k =>
          result ← eng_get engine_inst (Some k);
          if decide (result = CNull) then sprintf NO_EXIST else
          s ← read_str result; sprintf (s ++ crlf)
      | OpDel k => ret_ ← eng_del engine_inst (Some k); sprintf (reply_change ret_)
      | OpMod k v => ret_ ← eng_mod engine_inst (Some k) (Some v); sprintf (reply_change ret_)
      | OpExist k => ret_ ← eng_exist engine_inst (Some k); sprintf (if ret_ =? 0 then EXIST else NO_EXIST)
      end)
    (λ r s', r = text (reply_text o (spec_step m o).1) ∧ eng_repr s'.1 (spec_step m o).2 ∧
             supplied s'.2 ∧ balanced (e, a) s') (e, a).
Proof.
  intros Hr Hsm Ha Hcap. unfold reply_set, reply_change.
  destruct o as [k v|k|k|k v|k]; cbn [spec_step]; apply wp_bind; destruct (m !! k) as [w|] eqn:Hk.
  - eapply wp_mono; [eapply law_set_old; eauto|]. intros r s' [-> ?].
    destruct (Z.ltb_spec r 0), (Z.eqb_spec r 0); try lia. by apply wp_sprintf; [by apply Nat.ltb_lt|].
  - eapply wp_mono; [eapply law_set_new; eauto|]. intros r s' (->&?&?&?). by apply wp_sprintf; [by apply Nat.ltb_lt|].
  - eapply wp_mono; [by apply law_get|]. intros r s' [-> ->]. rewrite Hk, decide_False by done.
    apply wp_bind, wp_read_str. pose proof (Hsm _ _ Hk) as Hlen. cbn in Hlen.
    apply wp_sprintf; [|done]. rewrite string_length_app. change (String.length crlf) with 2%nat. lia.
  - eapply wp_mono; [by apply law_get|]. intros r s' [-> ->]. rewrite Hk, decide_True by done.
    by apply wp_sprintf; [by apply Nat.ltb_lt|].
  - eapply wp_mono; [eapply law_del_old; eauto|]. intros r s' (->&?&?&?). by apply wp_sprintf; [by apply Nat.ltb_lt|].
  - eapply wp_mono; [eapply law_del_new; eauto|]. intros r s' [-> ->].
    pose proof (law_del_code m) as Hpos. set (r := eng_missing m) in *. destruct (Z.ltb_spec r 0), (Z.eqb_spec r 0); try lia.
    by apply wp_sprintf; [by apply Nat.ltb_lt|].
  - eapply wp_mono; [eapply law_mod_old; eauto|]. intros r s' (->&?&?&?). by apply wp_sprintf; [by apply Nat.ltb_lt|].
  - eapply wp_mono; [eapply law_mod_new; eauto|]. intros r s' [-> ?].
    destruct (Z.ltb_spec r 0), (Z.eqb_spec r 0); try lia. by apply wp_sprintf; [by apply Nat.ltb_lt|].
  - eapply wp_mono; [by apply law_exist|]. intros r s' [-> Hx]. rewrite Hk in Hx.
    assert (r = 0) as -> by (apply Hx; eauto). by apply wp_sprintf; [by apply Nat.ltb_lt|].
  - eapply wp_mono; [by apply law_exist|]. intros r s' [-> Hx]. rewrite Hk in Hx.
    destruct (Z.eqb_spec r 0) as [H0|]; [by apply Hx in H0 as []|]. by apply wp_sprintf; [by apply Nat.ltb_lt|].
Qed.

Lemma filter_spec e a m ws :
  eng_repr e m → small m → supplied a → room m ws → (length ws ≤ KVS_MAX_TOKENS)%nat →
  wp (kvs_filter_protocol (token_array ws) (Z.of_nat (length ws)))
    (λ r s', r = (answer m ws).1 ∧ eng_repr s'.1 (answer m ws).2 ∧ supplied s'.2 ∧ balanced (e, a) s') (e, a).
Proof.
  intros Hr Hsm Ha Hroom Hlen. unfold kvs_filter_protocol.
  assert (∀ i, (i < 3)%nat → token_array ws !! i = Some (ws !! i)) as Htok.
  { intros i Hi. apply token_array_lookup; [done|]. unfold KVS_MAX_TOKENS. lia. }
  unfold answer, room in *.
  apply wp_bind. eapply wp_from_opt; [apply Htok; lia|]. destruct ws as [|c args]; [done|]. cbn [lookup list_lookup].
  destruct (Z.eqb_spec (Z.of_nat (length (c :: args))) 0); [done|].
  apply wp_bind. eapply wp_from_opt; [apply Htok; lia|].
  apply wp_bind. eapply wp_from_opt; [apply Htok; lia|].
  rewrite find_cmd_spec. cbn [parse_request] in *.
  assert (∀ n : Z, Z.of_nat (length (c :: args)) =? n = bool_decide (Z.of_nat (length args) = n - 1)) as Hcount.
  { intros n'. cbn [length]. case_bool_decide; [apply Z.eqb_eq|apply Z.eqb_neq]; lia. }
  rewrite !Hcount.
  assert (∀ st : E * alloc, wp (sprintf ERROR) (λ r s', r = text ERROR ∧ s' = st) st) as Herr.
  { intros st. by apply wp_sprintf; [by apply Nat.ltb_lt|]. }
  repeat case_decide; subst; cbn [parse_request];
  destruct args as [|k [|v [|? ?]]]; cbn [lookup list_lookup length]; 
  repeat (case_bool_decide as Hb; try (exfalso; (lia || done)); clear Hb); cbn [negb orb];
  try (eapply wp_mono; [apply Herr|]; intros ? ? [-> ->]; done).
  - exact (filter_op_spec e a m (OpSet k v) Hr Hsm Ha Hroom).
  - exact (filter_op_spec e a m (OpGet k) Hr Hsm Ha I).
  - exact (filter_op_spec e a m (OpDel k) Hr Hsm Ha I).
  - exact (filter_op_spec e a m (OpMod k v) Hr Hsm Ha I).
  - exact (filter_op_spec e a m (OpExist k) Hr Hsm Ha I).
  - by apply wp_sprintf; [by apply Nat.ltb_lt|].
  - by apply wp_sprintf; [by apply Nat.ltb_lt|].
  - by apply wp_sprintf; [by apply Nat.ltb_lt|].
  - by apply wp_sprintf; [by apply Nat.ltb_lt|].
Qed.

(** A value set by a request is shorter than the request by six bytes or more. *)
Lemma answer_small m msg :
  (String.length msg < BUFFER_LENGTH)%nat → small m → small (answer m (words msg)).2.
Proof.
  intros Hlen Hsm. pose proof (words_weight msg) as Hw. pose proof (words_nonempty msg) as Hne.
  assert (∀ c k v, words msg = [c; k; v] → (3 ≤ String.length c)%nat → (String.length v + 6 < BUFFER_LENGTH)%nat) as Hv.
  { intros c k v Hws Hc. rewrite Hws in *. rewrite !weight_cons in Hw. cbn in Hw.
    assert (0 < String.length k)%nat by (apply Hne; set_solver). lia. }
  unfold answer. destruct (parse_request (words msg)) as [o| | |] eqn:Hp; try done. cbn [snd].
  destruct (words msg) as [|c args]; [done|]. cbn [parse_request] in Hp.
  destruct o as [k v|k|k|k v|k]; cbn [spec_step]; destruct (m !! k) eqn:Hk; try done; cbn [snd].
  - apply map_Forall_insert_2; [|done]. repeat case_decide; subst; destruct args as [|? [|? [|]]]; simplify_eq.
    eapply Hv; [done|cbn; lia].
  - by apply map_Forall_delete.
  - apply map_Forall_insert_2; [|done]. repeat case_decide; subst; destruct args as [|? [|? [|]]]; simplify_eq.
    eapply Hv; [done|cbn; lia].
Qed.

Lemma protocol_spec e a m msg len :
  eng_repr e m → small m → supplied a → room m (words msg) → 0 < len →
  (length (words msg) ≤ KVS_MAX_TOKENS)%nat →
  wp (kvs_protocol (Some msg) len)
    (λ r s', r = (answer m (words msg)).1 ∧ eng_repr s'.1 (answer m (words msg)).2 ∧
             supplied s'.2 ∧ balanced (e, a) s') (e, a).
Proof.
  intros Hr Hsm Ha Hroom Hpos Hlen. unfold kvs_protocol. rewrite bool_decide_eq_false_2 by done. cbn [orb].
  destruct (Z.leb_spec len 0); [lia|]. apply wp_bind.
  eapply wp_lift_any; [rewrite split_token_spec; by rewrite decide_True|]. cbn match.
  destruct (Z.eqb_spec (Z.of_nat (length (words msg))) (-1)); [lia|]. by apply filter_spec.
Qed.
End refinement.

(** kvs_split_token stores exactly the words of the message, in order and
    NULL behind them, and returns their number; with more words than the array
    has entries it writes past its end. *)
Theorem split_token_is_words {St} msg (st : St) :
  kvs_split_token (Some msg) (replicate KVS_MAX_TOKENS None) st =
    if decide (length (words msg) ≤ KVS_MAX_TOKENS)%nat
    then Ok ((Z.of_nat (length (words msg)),
              (Some <$> words msg) ++ replicate (KVS_MAX_TOKENS - length (words msg)) None), st)
    else UB OutOfBounds.
Proof. apply split_token_spec. Qed.
