(* ===== verification/KvReactor.v ===== *)
(** The network layer of the default build (Project1_KVstore/src/reactor.c): the
    table of connections indexed by descriptor, the epoll interest set, the three
    callbacks and the event loop.  What the kernel decides (which events are
    ready, what accept, recv and send return) is input; what the program does
    with it is the model. *)
From S2P Require Import Prelude KvMem KvSpec KvProtocol.
From Stdlib Require Import Ascii.

Definition CONNECTION_SIZE : nat := 1024.

(** RCALLBACK: the function pointers a connection can hold. *)
Inductive callback : Type := CbNull | CbAccept | CbRecv | CbSend.

Record conn : Type := mk_conn {
  c_fd : Z; rbuffer : list ascii; rlength : Z; wbuffer : list ascii; wlength : Z;
  send_callback : callback; r_action : callback }.

Definition zeros (n : nat) : list ascii := replicate n "000"%char.
(** memset(&conn, 0, sizeof(conn)) *)
Definition conn_zero : conn :=
  mk_conn 0 (zeros BUFFER_LENGTH) 0 (zeros BUFFER_LENGTH) 0 CbNull CbNull.

Definition EPOLLIN : Z := 1.
Definition EPOLLOUT : Z := 4.

(** [epoll] is the interest set; [wire] the bytes each send() handed over. *)
Record reactor : Type := mk_reactor {
  conn_list : list conn; epoll : gmap Z Z; wire : list (Z * list ascii) }.

Definition get_conn (fd : Z) : M reactor conn :=
  s ← get;
  if fd <? 0 then undef OutOfBounds else from_opt OutOfBounds (conn_list s !! Z.to_nat fd).
Definition set_conn (fd : Z) (c : conn) : M reactor unit :=
  get_conn fd;;
  modify (λ s, mk_reactor (<[Z.to_nat fd:=c]> (conn_list s)) (epoll s) (wire s)).

(** epoll_ctl ADD (flag 1) fails when fd is registered, MOD (flag 0) when it is
    not; the results are ignored. *)
Definition set_event (fd event flag : Z) : M reactor unit :=
  modify (λ s,
    let reg := epoll s !! fd in
    if flag =? 0
    then if reg is Some _ then mk_reactor (conn_list s) (<[fd:=event]> (epoll s)) (wire s) else s
    else if reg is None then mk_reactor (conn_list s) (<[fd:=event]> (epoll s)) (wire s) else s).
(** close(fd) and epoll_ctl(.., EPOLL_CTL_DEL, fd, ..) *)
Definition close_fd (fd : Z) : M reactor unit :=
  modify (λ s, mk_reactor (conn_list s) (delete fd (epoll s)) (wire s)).

(** The C string at the start of a buffer, when there is a NUL in it. *)
Fixpoint c_string (buf : list ascii) : option string :=
  match buf with
  | [] => None
  | c :: buf => if Ascii.eqb c "000" then Some "" else String c <$> c_string buf
  end.
(** sprintf wrote [s] and its NUL at the start of the buffer. *)
Definition write_cstr (s : string) (buf : list ascii) : list ascii :=
  String.list_ascii_of_string s ++ "000"%char :: drop (S (String.length s)) buf.

Section reactor.
Context {E : Type} `{KvEngine E}.
Abbreviation store := (reactor * (E * alloc))%type.

Definition kvs_request (fd : Z) : M store unit :=
  c ← on_fst (get_conn fd);
  msg ← from_opt OutOfBounds (c_string (rbuffer c));
  ' (len, response) ← on_snd (kvs_protocol (Some msg) (rlength c));
  on_fst (set_conn fd (mk_conn (c_fd c) (rbuffer c) (rlength c)
    (match response with Some s => write_cstr s (wbuffer c) | None => wbuffer c end) len
    (send_callback c) (r_action c))).

(** [clientfd] is the result of accept(). *)
Definition accept_cb (fd clientfd : Z) : M store Z :=
  if clientfd =? -1 then ret (-1) else
  if Z.of_nat CONNECTION_SIZE <=? clientfd then on_fst (close_fd clientfd);; ret (-1) else
  c ← on_fst (get_conn clientfd);
  on_fst (set_conn clientfd
    (mk_conn clientfd (zeros BUFFER_LENGTH) 0 (zeros BUFFER_LENGTH) 0 CbSend CbRecv));;
  on_fst (set_event clientfd EPOLLIN 1);;
  ret 0.

(** [data] is what the peer has sent ([None]: recv fails); recv takes at most
    BUFFER_LENGTH bytes of it. *)
Definition recv_cb (fd : Z) (data : option (list ascii)) : M store Z :=
  c ← on_fst (get_conn fd);
  match data with
  | None =>
      on_fst (close_fd fd);; on_fst (set_conn fd conn_zero);; ret (-1)
  | Some data =>
      let got := take BUFFER_LENGTH data in
      let count := Z.of_nat (length got) in
      if count =? 0 then on_fst (close_fd fd);; on_fst (set_conn fd conn_zero);; ret 0 else
      on_fst (set_conn fd (mk_conn (c_fd c) (got ++ zeros (BUFFER_LENGTH - length got)) count
        (wbuffer c) (wlength c) (send_callback c) (r_action c)));;
      kvs_request fd;;
      on_fst (set_event fd EPOLLOUT 0);;
      ret count
  end.

(** send(fd, wbuffer, wlength, 0), of which the kernel takes the first
    [accepted] bytes; the int length becomes a size_t. *)
Definition send_cb (fd : Z) (accepted : nat) : M store Z :=
  c ← on_fst (get_conn fd);
  (if wlength c =? 0 then ret () else
   if (wlength c <? 0) || (Z.of_nat BUFFER_LENGTH <? wlength c) then undef OutOfBounds else
   on_fst (modify (λ s, mk_reactor (conn_list s) (epoll s)
     (wire s ++ [(fd, take accepted (take (Z.to_nat (wlength c)) (wbuffer c)))]))));;
  on_fst (set_event (c_fd c) EPOLLIN 0);;
  ret 0.

(** A ready descriptor, with what the system calls of its callbacks return. *)
Record event : Type := mk_event {
  ev_fd : Z; ev_events : Z; ev_accept : Z; ev_recv : option (list ascii); ev_send : nat }.

Definition call (cb : callback) (e : event) : M store Z :=
  match cb with
  | CbNull => undef NullDeref
  | CbAccept => accept_cb (ev_fd e) (ev_accept e)
  | CbRecv => recv_cb (ev_fd e) (ev_recv e)
  | CbSend => send_cb (ev_fd e) (ev_send e)
  end.

(** The body of the loop for one ready descriptor. *)
Definition dispatch (e : event) : M store unit :=
  (if Z.land (ev_events e) EPOLLIN =? 0 then ret () else
   c ← on_fst (get_conn (ev_fd e)); call (r_action c) e;; ret ());;
  (if Z.land (ev_events e) EPOLLOUT =? 0 then ret () else
   c ← on_fst (get_conn (ev_fd e)); call (send_callback c) e;; ret ()).

Fixpoint event_loop (es : list event) : M store unit :=
  match es with
  | [] => ret ()
  | e :: es => dispatch e;; event_loop es
  end.

(** reactor_start for one port: [sockfd] is what init_server returns, [es] the
    events epoll_wait reports until it fails. *)
Definition reactor_start (sockfd : Z) (es : list event) : M store Z :=
  c ← on_fst (get_conn sockfd);
  on_fst (set_conn sockfd (mk_conn sockfd (rbuffer c) (rlength c) (wbuffer c) (wlength c)
    (send_callback c) CbAccept));;
  on_fst (set_event sockfd EPOLLIN 1);;
  event_loop es;;
  ret 0.

(** main: init_kvengine, the network loop, dest_kvengine. *)
Definition main (sockfd : Z) (es : list event) : M store Z :=
  on_snd init_kvengine;;
  reactor_start sockfd es;;
  on_snd dest_kvengine;;
  ret 0.
End reactor.

(** ** The specification of the server *)

(** A client is waiting for a request to arrive, or for its answer to leave. *)
Inductive cstate : Type := Reading | Writing (b : list ascii).
Record srv : Type := mk_srv {
  srv_map : gmap string string; srv_conns : gmap Z cstate; srv_wire : list (Z * list ascii) }.

(** The request in a received buffer: its bytes up to the first NUL. *)
Fixpoint request_text (d : list ascii) : string :=
  match d with
  | [] => ""
  | c :: d => if Ascii.eqb c "000" then "" else String c (request_text d)
  end.
(** The tokens of the request recv obtains from [data]. *)
Definition request_words (data : list ascii) : list string :=
  words (request_text (take BUFFER_LENGTH data)).
Definition answer_bytes (m : gmap string string) (ws : list string) : list ascii :=
  if (answer m ws).1.2 is Some s then String.list_ascii_of_string s else [].

Definition srv_step (lfd : Z) (s : srv) (e : event) : srv :=
  if decide (ev_fd e = lfd) then
    if (ev_accept e =? -1) || (Z.of_nat CONNECTION_SIZE <=? ev_accept e) then s
    else mk_srv (srv_map s) (<[ev_accept e:=Reading]> (srv_conns s)) (srv_wire s)
  else
    match srv_conns s !! ev_fd e with
    | None => s
    | Some Reading =>
        match ev_recv e with
        | None | Some [] => mk_srv (srv_map s) (delete (ev_fd e) (srv_conns s)) (srv_wire s)
        | Some data =>
            mk_srv (answer (srv_map s) (request_words data)).2
              (<[ev_fd e:=Writing (answer_bytes (srv_map s) (request_words data))]> (srv_conns s))
              (srv_wire s)
        end
    | Some (Writing b) =>
        mk_srv (srv_map s) (<[ev_fd e:=Reading]> (srv_conns s))
          (srv_wire s ++ [(ev_fd e, take (ev_send e) b)])
    end.

(** A request the parser can take: it ends inside the buffer, has at least one
    token and no more than the token array holds. *)
Definition request_ok (data : list ascii) : Prop :=
  ("000"%char ∈ take BUFFER_LENGTH data ∨ (length data < BUFFER_LENGTH)%nat) ∧
  (0 < length (request_words data) ≤ KVS_MAX_TOKENS)%nat.

(** What epoll_wait, accept and recv deliver: events the interest set asked for,
    a descriptor that is not in use, requests as above. *)
Definition ev_ok (lfd : Z) (s : srv) (e : event) : Prop :=
  if decide (ev_fd e = lfd) then
    Z.land (ev_events e) EPOLLIN ≠ 0 ∧ Z.land (ev_events e) EPOLLOUT = 0 ∧
    (ev_accept e = -1 ∨ 0 ≤ ev_accept e ∧ ev_accept e ≠ lfd ∧ srv_conns s !! ev_accept e = None)
  else
    match srv_conns s !! ev_fd e with
    | None => False
    | Some Reading =>
        Z.land (ev_events e) EPOLLIN ≠ 0 ∧ Z.land (ev_events e) EPOLLOUT = 0 ∧
        (if ev_recv e is Some (c :: data) then request_ok (c :: data) else True)
    | Some (Writing b) =>
        Z.land (ev_events e) EPOLLIN = 0 ∧ Z.land (ev_events e) EPOLLOUT ≠ 0
    end.

Fixpoint srv_run (lfd : Z) (s : srv) (es : list event) : srv :=
  match es with [] => s | e :: es => srv_run lfd (srv_step lfd s e) es end.
Fixpoint evs_ok (lfd : Z) (s : srv) (es : list event) : Prop :=
  match es with [] => True | e :: es => ev_ok lfd s e ∧ evs_ok lfd (srv_step lfd s e) es end.

#[export] Instance request_ok_dec data : Decision (request_ok data).
Proof. unfold request_ok. apply _. Defined.
#[export] Instance ev_ok_dec lfd s e : Decision (ev_ok lfd s e).
Proof.
  unfold ev_ok. destruct (decide _); [apply _|].
  destruct (srv_conns s !! ev_fd e) as [[|b]|]; [|apply _..].
  destruct (ev_recv e) as [[|c data]|]; apply _.
Defined.
#[export] Instance evs_ok_dec lfd s es : Decision (evs_ok lfd s es).
Proof. revert s. induction es as [|e es IH]; intros s; cbn; apply _. Defined.

(** ** Buffers *)

Lemma c_string_request got n :
  ("000"%char ∈ got ∨ (0 < n)%nat) → c_string (got ++ zeros n) = Some (request_text got).
Proof.
  induction got as [|c got IH]; cbn.
  - intros [?%elem_of_nil|Hn]; [done|]. destruct n; [lia|done].
  - destruct (Ascii.eqb_spec c "000") as [->|Hne]; [done|].
    intros Hin. rewrite IH; [done|]. destruct Hin as [Hin|]; [|by right].
    apply elem_of_cons in Hin as [Heq|]; [by rewrite Heq in Hne|by left].
Qed.
Lemma c_string_none buf : "000"%char ∉ buf → c_string buf = None.
Proof.
  induction buf as [|c buf IH]; cbn; [done|]. intros [Hne Hnin]%not_elem_of_cons.
  destruct (Ascii.eqb_spec c "000") as [->|_]; [done|]. by rewrite IH.
Qed.
Lemma request_text_len got : (String.length (request_text got) ≤ length got)%nat.
Proof.
  induction got as [|c got IH]; cbn; [done|]. destruct (Ascii.eqb c "000"); cbn; lia.
Qed.
Lemma request_text_nul got : "000"%char ∈ got → (String.length (request_text got) < length got)%nat.
Proof.
  induction got as [|c got IH]; cbn; [by intros ?%elem_of_nil|].
  destruct (Ascii.eqb_spec c "000") as [->|Hne]; [cbn; lia|].
  intros [Heq|Hin]%elem_of_cons; [by rewrite Heq in Hne|]. apply IH in Hin. cbn. lia.
Qed.
Lemma length_list_ascii s : length (String.list_ascii_of_string s) = String.length s.
Proof. induction s as [|c s IH]; cbn; [done|]. by rewrite IH. Qed.
Lemma take_write_cstr s buf :
  take (String.length s) (write_cstr s buf) = String.list_ascii_of_string s.
Proof. unfold write_cstr. by rewrite take_app_le, take_ge by (rewrite length_list_ascii; done). Qed.
Lemma length_write_cstr s buf :
  (String.length s < length buf)%nat → length (write_cstr s buf) = length buf.
Proof.
  intros. unfold write_cstr. rewrite length_app, length_list_ascii. cbn [length].
  rewrite length_drop. lia.
Qed.

(** Every request with a token gets a text that fits the buffer. *)
Lemma answer_text m ws :
  small m → ws ≠ [] →
  ∃ s, (answer m ws).1 = text s ∧ (0 < String.length s < BUFFER_LENGTH)%nat.
Proof.
  intros Hsm Hws. unfold answer.
  assert (∀ s, (String.length s <? BUFFER_LENGTH)%nat = true → s ≠ "" →
    ∃ s', text s = text s' ∧ (0 < String.length s' < BUFFER_LENGTH)%nat) as Hfix.
  { intros s Hs Hne. exists s. split; [done|]. apply Nat.ltb_lt in Hs. destruct s; [done|]. cbn in *. lia. }
  destruct (parse_request ws) as [o| | |] eqn:Hp; cbn [fst].
  - destruct o as [k v|k|k|k v|k]; cbn [spec_step]; destruct (m !! k) as [w|] eqn:Hk; cbn [fst reply_text];
      try (by apply Hfix).
    exists (w ++ crlf)%string. split; [done|]. pose proof (Hsm _ _ Hk) as Hw. cbn in Hw.
    rewrite string_length_app. change (String.length crlf) with 2%nat. lia.
  - by apply Hfix.
  - by apply Hfix.
  - destruct ws as [|c args]; [done|]. cbn in Hp. repeat case_decide; destruct args as [|? [|? [|]]]; done.
Qed.

(** ** The connection table and the specification *)

Definition conn_rel (st : reactor) (fd : Z) (cs : cstate) (c : conn) : Prop :=
  c_fd c = fd ∧ r_action c = CbRecv ∧ send_callback c = CbSend ∧ length (wbuffer c) = BUFFER_LENGTH ∧
  match cs with
  | Reading => epoll st !! fd = Some EPOLLIN
  | Writing b => epoll st !! fd = Some EPOLLOUT ∧ 0 < wlength c ≤ Z.of_nat BUFFER_LENGTH ∧
                 take (Z.to_nat (wlength c)) (wbuffer c) = b
  end.

Record rel (lfd : Z) (st : reactor) (s : srv) : Prop := {
  rel_len : length (conn_list st) = CONNECTION_SIZE;
  rel_lfd : 0 ≤ lfd < Z.of_nat CONNECTION_SIZE;
  rel_listen : ∃ c, conn_list st !! Z.to_nat lfd = Some c ∧ r_action c = CbAccept;
  rel_no_lfd : srv_conns s !! lfd = None;
  rel_conns : ∀ fd cs, srv_conns s !! fd = Some cs →
    0 ≤ fd < Z.of_nat CONNECTION_SIZE ∧ ∃ c, conn_list st !! Z.to_nat fd = Some c ∧ conn_rel st fd cs c;
  rel_epoll : ∀ fd, is_Some (epoll st !! fd) → fd = lfd ∨ is_Some (srv_conns s !! fd);
  rel_wire : wire st = srv_wire s }.

Lemma wp_get_conn (Q : conn → reactor → Prop) st fd c :
  0 ≤ fd → conn_list st !! Z.to_nat fd = Some c → Q c st → wp (get_conn fd) Q st.
Proof.
  intros Hfd Hc HQ. unfold get_conn. mem_step. destruct (Z.ltb_spec fd 0); [lia|].
  by eapply wp_from_opt.
Qed.
Lemma wp_set_conn (Q : unit → reactor → Prop) st fd c c' :
  0 ≤ fd → conn_list st !! Z.to_nat fd = Some c →
  Q () (mk_reactor (<[Z.to_nat fd:=c']> (conn_list st)) (epoll st) (wire st)) →
  wp (set_conn fd c') Q st.
Proof. intros. unfold set_conn. mem_step. by eapply wp_get_conn. Qed.

Lemma get_conn_ok st fd c :
  0 ≤ fd → conn_list st !! Z.to_nat fd = Some c → get_conn fd st = Ok (c, st).
Proof. intros. apply wp_det. by eapply wp_get_conn. Qed.
Lemma set_conn_ok st fd c c' :
  0 ≤ fd → conn_list st !! Z.to_nat fd = Some c →
  set_conn fd c' st = Ok ((), mk_reactor (<[Z.to_nat fd:=c']> (conn_list st)) (epoll st) (wire st)).
Proof. intros. apply wp_det. by eapply wp_set_conn. Qed.

(** Changing one client's connection, interest and specification state. *)
Lemma rel_update lfd st s fd c cs m w e' :
  rel lfd st s → fd ≠ lfd → 0 ≤ fd < Z.of_nat CONNECTION_SIZE →
  conn_rel (mk_reactor (<[Z.to_nat fd:=c]> (conn_list st)) (<[fd:=e']> (epoll st)) w) fd cs c →
  rel lfd (mk_reactor (<[Z.to_nat fd:=c]> (conn_list st)) (<[fd:=e']> (epoll st)) w)
    (mk_srv m (<[fd:=cs]> (srv_conns s)) w).
Proof.
  intros [Hlen Hlfd (lc&Hlc&Hacc) Hno Hconns Hep Hw] Hne Hfd Hc. split; cbn in *.
  - by rewrite length_insert.
  - done.
  - exists lc. split; [|done]. rewrite list_lookup_insert_ne by lia. done.
  - by rewrite lookup_insert_ne.
  - intros fd' cs'. destruct (decide (fd' = fd)) as [->|Hne'].
    + rewrite lookup_insert_eq. intros [= <-]. split; [done|]. exists c. split; [|done].
      apply list_lookup_insert_eq. lia.
    + rewrite lookup_insert_ne by done. intros Hcs. destruct (Hconns _ _ Hcs) as (Hr&c'&Hc'&Hrel).
      split; [done|]. exists c'. split; [by rewrite list_lookup_insert_ne by lia|].
      unfold conn_rel in *. cbn. by rewrite lookup_insert_ne by done.
  - intros fd' Hin. destruct (decide (fd' = fd)) as [->|Hne'].
    + right. rewrite lookup_insert_eq. by eexists.
    + rewrite lookup_insert_ne in Hin by done. rewrite lookup_insert_ne by done. by apply Hep.
  - done.
Qed.
(** A client that left. *)
Lemma rel_delete lfd st s fd c :
  rel lfd st s → fd ≠ lfd → 0 ≤ fd < Z.of_nat CONNECTION_SIZE →
  rel lfd (mk_reactor (<[Z.to_nat fd:=c]> (conn_list st)) (delete fd (epoll st)) (wire st))
    (mk_srv (srv_map s) (delete fd (srv_conns s)) (srv_wire s)).
Proof.
  intros [Hlen Hlfd (lc&Hlc&Hacc) Hno Hconns Hep Hw] Hne Hfd. split; cbn in *.
  - by rewrite length_insert.
  - done.
  - exists lc. split; [|done]. rewrite list_lookup_insert_ne by lia. done.
  - by rewrite lookup_delete_ne.
  - intros fd' cs' [Hne' Hcs]%lookup_delete_Some. destruct (Hconns _ _ Hcs) as (Hr&c'&Hc'&Hrel).
    split; [done|]. exists c'. split; [by rewrite list_lookup_insert_ne by lia|].
    unfold conn_rel in *. cbn. by rewrite lookup_delete_ne by done.
  - intros fd' [e [Hne' He]%lookup_delete_Some]. rewrite lookup_delete_ne by done.
    apply Hep. by eexists.
  - done.
Qed.

Section refinement.
Context {E : Type} `{HE : KvEngine E, HL : !KvLaws E, HD : !KvDelCode E}.
Implicit Types (s : srv) (e : event) (st : reactor).

(** The engine's room for the request of an event. *)
Definition ev_room s e : Prop :=
  match srv_conns s !! ev_fd e, ev_recv e with
  | Some Reading, Some (c :: data) => room (srv_map s) (request_words (c :: data))
  | _, _ => True
  end.

(** The program's state against the specification's. *)
Definition inv (lfd : Z) (x : reactor * (E * alloc)) s : Prop :=
  rel lfd x.1 s ∧ eng_repr x.2.1 (srv_map s) ∧ small (srv_map s) ∧ supplied x.2.2.

Lemma accept_spec lfd s e st en a :
  inv lfd (st, (en, a)) s → ev_fd e = lfd → ev_ok lfd s e →
  wp (accept_cb lfd (ev_accept e))
    (λ _ x, inv lfd x (srv_step lfd s e) ∧ balanced (en, a) x.2) (st, (en, a)).
Proof.
  intros (Hrel&Hr&Hsm&Ha) Hfd Hok. cbn [fst snd] in Hrel, Hr, Ha. unfold ev_ok, srv_step in *. rewrite decide_True in Hok by done. rewrite decide_True by done.
  destruct Hok as (_&_&Hacc). unfold accept_cb.
  destruct (Z.eqb_spec (ev_accept e) (-1)) as [Hm1|Hm1]; cbn [orb]; [done|].
  destruct Hacc as [?|(Hpos&Hne&Hnew)]; [done|].
  destruct (Z.leb_spec (Z.of_nat CONNECTION_SIZE) (ev_accept e)) as [Hbig|Hsmall].
  - unfold close_fd. mem_step. split; [|done]. split_and!; try done.
    assert (epoll st !! ev_accept e = None) as Hep.
    { apply eq_None_not_Some. intros [?|[? ?]]%(rel_epoll _ _ _ Hrel); congruence. }
    cbn [fst]. rewrite delete_id by done. by destruct st.
  - destruct (lookup_lt_is_Some_2 (conn_list st) (Z.to_nat (ev_accept e))) as [c Hc].
    { rewrite (rel_len _ _ _ Hrel). lia. }
    mem_step. eapply wp_get_conn; [lia|done|]. mem_step. eapply wp_set_conn; [lia|done|].
    unfold set_event. mem_step. cbn [Z.eqb epoll conn_list wire].
    assert (epoll st !! ev_accept e = None) as ->.
    { apply eq_None_not_Some. intros [?|[? ?]]%(rel_epoll _ _ _ Hrel); congruence. }
    split; [|done]. split_and!; try done. cbn [fst]. rewrite <-(rel_wire _ _ _ Hrel).
    apply rel_update; try done. split_and!; try done. cbn [epoll]. apply lookup_insert_eq.
Qed.

Lemma recv_spec lfd s e st en a :
  inv lfd (st, (en, a)) s → ev_fd e ≠ lfd → srv_conns s !! ev_fd e = Some Reading →
  ev_ok lfd s e → ev_room s e →
  wp (recv_cb (ev_fd e) (ev_recv e))
    (λ _ x, inv lfd x (srv_step lfd s e) ∧ balanced (en, a) x.2) (st, (en, a)).
Proof.
  intros (Hrel&Hr&Hsm&Ha) Hne Hcs Hok Hroom. cbn [fst snd] in Hrel, Hr, Ha. unfold ev_ok, srv_step, ev_room in *.
  rewrite decide_False, Hcs in Hok by done. rewrite decide_False, Hcs by done. rewrite Hcs in Hroom.
  destruct Hok as (_&_&Hreq). destruct (rel_conns _ _ _ Hrel _ _ Hcs) as (Hfd&c&Hc&Hcr).
  unfold recv_cb, close_fd. mem_step. eapply wp_get_conn; [lia|done|].
  destruct (ev_recv e) as [[|b data]|].
  - change (Z.of_nat (length (take BUFFER_LENGTH [])) =? 0) with true. cbn match. mem_step.
    eapply wp_set_conn; [lia|done|]. mem_step. split; [|done]. split_and!; try done.
    by apply (rel_delete lfd st s).
  - set (got := take BUFFER_LENGTH (b :: data)).
    assert (0 < length got ≤ BUFFER_LENGTH)%nat as Hgot.
    { unfold got. rewrite length_take. cbn [length]. unfold BUFFER_LENGTH. lia. }
    destruct (Z.eqb_spec (Z.of_nat (length got)) 0); [lia|]. mem_step.
    eapply wp_set_conn; [lia|done|]. unfold kvs_request. mem_step.
    eapply wp_get_conn; [lia|apply list_lookup_insert_eq; rewrite (rel_len _ _ _ Hrel); lia|].
    mem_step. destruct Hreq as [Hnul Hwords]. eapply wp_from_opt.
    { cbn [rbuffer]. apply c_string_request. destruct Hnul as [?|Hlen]; [by left|].
      right. unfold got. rewrite length_take. lia. }
    mem_step. cbn [rlength].
    change (words (request_text got)) with (request_words (b :: data)) in *.
    assert (String.length (request_text got) < BUFFER_LENGTH)%nat as Hshort.
    { destruct Hnul as [Hnul|Hlen].
      - pose proof (request_text_nul got Hnul). lia.
      - pose proof (request_text_len got). assert (length got < BUFFER_LENGTH)%nat; [|lia].
        unfold got. rewrite length_take. lia. }
    eapply wp_mono; [apply (protocol_spec en a (srv_map s)); [done|done|done|exact Hroom|lia|exact (proj2 Hwords)]|].
    intros [len resp] [en' a'] (Hans&Hr'&Ha'&Hbal). cbn match.
    change (words (request_text got)) with (request_words (b :: data)) in *.
    destruct (answer_text (srv_map s) (request_words (b :: data))) as (txt&Htxt&Hlen); [done| |].
    { intros Hnil. rewrite Hnil in Hwords. cbn in Hwords. lia. }
    rewrite Htxt in Hans. injection Hans as -> ->. mem_step.
    eapply wp_set_conn; [lia|apply list_lookup_insert_eq; rewrite (rel_len _ _ _ Hrel); lia|].
    unfold set_event. mem_step. cbn [Z.eqb epoll conn_list wire c_fd rbuffer rlength wbuffer wlength send_callback r_action].
    destruct Hcr as (Hcfd&Hract&Hsend&Hwb&->). rewrite list_insert_insert_eq.
    split; [|done]. split_and!; try done.
    + cbn [fst]. rewrite <-(rel_wire _ _ _ Hrel). apply rel_update; try done.
      split_and!; try done; cbn [wbuffer wlength epoll].
      * rewrite length_write_cstr; lia.
      * apply lookup_insert_eq.
      * lia.
      * lia.
      * rewrite Nat2Z.id, take_write_cstr. unfold answer_bytes. by rewrite Htxt.
    + cbn [srv_map]. by apply answer_small.
  - mem_step. eapply wp_set_conn; [lia|done|]. mem_step. split; [|done]. split_and!; try done.
    by apply (rel_delete lfd st s).
Qed.

Lemma send_spec lfd s e b st en a :
  inv lfd (st, (en, a)) s → ev_fd e ≠ lfd → srv_conns s !! ev_fd e = Some (Writing b) →
  wp (send_cb (ev_fd e) (ev_send e))
    (λ _ x, inv lfd x (srv_step lfd s e) ∧ balanced (en, a) x.2) (st, (en, a)).
Proof.
  intros (Hrel&Hr&Hsm&Ha) Hne Hcs. cbn [fst snd] in Hrel, Hr, Ha. unfold srv_step.
  rewrite decide_False, Hcs by done.
  destruct (rel_conns _ _ _ Hrel _ _ Hcs) as (Hfd&c&Hc&Hcfd&Hract&Hsend&Hwb&Hep&Hlen&Hb).
  unfold send_cb. mem_step. eapply wp_get_conn; [lia|done|]. mem_step.
  destruct (Z.eqb_spec (wlength c) 0); [lia|]. destruct (Z.ltb_spec (wlength c) 0); [lia|].
  destruct (Z.ltb_spec (Z.of_nat BUFFER_LENGTH) (wlength c)); [lia|]. cbn [orb]. unfold set_event. mem_step.
  cbn [Z.eqb epoll conn_list wire]. rewrite Hcfd, Hep, Hb. split; [|done]. split_and!; try done. cbn [fst].
  rewrite <-(rel_wire _ _ _ Hrel).
  rewrite <-(list_insert_id (conn_list st) (Z.to_nat (ev_fd e)) c) by done.
  apply rel_update; try done. split_and!; try done. cbn [epoll]. apply lookup_insert_eq.
Qed.

Lemma dispatch_spec lfd s e st en a :
  inv lfd (st, (en, a)) s → ev_ok lfd s e → ev_room s e →
  wp (dispatch e) (λ _ x, inv lfd x (srv_step lfd s e) ∧ balanced (en, a) x.2) (st, (en, a)).
Proof.
  intros Hinv Hok Hroom. pose proof Hinv as (Hrel&_). cbn [fst] in Hrel.
  unfold dispatch. pose proof Hok as Hok'. unfold ev_ok in Hok'.
  destruct (decide (ev_fd e = lfd)) as [Hfd|Hfd].
  - destruct Hok' as (Hin&Hout&_). destruct (rel_listen _ _ _ Hrel) as (c&Hc&Hacc).
    pose proof (rel_lfd _ _ _ Hrel). rewrite Hout. apply Z.eqb_neq in Hin. rewrite Hin. cbn [Z.eqb].
    mem_step. eapply wp_get_conn; [lia|by rewrite Hfd|]. rewrite Hacc. cbn [call]. mem_step.
    rewrite Hfd. eapply wp_mono; [by eapply accept_spec|]. by intros _ [? ?] ?.
  - destruct (srv_conns s !! ev_fd e) as [[|b]|] eqn:Hcs; [| |done];
      destruct (rel_conns _ _ _ Hrel _ _ Hcs) as (Hr&c&Hc&Hcfd&Hract&Hsend&_).
    + destruct Hok' as (Hin&Hout&_). rewrite Hout. apply Z.eqb_neq in Hin. rewrite Hin. cbn [Z.eqb].
      mem_step. eapply wp_get_conn; [lia|done|]. rewrite Hract. cbn [call]. mem_step.
      eapply wp_mono; [by eapply recv_spec|]. by intros _ [? ?] ?.
    + destruct Hok' as (Hin&Hout). rewrite Hin. apply Z.eqb_neq in Hout. rewrite Hout. cbn [Z.eqb].
      mem_step. eapply wp_get_conn; [lia|done|]. rewrite Hsend. cbn [call]. mem_step.
      eapply wp_mono; [by eapply send_spec|]. by intros _ [? ?] ?.
Qed.

(** Every request along a run finds room. *)
Fixpoint evs_room (lfd : Z) s (es : list event) : Prop :=
  match es with [] => True | e :: es => ev_room s e ∧ evs_room lfd (srv_step lfd s e) es end.

Lemma event_loop_spec lfd s es st en a :
  inv lfd (st, (en, a)) s → evs_ok lfd s es → evs_room lfd s es →
  wp (event_loop es) (λ _ x, inv lfd x (srv_run lfd s es) ∧ balanced (en, a) x.2) (st, (en, a)).
Proof.
  revert s st en a. induction es as [|e es IH]; intros s st en a Hinv; cbn [event_loop srv_run]; [done|].
  intros [Hok Hoks] [Hroom Hrooms]. eapply wp_seq; [by apply dispatch_spec|].
  intros _ [st' [en' a']] [Hinv' Hbal]. cbn [snd] in Hbal.
  eapply wp_mono; [by apply IH|]. intros _ x [? Hbal']. split; [done|].
  unfold balanced in *. cbn in *. lia.
Qed.

Definition reactor_zero : reactor := mk_reactor (replicate CONNECTION_SIZE conn_zero) ∅ [].
Definition srv_zero : srv := mk_srv ∅ ∅ [].

(** The whole program: what reaches the wire is what the specification sends,
    and every block the engine took has been returned. *)
Lemma main_spec lfd es en a :
  0 ≤ lfd < Z.of_nat CONNECTION_SIZE → supplied a → evs_ok lfd srv_zero es → evs_room lfd srv_zero es →
  wp (main lfd es)
    (λ r x, r = 0 ∧ wire x.1 = srv_wire (srv_run lfd srv_zero es) ∧
            al_live x.2.2 = al_live a - eng_owned (E:=E) eng_zero) (reactor_zero, (en, a)).
Proof.
  intros Hlfd Ha Hok Hroom. unfold main, init_kvengine, reactor_start. mem_step.
  eapply wp_mono; [by apply law_create|]. intros r0 [en1 a1] (->&Hr1&Ha1&Hb1). mem_step.
  assert (conn_list reactor_zero !! Z.to_nat lfd = Some conn_zero) as Hc.
  { apply lookup_replicate_2. lia. }
  eapply wp_get_conn; [lia|done|]. mem_step. eapply wp_set_conn; [lia|done|]. unfold set_event. mem_step.
  cbn [Z.eqb epoll reactor_zero conn_list wire]. rewrite lookup_empty.
  eapply wp_mono; [apply (event_loop_spec lfd srv_zero); [|done|done]|].
  - split_and!; try done. cbn [fst]. split; cbn [conn_list epoll wire srv_conns srv_wire srv_zero].
    + by rewrite length_insert, length_replicate.
    + done.
    + eexists. split; [apply list_lookup_insert_eq; rewrite length_replicate; lia|done].
    + done.
    + intros fd cs. by rewrite lookup_empty.
    + intros fd. destruct (decide (fd = lfd)) as [->|]; [by left|].
      rewrite lookup_insert_ne by done. rewrite lookup_empty. by intros [].
    + done.
  - intros _ [st [en2 a2]] [(Hrel&Hr2&_&_) Hb2]. cbn [fst snd] in *. mem_step. unfold dest_kvengine.
    eapply wp_mono; [by eapply law_destroy|]. intros _ [en3 a3] Hl. mem_step. cbn [fst snd] in *.
    split_and!; [done|by apply Hrel|]. unfold balanced in *. cbn in *. lia.
Qed.

(** What the handler does with a request of [data] in a zeroed buffer. *)
Lemma request_short data :
  request_ok data → (String.length (request_text (take BUFFER_LENGTH data)) < BUFFER_LENGTH)%nat.
Proof.
  intros [[Hnul|Hlen] _].
  - pose proof (request_text_nul _ Hnul). rewrite length_take in *. lia.
  - rewrite take_ge by lia. pose proof (request_text_len data). lia.
Qed.
Lemma handler_spec (en : E) a m data :
  eng_repr en m → small m → supplied a → (0 < length data ≤ BUFFER_LENGTH)%nat → request_ok data → room m (request_words data) →
  c_string (data ++ zeros (BUFFER_LENGTH - length data)) = Some (request_text data) ∧
  ∃ txt, (0 < String.length txt < BUFFER_LENGTH)%nat ∧ answer_bytes m (request_words data) = String.list_ascii_of_string txt ∧
  wp (kvs_protocol (Some (request_text data)) (Z.of_nat (length data)))
    (λ r x', r = text txt ∧ eng_repr x'.1 (answer m (request_words data)).2 ∧ small (answer m (request_words data)).2 ∧
      supplied x'.2 ∧ balanced (en, a) x') (en, a).
Proof.
  intros Hr Hsm Ha Hlen Hok Hroom. pose proof (request_short data Hok) as Hshort. destruct Hok as [Hnul Hwords].
  unfold request_words in *. rewrite take_ge in * by lia. set (ws := words (request_text data)) in *.
  split; [apply c_string_request; destruct Hnul; [by left|right; lia]|].
  destruct (answer_text m ws) as (txt & Htxt & Htl); [done|intros Hnil; rewrite Hnil in Hwords; cbn in Hwords; lia|].
  exists txt. split; [done|]. split; [unfold answer_bytes; by rewrite Htxt|].
  eapply wp_mono; [apply (protocol_spec en a m); [done|done|done|exact Hroom|lia|exact (proj2 Hwords)]|]. fold ws.
  intros r x' (-> & ? & ? & ?). split_and!; try done. by apply answer_small.
Qed.
End refinement.
