(* ===== verification/KvServer.v ===== *)
(** The server of the default build: the skip-list engine behind the protocol
    layer behind the reactor, and the theorems about the whole. *)
From S2P Require Import Prelude KvMem KvSpec KvSkiptable KvProtocol KvReactor.
From Stdlib Require Import Ascii.

Implicit Types (t : kvs_skiptable) (a : alloc).

Definition bytes (s : string) : list ascii := String.list_ascii_of_string s.

Lemma skip_room m ws : room (E:=kvs_skiptable) m ws.
Proof. unfold room. by destruct (parse_request ws) as [[]| | |]. Qed.
Lemma skip_evs_room lfd s es : evs_room (E:=kvs_skiptable) lfd s es.
Proof.
  revert s. induction es as [|e es IH]; intros s; cbn [evs_room]; [done|]. split; [|apply IH].
  unfold ev_room. destruct (srv_conns s !! ev_fd e) as [[|b]|]; try done.
  destruct (ev_recv e) as [[|c d]|]; try done. apply skip_room.
Qed.

(** C1: The server behaves as its specification for every sequence of events the
    kernel can report (connections accepted and refused, requests, disconnects,
    answers leaving in any order between clients) as long as each request ends
    inside the buffer and has between 1 and 128 tokens: no callback reads or
    writes outside a buffer or calls a NULL callback, the bytes handed to send()
    are those of the specified answers, and after the loop all engine memory has
    been returned.  (malloc succeeds.) *)
Theorem server_refines lfd es t a :
  0 ≤ lfd < Z.of_nat CONNECTION_SIZE → supplied a →
  evs_ok lfd srv_zero es →
  wp (main (E:=kvs_skiptable) lfd es)
    (λ r x, r = 0 ∧ wire x.1 = srv_wire (srv_run lfd srv_zero es) ∧ al_live x.2.2 = al_live a)
    (reactor_zero, (t, a)).
Proof.
  intros. eapply wp_mono; [apply (main_spec (E:=kvs_skiptable)); try done; apply skip_evs_room|].
  intros r x (->&->&->). split_and!; [done|done|]. change (eng_owned eng_zero) with 0. lia.
Qed.
(** Two clients: one stores a pair, the other reads it. *)
Definition two_clients : list event := [
  mk_event 3 EPOLLIN 4 None 0; mk_event 3 EPOLLIN 5 None 0;
  mk_event 4 EPOLLIN (-1) (Some (bytes ("SET k v" ++ crlf))) 0;
  mk_event 5 EPOLLIN (-1) (Some (bytes ("GET k" ++ crlf))) 0;
  mk_event 5 EPOLLOUT (-1) None 1024; mk_event 4 EPOLLOUT (-1) None 1024;
  mk_event 4 EPOLLIN (-1) (Some []) 0 ].
Lemma server_refines_witness :
  wp (main (E:=kvs_skiptable) 3 two_clients)
    (λ r x, r = 0 ∧ wire x.1 = [(5, bytes ("v" ++ crlf)); (4, bytes ("OK" ++ crlf))] ∧ al_live x.2.2 = 0)
    (reactor_zero, (eng_zero, mk_alloc [] 0 [])).
Proof.
  assert (srv_wire (srv_run 3 srv_zero two_clients) = [(5, bytes ("v" ++ crlf)); (4, bytes ("OK" ++ crlf))]) as <-
    by (vm_compute; reflexivity).
  apply (server_refines 3 two_clients eng_zero (mk_alloc [] 0 [])).
  - unfold CONNECTION_SIZE. lia.
  - repeat constructor.
  - apply (bool_decide_unpack _). vm_compute. exact I.
Defined.

(** One request against a table that holds the map [m]: the answer (its text
    and its length) is the specified one, the table then holds the specified map,
    and the answers to later requests still fit the buffer. *)
Theorem protocol_answers t a m msg :
  skip_repr t m → small m → supplied a → (0 < String.length msg < BUFFER_LENGTH)%nat →
  (length (words msg) ≤ KVS_MAX_TOKENS)%nat →
  wp (kvs_protocol (Some msg) (Z.of_nat (String.length msg)))
    (λ r s', r = (answer m (words msg)).1 ∧ skip_repr s'.1 (answer m (words msg)).2 ∧
             small (answer m (words msg)).2 ∧
             al_live s'.2 - skip_owned s'.1 = al_live a - skip_owned t) (t, a).
Proof.
  intros Hr Hsm Ha Hlen Hws. eapply wp_mono.
  - apply (protocol_spec (E:=kvs_skiptable) t a m); try done; [apply skip_room|lia].
  - intros r s' (->&Hr'&_&Hbal). split_and!; [done|exact Hr'|apply answer_small; [lia|done]|exact Hbal].
Qed.
Lemma protocol_answers_witness :
  let t := mk_table {[1%positive := mk_skip CNull CNull 16 (replicate 16 None)]} (Some 1%positive) 1 0 in
  wp (kvs_protocol (Some "SET k v") (Z.of_nat 7))
    (λ r s', r = text OK ∧ skip_repr s'.1 {["k" := "v"]} ∧ small {["k" := "v"]} ∧
             al_live s'.2 - skip_owned s'.1 = 1 - skip_owned t) (t, mk_alloc [] 1 []).
Proof.
  intros t. eapply wp_mono.
  - apply (protocol_answers t (mk_alloc [] 1 []) ∅ "SET k v").
    + apply empty_skip_repr.
    + apply map_Forall_empty.
    + repeat constructor.
    + unfold BUFFER_LENGTH. cbn. lia.
    + apply (bool_decide_unpack _). vm_compute. exact I.
  - intros r s' H. exact H.
Defined.

(** A client at descriptor [fd] that waits for a request. *)
Definition client (fd : Z) : reactor :=
  mk_reactor (<[Z.to_nat fd:=mk_conn fd (zeros BUFFER_LENGTH) 0 (zeros BUFFER_LENGTH) 0 CbSend CbRecv]>
    (replicate CONNECTION_SIZE conn_zero)) {[fd := EPOLLIN]} [].

(** A request of nothing but delimiters has no answer: kvs_protocol returns
    -1, recv_cb stores it as the length of the answer and asks for the write
    event, and the send that follows would read past the buffer. *)
Theorem blank_request_overruns fd t a m data n :
  0 ≤ fd < Z.of_nat CONNECTION_SIZE → skip_repr t m →
  (0 < length data < BUFFER_LENGTH)%nat → words (request_text data) = [] →
  wp (recv_cb fd (Some data))
    (λ r x, r = Z.of_nat (length data) ∧ epoll x.1 !! fd = Some EPOLLOUT ∧
            send_cb fd n x = UB OutOfBounds) (client fd, (t, a)).
Proof.
  intros Hfd Hr Hlen Hws. assert (take BUFFER_LENGTH data = data) as Htk by (apply take_ge; lia).
  assert (∀ c e w, mk_reactor (<[Z.to_nat fd:=c]> (conn_list (client fd))) e w
    = mk_reactor (<[Z.to_nat fd:=c]> (replicate CONNECTION_SIZE conn_zero)) e w) as Hcl.
  { intros. cbn. by rewrite list_insert_insert_eq. }
  assert (∀ c, <[Z.to_nat fd:=c]> (replicate CONNECTION_SIZE conn_zero) !! Z.to_nat fd = Some c) as Hat.
  { intros c. apply list_lookup_insert_eq. rewrite length_replicate. lia. }
  unfold recv_cb. mem_step. eapply wp_get_conn; [lia|apply Hat|]. rewrite Htk. cbn zeta.
  destruct (Z.eqb_spec (Z.of_nat (length data)) 0); [lia|]. mem_step.
  eapply wp_set_conn; [lia|apply Hat|]. rewrite Hcl. unfold kvs_request. mem_step.
  eapply wp_get_conn; [lia|apply Hat|]. mem_step. eapply wp_from_opt.
  { apply c_string_request. right. lia. }
  mem_step. eapply wp_lift_any.
  { unfold kvs_protocol. rewrite bool_decide_eq_false_2 by done. cbn [orb rlength].
    destruct (Z.leb_spec (Z.of_nat (length data)) 0); [lia|]. unfold bind at 1.
    rewrite split_token_spec, Hws. cbn. reflexivity. }
  mem_step. eapply wp_set_conn; [lia|apply Hat|]. unfold set_event. mem_step.
  cbn [Z.eqb epoll conn_list wire client].
  rewrite lookup_singleton_eq. cbn [fst epoll]. split_and!; [done|by rewrite lookup_insert_eq|].
  unfold send_cb, bind, on_fst.
  erewrite get_conn_ok; [|lia|cbn [conn_list]; rewrite list_insert_insert_eq; apply Hat]. done.
Qed.
Lemma blank_request_overruns_witness :
  let t := mk_table {[1%positive := mk_skip CNull CNull 16 (replicate 16 None)]} (Some 1%positive) 1 0 in
  wp (recv_cb 5 (Some (bytes crlf)))
    (λ r x, r = 2 ∧ epoll x.1 !! 5 = Some EPOLLOUT ∧ send_cb 5 1024 x = UB OutOfBounds)
    (client 5, (t, mk_alloc [] 1 [])).
Proof.
  intros t. apply (blank_request_overruns 5 t (mk_alloc [] 1 []) ∅ (bytes crlf) 1024).
  - unfold CONNECTION_SIZE. lia.
  - apply empty_skip_repr.
  - unfold BUFFER_LENGTH. cbn. lia.
  - reflexivity.
Defined.

(** A request that fills the receive buffer without a NUL is read past the
    end of the buffer: recv is given the whole buffer, and the bytes are then
    used as a C string. *)
Theorem unterminated_request_overruns fd t a data :
  0 ≤ fd < Z.of_nat CONNECTION_SIZE → (BUFFER_LENGTH ≤ length data)%nat →
  "000"%char ∉ take BUFFER_LENGTH data →
  recv_cb fd (Some data) (client fd, (t, a)) = UB OutOfBounds.
Proof.
  intros Hfd Hlen Hnul. unfold recv_cb, bind, on_fst.
  assert (∀ c, <[Z.to_nat fd:=c]> (replicate CONNECTION_SIZE conn_zero) !! Z.to_nat fd = Some c) as Hat.
  { intros c. apply list_lookup_insert_eq. rewrite length_replicate. lia. }
  erewrite get_conn_ok; [|lia|apply Hat]. rewrite length_take. rewrite Nat.min_l by lia.
  change (Z.of_nat BUFFER_LENGTH =? 0) with false. cbn match. cbv beta iota.
  cbv beta iota. erewrite set_conn_ok; [|lia|apply Hat]. unfold kvs_request, bind, on_fst.
  erewrite get_conn_ok; [|lia|cbn [conn_list client]; rewrite list_insert_insert_eq; apply Hat].
  cbn [rbuffer]. rewrite Nat.sub_diag, app_nil_r. rewrite c_string_none by done. done.
Qed.
Lemma unterminated_request_overruns_witness :
  recv_cb 5 (Some (replicate 1024 "a"%char)) (client 5, (eng_zero : kvs_skiptable, mk_alloc [] 1 []))
  = UB OutOfBounds.
Proof.
  apply (unterminated_request_overruns 5 eng_zero).
  - unfold CONNECTION_SIZE. lia.
  - rewrite length_replicate. unfold BUFFER_LENGTH. lia.
  - apply (bool_decide_unpack _). vm_compute. exact I.
Defined.

(** init_kvengine drops the result of create: when the allocation of the head
    node fails it still returns 0, and the first SET, GET, DEL, MOD or EXIST
    dereferences the NULL head. *)
Theorem init_failure_unnoticed t a p k v :
  al_plan a = false :: p →
  wp init_kvengine
    (λ r s', r = 0 ∧ kvs_skiptable_set engine_inst (Some k) (Some v) s' = UB NullDeref ∧
             kvs_skiptable_get engine_inst (Some k) s' = UB NullDeref ∧
             kvs_skiptable_del engine_inst (Some k) s' = UB NullDeref) (t, a).
Proof.
  intros Hp. unfold init_kvengine. mem_step. cbn [eng_create skip_engine]. unfold kvs_skiptable_create.
  rewrite decide_False by done. unfold skiptable_create_node. mem_step.
  eapply wp_lift_any; [unfold kvs_malloc; rewrite Hp; reflexivity|]. cbn [negb]. mem_step. done.
Qed.
Lemma init_failure_unnoticed_witness :
  wp init_kvengine
    (λ r s', r = 0 ∧ kvs_skiptable_set engine_inst (Some "k") (Some "v") s' = UB NullDeref ∧
             kvs_skiptable_get engine_inst (Some "k") s' = UB NullDeref ∧
             kvs_skiptable_del engine_inst (Some "k") s' = UB NullDeref)
    (eng_zero, mk_alloc [false] 0 []).
Proof. apply (init_failure_unnoticed _ _ []). reflexivity. Defined.
