(* ===== verification/KvProactor.v ===== *)
(** The io_uring front end of the key/value server (Project1_KVstore/src/proactor.c):
    connections and event contexts on the heap, one request in flight for each
    connection and one accept, and the loop over completions.  liburing's submission
    queue is a type class with laws; which requests complete, and how, is input. *)
From S2P Require Import Prelude KvMem KvSpec KvProtocol KvReactor.
From Stdlib Require Import Ascii.

Definition ENTRIES_LENGTH : nat := 1024.

(** struct io_conn_s and struct io_event_s; a pointer is an address. *)
Record io_conn : Type := mk_io_conn { io_fd : Z; rbuf : list ascii; rlen : Z; wbuf : list ascii; wlen : Z }.
Inductive io_type : Type := EVENT_ACCEPT | EVENT_RECV | EVENT_SEND.
Record io_event : Type := mk_io_event { ie_type : io_type; listen_fd : Z; ie_conn : option nat }.
Definition io_conn_zero : io_conn := mk_io_conn 0 (zeros BUFFER_LENGTH) 0 (zeros BUFFER_LENGTH) 0.

(** A prepared request with its user data: io_uring_prep_accept, io_uring_prep_recv into
    the rbuf of the connection, io_uring_prep_send of [len] bytes of its wbuf. *)
Inductive sqe : Type :=
| SqeAccept (fd : Z) (data : nat)
| SqeRecv (fd : Z) (conn : nat) (data : nat)
| SqeSend (fd : Z) (conn : nat) (len : Z) (data : nat).

(** The submission queue.  io_uring_get_sqe appends an entry that holds nothing yet, or
    gives NULL; the io_uring_prep functions and io_uring_sqe_set_data fill the last one;
    io_uring_submit hands all of them over, in order. *)
Class Uring (U : Type → Type) : Type := {
  io_uring_queue_init {A} : nat → U A;
  io_uring_get_sqe {A} : U A → option (U A);
  io_uring_prep {A} : A → U A → U A;
  io_uring_submit {A} : U A → list (option A) * U A }.
Class UringLaws (U : Type → Type) `{Uring U} : Type := {
  sq_entries {A} : U A → list (option A);
  sq_size {A} : U A → nat;
  law_init {A} n : sq_entries (io_uring_queue_init (A:=A) n) = [] ∧ sq_size (io_uring_queue_init (A:=A) n) = n;
  law_get {A} (u : U A) : (length (sq_entries u) < sq_size u)%nat →
    ∃ u', io_uring_get_sqe u = Some u' ∧ sq_entries u' = sq_entries u ++ [None] ∧ sq_size u' = sq_size u;
  law_full {A} (u : U A) : (sq_size u ≤ length (sq_entries u))%nat → io_uring_get_sqe u = None;
  law_prep {A} (u : U A) l a : sq_entries u = l ++ [None] →
    sq_entries (io_uring_prep a u) = l ++ [Some a] ∧ sq_size (io_uring_prep a u) = sq_size u;
  law_submit {A} (u : U A) : (io_uring_submit u).1 = sq_entries u ∧
    sq_entries (io_uring_submit u).2 = [] ∧ sq_size (io_uring_submit u).2 = sq_size u }.

(** The state: the ring, the requests in flight, the live blocks and the next address, the
    outcomes of the coming calls of malloc, the bytes each send took, the closed descriptors. *)
Record proactor {U : Type → Type} : Type := mk_proactor {
  p_ring : U sqe; p_flight : list sqe; p_conns : gmap nat io_conn; p_events : gmap nat io_event;
  p_brk : nat; p_plan : list bool; p_wire : list (Z * list ascii); p_closed : list Z }.
Arguments proactor : clear implicits.

(** A completion: the position of its request among those in flight, cqe->res, and the
    bytes that a receive stored. *)
Record cqe : Type := mk_cqe { cq_idx : nat; cq_res : Z; cq_data : list ascii }.

Section proactor.
Context {E : Type} `{KvEngine E} {U : Type → Type} `{Uring U}.
Abbreviation pstate := (proactor U).
Abbreviation store := (pstate * (E * alloc))%type.

Definition with_ring u (s : pstate) := mk_proactor U u (p_flight s) (p_conns s) (p_events s) (p_brk s) (p_plan s) (p_wire s) (p_closed s).
Definition with_flight l (s : pstate) := mk_proactor U (p_ring s) l (p_conns s) (p_events s) (p_brk s) (p_plan s) (p_wire s) (p_closed s).
Definition with_conns m (s : pstate) := mk_proactor U (p_ring s) (p_flight s) m (p_events s) (p_brk s) (p_plan s) (p_wire s) (p_closed s).
Definition with_events m (s : pstate) := mk_proactor U (p_ring s) (p_flight s) (p_conns s) m (p_brk s) (p_plan s) (p_wire s) (p_closed s).
Definition with_brk b (s : pstate) := mk_proactor U (p_ring s) (p_flight s) (p_conns s) (p_events s) b (p_plan s) (p_wire s) (p_closed s).
Definition with_plan l (s : pstate) := mk_proactor U (p_ring s) (p_flight s) (p_conns s) (p_events s) (p_brk s) l (p_wire s) (p_closed s).
Definition with_wire l (s : pstate) := mk_proactor U (p_ring s) (p_flight s) (p_conns s) (p_events s) (p_brk s) (p_plan s) l (p_closed s).
Definition with_closed l (s : pstate) := mk_proactor U (p_ring s) (p_flight s) (p_conns s) (p_events s) (p_brk s) (p_plan s) (p_wire s) l.

(** ** Memory *)

(** The address of a new block, or [None]. *)
Definition malloc : M pstate (option nat) :=
  s ← get;
  match p_plan s with
  | false :: p => put (with_plan p s);; ret None
  | true :: p => put (with_plan p (with_brk (S (p_brk s)) s));; ret (Some (p_brk s))
  | [] => put (with_brk (S (p_brk s)) s);; ret (Some (p_brk s))
  end.
Definition load_conn (c : nat) : M pstate io_conn := s ← get; from_opt DanglingDeref (p_conns s !! c).
Definition store_conn (c : nat) (x : io_conn) : M pstate unit :=
  load_conn c;; modify (λ s, with_conns (<[c:=x]> (p_conns s)) s).
Definition free_conn (c : nat) : M pstate unit :=
  load_conn c;; modify (λ s, with_conns (delete c (p_conns s)) s).
Definition load_event (e : nat) : M pstate io_event := s ← get; from_opt DanglingDeref (p_events s !! e).
Definition free_event (e : nat) : M pstate unit :=
  load_event e;; modify (λ s, with_events (delete e (p_events s)) s).
Definition close (fd : Z) : M pstate unit := modify (λ s, with_closed (p_closed s ++ [fd]) s).

(** ** Requests *)

Definition get_sqe : M pstate bool :=
  s ← get;
  match io_uring_get_sqe (p_ring s) with
  | None => ret false
  | Some u => put (with_ring u s);; ret true
  end.
Definition prep (q : sqe) : M pstate unit := modify (λ s, with_ring (io_uring_prep q (p_ring s)) s).
(** malloc, memset and the fields of an event context. *)
Definition new_event (x : io_event) : M pstate (option nat) :=
  e ← malloc;
  match e with
  | None => ret None
  | Some e => modify (λ s, with_events (<[e:=x]> (p_events s)) s);; ret (Some e)
  end.

Definition set_event_accept (sockfd : Z) : M pstate Z :=
  ok ← get_sqe;
  if negb ok then ret (-1) else
  event ← new_event (mk_io_event EVENT_ACCEPT sockfd None);
  match event with
  | None => ret (-1)
  | Some event => prep (SqeAccept sockfd event);; ret 0
  end.
Definition set_event_recv (conn : nat) : M pstate Z :=
  ok ← get_sqe;
  if negb ok then ret (-1) else
  c ← load_conn conn;
  store_conn conn (mk_io_conn (io_fd c) (zeros BUFFER_LENGTH) 0 (wbuf c) (wlen c));;
  event ← new_event (mk_io_event EVENT_RECV (-1) (Some conn));
  match event with
  | None => ret (-1)
  | Some event => c ← load_conn conn; prep (SqeRecv (io_fd c) conn event);; ret 0
  end.
Definition set_event_send (conn : nat) : M pstate Z :=
  ok ← get_sqe;
  if negb ok then ret (-1) else
  event ← new_event (mk_io_event EVENT_SEND (-1) (Some conn));
  match event with
  | None => ret (-1)
  | Some event => c ← load_conn conn; prep (SqeSend (io_fd c) conn (wlen c) event);; ret 0
  end.

(** io_uring_submit.  An entry that was never prepared holds what an earlier request
    left in it.  A send of a negative length, or of more than the buffer, reads beyond it. *)
Fixpoint prepared (l : list (option sqe)) : M pstate (list sqe) :=
  match l with
  | [] => ret []
  | None :: _ => undef IndetRead
  | Some q :: l =>
      (if q is SqeSend _ _ len _ then
         if (len <? 0) || (Z.of_nat BUFFER_LENGTH <? len) then undef OutOfBounds else ret ()
       else ret ());;
      qs ← prepared l; ret (q :: qs)
  end.
Definition submit : M pstate unit :=
  s ← get;
  let '(l, u) := io_uring_submit (p_ring s) in
  put (with_ring u s);;
  qs ← prepared l;
  modify (λ s, with_flight (p_flight s ++ qs) s).

(** ** Completions *)

(** What the kernel did for a request that completes with [res]: the event context, or
    [None] when there is no such request. *)
Definition perform (q : sqe) (res : Z) (data : list ascii) : M pstate nat :=
  match q with
  | SqeAccept _ event => ret event
  | SqeRecv _ conn event =>
      (if res <=? 0 then ret () else
       c ← load_conn conn;
       let got := take (Z.to_nat res) data in
       store_conn conn (mk_io_conn (io_fd c) (got ++ drop (length got) (rbuf c)) (rlen c) (wbuf c) (wlen c)));;
      ret event
  | SqeSend fd conn len event =>
      (if res <? 0 then ret () else
       c ← load_conn conn;
       modify (λ s, with_wire (p_wire s ++ [(fd, take (Z.to_nat res) (take (Z.to_nat len) (wbuf c)))]) s));;
      ret event
  end.

Definition handle_accept (sockfd : Z) (event : nat) (res : Z) : M pstate unit :=
  if res <? 0 then set_event_accept sockfd;; free_event event else
  conn ← malloc;
  match conn with
  | None => close res;; set_event_accept sockfd;; free_event event
  | Some conn =>
      modify (λ s, with_conns (<[conn:=io_conn_zero]> (p_conns s)) s);;
      x ← load_event event;
      modify (λ s, with_events (<[event:=mk_io_event (ie_type x) (listen_fd x) (Some conn)]> (p_events s)) s);;
      c ← load_conn conn;
      store_conn conn (mk_io_conn res (rbuf c) (rlen c) (wbuf c) (wlen c));;
      set_event_recv conn;;
      set_event_accept sockfd;;
      free_event event
  end.
Definition drop_conn (conn event : nat) : M pstate unit :=
  c ← load_conn conn; close (io_fd c);; free_conn conn;; free_event event.
Definition handle_recv (event conn : nat) (res : Z) : M store unit :=
  c ← on_fst (load_conn conn);
  on_fst (store_conn conn (mk_io_conn (io_fd c) (rbuf c) res (wbuf c) (wlen c)));;
  if res <=? 0 then on_fst (drop_conn conn event) else
  (* printf and the handler read rbuf as a string *)
  msg ← from_opt OutOfBounds (c_string (rbuf c));
  ' (len, response) ← on_snd (kvs_protocol (Some msg) res);
  on_fst (
    c ← load_conn conn;
    let wbuf := zeros BUFFER_LENGTH in
    store_conn conn (mk_io_conn (io_fd c) (rbuf c) (rlen c)
      (match response with Some s => write_cstr s wbuf | None => wbuf end) len);;
    set_event_send conn;;
    free_event event).
Definition handle_send (event conn : nat) (res : Z) : M pstate unit :=
  if res <? 0 then drop_conn conn event else set_event_recv conn;; free_event event.

(** The switch over event->type. *)
Definition handle (sockfd : Z) (q : sqe) (c : cqe) : M store unit :=
  event ← on_fst (perform q (cq_res c) (cq_data c));
  x ← on_fst (load_event event);
  match ie_type x with
  | EVENT_ACCEPT => on_fst (handle_accept sockfd event (cq_res c))
  | EVENT_RECV => conn ← from_opt NullDeref (ie_conn x); handle_recv event conn (cq_res c)
  | EVENT_SEND => conn ← from_opt NullDeref (ie_conn x); on_fst (handle_send event conn (cq_res c))
  end.
(** A completion of no request is none. *)
Definition complete (sockfd : Z) (c : cqe) : M store unit :=
  s ← on_fst get;
  match p_flight s !! cq_idx c with
  | None => ret ()
  | Some q => on_fst (put (with_flight (delete (cq_idx c) (p_flight s)) s));; handle sockfd q c
  end.
Fixpoint complete_all (sockfd : Z) (cs : list cqe) : M store unit :=
  match cs with [] => ret () | c :: cs => complete sockfd c;; complete_all sockfd cs end.

(** proactor_start: [sockfd] is what init_server returns, [batches] are the completions
    that io_uring_peek_batch_cqe gives in each round. *)
Fixpoint proactor_loop (sockfd : Z) (batches : list (list cqe)) : M store unit :=
  match batches with
  | [] => ret ()
  | cs :: batches => on_fst submit;; complete_all sockfd cs;; proactor_loop sockfd batches
  end.
Definition proactor_start (sockfd : Z) (batches : list (list cqe)) : M store unit :=
  on_fst (modify (with_ring (io_uring_queue_init ENTRIES_LENGTH)));;
  on_fst (set_event_accept sockfd);;
  proactor_loop sockfd batches.
(** main of kvstore.c with this front end, up to the last of the completions. *)
Definition proactor_main (sockfd : Z) (batches : list (list cqe)) : M store unit :=
  on_snd init_kvengine;; proactor_start sockfd batches.
End proactor.
