(* ===== verification/KvProServe.v ===== *)
(** The io_uring front end refines the server's specification: every connection has one
    request in flight or queued, the blocks on the heap are those the requests point to, and
    what is sent are the specified answers. *)
From S2P Require Import Prelude KvMem KvSpec KvProtocol KvReactor KvSkiptable KvServer KvProactor.
From Stdlib Require Import Ascii.

(** ** Specification *)

(** The map, the clients, what was sent, and the descriptors whose request is in flight or
    queued; the listening one stands for accept. *)
Record pro_srv : Type := mk_pro_srv {
  ps_map : gmap string string; ps_conns : gmap Z cstate; ps_wire : list (Z * list ascii);
  ps_flight : list Z; ps_queue : list Z }.

Definition pro_step (lfd : Z) (s : pro_srv) (c : cqe) : pro_srv :=
  match ps_flight s !! cq_idx c with
  | None => s
  | Some fd =>
      let flight := delete (cq_idx c) (ps_flight s) in
      if decide (fd = lfd) then
        if cq_res c <? 0 then mk_pro_srv (ps_map s) (ps_conns s) (ps_wire s) flight (ps_queue s ++ [lfd])
        else mk_pro_srv (ps_map s) (<[cq_res c:=Reading]> (ps_conns s)) (ps_wire s) flight (ps_queue s ++ [cq_res c; lfd])
      else
        match ps_conns s !! fd with
        | None => s
        | Some Reading =>
            if cq_res c <=? 0
            then mk_pro_srv (ps_map s) (delete fd (ps_conns s)) (ps_wire s) flight (ps_queue s)
            else
              let ws := request_words (cq_data c) in
              mk_pro_srv (answer (ps_map s) ws).2 (<[fd:=Writing (answer_bytes (ps_map s) ws)]> (ps_conns s))
                (ps_wire s) flight (ps_queue s ++ [fd])
        | Some (Writing b) =>
            if cq_res c <? 0
            then mk_pro_srv (ps_map s) (delete fd (ps_conns s)) (ps_wire s) flight (ps_queue s)
            else mk_pro_srv (ps_map s) (<[fd:=Reading]> (ps_conns s))
                   (ps_wire s ++ [(fd, take (Z.to_nat (cq_res c)) b)]) flight (ps_queue s ++ [fd])
        end
  end.
Definition pro_submit (s : pro_srv) : pro_srv :=
  mk_pro_srv (ps_map s) (ps_conns s) (ps_wire s) (ps_flight s ++ ps_queue s) [].
Definition pro_round (lfd : Z) (s : pro_srv) (cs : list cqe) : pro_srv := foldl (pro_step lfd) (pro_submit s) cs.
Definition pro_zero (lfd : Z) : pro_srv := mk_pro_srv ∅ ∅ [] [] [lfd].

(** What the kernel completes: a request in flight; a new descriptor; a request the parser
    can take; no more bytes than were asked for. *)
Definition cqe_ok (lfd : Z) (s : pro_srv) (c : cqe) : Prop :=
  match ps_flight s !! cq_idx c with
  | None => False
  | Some fd =>
      if decide (fd = lfd) then cq_res c < 0 ∨ cq_res c ≠ lfd ∧ ps_conns s !! cq_res c = None
      else match ps_conns s !! fd with
           | Some Reading => 0 < cq_res c →
               cq_res c = Z.of_nat (length (cq_data c)) ∧ (length (cq_data c) ≤ BUFFER_LENGTH)%nat ∧ request_ok (cq_data c)
           | _ => True
           end
  end.
Fixpoint cqes_ok (lfd : Z) (s : pro_srv) (cs : list cqe) : Prop :=
  match cs with [] => True | c :: cs => cqe_ok lfd s c ∧ cqes_ok lfd (pro_step lfd s c) cs end.
(** io_uring_peek_batch_cqe gives at most 128 completions. *)
Fixpoint batches_ok (lfd : Z) (s : pro_srv) (bs : list (list cqe)) : Prop :=
  match bs with
  | [] => True
  | cs :: bs => (length cs ≤ 128)%nat ∧ cqes_ok lfd (pro_submit s) cs ∧ batches_ok lfd (pro_round lfd s cs) bs
  end.

#[export] Instance cqe_ok_dec lfd s c : Decision (cqe_ok lfd s c).
Proof.
  unfold cqe_ok. destruct (ps_flight s !! cq_idx c) as [fd|]; [|apply _]. destruct (decide (fd = lfd)); [apply _|].
  destruct (ps_conns s !! fd) as [[|b]|]; apply _.
Defined.
#[export] Instance cqes_ok_dec lfd s cs : Decision (cqes_ok lfd s cs).
Proof. revert s. induction cs as [|c cs IH]; intros s; cbn; apply _. Defined.
#[export] Instance batches_ok_dec lfd s bs : Decision (batches_ok lfd s bs).
Proof. revert s. induction bs as [|cs bs IH]; intros s; cbn; apply _. Defined.

(** ** Requests and the blocks they own *)

Definition sqe_fd (q : sqe) : Z := match q with SqeAccept fd _ | SqeRecv fd _ _ | SqeSend fd _ _ _ => fd end.
Definition sqe_data (q : sqe) : nat := match q with SqeAccept _ e | SqeRecv _ _ e | SqeSend _ _ _ e => e end.
Definition sqe_conn (q : sqe) : option nat := match q with SqeAccept _ _ => None | SqeRecv _ c _ | SqeSend _ c _ _ => Some c end.

Lemma sqe_cases q : (∃ fd e, q = SqeAccept fd e) ∨ (∃ fd c e, q = SqeRecv fd c e) ∨ (∃ fd c n e, q = SqeSend fd c n e).
Proof. destruct q; eauto 10. Qed.

Section serve.
Context {U : Type → Type} `{HU : UringLaws U}.
Implicit Types (st : proactor U) (conns : gmap Z cstate) (l : list sqe) (q : sqe).

Definition req_ok (lfd : Z) st conns q : Prop :=
  match q with
  | SqeAccept fd e => fd = lfd ∧ p_events st !! e = Some (mk_io_event EVENT_ACCEPT lfd None)
  | SqeRecv fd c e => conns !! fd = Some Reading ∧ p_events st !! e = Some (mk_io_event EVENT_RECV (-1) (Some c)) ∧
      ∃ x, p_conns st !! c = Some x ∧ io_fd x = fd ∧ rbuf x = zeros BUFFER_LENGTH
  | SqeSend fd c n e => p_events st !! e = Some (mk_io_event EVENT_SEND (-1) (Some c)) ∧ 0 < n ≤ Z.of_nat BUFFER_LENGTH ∧
      ∃ x, p_conns st !! c = Some x ∧ io_fd x = fd ∧ conns !! fd = Some (Writing (take (Z.to_nat n) (wbuf x)))
  end.
(** The requests in flight and those in the ring. *)
Definition reqs st l : list sqe := p_flight st ++ l.
(** [oc] and [oe] are the connection and the event that the code is working on. *)
Record pcore (lfd : Z) l (oc oe : option nat) st conns : Prop := {
  pc_ring : sq_entries (p_ring st) = Some <$> l;
  pc_size : sq_size (p_ring st) = ENTRIES_LENGTH;
  pc_req : Forall (req_ok lfd st conns) (reqs st l);
  pc_fds : NoDup (sqe_fd <$> reqs st l);
  pc_data : NoDup (sqe_data <$> reqs st l);
  pc_conns : ∀ a, is_Some (p_conns st !! a) → oc = Some a ∨ Exists (λ q, sqe_conn q = Some a) (reqs st l);
  pc_events : ∀ a, is_Some (p_events st !! a) → oe = Some a ∨ a ∈ (sqe_data <$> reqs st l);
  pc_oc : ∀ a, oc = Some a → is_Some (p_conns st !! a) ∧ Forall (λ q, sqe_conn q ≠ Some a) (reqs st l);
  pc_oe : ∀ a, oe = Some a → is_Some (p_events st !! a) ∧ a ∉ (sqe_data <$> reqs st l);
  pc_brk : ∀ a, is_Some (p_conns st !! a) ∨ is_Some (p_events st !! a) → (a < p_brk st)%nat;
  pc_plan : Forall (eq true) (p_plan st);
  pc_lfd : conns !! lfd = None }.

(** A request only depends on its own blocks and its own descriptor. *)
Lemma req_frame lfd st st' conns conns' q :
  req_ok lfd st conns q → p_events st' !! sqe_data q = p_events st !! sqe_data q →
  (∀ c, sqe_conn q = Some c → p_conns st' !! c = p_conns st !! c) →
  (is_Some (sqe_conn q) → conns' !! sqe_fd q = conns !! sqe_fd q) → req_ok lfd st' conns' q.
Proof.
  intros Hq He Hc Hfd. destruct q as [fd e|fd c e|fd c n e]; cbn in *.
  - by rewrite He.
  - by rewrite He, Hc, Hfd by eauto.
  - by rewrite He, Hc, Hfd by eauto.
Qed.

Lemma wp_malloc_ok st (Q : option nat → proactor U → Prop) :
  Forall (eq true) (p_plan st) →
  (∀ p, Forall (eq true) p → Q (Some (p_brk st)) (with_plan p (with_brk (S (p_brk st)) st))) → wp malloc Q st.
Proof.
  intros Hp HQ. unfold malloc. mem_step. destruct (p_plan st) as [|[] p] eqn:Hpl; mem_step.
  - specialize (HQ [] Hp). destruct st. cbn in *. by subst.
  - apply HQ. by apply Forall_cons in Hp as [_ ?].
  - by apply Forall_cons in Hp as [? _].
Qed.
Lemma wp_get_sqe l st (Q : bool → proactor U → Prop) :
  sq_entries (p_ring st) = Some <$> l → sq_size (p_ring st) = ENTRIES_LENGTH → (length l < ENTRIES_LENGTH)%nat →
  (∀ u, sq_entries u = (Some <$> l) ++ [None] → sq_size u = ENTRIES_LENGTH → Q true (with_ring u st)) → wp get_sqe Q st.
Proof.
  intros Hl Hs Hlen HQ. unfold get_sqe. mem_step.
  destruct (law_get (p_ring st)) as (u & -> & Hu & Hsu).
  { rewrite Hl, Hs. by rewrite length_fmap. }
  mem_step. apply HQ; congruence.
Qed.

(** A request is added for the connection that the code works on, or for accept. *)
Lemma pcore_arm lfd l oc oc' oe st st' conns q ev :
  pcore lfd l oc oe st conns →
  sq_entries (p_ring st') = Some <$> (l ++ [q]) → sq_size (p_ring st') = ENTRIES_LENGTH →
  p_flight st' = p_flight st → Forall (eq true) (p_plan st') → sqe_data q = p_brk st → p_brk st' = S (p_brk st) →
  p_events st' = <[p_brk st:=ev]> (p_events st) →
  (∀ a, oc ≠ Some a → p_conns st' !! a = p_conns st !! a) →
  (∀ a, is_Some (p_conns st' !! a) ↔ is_Some (p_conns st !! a)) →
  sqe_fd q ∉ (sqe_fd <$> reqs st l) → (sqe_conn q = None ∧ oc' = oc ∨ sqe_conn q = oc ∧ oc' = None) →
  req_ok lfd st' conns q → pcore lfd (l ++ [q]) oc' oe st' conns.
Proof.
  intros [] Hr Hs Hf Hp Hd Hb He Hc Hlive Hfd Hq Hok.
  assert (reqs st' (l ++ [q]) = reqs st l ++ [q]) as Hreqs by (unfold reqs; by rewrite Hf, app_assoc).
  assert (∀ a, is_Some (p_events st !! a) → a ≠ p_brk st) as Hfresh.
  { intros a Ha ->. specialize (pc_brk0 (p_brk st) (or_intror Ha)). lia. }
  assert (∀ a, a ∈ (sqe_data <$> reqs st l) → is_Some (p_events st !! a)) as Hev.
  { intros a (q' & -> & Hin)%list_elem_of_fmap. pose proof (proj1 (Forall_forall _ _) pc_req0 q' Hin) as Hq'.
    destruct q'; cbn in *; destruct_and?; eauto. }
  split; rewrite ?Hreqs, ?He; try done.
  - apply Forall_app. split; [|by constructor]. apply Forall_forall. intros q' Hin.
    eapply req_frame; [by eapply Forall_forall| | |done].
    + rewrite He, lookup_insert_ne; [done|]. intros Heq. eapply (Hfresh (sqe_data q')); [|done]. apply Hev. set_solver.
    + intros c Hqc. apply Hc. intros Hoc. destruct (pc_oc0 c Hoc) as [_ Hno]. by apply (proj1 (Forall_forall _ _) Hno q' Hin).
  - rewrite fmap_app. apply NoDup_app. split_and!; [done| |apply NoDup_singleton]. set_solver.
  - rewrite fmap_app. apply NoDup_app. split_and!; [done| |apply NoDup_singleton]. intros a Ha Ha'%list_elem_of_singleton.
    subst a. rewrite Hd in Ha. by eapply Hfresh; [apply Hev|].
  - intros a Ha. rewrite Hlive in Ha. destruct (pc_conns0 a Ha) as [Hoc|Hin].
    + destruct Hq as [[_ ->]|[Hqc ->]]; [by left|]. right. apply Exists_app. right. constructor. congruence.
    + right. apply Exists_app. by left.
  - intros a [<-|[_ Ha]]%lookup_insert_is_Some; rewrite fmap_app; [right; set_solver|].
    destruct (pc_events0 a Ha); [by left|right; set_solver].
  - intros a Ha. destruct Hq as [[Hqc ->]|[_ ->]]; [|done]. destruct (pc_oc0 a Ha) as [? ?]. split; [by apply Hlive|].
    apply Forall_app. split; [done|]. constructor; [by rewrite Hqc|done].
  - intros a Ha. destruct (pc_oe0 a Ha) as [Hl Hn]. split; [apply lookup_insert_is_Some'; by right|].
    rewrite fmap_app, elem_of_app. intros [?|Hin]; [done|]. apply list_elem_of_singleton in Hin. rewrite Hd in Hin. by apply (Hfresh a).
  - intros a. rewrite Hb, Hlive. intros [Ha|[<-|[_ Ha]]%lookup_insert_is_Some]; [|lia|].
    + specialize (pc_brk0 a (or_introl Ha)). lia.
    + specialize (pc_brk0 a (or_intror Ha)). lia.
Qed.

(** The three ways to arm. *)
Definition keeps_io st st' : Prop := p_flight st' = p_flight st ∧ p_wire st' = p_wire st.
Lemma wp_new_event ev st (Q : option nat → proactor U → Prop) :
  Forall (eq true) (p_plan st) →
  (∀ p, Forall (eq true) p → Q (Some (p_brk st)) (with_events (<[p_brk st:=ev]> (p_events st)) (with_plan p (with_brk (S (p_brk st)) st)))) →
  wp (new_event ev) Q st.
Proof. intros Hp HQ. unfold new_event. mem_step. apply wp_malloc_ok; [done|]. intros p Hp'. mem_step. by apply HQ. Qed.
Lemma accept_arm lfd l oc oe st conns :
  pcore lfd l oc oe st conns → lfd ∉ (sqe_fd <$> reqs st l) → (length l < ENTRIES_LENGTH)%nat →
  wp (set_event_accept lfd) (λ r st', r = 0 ∧ keeps_io st st' ∧ p_conns st' = p_conns st ∧
    ∃ e, pcore lfd (l ++ [SqeAccept lfd e]) oc oe st' conns) st.
Proof.
  intros Hc Hfd Hlen. unfold set_event_accept. mem_step. eapply wp_get_sqe; [apply Hc..|done|]. intros u Hu Hsu. cbn [negb].
  mem_step. apply wp_new_event; [apply Hc|]. intros p Hp. unfold prep. mem_step. split; [done|]. split; [done|]. split; [done|].
  exists (p_brk st). destruct (law_prep u (Some <$> l) (SqeAccept lfd (p_brk st)) Hu) as [Hu' Hsu'].
  eapply pcore_arm; [exact Hc|..]; cbn; try done; [by rewrite fmap_app|congruence|by left|].
  split; [done|]. by rewrite lookup_insert_eq.
Qed.
Lemma wp_load_conn c x st (Q : io_conn → proactor U → Prop) : p_conns st !! c = Some x → Q x st → wp (load_conn c) Q st.
Proof. intros Hc HQ. unfold load_conn. mem_step. by rewrite Hc. Qed.
Lemma wp_store_conn c x y st (Q : unit → proactor U → Prop) :
  p_conns st !! c = Some x → Q () (with_conns (<[c:=y]> (p_conns st)) st) → wp (store_conn c y) Q st.
Proof. intros Hc HQ. unfold store_conn. mem_step. by eapply wp_load_conn. Qed.
Lemma update_others (m : gmap nat io_conn) c x : 
  (∀ a, Some c ≠ Some a → <[c:=x]> m !! a = m !! a).
Proof. intros a Ha. apply lookup_insert_ne. congruence. Qed.
Lemma update_live (m : gmap nat io_conn) c x : is_Some (m !! c) → ∀ a, is_Some (<[c:=x]> m !! a) ↔ is_Some (m !! a).
Proof. intros Hc a. rewrite lookup_insert_is_Some'. split; [intros [->|]; done|by right]. Qed.
Lemma recv_arm lfd l c oe x st conns :
  pcore lfd l (Some c) oe st conns → p_conns st !! c = Some x → conns !! io_fd x = Some Reading →
  io_fd x ∉ (sqe_fd <$> reqs st l) → (length l < ENTRIES_LENGTH)%nat →
  wp (set_event_recv c) (λ r st', r = 0 ∧ keeps_io st st' ∧
    ∃ e, pcore lfd (l ++ [SqeRecv (io_fd x) c e]) None oe st' conns) st.
Proof.
  intros Hc Hx Hst Hfd Hlen. unfold set_event_recv. mem_step. eapply wp_get_sqe; [apply Hc..|done|]. intros u Hu Hsu. cbn [negb].
  mem_step. eapply wp_load_conn; [done|]. mem_step. eapply wp_store_conn; [done|]. mem_step.
  apply wp_new_event; [apply Hc|]. intros p Hp. mem_step. eapply wp_load_conn; [by apply lookup_insert_eq|]. unfold prep. mem_step.
  cbn [io_fd]. split; [done|]. split; [done|]. exists (p_brk st).
  destruct (law_prep u (Some <$> l) (SqeRecv (io_fd x) c (p_brk st)) Hu) as [Hu' Hsu'].
  eapply pcore_arm; [exact Hc|..]; cbn; try done; [by rewrite fmap_app|congruence|apply update_others|by apply update_live; eauto|by right|].
  split; [done|]. split; [by rewrite lookup_insert_eq|]. eexists. split; [by rewrite lookup_insert_eq|]. done.
Qed.
Lemma send_arm lfd l c oe x st conns :
  pcore lfd l (Some c) oe st conns → p_conns st !! c = Some x → 0 < wlen x ≤ Z.of_nat BUFFER_LENGTH →
  conns !! io_fd x = Some (Writing (take (Z.to_nat (wlen x)) (wbuf x))) →
  io_fd x ∉ (sqe_fd <$> reqs st l) → (length l < ENTRIES_LENGTH)%nat →
  wp (set_event_send c) (λ r st', r = 0 ∧ keeps_io st st' ∧
    ∃ e, pcore lfd (l ++ [SqeSend (io_fd x) c (wlen x) e]) None oe st' conns) st.
Proof.
  intros Hc Hx Hw Hst Hfd Hlen. unfold set_event_send. mem_step. eapply wp_get_sqe; [apply Hc..|done|]. intros u Hu Hsu. cbn [negb].
  mem_step. apply wp_new_event; [apply Hc|]. intros p Hp. mem_step. eapply wp_load_conn; [done|]. unfold prep. mem_step.
  split; [done|]. split; [done|]. exists (p_brk st).
  destruct (law_prep u (Some <$> l) (SqeSend (io_fd x) c (wlen x) (p_brk st)) Hu) as [Hu' Hsu'].
  eapply pcore_arm; [exact Hc|..]; cbn; try done; [by rewrite fmap_app|congruence|by right|].
  split; [by rewrite lookup_insert_eq|]. split; [done|]. by exists x.
Qed.

(** ** Leaving a request and its blocks *)

Lemma wp_load_event e x st (Q : io_event → proactor U → Prop) : p_events st !! e = Some x → Q x st → wp (load_event e) Q st.
Proof. intros He HQ. unfold load_event. mem_step. by rewrite He. Qed.
Lemma pcore_conns lfd l oc oe st conns conns' :
  pcore lfd l oc oe st conns → (∀ fd, fd ∈ (sqe_fd <$> reqs st l) → conns' !! fd = conns !! fd) → conns' !! lfd = None →
  pcore lfd l oc oe st conns'.
Proof.
  intros [] Hagree Hlfd. split; try done. apply Forall_forall. intros q Hq.
  eapply req_frame; [by eapply Forall_forall|done..|]. intros _. apply Hagree. by apply list_elem_of_fmap_2.
Qed.
Lemma free_event_spec lfd l oc e st conns :
  pcore lfd l oc (Some e) st conns →
  wp (free_event e) (λ _ st', keeps_io st st' ∧ p_conns st' = p_conns st ∧ pcore lfd l oc None st' conns) st.
Proof.
  intros []. destruct (pc_oe0 e eq_refl) as [[x Hx] Hn]. unfold free_event. mem_step. eapply wp_load_event; [done|]. mem_step.
  split; [done|]. split; [done|]. split; cbn; try done.
  - apply Forall_forall. intros q Hq. eapply req_frame; [by eapply Forall_forall| |done..]. cbn. apply lookup_delete_ne.
    intros ->. apply Hn. by apply list_elem_of_fmap_2.
  - intros a [v [Hne Ha]%lookup_delete_Some]. destruct (pc_events0 a ltac:(eauto)) as [[= <-]|?]; [done|by right].
  - intros a [Ha|[v [_ Ha]%lookup_delete_Some]]; apply pc_brk0; eauto.
Qed.
Lemma drop_conn_spec lfd l c e st conns :
  pcore lfd l (Some c) (Some e) st conns →
  wp (drop_conn c e) (λ _ st', keeps_io st st' ∧ pcore lfd l None None st' conns) st.
Proof.
  intros Hc. destruct (pc_oc _ _ _ _ _ _ Hc c eq_refl) as [[x Hx] Hn]. unfold drop_conn, close, free_conn. mem_step.
  eapply wp_load_conn; [done|]. mem_step. eapply wp_load_conn; [done|]. mem_step.
  set (st' := with_conns _ _). assert (pcore lfd l None (Some e) st' conns) as Hc'.
  { destruct Hc. split; cbn; try done.
    - apply Forall_forall. intros q Hq. eapply req_frame; [by eapply Forall_forall|done| |done]. cbn. intros a Ha.
      apply lookup_delete_ne. intros ->. by apply (proj1 (Forall_forall _ _) Hn q Hq).
    - intros a [v [Hne Ha]%lookup_delete_Some]. destruct (pc_conns0 a ltac:(eauto)) as [[= <-]|?]; [done|by right].
    - intros a [[v [_ Ha]%lookup_delete_Some]|Ha]; apply pc_brk0; eauto. }
  eapply wp_mono; [by apply (free_event_spec lfd l None)|]. intros _ st2 ([? ?] & _ & ?). split; [by split|done].
Qed.

Lemma req_blocks lfd st conns q : req_ok lfd st conns q →
  is_Some (p_events st !! sqe_data q) ∧
  ∀ c, sqe_conn q = Some c → ∃ x, p_conns st !! c = Some x ∧ io_fd x = sqe_fd q.
Proof.
  destruct q as [fd e|fd c e|fd c n e]; cbn.
  - intros [_ ->]. split; [eauto|done].
  - intros (_ & -> & x & Hx & Hfd & _). split; [eauto|]. intros ? [= <-]. eauto.
  - intros (-> & _ & x & Hx & Hfd & _). split; [eauto|]. intros ? [= <-]. eauto.
Qed.
Lemma reqs_take st l i q : p_flight st !! i = Some q →
  q :: reqs (with_flight (delete i (p_flight st)) st) l ≡ₚ reqs st l.
Proof.
  intros Hi. unfold reqs. cbn [p_flight with_flight]. rewrite app_comm_cons. f_equiv. symmetry. by apply delete_Permutation.
Qed.
Lemma take_request lfd l st conns i q :
  pcore lfd l None None st conns → p_flight st !! i = Some q →
  let st' := with_flight (delete i (p_flight st)) st in
  pcore lfd l (sqe_conn q) (Some (sqe_data q)) st' conns ∧ sqe_fd q ∉ (sqe_fd <$> reqs st' l) ∧ req_ok lfd st' conns q.
Proof.
  intros [] Hi st'. pose proof (reqs_take st l i q Hi) as Hperm. fold st' in Hperm.
  rewrite <-Hperm in pc_req0, pc_fds0, pc_data0.
  apply Forall_cons in pc_req0 as [Hq Hreq]. apply NoDup_cons in pc_fds0 as [Hfd Hfds]. apply NoDup_cons in pc_data0 as [Hd Hdata].
  destruct (req_blocks _ _ _ _ Hq) as [Hev Hcn]. split; [|by split].
  split; try done.
  - intros a Ha. destruct (pc_conns0 a Ha) as [?|Hin]; [done|]. rewrite <-Hperm in Hin. apply Exists_cons in Hin as [->|?]; auto.
  - intros a Ha. destruct (pc_events0 a Ha) as [?|Hin]; [done|]. rewrite <-Hperm in Hin. apply elem_of_cons in Hin as [->|?]; auto.
  - intros a Ha. destruct (Hcn a Ha) as (x & Hx & Hxfd). split; [by exists x|]. apply Forall_forall. intros q' Hin Hq'.
    destruct (proj2 (req_blocks _ _ _ _ (proj1 (Forall_forall _ _) Hreq q' Hin)) a Hq') as (x' & Hx' & Hxfd').
    change (p_conns st' !! a = Some x') in Hx'. change (p_conns st !! a = Some x') in Hx'.
    apply Hfd. replace (sqe_fd q) with (sqe_fd q') by congruence. by apply list_elem_of_fmap_2.
  - intros a [= <-]. by split.
Qed.

(** ** The handlers *)

(** The code changes a block it owns. *)
Lemma pcore_own lfd l oc oe st st' conns :
  pcore lfd l oc oe st conns → p_ring st' = p_ring st → p_flight st' = p_flight st → p_plan st' = p_plan st →
  p_brk st' = p_brk st →
  (∀ a, oc ≠ Some a → p_conns st' !! a = p_conns st !! a) → (∀ a, is_Some (p_conns st' !! a) ↔ is_Some (p_conns st !! a)) →
  (∀ a, oe ≠ Some a → p_events st' !! a = p_events st !! a) → (∀ a, is_Some (p_events st' !! a) ↔ is_Some (p_events st !! a)) →
  pcore lfd l oc oe st' conns.
Proof.
  intros [] Hr Hf Hp Hb Hc Hcl He Hel. assert (reqs st' l = reqs st l) as Hreqs by (unfold reqs; by rewrite Hf).
  split; rewrite ?Hreqs, ?Hr, ?Hp, ?Hb; try done; intros; rewrite ?Hcl, ?Hel in *; eauto.
  apply Forall_forall. intros q Hq. eapply req_frame; [by eapply Forall_forall| | |done].
  - apply He. intros Ha. destruct (pc_oe0 _ Ha) as [_ Hn]. apply Hn. by apply list_elem_of_fmap_2.
  - intros c Hqc. apply Hc. intros Ha. destruct (pc_oc0 _ Ha) as [_ Hn]. by apply (proj1 (Forall_forall _ _) Hn q Hq).
Qed.
Lemma pcore_new_conn lfd l oe st conns p x :
  pcore lfd l None oe st conns → Forall (eq true) p →
  pcore lfd l (Some (p_brk st)) oe
    (with_conns (<[p_brk st:=x]> (p_conns st)) (with_plan p (with_brk (S (p_brk st)) st))) conns.
Proof.
  intros [] Hp.
  assert (p_conns st !! p_brk st = None) as Hn.
  { apply eq_None_not_Some. intros Ha. specialize (pc_brk0 _ (or_introl Ha)). lia. }
  assert (∀ q c, q ∈ reqs st l → sqe_conn q = Some c → c ≠ p_brk st) as Hne.
  { intros q c Hq Hqc ->. destruct (proj2 (req_blocks _ _ _ _ (proj1 (Forall_forall _ _) pc_req0 q Hq)) _ Hqc) as (?&?&_). congruence. }
  split; cbn; try done.
  - apply Forall_forall. intros q Hq. eapply req_frame; [by eapply Forall_forall|done| |done]. cbn. intros c Hqc.
    apply lookup_insert_ne. intros <-. by eapply Hne.
  - intros a [<-|[_ Ha]]%lookup_insert_is_Some; [by left|]. destruct (pc_conns0 a Ha); [done|by right].
  - intros a [= <-]. split; [by rewrite lookup_insert_eq|]. apply Forall_forall. intros q Hq Hqc. by eapply Hne.
  - intros a [[<-|[_ Ha]]%lookup_insert_is_Some|Ha]; [lia|..].
    + specialize (pc_brk0 a (or_introl Ha)). lia.
    + specialize (pc_brk0 a (or_intror Ha)). lia.
Qed.

Definition handled (lfd : Z) l st (conns' : gmap Z cstate) (new : list Z) (st' : proactor U) : Prop :=
  keeps_io st st' ∧ ∃ l', pcore lfd l' None None st' conns' ∧ sqe_fd <$> l' = (sqe_fd <$> l) ++ new.
Lemma handle_accept_spec lfd l e res st conns :
  pcore lfd l None (Some e) st conns → lfd ∉ (sqe_fd <$> reqs st l) → (length l + 2 ≤ ENTRIES_LENGTH)%nat →
  p_events st !! e = Some (mk_io_event EVENT_ACCEPT lfd None) →
  res < 0 ∨ res ≠ lfd ∧ res ∉ (sqe_fd <$> reqs st l) →
  wp (handle_accept lfd e res) (λ _ st', if res <? 0 then handled lfd l st conns [lfd] st'
    else handled lfd l st (<[res:=Reading]> conns) [res; lfd] st') st.
Proof.
  intros Hc Hfd Hlen He Hres. unfold handle_accept. destruct (Z.ltb_spec res 0) as [Hneg|Hpos].
  { mem_step. eapply wp_mono; [apply accept_arm; [done|done|lia]|]. intros _ st1 (_ & [Hf1 Hw1] & _ & e1 & Hc1). mem_step.
    eapply wp_mono; [by apply free_event_spec|]. intros _ st2 ([Hf2 Hw2] & _ & Hc2). split; [split; congruence|].
    eexists. split; [exact Hc2|]. by rewrite fmap_app. }
  destruct Hres as [|[Hne Hnew]]; [lia|]. mem_step. apply wp_malloc_ok; [apply Hc|]. intros p Hp. mem_step.
  pose proof (pcore_new_conn _ _ _ _ _ p io_conn_zero Hc Hp) as Hc1. set (c := p_brk st) in *.
  eapply wp_load_event; [done|]. mem_step. eapply wp_load_conn; [by apply lookup_insert_eq|]. mem_step.
  eapply wp_store_conn; [by apply lookup_insert_eq|]. mem_step. set (st2 := with_conns _ (with_events _ _)).
  assert (pcore lfd l (Some c) (Some e) st2 (<[res:=Reading]> conns)) as Hc2.
  { eapply pcore_conns.
    - eapply pcore_own; [exact Hc1|done..| | | |]; cbn.
      + intros a Ha. rewrite !lookup_insert_ne by congruence. done.
      + apply update_live. by rewrite lookup_insert_eq.
      + intros a Ha. apply lookup_insert_ne. congruence.
      + intros a. rewrite lookup_insert_is_Some'. split; [intros [<-|]; eauto|by right].
    - intros fd Hin. apply lookup_insert_ne. intros <-. done.
    - rewrite lookup_insert_ne by done. apply Hc. }
  mem_step. eapply wp_mono.
  { eapply (recv_arm lfd l c (Some e) (mk_io_conn res (zeros BUFFER_LENGTH) 0 (zeros BUFFER_LENGTH) 0)); [exact Hc2|..].
    - cbn. by rewrite lookup_insert_eq.
    - apply lookup_insert_eq.
    - done.
    - lia. }
  cbn [io_fd]. intros _ st3 (_ & [Hf3 Hw3] & e3 & Hc3). mem_step. eapply wp_mono.
  { apply accept_arm; [exact Hc3| |rewrite length_app; cbn; lia]. unfold reqs. rewrite Hf3. cbn [p_flight with_conns with_events with_plan with_brk st2].
    rewrite app_assoc, fmap_app. cbn. set_unfold. intros [Hin|[Hin|[]]]; [|congruence].
    apply Hfd. unfold reqs. set_unfold. naive_solver. }
  intros _ st4 (_ & [Hf4 Hw4] & _ & e4 & Hc4). mem_step.
  eapply wp_mono; [by apply free_event_spec|]. intros _ st5 ([Hf5 Hw5] & _ & Hc5). split.
  - split; [rewrite Hf5, Hf4, Hf3; done|rewrite Hw5, Hw4, Hw3; done].
  - eexists. split; [exact Hc5|]. by rewrite !fmap_app, <-app_assoc.
Qed.
(** The client leaves. *)
Lemma leave_spec lfd l c e x st conns :
  pcore lfd l (Some c) (Some e) st conns → io_fd x ∉ (sqe_fd <$> reqs st l) →
  wp (drop_conn c e) (λ _ st', handled lfd l st (delete (io_fd x) conns) [] st') st.
Proof.
  intros Hc Hfd. eapply wp_mono; [by apply drop_conn_spec|]. intros _ st' [Hk Hc']. split; [done|]. exists l.
  split; [|by rewrite app_nil_r]. destruct Hk as [Hf _]. eapply pcore_conns; [done|..].
  - intros fd Hin. apply lookup_delete_ne. intros <-. apply Hfd. unfold reqs in *. by rewrite <-Hf.
  - apply lookup_delete_None. right. apply Hc.
Qed.
Lemma pcore_state lfd l oc oe st conns fd v :
  pcore lfd l oc oe st conns → fd ≠ lfd → fd ∉ (sqe_fd <$> reqs st l) → pcore lfd l oc oe st (<[fd:=v]> conns).
Proof.
  intros Hc Hne Hfd. eapply pcore_conns; [done|..].
  - intros fd' Hin. apply lookup_insert_ne. by intros <-.
  - rewrite lookup_insert_ne by done. apply Hc.
Qed.
Lemma handle_send_spec lfd l c e x res st conns :
  pcore lfd l (Some c) (Some e) st conns → p_conns st !! c = Some x → io_fd x ≠ lfd →
  io_fd x ∉ (sqe_fd <$> reqs st l) → (length l < ENTRIES_LENGTH)%nat →
  wp (handle_send e c res) (λ _ st', if res <? 0 then handled lfd l st (delete (io_fd x) conns) [] st'
    else handled lfd l st (<[io_fd x:=Reading]> conns) [io_fd x] st') st.
Proof.
  intros Hc Hx Hne Hfd Hlen. unfold handle_send. destruct (res <? 0); [by apply leave_spec|]. mem_step. eapply wp_mono.
  { eapply (recv_arm lfd l c (Some e) x st (<[io_fd x:=Reading]> conns)); [by apply pcore_state|done|apply lookup_insert_eq|done|done]. }
  intros _ st1 (_ & [Hf1 Hw1] & e1 & Hc1). mem_step.
  eapply wp_mono; [by apply free_event_spec|]. intros _ st2 ([Hf2 Hw2] & _ & Hc2). split; [split; congruence|].
  eexists. split; [exact Hc2|]. by rewrite fmap_app.
Qed.

Section recv.
Context {E : Type} `{HE : KvEngine E, HL : !KvLaws E, HD : !KvDelCode E}.
Lemma store_conn_spec lfd l c oe x y st conns (Q : unit → proactor U → Prop) :
  pcore lfd l (Some c) oe st conns → p_conns st !! c = Some x →
  (∀ st', pcore lfd l (Some c) oe st' conns → keeps_io st st' → p_conns st' !! c = Some y → p_events st' = p_events st → Q () st') →
  wp (store_conn c y) Q st.
Proof.
  intros Hc Hx HQ. eapply wp_store_conn; [done|]. apply HQ; [|done|by apply lookup_insert_eq|done].
  eapply pcore_own; [exact Hc|done..| | |done|done]; cbn; [apply update_others|apply update_live; eauto].
Qed.
Lemma handled_trans lfd l st st1 st2 conns new :
  keeps_io st st1 → handled lfd l st1 conns new st2 → handled lfd l st conns new st2.
Proof. intros [Hf Hw] [[Hf' Hw'] H']. split; [split; congruence|done]. Qed.

(** A request is served: the answer is computed and its send is queued. *)
Lemma handle_recv_spec lfd l c e x data st conns m (en : E) a :
  pcore lfd l (Some c) (Some e) st conns → p_conns st !! c = Some x → io_fd x ≠ lfd →
  io_fd x ∉ (sqe_fd <$> reqs st l) → (length l < ENTRIES_LENGTH)%nat →
  rbuf x = data ++ drop (length data) (zeros BUFFER_LENGTH) → (0 < length data ≤ BUFFER_LENGTH)%nat → request_ok data →
  eng_repr en m → small m → supplied a → room m (request_words data) →
  wp (handle_recv e c (Z.of_nat (length data))) (λ _ x',
    handled lfd l st (<[io_fd x:=Writing (answer_bytes m (request_words data))]> conns) [io_fd x] x'.1 ∧
    eng_repr x'.2.1 (answer m (request_words data)).2 ∧ small (answer m (request_words data)).2 ∧ supplied x'.2.2 ∧
    balanced (en, a) x'.2) (st, (en, a)).
Proof.
  intros Hc Hx Hne Hfd Hlen Hrb Hdl Hok Hr Hsm Ha Hroom. unfold handle_recv. mem_step.
  eapply wp_load_conn; [done|]. mem_step. eapply store_conn_spec; [done..|]. intros st1 Hc1 Hk1 Hx1 He1.
  destruct (Z.leb_spec (Z.of_nat (length data)) 0); [lia|]. mem_step.
  destruct (handler_spec en a m data) as (Hstr & txt & Htl & Hbytes & Hwp); [done..|].
  unfold zeros in Hrb. rewrite drop_replicate in Hrb. unfold zeros in Hstr. rewrite Hrb, Hstr. cbn [from_opt]. mem_step.
  eapply wp_mono; [exact Hwp|]. intros [len resp] [en' a'] ([= -> ->] & Hr' & Hsm' & Ha' & Hbal). mem_step.
  eapply wp_load_conn; [done|]. mem_step. cbn [io_fd rbuf rlen].
  eapply store_conn_spec; [done..|]. intros st2 Hc2 Hk2 Hx2 He2. mem_step.
  set (y := mk_io_conn _ _ _ _ _) in Hx2. eapply wp_mono.
  { eapply (send_arm lfd l c (Some e) y st2 (<[io_fd x:=Writing (answer_bytes m (request_words data))]> conns));
      [|done|cbn; lia| |unfold reqs in *; destruct Hk1 as [Hf1 _], Hk2 as [Hf2 _]; by rewrite Hf2, Hf1|done].
    - apply pcore_state; [done..|]. unfold reqs in *. destruct Hk1 as [Hf1 _], Hk2 as [Hf2 _]. by rewrite Hf2, Hf1.
    - cbn [y io_fd wlen wbuf]. by rewrite lookup_insert_eq, Nat2Z.id, take_write_cstr, Hbytes. }
  intros _ st3 (_ & Hk3 & e3 & Hc3). mem_step. eapply wp_mono; [by apply free_event_spec|]. intros _ st4 (Hk4 & _ & Hc4). mem_step.
  split; [|by split_and!]. do 2 (eapply handled_trans; [done|]). split; [destruct Hk3, Hk4; split; congruence|].
  eexists. split; [exact Hc4|]. by rewrite fmap_app.
Qed.

(** ** The loop *)

Record pinv (lfd : Z) l (x : proactor U * (E * alloc)) (s : pro_srv) : Prop := {
  pi_core : pcore lfd l None None x.1 (ps_conns s);
  pi_flight : ps_flight s = sqe_fd <$> p_flight x.1;
  pi_queue : ps_queue s = sqe_fd <$> l;
  pi_all : ∀ fd, fd = lfd ∨ is_Some (ps_conns s !! fd) → fd ∈ ps_flight s ++ ps_queue s;
  pi_wire : p_wire x.1 = ps_wire s;
  pi_eng : eng_repr x.2.1 (ps_map s) ∧ small (ps_map s) ∧ supplied x.2.2 }.
(** The engine has room for the request of a completion. *)
Definition cqe_room (s : pro_srv) (c : cqe) : Prop :=
  match ps_flight s !! cq_idx c with
  | Some fd => match ps_conns s !! fd with
               | Some Reading => 0 < cq_res c → room (ps_map s) (request_words (cq_data c))
               | _ => True
               end
  | None => True
  end.

Lemma key_known lfd st conns q : req_ok lfd st conns q → sqe_fd q = lfd ∨ is_Some (conns !! sqe_fd q).
Proof. destruct q; cbn; [intros [-> _]; by left|intros [-> _]; eauto|intros (_ & _ & x & _ & _ & ->); eauto]. Qed.
Lemma elem_of_delete (l : list Z) i x y : l !! i = Some x → y ∈ l → y = x ∨ y ∈ delete i l.
Proof. intros Hi Hy. rewrite (delete_Permutation l i x Hi) in Hy. by apply elem_of_cons. Qed.
(** What a handler leaves is the specified state. *)
Lemma handled_inv lfd l st st0 (en en' : E) a a' s i fd conns' new m w st' :
  pinv lfd l (st, (en, a)) s → ps_flight s !! i = Some fd →
  p_flight st0 = delete i (p_flight st) → p_wire st0 = w →
  handled lfd l st0 conns' new st' → eng_repr en' m → small m → supplied a' →
  (∀ fd', fd' = lfd ∨ is_Some (conns' !! fd') → (fd' ≠ fd ∧ (fd' = lfd ∨ is_Some (ps_conns s !! fd'))) ∨ fd' ∈ new) →
  ∃ l', pinv lfd l' (st', (en', a')) (mk_pro_srv m conns' w (delete i (ps_flight s)) (ps_queue s ++ new)) ∧
    length l' = (length l + length new)%nat.
Proof.
  intros [Hc Hf Hq Hall _ _] Hi Hf0 Hw0 ([Hf' Hw'] & l' & Hc' & Hl') Hr Hsm Ha Hnew. exists l'. split; [split; cbn in *|].
  - done.
  - rewrite Hf', Hf0, Hf. symmetry. apply list_fmap_delete.
  - by rewrite Hl', Hq.
  - intros fd' Hfd'. destruct (Hnew fd' Hfd') as [[Hne Hold]|?]; [|set_solver].
    specialize (Hall fd' Hold). apply elem_of_app in Hall as [Hin|?]; [|set_solver].
    destruct (elem_of_delete _ _ _ _ Hi Hin); [done|set_solver].
  - by rewrite Hw', Hw0.
  - done.
  - apply (f_equal length) in Hl'. rewrite length_app, !length_fmap in Hl'. done.
Qed.

Definition completed lfd l (en : E) a s' (x' : proactor U * (E * alloc)) : Prop :=
  balanced (en, a) x'.2 ∧ ∃ l', pinv lfd l' x' s' ∧ (length l' ≤ length l + 2)%nat.
Section case.
Context (lfd : Z) (l : list sqe) (st : proactor U) (en : E) (a : alloc) (s : pro_srv) (c : cqe) (q : sqe).
Hypothesis (Hinv : pinv lfd l (st, (en, a)) s) (Hq : p_flight st !! cq_idx c = Some q).
Hypothesis (Hok : cqe_ok lfd s c) (Hroom : cqe_room s c) (Hlen : (length l + 2 ≤ ENTRIES_LENGTH)%nat).
Let st0 := with_flight (delete (cq_idx c) (p_flight st)) st.

Lemma flight_key : ps_flight s !! cq_idx c = Some (sqe_fd q).
Proof. rewrite (pi_flight _ _ _ _ Hinv), list_lookup_fmap. cbn [fst]. by rewrite Hq. Qed.
Lemma no_lfd : ¬ is_Some (ps_conns s !! lfd).
Proof. rewrite (pc_lfd _ _ _ _ _ _ (pi_core _ _ _ _ Hinv)). by intros [? ?]. Qed.
Lemma accept_case fd e : q = SqeAccept fd e →
  wp (handle lfd q c) (λ _ x', completed lfd l en a (pro_step lfd s c) x') (st0, (en, a)).
Proof.
  pose proof flight_key as Hkey. intros ->. pose proof Hinv as [Hcore _ _ Hall Hw (Hr & Hsm & Ha)].
  destruct (take_request _ _ _ _ _ _ Hcore Hq) as (Hc & Hfd & Hreq). cbn in Hc, Hfd. destruct Hreq as [-> He]. cbn [sqe_fd] in *.
  unfold cqe_ok in Hok. rewrite Hkey, decide_True in Hok by done. unfold pro_step. rewrite Hkey, decide_True by done.
  unfold handle. mem_step. cbn [perform]. mem_step. eapply wp_load_event; [done|]. cbn [ie_type]. mem_step.
  eapply wp_mono; [apply (handle_accept_spec lfd l e (cq_res c)); try done|].
  - destruct Hok as [?|[Hne Hn]]; [by left|right]. split; [done|]. intros (q & Hqf & Hin)%list_elem_of_fmap.
    destruct (key_known _ _ _ _ (proj1 (Forall_forall _ _) (pc_req _ _ _ _ _ _ Hc) q Hin)) as [?|[? ?]]; congruence.
  - intros [] st' Hst'. cbn in Hr, Ha. split; [done|]. destruct (cq_res c <? 0);
      (destruct (handled_inv _ _ _ st0 en en a a s _ _ _ _ (ps_map s) (ps_wire s) _ Hinv Hkey eq_refl Hw Hst') as (l' & Hl' & Hll);
        [done..| |exists l'; split; [done|]; cbn in Hll; lia]); intros fd' [Heq|Hs]; [right; set_solver| |right; set_solver|].
    + left. split; [|by right]. intros ->. by apply no_lfd in Hs.
    + apply lookup_insert_is_Some in Hs as [<-|[_ Hs]]; [right; set_solver|].
      left. split; [|by right]. intros ->. by apply no_lfd in Hs.
Qed.
Lemma conn_key q' : req_ok lfd st (ps_conns s) q' → is_Some (sqe_conn q') → sqe_fd q' ≠ lfd.
Proof.
  intros Hreq Hc Heq. apply no_lfd. rewrite <-Heq. destruct q'; cbn in *; [by destruct Hc|..]; destruct_and?; naive_solver.
Qed.
(** The end of a handler that serves a connection, whose request is queued again or not. *)
Lemma conn_handled fd v new m w st1 st' en' a' :
  ps_flight s !! cq_idx c = Some fd → fd ≠ lfd → p_flight st1 = p_flight st0 → p_wire st1 = w →
  (v = None ∧ new = [] ∨ is_Some v ∧ new = [fd]) →
  handled lfd l st1 (partial_alter (λ _, v) fd (ps_conns s)) new st' → eng_repr en' m → small m → supplied a' →
  balanced (en, a) (en', a') →
  completed lfd l en a (mk_pro_srv m (partial_alter (λ _, v) fd (ps_conns s)) w (delete (cq_idx c) (ps_flight s)) (ps_queue s ++ new))
    (st', (en', a')).
Proof.
  intros Hkey Hne Hf Hw Hnew Hh Hr Hsm Ha Hbal. split; [done|].
  destruct (handled_inv lfd l st st1 en en' a a' s _ _ _ _ m w st' Hinv Hkey Hf Hw Hh) as (l' & Hl' & Hll); try done.
  - intros fd' Hfd'. destruct (decide (fd' = fd)) as [->|Hne'].
    + destruct Hnew as [[-> ->]|[_ ->]]; [|right; set_solver]. rewrite lookup_partial_alter_eq in Hfd'. destruct Hfd' as [?|[? ?]]; done.
    + left. split; [done|]. by rewrite lookup_partial_alter_ne in Hfd'.
  - exists l'. split; [done|]. destruct Hnew as [[_ ->]|[_ ->]]; cbn in Hll; lia.
Qed.

Lemma send_case fd k n e : q = SqeSend fd k n e →
  wp (handle lfd q c) (λ _ x', completed lfd l en a (pro_step lfd s c) x') (st0, (en, a)).
Proof.
  pose proof flight_key as Hkey. intros Heq. pose proof Hinv as [Hcore _ _ Hall Hw (Hr & Hsm & Ha)].
  destruct (take_request _ _ _ _ _ _ Hcore Hq) as (Hc & Hfd & Hreq). rewrite Heq in Hc, Hfd, Hreq, Hkey |- *.
  pose proof Hreq as (He & Hn & x & Hx & Hxfd & Hst). cbn [sqe_fd sqe_conn sqe_data] in *.
  assert (fd ≠ lfd) as Hne by (intros ->; apply no_lfd; eauto). subst fd. cbn in Hw, Hr, Ha.
  unfold pro_step. rewrite Hkey, decide_False, Hst by done. unfold handle. mem_step. cbn [perform].
  destruct (Z.ltb_spec (cq_res c) 0) as [Hneg|Hpos].
  - mem_step. eapply wp_load_event; [done|]. cbn [ie_type ie_conn from_opt]. mem_step.
    eapply wp_mono; [eapply handle_send_spec; [done..|lia]|]. rewrite (proj2 (Z.ltb_lt _ _)) by done. intros [] st' Hst'.
    rewrite <-(app_nil_r (ps_queue s)). eapply (conn_handled _ None); [done|done| | |by left|exact Hst'|done..]; done.
  - mem_step. eapply wp_load_conn; [done|]. mem_step. eapply wp_load_event; [done|]. cbn [ie_type ie_conn from_opt]. mem_step.
    eapply wp_mono; [eapply handle_send_spec; [|done|done|done|lia]; eapply pcore_own; [exact Hc|done..]|].
    rewrite (proj2 (Z.ltb_ge _ _)) by done. intros [] st' Hst'.
    eapply (conn_handled _ (Some Reading)); [done|done| | |by right; eauto|exact Hst'|done..]; [done|]. cbn. by rewrite Hw.
Qed.

Lemma recv_case fd k e : q = SqeRecv fd k e →
  wp (handle lfd q c) (λ _ x', completed lfd l en a (pro_step lfd s c) x') (st0, (en, a)).
Proof.
  pose proof flight_key as Hkey. intros Heq. pose proof Hinv as [Hcore _ _ Hall Hw (Hr & Hsm & Ha)].
  destruct (take_request _ _ _ _ _ _ Hcore Hq) as (Hc & Hfd & Hreq). rewrite Heq in Hc, Hfd, Hreq, Hkey |- *.
  pose proof Hreq as (Hst & He & x & Hx & Hxfd & Hrb). cbn [sqe_fd sqe_conn sqe_data] in *.
  assert (fd ≠ lfd) as Hne by (intros ->; apply no_lfd; eauto). subst fd. cbn in Hw, Hr, Ha.
  pose proof Hok as Hok'. unfold cqe_ok in Hok'. rewrite Hkey, decide_False, Hst in Hok' by done.
  pose proof Hroom as Hroom'. unfold cqe_room in Hroom'. rewrite Hkey, Hst in Hroom'.
  unfold pro_step. rewrite Hkey, decide_False, Hst by done. unfold handle. mem_step. cbn [perform].
  destruct (Z.leb_spec (cq_res c) 0) as [Hend|Hpos].
  - mem_step. eapply wp_load_event; [done|]. cbn [ie_type ie_conn from_opt]. mem_step. unfold handle_recv. mem_step.
    eapply wp_load_conn; [done|]. mem_step. eapply store_conn_spec; [done..|]. intros st1 Hc1 [Hf1 Hw1] Hx1 He1.
    rewrite (proj2 (Z.leb_le _ _)) by done. mem_step.
    eapply wp_mono; [eapply (leave_spec lfd l k e x); [done|unfold reqs in *; by rewrite Hf1]|]. intros [] st' Hst'.
    rewrite <-(app_nil_r (ps_queue s)). eapply (conn_handled _ None); [done|done|exact Hf1| |by left|exact Hst'|done..].
    by rewrite Hw1, <-Hw.
  - destruct (Hok' Hpos) as (Hlen' & Hle & Hrq). specialize (Hroom' Hpos). mem_step. eapply wp_load_conn; [done|]. mem_step.
    eapply store_conn_spec; [done..|]. intros st1 Hc1 [Hf1 Hw1] Hx1 He1. mem_step. eapply wp_load_event; [by rewrite He1|].
    cbn [ie_type ie_conn from_opt]. mem_step. rewrite Hlen'. rewrite Hlen', Nat2Z.id, take_ge, Hrb in Hx1 by done.
    eapply wp_mono; [eapply (handle_recv_spec lfd l k e _ (cq_data c) st1 _ (ps_map s) en a Hc1 Hx1); cbn [io_fd rbuf]; try done; [|lia..]|].
    { unfold reqs in *. by rewrite Hf1. }
    cbn [io_fd]. intros [] [st' [en' a']] (Hh & Hr' & Hsm' & Ha' & Hbal). cbn [fst snd] in *.
    eapply (conn_handled _ (Some _)); [done|done|exact Hf1| |by right; eauto|exact Hh|done..]. by rewrite Hw1, <-Hw.
Qed.
Lemma complete_case : wp (complete lfd c) (λ _ x', completed lfd l en a (pro_step lfd s c) x') (st, (en, a)).
Proof.
  unfold complete. mem_step. rewrite Hq. mem_step. fold st0.
  destruct (sqe_cases q) as [(fd & e & Hqe)|[(fd & k & e & Hqe)|(fd & k & n & e & Hqe)]];
    [by eapply accept_case|by eapply recv_case|by eapply send_case].
Qed.
End case.

Fixpoint cqes_room (lfd : Z) (s : pro_srv) (cs : list cqe) : Prop :=
  match cs with [] => True | c :: cs => cqe_room s c ∧ cqes_room lfd (pro_step lfd s c) cs end.
Fixpoint batches_room (lfd : Z) (s : pro_srv) (bs : list (list cqe)) : Prop :=
  match bs with [] => True | cs :: bs => cqes_room lfd (pro_submit s) cs ∧ batches_room lfd (pro_round lfd s cs) bs end.
Lemma complete_all_spec lfd cs l st en a s :
  pinv lfd l (st, (en, a)) s → cqes_ok lfd s cs → cqes_room lfd s cs → (length l + 2 * length cs ≤ ENTRIES_LENGTH)%nat →
  wp (complete_all lfd cs) (λ _ x', balanced (en, a) x'.2 ∧ ∃ l', pinv lfd l' x' (foldl (pro_step lfd) s cs)) (st, (en, a)).
Proof.
  revert l st en a s. induction cs as [|c cs IH]; intros l st en a s Hinv Hok Hroom Hlen; cbn [complete_all foldl].
  { mem_step. split; [done|]. by exists l. }
  destruct Hok as [Hok Hoks], Hroom as [Hroom Hrooms]. cbn [length] in Hlen. mem_step.
  pose proof Hok as Hidx. unfold cqe_ok in Hidx. destruct (ps_flight s !! cq_idx c) as [fd|] eqn:Hfd; [clear Hidx|done].
  rewrite (pi_flight _ _ _ _ Hinv), list_lookup_fmap in Hfd. cbn [fst] in Hfd.
  destruct (p_flight st !! cq_idx c) as [q|] eqn:Hq; [|done].
  eapply wp_mono; [eapply complete_case; done || lia|]. intros [] [st' [en' a']] (Hbal & l' & Hinv' & Hl').
  eapply wp_mono; [eapply IH; done || lia|]. intros [] [st2 [en2 a2]] [Hbal2 Hl2]. split; [|done].
  unfold balanced in *. cbn in *. lia.
Qed.

Lemma prepared_spec lfd l st conns (Q : list sqe → proactor U → Prop) st' :
  Forall (req_ok lfd st conns) l → Q l st' → wp (prepared (Some <$> l)) Q st'.
Proof.
  intros Hl. revert Q. induction Hl as [|q l Hq Hl IH]; intros Q HQ; [done|]. rewrite fmap_cons. cbn [prepared]. mem_step.
  assert (wp (if q is SqeSend _ _ len _ then if (len <? 0) || (Z.of_nat BUFFER_LENGTH <? len) then undef OutOfBounds else ret () else ret ())
    (λ _ s', s' = st') st') as Hsend.
  { destruct q as [| |fd k n e]; [done..|]. destruct Hq as (_ & Hn & _).
    by rewrite (proj2 (Z.ltb_ge _ _)), (proj2 (Z.ltb_ge _ _)) by lia. }
  eapply wp_mono; [exact Hsend|]. intros _ ? ->. mem_step. apply IH. by mem_step.
Qed.
Lemma submit_spec lfd l st en a s :
  pinv lfd l (st, (en, a)) s → wp submit (λ _ st', pinv lfd [] (st', (en, a)) (pro_submit s)) st.
Proof.
  intros [Hc Hf Hq Hall Hw He]. unfold submit. mem_step. cbn [fst] in *.
  destruct (law_submit (p_ring st)) as (Hs1 & Hs2 & Hs3). destruct (io_uring_submit (p_ring st)) as [es u]. cbn [fst snd] in *.
  rewrite (pc_ring _ _ _ _ _ _ Hc) in Hs1. subst es. mem_step. eapply prepared_spec.
  { pose proof (pc_req _ _ _ _ _ _ Hc) as Hr. by apply Forall_app in Hr as [_ ?]. }
  mem_step. split; cbn [fst snd p_flight with_flight with_ring pro_submit ps_flight ps_queue ps_conns ps_wire ps_map]; try done.
  - destruct Hc. assert (∀ u' l', reqs (with_flight (p_flight st ++ l) (with_ring u' st)) [] = reqs st l) as Hreqs
      by (intros; unfold reqs; cbn; by rewrite app_nil_r).
    split; rewrite ?Hreqs; cbn; try done; congruence.
  - by rewrite fmap_app, Hf, Hq.
  - intros fd Hfd. rewrite app_nil_r. by apply Hall.
Qed.
Lemma proactor_loop_spec lfd bs l st en a s :
  pinv lfd l (st, (en, a)) s → batches_ok lfd s bs → batches_room lfd s bs →
  wp (proactor_loop lfd bs) (λ _ x', balanced (en, a) x'.2 ∧ ∃ l', pinv lfd l' x' (foldl (pro_round lfd) s bs)) (st, (en, a)).
Proof.
  revert l st en a s. induction bs as [|cs bs IH]; intros l st en a s Hinv Hok Hroom; cbn [proactor_loop foldl].
  { mem_step. split; [done|]. by exists l. }
  destruct Hok as (Hlen & Hok & Hoks), Hroom as [Hroom Hrooms]. mem_step.
  eapply wp_mono; [by eapply submit_spec|]. intros [] st1 Hinv1. mem_step.
  eapply wp_mono; [eapply complete_all_spec; [done..|cbn; unfold ENTRIES_LENGTH; lia]|]. intros [] [st2 [en2 a2]] (Hbal & l2 & Hinv2).
  eapply wp_mono; [by eapply IH|]. intros [] [st3 [en3 a3]] [Hbal2 Hl]. split; [|done]. unfold balanced in *. cbn in *. lia.
Qed.

Definition proactor_zero (u : U sqe) (p : list bool) : proactor U := mk_proactor U u [] ∅ ∅ 0 p [] [].
Lemma proactor_main_spec lfd bs u p en a :
  supplied a → Forall (eq true) p → batches_ok lfd (pro_zero lfd) bs → batches_room lfd (pro_zero lfd) bs →
  wp (proactor_main lfd bs) (λ _ x, al_live x.2.2 - eng_owned x.2.1 = al_live a - eng_owned (E:=E) eng_zero ∧
    ∃ l, pinv lfd l x (foldl (pro_round lfd) (pro_zero lfd) bs)) (proactor_zero u p, (en, a)).
Proof.
  intros Ha Hp Hok Hroom. unfold proactor_main, init_kvengine, proactor_start. mem_step.
  eapply wp_mono; [by apply law_create|]. intros r0 [en1 a1] (-> & Hr1 & Ha1 & Hb1). mem_step.
  set (st0 := with_ring _ _). destruct (law_init (U:=U) (A:=sqe) ENTRIES_LENGTH) as [Hi Hs].
  assert (pcore lfd [] None None st0 ∅) as Hc.
  { split; try done; cbn; [constructor|constructor| | |by intros k [[? ?]|[? ?]]]; by intros k [? ?]. }
  eapply wp_mono; [apply (accept_arm lfd [] None None st0 ∅ Hc)|].
  { cbn. by intros ?%not_elem_of_nil. }
  { cbn. unfold ENTRIES_LENGTH. lia. }
  intros r st1 (-> & [Hf1 Hw1] & _ & e & Hc1). mem_step. eapply wp_mono; [eapply (proactor_loop_spec lfd bs [SqeAccept lfd e] st1 en1 a1 (pro_zero lfd))|].
  - split; cbn; try done.
    + by rewrite Hf1.
    + intros fd [->|[? ?]]; [left|done].
  - done.
  - done.
  - intros [] [st2 [en2 a2]] [Hbal Hl]. split; [|done]. unfold balanced in *. cbn in *. lia.
Qed.
End recv.

(** What the invariant says of the heap and of the requests. *)
Lemma pinv_requests {E} `{KvEngine E, !KvLaws E} lfd l (x : proactor U * (E * alloc)) s : pinv lfd l x s →
  NoDup (ps_flight s ++ ps_queue s) ∧ (∀ fd, fd ∈ ps_flight s ++ ps_queue s ↔ fd = lfd ∨ is_Some (ps_conns s !! fd)).
Proof.
  intros [Hc Hf Hq Hall _ _]. rewrite Hf, Hq in *. split.
  - rewrite <-fmap_app. apply Hc.
  - intros fd. split; [|apply Hall]. rewrite <-fmap_app. intros (q & -> & Hin)%list_elem_of_fmap.
    eapply key_known. by eapply Forall_forall; [apply Hc|].
Qed.
Lemma pinv_blocks {E} `{KvEngine E, !KvLaws E} lfd l (x : proactor U * (E * alloc)) s k c : pinv lfd l x s →
  p_conns x.1 !! k = Some c → is_Some (ps_conns s !! io_fd c).
Proof.
  intros [Hc _ _ _ _ _] Hk. destruct (pc_conns _ _ _ _ _ _ Hc k ltac:(eauto)) as [?|(q & Hin & Hq)%Exists_exists]; [done|].
  pose proof (proj1 (Forall_forall _ _) (pc_req _ _ _ _ _ _ Hc) q Hin) as Hreq.
  destruct (proj2 (req_blocks _ _ _ _ Hreq) k Hq) as (c' & Hc' & Hfd). simplify_eq. rewrite Hfd.
  destruct (key_known _ _ _ _ Hreq) as [Heq|?]; [|done]. destruct q; cbn in *; [done|..]; destruct_and?; naive_solver.
Qed.
End serve.

Lemma skip_batches_room lfd s bs : batches_room (E:=kvs_skiptable) lfd s bs.
Proof.
  assert (∀ s' c, cqe_room (E:=kvs_skiptable) s' c) as Hroom.
  { intros s' c. unfold cqe_room. destruct (ps_flight s' !! _) as [fd|]; [|done].
    destruct (ps_conns s' !! fd) as [[|b]|]; try done. intros _. apply skip_room. }
  revert s. induction bs as [|cs bs IH]; intros s; cbn [batches_room]; [done|]. split; [|apply IH].
  generalize (pro_submit s). clear IH s. induction cs as [|c cs IH]; intros s; cbn [cqes_room]; [done|]. by split.
Qed.

(** C8: The server on io_uring: for every sequence of batches of completions, the skip-list
    engine behind the protocol behind the proactor has no undefined behaviour, hands the
    specified answers to the kernel and leaves the specified map; each client has exactly one
    request in flight or queued, accept too, and every live connection block belongs to a
    client.  liburing is any submission queue with the laws of its documentation. *)
Theorem proactor_refines {U : Type → Type} `{UringLaws U} lfd bs u p t a :
  supplied a → Forall (eq true) p → batches_ok lfd (pro_zero lfd) bs →
  wp (proactor_main (E:=kvs_skiptable) lfd bs)
    (λ _ x, let s := foldl (pro_round lfd) (pro_zero lfd) bs in
      p_wire x.1 = ps_wire s ∧ skip_repr x.2.1 (ps_map s) ∧
      NoDup (ps_flight s ++ ps_queue s) ∧ (∀ fd, fd ∈ ps_flight s ++ ps_queue s ↔ fd = lfd ∨ is_Some (ps_conns s !! fd)) ∧
      (∀ k c, p_conns x.1 !! k = Some c → is_Some (ps_conns s !! io_fd c)) ∧
      al_live x.2.2 - skip_owned x.2.1 = al_live a) (proactor_zero (U:=U) u p, (t, a)).
Proof.
  intros Ha Hp Hok. eapply wp_mono; [apply (proactor_main_spec (E:=kvs_skiptable)); try done; apply skip_batches_room|].
  intros _ x (Hlive & l & Hinv). destruct (pinv_requests _ _ _ _ Hinv) as [Hnd Hfds].
  split_and!; [apply Hinv|apply Hinv|exact Hnd|exact Hfds| |].
  - intros k c. by eapply pinv_blocks.
  - change (eng_owned x.2.1) with (skip_owned x.2.1) in Hlive. change (eng_owned eng_zero) with 0 in Hlive. lia.
Qed.

(** A submission queue as a list. *)
Definition list_ring (A : Type) : Type := nat * list (option A).
#[export] Instance list_uring : Uring list_ring := {|
  io_uring_queue_init A n := (n, []);
  io_uring_get_sqe A u := if (length u.2 <? u.1)%nat then Some (u.1, u.2 ++ [None]) else None;
  io_uring_prep A a u := (u.1, take (length u.2 - 1) u.2 ++ [Some a]);
  io_uring_submit A u := (u.2, (u.1, [])) |}.
#[export] Instance list_uring_laws : UringLaws list_ring.
Proof.
  refine {| sq_entries A u := u.2; sq_size A u := u.1 |}; try done.
  - intros A u Hlt. exists (u.1, u.2 ++ [None]). split; [|done]. apply Nat.ltb_lt in Hlt.
    change (io_uring_get_sqe u) with (if (length u.2 <? u.1)%nat then Some (u.1, u.2 ++ [None]) else None). by rewrite Hlt.
  - intros A u Hle. apply Nat.ltb_ge in Hle.
    change (io_uring_get_sqe u) with (if (length u.2 <? u.1)%nat then Some (u.1, u.2 ++ [None]) else None). by rewrite Hle.
  - intros A u l a Hu. cbn in *. rewrite Hu, length_app. cbn. by rewrite Nat.add_sub, take_app_length.
Defined.
(** Two clients: one stores a pair, the other reads it; the first answer leaves in part. *)
Definition two_uring_clients : list (list cqe) :=
  let req s := bytes (s ++ crlf) in
  [ [mk_cqe 0 4 []]; [mk_cqe 1 5 []; mk_cqe 0 9 (req "SET k v")]; [mk_cqe 2 4 []];
    [mk_cqe 0 7 (req "GET k"); mk_cqe 1 0 []]; [mk_cqe 1 3 []] ].
Lemma proactor_refines_witness :
  let s := foldl (pro_round 3) (pro_zero 3) two_uring_clients in
  (ps_wire s = [(4, bytes ("OK" ++ crlf)); (5, bytes ("v" ++ crlf))] ∧ ps_map s = {["k" := "v"]}) ∧
  wp (proactor_main (E:=kvs_skiptable) 3 two_uring_clients)
    (λ _ x, p_wire x.1 = ps_wire s) (proactor_zero (U:=list_ring) (0%nat, []) [], (eng_zero, mk_alloc [] 0 [])).
Proof.
  split; [split; vm_compute; reflexivity|].
  eapply wp_mono; [apply (proactor_refines 3 two_uring_clients (0%nat, []) [] eng_zero (mk_alloc [] 0 []))|].
  - repeat constructor.
  - constructor.
  - apply (bool_decide_unpack _). vm_compute. exact I.
  - by intros _ x [? _].
Defined.

(** ** Where it goes wrong *)

(** When there is no memory for the context of a request, its entry of the submission queue
    was already taken: the next io_uring_submit hands over an entry that was never prepared. *)
Theorem failed_context_submits_garbage {U : Type → Type} `{UringLaws U} lfd (st : proactor U) p :
  p_plan st = false :: p → sq_entries (p_ring st) = [] → sq_size (p_ring st) = ENTRIES_LENGTH →
  wp (set_event_accept lfd) (λ r st', r = -1 ∧ submit st' = UB IndetRead) st.
Proof.
  intros Hp Hl Hs. unfold set_event_accept. mem_step. eapply (wp_get_sqe []); [done|done|unfold ENTRIES_LENGTH; cbn; lia|].
  intros u Hu Hsu. cbn [negb]. mem_step. unfold new_event, malloc. mem_step. cbn [p_plan with_ring]. rewrite Hp. mem_step.
  split; [done|]. unfold submit, get, put, bind. cbn [p_ring with_plan with_ring].
  destruct (law_submit u) as (Hs1 & _ & _). destruct (io_uring_submit u) as [es u']. cbn [fst] in Hs1. rewrite Hs1, Hu. done.
Qed.
Lemma failed_context_submits_garbage_witness :
  wp (set_event_accept 3) (λ r st', r = -1 ∧ submit st' = UB IndetRead)
    (proactor_zero (U:=list_ring) (ENTRIES_LENGTH, []) [false]).
Proof. by apply (failed_context_submits_garbage 3 (proactor_zero (U:=list_ring) (ENTRIES_LENGTH, []) [false]) []). Defined.

(** A request without a token: the handler gives -1, and the length of the send becomes
    the largest unsigned number. *)
Theorem blank_request_sends_memory :
  proactor_main (E:=kvs_skiptable) 3 [[mk_cqe 0 4 []]; [mk_cqe 0 2 (bytes crlf)]; []]
    (proactor_zero (U:=list_ring) (0%nat, []) [], (eng_zero, mk_alloc [] 0 [])) = UB OutOfBounds.
Proof. vm_compute. reflexivity. Qed.
(** A new client for whose first receive there is no memory is neither served nor closed. *)
Theorem failed_receive_keeps_connection :
  ∃ st, proactor_main (E:=kvs_skiptable) 3 [[mk_cqe 0 4 []]]
      (proactor_zero (U:=list_ring) (0%nat, []) [true; true; false], (eng_zero, mk_alloc [] 0 [])) = Ok ((), st) ∧
    p_conns st.1 !! 1%nat ≠ None ∧ p_closed st.1 = [] ∧
    sq_entries (p_ring st.1) = [None; Some (SqeAccept 3 2)].
Proof. eexists. split; [vm_compute; reflexivity|]. split; [vm_compute; congruence|]. by split. Qed.
