(* ===== verification/KvNtyco.v ===== *)
(** The coroutine front end of the key/value server
    (Project1_KVstore/src/ntyco_server.c): the coroutine that accepts and one reader for
    every connection.  The NtyCo library, which is not part of the repository, decides when a
    coroutine goes on: a run is a sequence of answers to the system calls in which the
    coroutines wait, in any order between them. *)
From S2P Require Import Prelude KvMem KvSpec KvProtocol KvReactor KvSkiptable KvServer.
From Stdlib Require Import Ascii.

(** Where a reader stands: at its start, with the block that holds its descriptor; in recv;
    in send, with the buffer and the length. *)
Inductive reader : Type :=
| RStart (arg : nat)
| RRecv (fd : Z)
| RSend (fd : Z) (wbuffer : list ascii) (wlength : Z).
(** The readers by number, the blocks of malloc(sizeof(int)) and the next address, the bytes
    each send took, the closed descriptors. *)
Record ntyco : Type := mk_ntyco {
  n_readers : gmap nat reader; n_next : nat; n_ints : gmap nat Z; n_brk : nat;
  n_wire : list (nat * list ascii); n_closed : list Z }.

(** The acceptor's call of accept returns [res], and malloc a block or not; the reader [id]
    is started; its recv gives data, nothing at the end, or -1; its send takes some bytes, or
    gives -1. *)
Inductive nty_event : Type :=
| EvAccept (res : Z) (mem : bool)
| EvStart (id : nat)
| EvRecv (id : nat) (r : option (list ascii))
| EvSend (id : nat) (r : option nat).

Section ntyco.
Context {E : Type} `{KvEngine E}.
Abbreviation store := (ntyco * (E * alloc))%type.

Definition set_reader (id : nat) (r : reader) : M ntyco unit :=
  modify (λ s, mk_ntyco (<[id:=r]> (n_readers s)) (n_next s) (n_ints s) (n_brk s) (n_wire s) (n_closed s)).
Definition end_reader (id : nat) : M ntyco unit :=
  modify (λ s, mk_ntyco (delete id (n_readers s)) (n_next s) (n_ints s) (n_brk s) (n_wire s) (n_closed s)).
Definition close (fd : Z) : M ntyco unit :=
  modify (λ s, mk_ntyco (n_readers s) (n_next s) (n_ints s) (n_brk s) (n_wire s) (n_closed s ++ [fd])).

(** The body of the loop of server_acceptor. *)
Definition server_acceptor (cli_fd : Z) (mem : bool) : M ntyco unit :=
  if cli_fd <? 0 then ret () else
  if negb mem then close cli_fd else
  modify (λ s, mk_ntyco (<[n_next s:=RStart (n_brk s)]> (n_readers s)) (S (n_next s))
    (<[n_brk s:=cli_fd]> (n_ints s)) (S (n_brk s)) (n_wire s) (n_closed s)).
(** server_reader, from one of its waits to the next. *)
Definition reader_start (id arg : nat) : M ntyco unit :=
  s ← get;
  fd ← from_opt DanglingDeref (n_ints s !! arg);
  put (mk_ntyco (n_readers s) (n_next s) (delete arg (n_ints s)) (n_brk s) (n_wire s) (n_closed s));;
  set_reader id (RRecv fd).
Definition reader_recv (id : nat) (fd : Z) (r : option (list ascii)) : M store unit :=
  match r with
  | None => ret ()
  | Some data =>
      let got := take BUFFER_LENGTH data in
      if (length got =? 0)%nat then on_fst (close fd;; end_reader id) else
      msg ← from_opt OutOfBounds (c_string (got ++ zeros (BUFFER_LENGTH - length got)));
      ' (wlength, response) ← on_snd (kvs_protocol (Some msg) (Z.of_nat (length got)));
      let wbuffer := zeros BUFFER_LENGTH in
      let wbuffer := match response with Some s => write_cstr s wbuffer | None => wbuffer end in
      if (wlength <? 0) || (Z.of_nat BUFFER_LENGTH <? wlength) then undef OutOfBounds else
      on_fst (set_reader id (RSend fd wbuffer wlength))
  end.
Definition reader_send (id : nat) (fd : Z) (wbuffer : list ascii) (wlength : Z) (r : option nat) : M ntyco unit :=
  match r with
  | None => close fd;; end_reader id
  | Some n =>
      modify (λ s, mk_ntyco (n_readers s) (n_next s) (n_ints s) (n_brk s)
        (n_wire s ++ [(id, take n (take (Z.to_nat wlength) wbuffer))]) (n_closed s));;
      set_reader id (RRecv fd)
  end.
(** An answer to a call that no coroutine waits in is none. *)
Definition nty_step (e : nty_event) : M store unit :=
  s ← on_fst get;
  match e with
  | EvAccept res mem => on_fst (server_acceptor res mem)
  | EvStart id => match n_readers s !! id with Some (RStart arg) => on_fst (reader_start id arg) | _ => ret () end
  | EvRecv id r => match n_readers s !! id with Some (RRecv fd) => reader_recv id fd r | _ => ret () end
  | EvSend id r => match n_readers s !! id with Some (RSend fd b n) => on_fst (reader_send id fd b n r) | _ => ret () end
  end.
Fixpoint nty_run (es : list nty_event) : M store unit :=
  match es with [] => ret () | e :: es => nty_step e;; nty_run es end.
(** main with ntyco_start, up to the last of the events. *)
Definition ntyco_main (es : list nty_event) : M store unit := on_snd init_kvengine;; nty_run es.
End ntyco.
Definition ntyco_zero : ntyco := mk_ntyco ∅ 0 ∅ 0 [] [].

(** ** Specification *)

(** A reader that was not started, that waits for a request, or that has an answer. *)
Inductive rstate : Type := Fresh | Busy (c : cstate).
Record nsrv : Type := mk_nsrv {
  ns_map : gmap string string; ns_readers : gmap nat rstate; ns_next : nat; ns_wire : list (nat * list ascii) }.
Definition ns_step (s : nsrv) (e : nty_event) : nsrv :=
  match e with
  | EvAccept res mem =>
      if (res <? 0) || negb mem then s
      else mk_nsrv (ns_map s) (<[ns_next s:=Fresh]> (ns_readers s)) (S (ns_next s)) (ns_wire s)
  | EvStart id =>
      match ns_readers s !! id with
      | Some Fresh => mk_nsrv (ns_map s) (<[id:=Busy Reading]> (ns_readers s)) (ns_next s) (ns_wire s)
      | _ => s
      end
  | EvRecv id r =>
      match ns_readers s !! id, r with
      | Some (Busy Reading), Some [] => mk_nsrv (ns_map s) (delete id (ns_readers s)) (ns_next s) (ns_wire s)
      | Some (Busy Reading), Some data =>
          mk_nsrv (answer (ns_map s) (request_words data)).2
            (<[id:=Busy (Writing (answer_bytes (ns_map s) (request_words data)))]> (ns_readers s)) (ns_next s) (ns_wire s)
      | _, _ => s
      end
  | EvSend id r =>
      match ns_readers s !! id, r with
      | Some (Busy (Writing b)), None => mk_nsrv (ns_map s) (delete id (ns_readers s)) (ns_next s) (ns_wire s)
      | Some (Busy (Writing b)), Some n =>
          mk_nsrv (ns_map s) (<[id:=Busy Reading]> (ns_readers s)) (ns_next s) (ns_wire s ++ [(id, take n b)])
      | _, _ => s
      end
  end.
Definition nsrv_zero : nsrv := mk_nsrv ∅ ∅ 0 [].
(** Requests the parser can take, and no longer than the buffer. *)
Definition nty_ok (e : nty_event) : Prop :=
  match e with
  | EvRecv _ (Some (c :: data)) => (length (c :: data) ≤ BUFFER_LENGTH)%nat ∧ request_ok (c :: data)
  | _ => True
  end.

#[export] Instance nty_ok_dec e : Decision (nty_ok e).
Proof. destruct e as [| |id [[|c d]|]|]; cbn; apply _. Defined.

Section refinement.
Context {E : Type} `{HE : KvEngine E, HL : !KvLaws E, HD : !KvDelCode E}.

Definition reader_rel (st : ntyco) (r : reader) (c : rstate) : Prop :=
  match r, c with
  | RStart arg, Fresh => is_Some (n_ints st !! arg)
  | RRecv _, Busy Reading => True
  | RSend _ b n, Busy (Writing l) => take (Z.to_nat n) b = l
  | _, _ => False
  end.
Record nrel (st : ntyco) (s : nsrv) : Prop := {
  nr_dom : ∀ id, n_readers st !! id = None ↔ ns_readers s !! id = None;
  nr_readers : ∀ id r c, n_readers st !! id = Some r → ns_readers s !! id = Some c → reader_rel st r c;
  nr_args : ∀ i j a, n_readers st !! i = Some (RStart a) → n_readers st !! j = Some (RStart a) → i = j;
  nr_brk : ∀ a, is_Some (n_ints st !! a) → (a < n_brk st)%nat;
  nr_fresh : ∀ id, is_Some (n_readers st !! id) → (id < n_next st)%nat;
  nr_next : n_next st = ns_next s ∧ n_wire st = ns_wire s }.
Definition ninv (x : ntyco * (E * alloc)) (s : nsrv) : Prop :=
  nrel x.1 s ∧ eng_repr x.2.1 (ns_map s) ∧ small (ns_map s) ∧ supplied x.2.2.
Definition nroom (s : nsrv) (e : nty_event) : Prop :=
  match e with EvRecv id (Some data) => room (ns_map s) (request_words data) | _ => True end.

(** A reader that is under way changes its state. *)
Lemma nrel_update st s id r c m w :
  nrel st s → is_Some (n_readers st !! id) → reader_rel st r c → (∀ a, r ≠ RStart a) →
  nrel (mk_ntyco (<[id:=r]> (n_readers st)) (n_next st) (n_ints st) (n_brk st) w (n_closed st))
    (mk_nsrv m (<[id:=c]> (ns_readers s)) (ns_next s) w).
Proof.
  intros [Hdom Hrel Hargs Hbrk Hfr [Hn Hw]] Hid Hr Hns. split; cbn; [| | |done| |done].
  - intros j. rewrite !lookup_insert_None, Hdom. tauto.
  - intros j r' c' Hj Hc. destruct (decide (id = j)) as [<-|Hne].
    + rewrite lookup_insert_eq in Hj. rewrite lookup_insert_eq in Hc. by simplify_eq.
    + rewrite lookup_insert_ne in Hj by done. rewrite lookup_insert_ne in Hc by done. by eapply Hrel.
  - intros i j a [[_ Heq]|[Hi Hi']]%lookup_insert_Some [[_ Heq']|[Hj Hj']]%lookup_insert_Some; [by exfalso; eapply Hns..|].
    by eapply Hargs.
  - intros j [<-|[_ Hj]]%lookup_insert_is_Some; by apply Hfr.
Qed.
Lemma nrel_delete st s id cl m :
  nrel st s → nrel (mk_ntyco (delete id (n_readers st)) (n_next st) (n_ints st) (n_brk st) (n_wire st) cl)
    (mk_nsrv m (delete id (ns_readers s)) (ns_next s) (ns_wire s)).
Proof.
  intros [Hdom Hrel Hargs Hbrk Hfr Hn]. split; cbn; [| | |done| |done].
  - intros j. rewrite !lookup_delete_None, Hdom. done.
  - intros j r c [_ Hj]%lookup_delete_Some [_ Hc]%lookup_delete_Some. by eapply Hrel.
  - intros i j a [_ Hi]%lookup_delete_Some [_ Hj]%lookup_delete_Some. by eapply Hargs.
  - intros j [r [_ Hj]%lookup_delete_Some]. apply Hfr. eauto.
Qed.

Lemma nrel_accept st s fd :
  nrel st s → nrel (mk_ntyco (<[n_next st:=RStart (n_brk st)]> (n_readers st)) (S (n_next st))
      (<[n_brk st:=fd]> (n_ints st)) (S (n_brk st)) (n_wire st) (n_closed st))
    (mk_nsrv (ns_map s) (<[ns_next s:=Fresh]> (ns_readers s)) (S (ns_next s)) (ns_wire s)).
Proof.
  intros [Hdom Hrel Hargs Hbrk Hfr [Hn Hw]]. rewrite <-Hn.
  assert (∀ i a c, n_readers st !! i = Some (RStart a) → ns_readers s !! i = Some c → a ≠ n_brk st) as Hold.
  { intros i a c Hi Hc ->. specialize (Hrel _ _ _ Hi Hc). destruct c; [|done]. apply Hbrk in Hrel. lia. }
  assert (∀ i a, n_readers st !! i = Some (RStart a) → a ≠ n_brk st) as Hold'.
  { intros i a Hi. destruct (ns_readers s !! i) as [c|] eqn:Hc; [by eapply Hold|]. apply Hdom in Hc. congruence. }
  split; cbn; [| | | | |done].
  - intros j. by rewrite !lookup_insert_None, Hdom.
  - intros j r c [[<- <-]|[Hne Hj]]%lookup_insert_Some Hc.
    + rewrite lookup_insert_eq in Hc. injection Hc as <-. cbn. by rewrite lookup_insert_eq.
    + rewrite lookup_insert_ne in Hc by done. specialize (Hrel _ _ _ Hj Hc). destruct r as [a| |], c as [|[]]; try done. cbn in *.
      rewrite lookup_insert_ne; [done|]. intros Heq. by eapply (Hold' j a).
  - intros i j a [[<- [= <-]]|[_ Hi]]%lookup_insert_Some [[<- Heq]|[_ Hj]]%lookup_insert_Some; [done|..].
    + exfalso. by eapply Hold'.
    + injection Heq as <-. exfalso. by eapply Hold'.
    + by eapply Hargs.
  - intros a [<-|[_ Ha]]%lookup_insert_is_Some; [lia|]. apply Hbrk in Ha. lia.
  - intros j [<-|[_ Hj]]%lookup_insert_is_Some; [lia|]. apply Hfr in Hj. lia.
Qed.
Lemma nrel_start st s id a fd :
  nrel st s → n_readers st !! id = Some (RStart a) →
  nrel (mk_ntyco (<[id:=RRecv fd]> (n_readers st)) (n_next st) (delete a (n_ints st)) (n_brk st) (n_wire st) (n_closed st))
    (mk_nsrv (ns_map s) (<[id:=Busy Reading]> (ns_readers s)) (ns_next s) (ns_wire s)).
Proof.
  intros Hn Hid. pose proof (nr_args _ _ Hn) as Hargs.
  destruct (nrel_update st s id (RRecv fd) (Busy Reading) (ns_map s) (n_wire st) Hn ltac:(eauto) I ltac:(done)) as [Hdom Hrel Hargs' Hbrk Hfr [Hnx Hw]].
  split; try done.
  - intros j r c Hj Hc. specialize (Hrel j r c Hj Hc). destruct r as [a'| |], c as [|[]]; try done. cbn in *.
    rewrite lookup_delete_ne; [done|]. intros <-. apply lookup_insert_Some in Hj as [[_ ?]|[Hne Hj]]; [done|].
    apply Hne. by eapply Hargs.
  - cbn. intros b [v [_ Hb]%lookup_delete_Some]. apply Hbrk. cbn. eauto.
  - cbn in *. by destruct (nr_next _ _ Hn) as [? ->].
Qed.

Lemma nty_step_spec st en a s e :
  ninv (st, (en, a)) s → nty_ok e → nroom s e →
  wp (nty_step e) (λ _ x', ninv x' (ns_step s e) ∧ balanced (en, a) x'.2) (st, (en, a)).
Proof.
  intros (Hn & Hr & Hsm & Ha) Hok Hroom. cbn [fst snd] in *. pose proof (nr_next _ _ Hn) as [Hnx Hw]. unfold nty_step, ns_step. mem_step.
  assert (∀ id, match n_readers st !! id, ns_readers s !! id with
    | Some r, Some c => reader_rel st r c | None, None => True | _, _ => False end) as Hboth.
  { intros id. pose proof (nr_dom _ _ Hn id). destruct (n_readers st !! id) as [r|] eqn:Hi, (ns_readers s !! id) as [c|] eqn:Hc;
      [by eapply (nr_readers _ _ Hn)|naive_solver..]. }
  destruct e as [res mem|id|id r|id r].
  - unfold server_acceptor. destruct (res <? 0); cbn [orb]; [by mem_step|]. destruct mem; cbn [negb].
    + mem_step. split; [|done]. split; [by apply nrel_accept|done].
    + unfold close. mem_step. split; [|done]. split; [|done]. by destruct Hn.
  - specialize (Hboth id). destruct (n_readers st !! id) as [[arg|fd|fd b n]|] eqn:Hi, (ns_readers s !! id) as [[|[]]|]; try done.
    unfold reader_start. destruct Hboth as [fd Hfd]. mem_step. rewrite Hfd. cbn [from_opt]. mem_step. unfold set_reader. mem_step.
    split; [|done]. split; [by apply (nrel_start st s id arg fd)|done].
  - specialize (Hboth id). destruct (n_readers st !! id) as [[arg|fd|fd b n]|] eqn:Hi, (ns_readers s !! id) as [[|[|l]]|]; try done.
    unfold reader_recv. destruct r as [[|b data]|]; [|..|done].
    + unfold close, end_reader. mem_step. split; [|done]. split; [by apply (nrel_delete st s id)|done].
    + destruct Hok as [Hlen Hrq]. rewrite take_ge by done. set (d := b :: data) in *.
      destruct (handler_spec en a (ns_map s) d) as (Hstr & txt & Htl & Hbytes & Hwp); [done..|cbn in *; lia|done|done|].
      rewrite Hstr. replace (length d =? 0)%nat with false by done. mem_step. cbn [from_opt]. mem_step.
      eapply wp_mono; [exact Hwp|]. intros [len resp] [en' a'] ([= -> ->] & Hr' & Hsm' & Ha' & Hbal). mem_step.
      rewrite (proj2 (Z.ltb_ge _ _)), (proj2 (Z.ltb_ge _ _)) by lia. cbn [orb]. unfold set_reader. mem_step. split; [|done]. split; [|done].
      rewrite <-Hw. apply nrel_update; [done|eauto| |done]. cbn [reader_rel]. rewrite Nat2Z.id, take_write_cstr. symmetry. exact Hbytes.
  - specialize (Hboth id). destruct (n_readers st !! id) as [[arg|fd|fd b n]|] eqn:Hi, (ns_readers s !! id) as [[|[|l]]|]; try done.
    unfold reader_send, close, end_reader, set_reader. destruct r as [k|]; mem_step; (split; [|done]); (split; [|done]).
    + cbn in Hboth. rewrite <-Hboth, <-Hw. apply (nrel_update st s id (RRecv fd) (Busy Reading)); [done|eauto|done|done].
    + by apply (nrel_delete st s id).
Qed.
Lemma nty_run_spec es st en a s :
  ninv (st, (en, a)) s → Forall nty_ok es → (∀ s e, nroom s e) →
  wp (nty_run es) (λ _ x', ninv x' (foldl ns_step s es) ∧ balanced (en, a) x'.2) (st, (en, a)).
Proof.
  intros Hinv Hok Hroom. revert st en a s Hinv. induction Hok as [|e es Hok Hoks IH]; intros st en a s Hinv; cbn [nty_run foldl]; [done|].
  mem_step. eapply wp_mono; [by apply nty_step_spec|]. intros [] [st1 [en1 a1]] [Hinv1 Hbal].
  eapply wp_mono; [by apply IH|]. intros [] [st2 [en2 a2]] [Hinv2 Hbal2]. split; [done|]. unfold balanced in *. cbn in *. lia.
Qed.
Lemma ntyco_main_spec es en a :
  supplied a → Forall nty_ok es → (∀ s e, nroom s e) →
  wp (ntyco_main es) (λ _ x, ninv x (foldl ns_step nsrv_zero es) ∧
    al_live x.2.2 - eng_owned x.2.1 = al_live a - eng_owned (E:=E) eng_zero) (ntyco_zero, (en, a)).
Proof.
  intros Ha Hok Hroom. unfold ntyco_main, init_kvengine. mem_step.
  eapply wp_mono; [by apply law_create|]. intros r0 [en1 a1] (-> & Hr1 & Ha1 & Hb1). mem_step.
  eapply wp_mono; [apply (nty_run_spec es _ _ _ nsrv_zero); [|done|done]|].
  - split; [|split; [exact Hr1|split; [apply map_Forall_empty|exact Ha1]]]. split; cbn; try done; by intros ? [? ?].
  - intros [] [st2 [en2 a2]] [Hinv Hbal]. split; [done|]. unfold balanced in *. cbn in *. lia.
Qed.
End refinement.

(** C9: The server on coroutines: in every interleaving of the acceptor and the readers, each
    reader answers its requests as the specification does, against one shared map, without
    undefined behaviour, and no block is lost. *)
Theorem ntyco_refines es t a :
  supplied a → Forall nty_ok es →
  wp (ntyco_main (E:=kvs_skiptable) es)
    (λ _ x, let s := foldl ns_step nsrv_zero es in
      n_wire x.1 = ns_wire s ∧ skip_repr x.2.1 (ns_map s) ∧ al_live x.2.2 - skip_owned x.2.1 = al_live a) (ntyco_zero, (t, a)).
Proof.
  intros Ha Hok. eapply wp_mono; [apply (ntyco_main_spec (E:=kvs_skiptable)); [done|done|]|].
  - intros s e. destruct e as [| |id [d|]|]; try done. apply skip_room.
  - intros _ x [(Hn & Hr & _) Hlive]. split; [apply Hn|]. split; [exact Hr|].
    change (eng_owned x.2.1) with (skip_owned x.2.1) in Hlive. change (eng_owned eng_zero) with 0 in Hlive. lia.
Qed.
(** Two readers whose requests and answers interleave; the first answer leaves in part. *)
Definition two_readers : list nty_event :=
  let req s := Some (bytes (s ++ crlf)) in
  [EvAccept 5 true; EvAccept (-1) true; EvAccept 6 true; EvStart 0; EvStart 1; EvRecv 0 (req "SET k v"); EvRecv 1 (req "GET k");
   EvRecv 1 (req "GET x"); EvSend 1 (Some 9%nat); EvSend 0 (Some 2%nat); EvRecv 0 None; EvRecv 0 (Some []); EvSend 1 None].
Lemma ntyco_refines_witness :
  let s := foldl ns_step nsrv_zero two_readers in
  (ns_wire s = [(1%nat, bytes ("v" ++ crlf)); (0%nat, bytes "OK")] ∧ ns_map s = {["k" := "v"]}) ∧
  wp (ntyco_main (E:=kvs_skiptable) two_readers) (λ _ x, n_wire x.1 = ns_wire s) (ntyco_zero, (eng_zero, mk_alloc [] 0 [])).
Proof.
  split; [split; vm_compute; reflexivity|].
  eapply wp_mono; [apply (ntyco_refines two_readers eng_zero (mk_alloc [] 0 []))|].
  - repeat constructor.
  - unfold two_readers. repeat (apply Forall_cons; split; [first [exact I|apply (bool_decide_unpack _); vm_compute; exact I]|]). constructor.
  - by intros _ x [? _].
Defined.

(** A reader whose recv fails goes round again: a descriptor on which recv keeps failing is
    never closed, and its coroutine never ends. *)
Theorem failing_recv_never_ends n id fd (x : ntyco * (kvs_skiptable * alloc)) :
  n_readers x.1 !! id = Some (RRecv fd) → nty_run (replicate n (EvRecv id None)) x = Ok ((), x).
Proof.
  intros Hid. induction n as [|n IH]; [done|]. cbn [replicate nty_run]. unfold nty_step, bind, on_fst, get at 1.
  destruct x as [st y]. cbn [fst] in *. by rewrite Hid.
Qed.
Lemma failing_recv_never_ends_witness :
  let x := (mk_ntyco {[0%nat := RRecv 5]} 1 ∅ 1 [] [], (eng_zero, mk_alloc [] 0 [])) in
  nty_run (E:=kvs_skiptable) (replicate 1000 (EvRecv 0 None)) x = Ok ((), x).
Proof. intros x. by apply (failing_recv_never_ends 1000 0 5 x). Defined.
