(* ===== verification/KcpBase.v ===== *)
(** KCP (senior/2.2_udp-kcp-quic/src/ikcp.c): constants, comparisons of wrapping
    sequence numbers and clocks, and the byte encoding of segment headers. *)
From S2P Require Import Prelude.

Definition IKCP_RTO_NDL : Z := 30.
Definition IKCP_RTO_MIN : Z := 100.
Definition IKCP_RTO_DEF : Z := 200.
Definition IKCP_RTO_MAX : Z := 60000.
Definition IKCP_CMD_PUSH : Z := 81.
Definition IKCP_CMD_ACK : Z := 82.
Definition IKCP_CMD_WASK : Z := 83.
Definition IKCP_CMD_WINS : Z := 84.
Definition IKCP_ASK_SEND : Z := 1.
Definition IKCP_ASK_TELL : Z := 2.
Definition IKCP_WND_SND : Z := 32.
Definition IKCP_WND_RCV : Z := 128.
Definition IKCP_MTU_DEF : Z := 1400.
Definition IKCP_INTERVAL : Z := 100.
Definition IKCP_OVERHEAD : Z := 24.
Definition IKCP_DEADLINK : Z := 20.
Definition IKCP_THRESH_INIT : Z := 2.
Definition IKCP_THRESH_MIN : Z := 2.
Definition IKCP_PROBE_INIT : Z := 7000.
Definition IKCP_PROBE_LIMIT : Z := 120000.
Definition IKCP_FASTACK_LIMIT : Z := 5.

(** ** Encoding *)

Definition ikcp_encode8u (c : Z) : list Z := [u8 c].
Definition ikcp_decode8u (p : list Z) : option (Z * list Z) :=
  match p with c :: p => Some (c, p) | [] => None end.
Definition ikcp_encode16u (w : Z) : list Z :=
  [Z.land w 255; u8 (Z.shiftr w 8)].
Definition ikcp_decode16u (p : list Z) : option (Z * list Z) :=
  match p with
  | p0 :: p1 :: p => Some (u16 (p0 + Z.shiftl p1 8), p)
  | _ => None
  end.
Definition ikcp_encode32u (l : Z) : list Z :=
  [Z.land (Z.shiftr l 0) 255; Z.land (Z.shiftr l 8) 255;
   Z.land (Z.shiftr l 16) 255; Z.land (Z.shiftr l 24) 255].
Definition ikcp_decode32u (p : list Z) : option (Z * list Z) :=
  match p with
  | p0 :: p1 :: p2 :: p3 :: p =>
      let l := p3 in
      let l := u32 (p2 + Z.shiftl l 8) in
      let l := u32 (p1 + Z.shiftl l 8) in
      Some (u32 (p0 + Z.shiftl l 8), p)
  | _ => None
  end.

Definition _imin_ (a b : Z) : Z := if a <=? b then a else b.
Definition _imax_ (a b : Z) : Z := if b <=? a then a else b.
Definition _ibound_ (lower middle upper : Z) : Z := _imin_ (_imax_ lower middle) upper.
Definition _itimediff (later earlier : Z) : Z := i32 (u32 (later - earlier)).

(** An int expression: undefined outside the range of int, for the reason [why]. *)
Definition int_expr {S} (why : ub) (z : Z) : M S Z :=
  if (- 2 ^ 31 <=? z) && (z <? 2 ^ 31) then ret z else undef why.

(** ** Segments *)

Record IKCPSEG : Type := mk_seg {
  s_conv : Z; s_cmd : Z; s_frg : Z; s_wnd : Z; s_ts : Z; s_sn : Z; s_una : Z; s_len : Z;
  s_resendts : Z; s_rto : Z; s_fastack : Z; s_xmit : Z; s_data : list Z }.

Definition ikcp_encode_seg (seg : IKCPSEG) : list Z :=
  ikcp_encode32u (s_conv seg) ++ ikcp_encode8u (s_cmd seg) ++ ikcp_encode8u (s_frg seg) ++
  ikcp_encode16u (u16 (s_wnd seg)) ++ ikcp_encode32u (s_ts seg) ++ ikcp_encode32u (s_sn seg) ++
  ikcp_encode32u (s_una seg) ++ ikcp_encode32u (s_len seg).

(** The header fields ikcp_input reads, in the order it reads them. *)
Record header : Type := mk_header {
  h_conv : Z; h_cmd : Z; h_frg : Z; h_wnd : Z; h_ts : Z; h_sn : Z; h_una : Z; h_len : Z }.
#[export] Instance header_eq_dec : EqDecision header.
Proof. solve_decision. Defined.

Definition decode_header (p : list Z) : option (header * list Z) := (
  ' (conv, p) ← ikcp_decode32u p;
  ' (cmd, p) ← ikcp_decode8u p;
  ' (frg, p) ← ikcp_decode8u p;
  ' (wnd, p) ← ikcp_decode16u p;
  ' (ts, p) ← ikcp_decode32u p;
  ' (sn, p) ← ikcp_decode32u p;
  ' (una, p) ← ikcp_decode32u p;
  ' (len, p) ← ikcp_decode32u p;
  Some (mk_header conv cmd frg wnd ts sn una len, p))%stdpp.

Definition seg_header (seg : IKCPSEG) : header :=
  mk_header (s_conv seg) (s_cmd seg) (s_frg seg) (s_wnd seg) (s_ts seg) (s_sn seg) (s_una seg) (s_len seg).

(** Fields within the widths of the wire format. *)
Record header_ok (h : header) : Prop := {
  hk_conv : is_u32 (h_conv h); hk_cmd : is_u8 (h_cmd h); hk_frg : is_u8 (h_frg h);
  hk_wnd : is_u16 (h_wnd h); hk_ts : is_u32 (h_ts h); hk_sn : is_u32 (h_sn h);
  hk_una : is_u32 (h_una h); hk_len : is_u32 (h_len h) }.

(** ** Round trips *)

Lemma land_255 z : Z.land z 255 = u8 z.
Proof. change 255 with (Z.ones 8). by rewrite Z.land_ones. Qed.
Lemma encode32u_eq l :
  ikcp_encode32u l = [u8 l; u8 (l / 2 ^ 8); u8 (l / 2 ^ 16); u8 (l / 2 ^ 24)].
Proof. unfold ikcp_encode32u. by rewrite Z.shiftr_0_r, !land_255, !Z.shiftr_div_pow2. Qed.

Lemma decode_encode8u c p : is_u8 c → ikcp_decode8u (ikcp_encode8u c ++ p) = Some (c, p).
Proof. intros. cbn. by rewrite u8_id. Qed.
Lemma decode_encode16u w p : is_u16 w → ikcp_decode16u (ikcp_encode16u w ++ p) = Some (w, p).
Proof.
  intros Hw. unfold ikcp_encode16u. rewrite land_255, Z.shiftr_div_pow2 by done. cbn.
  rewrite Z.shiftl_mul_pow2 by done. do 2 f_equal. change (2 ^ 8) with 256. word.
Qed.
Lemma decode_encode32u l p : is_u32 l → ikcp_decode32u (ikcp_encode32u l ++ p) = Some (l, p).
Proof.
  intros Hl. rewrite encode32u_eq. cbn [app ikcp_decode32u]. rewrite !Z.shiftl_mul_pow2 by done.
  do 2 f_equal. change (2 ^ 8) with 256. change (2 ^ 24) with 16777216. word.
Qed.
Lemma length_encode_seg seg : length (ikcp_encode_seg seg) = Z.to_nat IKCP_OVERHEAD.
Proof. done. Qed.

(** What ikcp_input decodes is what ikcp_encode_seg encoded. *)
Lemma decode_encode_seg seg p :
  header_ok (seg_header seg) →
  decode_header (ikcp_encode_seg seg ++ p) = Some (seg_header seg, p).
Proof.
  intros [H1 H2 H3 H4 H5 H6 H7 H8]. cbn in H1, H2, H3, H4, H5, H6, H7, H8. unfold decode_header, ikcp_encode_seg. rewrite <-!app_assoc.
  rewrite decode_encode32u by done. cbn [mbind option_bind]. rewrite decode_encode8u by done.
  cbn [mbind option_bind]. rewrite decode_encode8u by done. cbn [mbind option_bind].
  rewrite u16_id, decode_encode16u by done. cbn [mbind option_bind].
  do 4 (rewrite decode_encode32u by done; cbn [mbind option_bind]). done.
Qed.

(** ** Wrapping comparison *)

Lemma itimediff_range a b : is_i32 (_itimediff a b).
Proof. apply i32_range. Qed.
(** Within half the sequence space the wrapped difference is the difference. *)
Lemma itimediff_exact a b d :
  - 2 ^ 31 ≤ d < 2 ^ 31 → (a - b) mod 2 ^ 32 = d mod 2 ^ 32 → _itimediff a b = d.
Proof. intros Hd Heq. unfold _itimediff. unfold i32, u32. rewrite Heq. word. Qed.
Lemma itimediff_u32 a b : is_u32 a → is_u32 b → - 2 ^ 31 ≤ a - b < 2 ^ 31 → _itimediff a b = a - b.
Proof. intros. by apply itimediff_exact. Qed.
Lemma itimediff_refl a : _itimediff a a = 0.
Proof. unfold _itimediff. by rewrite Z.sub_diag. Qed.
