(* ===== verification/KcpQueue.v ===== *)
(** KCP: the intrusive queues (include/ikcp.h): circular lists doubly linked through
    a head.  The queues of the control block are modelled by the lists of their
    segments; this file shows that the pointer macros implement lists. *)
From S2P Require Import Prelude KvMem.

(** The links of all nodes, heads included: [None] is the NULL that IQUEUE_DEL leaves
    behind, an address without links is no node. *)
Record qheap : Type := mk_qheap { q_next : gmap loc (option loc); q_prev : gmap loc (option loc) }.

Definition q_field (f : qheap → gmap loc (option loc)) (p : loc) : M qheap loc :=
  h ← get;
  v ← from_opt DanglingDeref (f h !! p);
  from_opt NullDeref v.
Definition set_next (p : loc) (v : option loc) : M qheap unit :=
  h ← get;
  from_opt DanglingDeref (q_next h !! p);;
  put (mk_qheap (<[p:=v]> (q_next h)) (q_prev h)).
Definition set_prev (p : loc) (v : option loc) : M qheap unit :=
  h ← get;
  from_opt DanglingDeref (q_prev h !! p);;
  put (mk_qheap (q_next h) (<[p:=v]> (q_prev h))).

(** ** The macros *)

Definition iqueue_init (ptr : loc) : M qheap unit := set_next ptr (Some ptr);; set_prev ptr (Some ptr).
Definition iqueue_add (node head : loc) : M qheap unit :=
  set_prev node (Some head);;
  n ← q_field q_next head;
  set_next node (Some n);;
  n ← q_field q_next head;
  set_prev n (Some node);;
  set_next head (Some node).
Definition iqueue_add_tail (node head : loc) : M qheap unit :=
  p ← q_field q_prev head;
  set_prev node (Some p);;
  set_next node (Some head);;
  p ← q_field q_prev head;
  set_next p (Some node);;
  set_prev head (Some node).
Definition iqueue_del (entry : loc) : M qheap unit :=
  n ← q_field q_next entry;
  p ← q_field q_prev entry;
  set_prev n (Some p);;
  p ← q_field q_prev entry;
  n ← q_field q_next entry;
  set_next p (Some n);;
  set_next entry None;;
  set_prev entry None.
Definition iqueue_del_init (entry : loc) : M qheap unit := iqueue_del entry;; iqueue_init entry.
Definition iqueue_is_empty (entry : loc) : M qheap bool :=
  n ← q_field q_next entry;
  ret (bool_decide (entry = n)).
(** The nodes iqueue_foreach_entry visits. *)
Fixpoint foreach_loop (fuel : nat) (pos head : loc) : M qheap (list loc) :=
  match fuel with
  | O => no_fuel
  | S fuel =>
      if decide (pos = head) then ret [] else
      n ← q_field q_next pos;
      l ← foreach_loop fuel n head;
      ret (pos :: l)
  end.
Definition iqueue_foreach (fuel : nat) (head : loc) : M qheap (list loc) :=
  n ← q_field q_next head;
  foreach_loop fuel n head.

(** ** Representation *)

(** [b] follows [a]; the nodes [l] lead from [a] to [z]. *)
Definition link (h : qheap) (a b : loc) : Prop := q_next h !! a = Some (Some b) ∧ q_prev h !! b = Some (Some a).
Fixpoint path (h : qheap) (a : loc) (l : list loc) (z : loc) : Prop :=
  match l with
  | [] => link h a z
  | b :: l => link h a b ∧ path h b l z
  end.
(** The queue at [head] holds the nodes [l]. *)
Definition queue (h : qheap) (head : loc) (l : list loc) : Prop := NoDup (head :: l) ∧ path h head l head.
(** [n] has links, whatever they are. *)
Definition is_node (h : qheap) (n : loc) : Prop := is_Some (q_next h !! n) ∧ is_Some (q_prev h !! n).

Lemma path_app h a l1 b l2 z : path h a (l1 ++ b :: l2) z ↔ path h a l1 b ∧ path h b l2 z.
Proof. revert a. induction l1 as [|c l1 IH]; intros a; cbn; [done|]. rewrite IH. tauto. Qed.
Lemma path_next h a l z n v : path h a l z → n ∉ a :: l → path (mk_qheap (<[n:=v]> (q_next h)) (q_prev h)) a l z.
Proof.
  revert a. induction l as [|b l IH]; intros a; cbn [path].
  - intros [Hn Hp] Ha. split; [|done]. cbn. rewrite lookup_insert_ne; [done|]. set_solver.
  - intros [[Hn Hp] Hl] Ha. split; [split; [|done]|apply IH; [done|set_solver]].
    cbn. rewrite lookup_insert_ne; [done|]. set_solver.
Qed.
Lemma path_prev h a l z n v : path h a l z → n ∉ l → n ≠ z → path (mk_qheap (q_next h) (<[n:=v]> (q_prev h))) a l z.
Proof.
  revert a. induction l as [|b l IH]; intros a; cbn [path].
  - intros [Hn Hp] _ Hz. split; [done|]. cbn. by rewrite lookup_insert_ne.
  - intros [[Hn Hp] Hl] Ha Hz. split; [split; [done|]|apply IH; [done|set_solver|done]].
    cbn. rewrite lookup_insert_ne; [done|]. set_solver.
Qed.
Lemma path_nodes h a l z n : path h a l z → n ∈ l → is_node h n.
Proof.
  revert a. induction l as [|b l IH]; intros a; cbn [path]; [by intros _ ?%not_elem_of_nil|].
  intros [[Hn Hp] Hl] [->|Hin]%elem_of_cons; [|by eapply IH]. split; [|by eexists].
  destruct l; cbn in Hl; [destruct Hl as [-> _]|destruct Hl as [[-> _] _]]; by eexists.
Qed.

(** The four writes that put [node] between the neighbours [p] and [n]. *)
Definition spliced (h : qheap) (p node n : loc) : qheap :=
  mk_qheap (<[p:=Some node]> (<[node:=Some n]> (q_next h))) (<[n:=Some node]> (<[node:=Some p]> (q_prev h))).
Lemma path_spliced h p node n a l z :
  path h a l z → p ∉ a :: l → node ∉ a :: l ++ [z] → n ∉ l ++ [z] → path (spliced h p node n) a l z.
Proof.
  intros Hpath Hp Hnode Hn.
  assert (node ∉ l ∧ node ≠ z ∧ node ∉ a :: l ∧ n ∉ l ∧ n ≠ z) as (Hn1 & Hn2 & Hn3 & Hn4 & Hn5) by set_solver.
  pose proof (path_prev h a l z node (Some p) Hpath ltac:(done) ltac:(done)) as H1.
  pose proof (path_prev _ a l z n (Some node) H1 ltac:(done) ltac:(done)) as H2.
  pose proof (path_next _ a l z node (Some n) H2 ltac:(done)) as H3.
  exact (path_next _ a l z p (Some node) H3 Hp).
Qed.
Lemma link_spliced h p node n : node ≠ p → node ≠ n → link (spliced h p node n) p node ∧ link (spliced h p node n) node n.
Proof.
  intros Hp Hn. split; split; cbn.
  - apply lookup_insert_eq.
  - by rewrite lookup_insert_ne, lookup_insert_eq.
  - by rewrite lookup_insert_ne, lookup_insert_eq.
  - apply lookup_insert_eq.
Qed.

(** The part of the ring from [n] on, [n] being the first of [l2] or the head. *)
Definition rest_path h (n : loc) (l2 : list loc) (head : loc) : Prop :=
  match l2 with [] => n = head | b :: l2 => n = b ∧ path h b l2 head end.
Lemma path_split h a l1 l2 head : path h a (l1 ++ l2) head ↔ ∃ n, path h a l1 n ∧ rest_path h n l2 head.
Proof.
  destruct l2 as [|b l2]; cbn.
  - rewrite app_nil_r. split; [eauto|by intros (n & ? & ->)].
  - rewrite path_app. split; [intros []; eauto|by intros (n & ? & -> & ?)].
Qed.

(** [l1] is what the queue holds before the new node, [l2] what it holds behind it. *)
Lemma splice_queue h head l1 l2 p node n :
  queue h head (l1 ++ l2) → node ∉ head :: l1 ++ l2 →
  last (head :: l1) = Some p → rest_path h n l2 head →
  queue (spliced h p node n) head (l1 ++ node :: l2).
Proof.
  intros [Hnd Hpath] Hnode Hp Hrest. split.
  { rewrite app_comm_cons. rewrite <-Permutation_middle. cbn. by constructor. }
  apply path_split in Hpath as (n' & Hl1 & Hrest').
  assert (n' = n) as -> by (destruct l2; cbn in Hrest, Hrest'; naive_solver). clear Hrest'.
  assert (n ∈ head :: l2) as Hn by (destruct l2; cbn in Hrest; [subst; left|destruct Hrest as [-> _]; set_solver]).
  assert (p ∈ head :: l1) as Hpin by (by apply last_Some_elem_of).
  destruct (link_spliced h p node n) as [Hpn Hnn]; [set_solver..|].
  apply path_app. split.
  - destruct l1 as [|p' l1' _] using rev_ind.
    + cbn in Hp. injection Hp as <-. exact Hpn.
    + rewrite app_comm_cons, last_snoc in Hp. injection Hp as ->. apply path_app in Hl1 as [Hl1 _]. apply path_app.
      split; [|exact Hpn]. rewrite !NoDup_cons, !NoDup_app in Hnd.
      apply path_spliced; [done|set_solver..].
  - destruct l2 as [|b l2]; cbn in Hrest |- *; [by subst|]. destruct Hrest as [-> Hl2]. split; [done|].
    rewrite !NoDup_cons, !NoDup_app, !NoDup_cons in Hnd. apply path_spliced; [done|set_solver..].
Qed.

(** The writes of IQUEUE_DEL of [e] between the neighbours [p] and [n]. *)
Definition unspliced (h : qheap) (p e n : loc) : qheap :=
  mk_qheap (<[e:=None]> (<[p:=Some n]> (q_next h))) (<[e:=None]> (<[n:=Some p]> (q_prev h))).
Lemma path_unspliced h p e n a l z :
  path h a l z → p ∉ a :: l → e ∉ a :: l ++ [z] → n ∉ l ++ [z] → path (unspliced h p e n) a l z.
Proof.
  intros Hpath Hp He Hn.
  assert (e ∉ l ∧ e ≠ z ∧ e ∉ a :: l ∧ n ∉ l ∧ n ≠ z) as (Hn1 & Hn2 & Hn3 & Hn4 & Hn5) by set_solver.
  pose proof (path_prev h a l z n (Some p) Hpath ltac:(done) ltac:(done)) as H1.
  pose proof (path_prev _ a l z e None H1 ltac:(done) ltac:(done)) as H2.
  pose proof (path_next _ a l z p (Some n) H2 ltac:(done)) as H3.
  exact (path_next _ a l z e None H3 ltac:(done)).
Qed.
Lemma link_unspliced h p e n : e ≠ p → e ≠ n → link (unspliced h p e n) p n.
Proof. intros Hp Hn. split; cbn; by rewrite lookup_insert_ne, lookup_insert_eq. Qed.

(** The neighbours of a node of the queue. *)
Lemma neighbours h head l1 e l2 :
  queue h head (l1 ++ e :: l2) → ∃ p n, link h p e ∧ link h e n ∧ last (head :: l1) = Some p ∧
    hd head l2 = n ∧ e ≠ p ∧ e ≠ n.
Proof.
  intros [Hnd Hpath]. apply path_app in Hpath as [Hl1 Hl2]. rewrite NoDup_cons, NoDup_app, NoDup_cons in Hnd.
  assert (∃ p, link h p e ∧ last (head :: l1) = Some p) as (p & Hp & Hlast).
  { destruct l1 as [|p l1 _] using rev_ind; [by exists head|]. apply path_app in Hl1 as [_ Hl1]. exists p.
    split; [done|]. by rewrite app_comm_cons, last_snoc. }
  assert (∃ n, link h e n ∧ hd head l2 = n) as (n & Hn & Hhd).
  { destruct l2 as [|n l2]; [by exists head|]. destruct Hl2. by exists n. }
  exists p, n. split_and!; try done.
  - intros <-. apply last_Some_elem_of in Hlast. set_solver.
  - intros <-. destruct l2 as [|n l2]; cbn in Hhd; subst; set_solver.
Qed.

Lemma unsplice_queue h head l1 e l2 p n :
  queue h head (l1 ++ e :: l2) → last (head :: l1) = Some p → hd head l2 = n → e ≠ p → e ≠ n →
  queue (unspliced h p e n) head (l1 ++ l2).
Proof.
  intros [Hnd Hpath] Hp Hn Hep Hen. apply path_app in Hpath as [Hl1 Hl2].
  rewrite NoDup_cons, NoDup_app, NoDup_cons in Hnd.
  split. { rewrite NoDup_cons, NoDup_app. set_solver. }
  apply path_split. exists n. split.
  - destruct l1 as [|p' l1 _] using rev_ind.
    + cbn in Hp. injection Hp as <-. by apply link_unspliced.
    + rewrite app_comm_cons, last_snoc in Hp. injection Hp as ->. apply path_app in Hl1 as [Hl1 _]. apply path_app.
      split; [|by apply link_unspliced]. rewrite !NoDup_app in Hnd.
      apply path_unspliced; [done|destruct l2; cbn in Hn; subst; set_solver..].
  - destruct l2 as [|b l2]; cbn in Hn |- *; [done|]. split; [done|]. subst b. destruct Hl2 as [_ Hl2].
    rewrite !NoDup_cons in Hnd. apply last_Some_elem_of in Hp.
    apply path_unspliced; [done|set_solver..].
Qed.

(** ** The operations *)

Lemma wp_q_field f p v h (Q : loc → qheap → Prop) : f h !! p = Some (Some v) → Q v h → wp (q_field f p) Q h.
Proof. intros Hp HQ. unfold q_field. wp_step. by rewrite Hp. Qed.
Lemma wp_set_next p v h (Q : unit → qheap → Prop) :
  is_Some (q_next h !! p) → Q () (mk_qheap (<[p:=v]> (q_next h)) (q_prev h)) → wp (set_next p v) Q h.
Proof. intros [w Hp] HQ. unfold set_next. wp_step. by rewrite Hp. Qed.
Lemma wp_set_prev p v h (Q : unit → qheap → Prop) :
  is_Some (q_prev h !! p) → Q () (mk_qheap (q_next h) (<[p:=v]> (q_prev h))) → wp (set_prev p v) Q h.
Proof. intros [w Hp] HQ. unfold set_prev. wp_step. by rewrite Hp. Qed.

(** The queues that hold none of the nodes [X] are as before. *)
Definition others (X : list loc) (h h' : qheap) : Prop :=
  ∀ head l, queue h head l → (∀ x, x ∈ head :: l → x ∉ X) → queue h' head l.
Lemma others_spliced h p node n X : p ∈ X → node ∈ X → n ∈ X → others X h (spliced h p node n).
Proof.
  intros Hp Hnode Hn head l [Hnd Hpath] Hout. split; [done|].
  assert (∀ x, x ∈ X → x ∉ head :: l) as Hin by (intros x Hx Hl; by apply (Hout x)).
  pose proof (Hin p Hp). pose proof (Hin node Hnode). pose proof (Hin n Hn).
  apply path_spliced; [done|set_solver..].
Qed.
Lemma others_unspliced h p e n X : p ∈ X → e ∈ X → n ∈ X → others X h (unspliced h p e n).
Proof.
  intros Hp He Hn head l [Hnd Hpath] Hout. split; [done|].
  assert (∀ x, x ∈ X → x ∉ head :: l) as Hin by (intros x Hx Hl; by apply (Hout x)).
  pose proof (Hin p Hp). pose proof (Hin e He). pose proof (Hin n Hn).
  apply path_unspliced; [done|set_solver..].
Qed.

Lemma queue_head_next h head l : queue h head l →
  q_next h !! head = Some (Some (hd head l)) ∧ q_prev h !! hd head l = Some (Some head).
Proof. intros [_ Hpath]. destruct l; [exact Hpath|exact (proj1 Hpath)]. Qed.
Lemma queue_head_prev h head l : queue h head l → ∃ p, last (head :: l) = Some p ∧ link h p head.
Proof.
  intros [_ Hpath]. destruct l as [|p l _] using rev_ind; [by exists head|]. exists p.
  rewrite app_comm_cons, last_snoc. split; [done|]. by apply path_app in Hpath as [_ Hp].
Qed.

Lemma add_spec node head l h :
  queue h head l → is_node h node → node ∉ head :: l →
  wp (iqueue_add node head) (λ _ h', queue h' head (node :: l) ∧ others (node :: head :: l) h h') h.
Proof.
  intros Hq [[a Ha] [b Hb]] Hnode. destruct (queue_head_next h head l Hq) as [Hn Hp]. set (n := hd head l) in *.
  assert (node ≠ head) by set_solver.
  assert (n ∈ head :: l) as Hnin by (unfold n; destruct l; set_solver). assert (node ≠ n) by set_solver.
  unfold iqueue_add. wp_step. apply wp_set_prev; [done|]. wp_step. eapply wp_q_field; [exact Hn|]. wp_step.
  apply wp_set_next; [done|]. wp_step. eapply wp_q_field; [by cbn; rewrite lookup_insert_ne|]. wp_step.
  apply wp_set_prev; [by cbn; rewrite lookup_insert_ne|]. apply wp_set_next; [by cbn; rewrite lookup_insert_ne|]. split.
  - apply (splice_queue h head [] l head node n); [done..|]. unfold n. by destruct l; [|destruct Hq as [_ [_ ?]]].
  - apply (others_spliced h head node n); set_solver.
Qed.
Lemma add_tail_spec node head l h :
  queue h head l → is_node h node → node ∉ head :: l →
  wp (iqueue_add_tail node head) (λ _ h', queue h' head (l ++ [node]) ∧ others (node :: head :: l) h h') h.
Proof.
  intros Hq [[a Ha] [b Hb]] Hnode. destruct (queue_head_prev h head l Hq) as (p & Hlast & Hn & Hp).
  assert (node ≠ head) by set_solver. assert (p ∈ head :: l) by (by apply last_Some_elem_of). assert (node ≠ p) by set_solver.
  unfold iqueue_add_tail. wp_step. eapply wp_q_field; [done|]. wp_step. apply wp_set_prev; [done|]. wp_step.
  apply wp_set_next; [done|]. wp_step. eapply wp_q_field; [by cbn; rewrite lookup_insert_ne|]. wp_step.
  apply wp_set_next; [by cbn; rewrite lookup_insert_ne|]. apply wp_set_prev; [by cbn; rewrite lookup_insert_ne|]. split.
  - apply (splice_queue h head l [] p node head); [by rewrite app_nil_r..|done|done].
  - apply (others_spliced h p node head); set_solver.
Qed.
Lemma del_spec e head l1 l2 h :
  queue h head (l1 ++ e :: l2) →
  wp (iqueue_del e) (λ _ h', queue h' head (l1 ++ l2) ∧ others (head :: l1 ++ e :: l2) h h' ∧
    q_next h' !! e = Some None ∧ q_prev h' !! e = Some None) h.
Proof.
  intros Hq. destruct (neighbours h head l1 e l2 Hq) as (p & n & [Hpe1 Hpe2] & [Hen1 Hen2] & Hlast & Hhd & Hep & Hen).
  unfold iqueue_del. wp_step. eapply wp_q_field; [done|]. wp_step. eapply wp_q_field; [done|]. wp_step.
  apply wp_set_prev; [done|]. wp_step. eapply wp_q_field; [by cbn; rewrite lookup_insert_ne|]. wp_step.
  eapply wp_q_field; [done|]. wp_step. apply wp_set_next; [done|]. wp_step.
  apply wp_set_next; [by cbn; rewrite lookup_insert_ne|]. apply wp_set_prev; [by cbn; rewrite lookup_insert_ne|].
  fold (unspliced h p e n). split_and!.
  - by apply (unsplice_queue h head l1 e l2 p n).
  - apply last_Some_elem_of in Hlast. apply (others_unspliced h p e n); [set_solver..|]. destruct l2; cbn in Hhd; set_solver.
  - apply lookup_insert_eq.
  - apply lookup_insert_eq.
Qed.
Lemma foreach_loop_spec fuel b l head h :
  path h b l head → head ∉ b :: l → (S (length l) < fuel)%nat →
  wp (foreach_loop fuel b head) (λ r h', r = b :: l ∧ h' = h) h.
Proof.
  revert b l. induction fuel as [|fuel IH]; intros b l Hpath Hhead Hfuel; [lia|]. cbn [foreach_loop].
  rewrite decide_False by set_solver. wp_step. destruct l as [|c l]; cbn in Hpath.
  - destruct Hpath as [Hn _]. eapply wp_q_field; [done|]. wp_step. destruct fuel; [cbn in Hfuel; lia|]. cbn [foreach_loop].
    by rewrite decide_True.
  - destruct Hpath as [[Hn _] Hl]. eapply wp_q_field; [done|]. wp_step.
    eapply wp_mono; [apply (IH c l); [done|set_solver|cbn in Hfuel; lia]|]. by intros r h' [-> ->].
Qed.

(** C36: The pointer macros of the queues implement lists: on a queue that holds the
    nodes [l], IQUEUE_ADD of a node of no queue gives [node :: l], IQUEUE_ADD_TAIL
    gives [l ++ [node]], IQUEUE_DEL takes exactly its node out and leaves NULL links
    in it, the emptiness test is that of [l], iteration visits [l] in order and ends,
    and IQUEUE_INIT makes an empty queue; queues without these nodes do not change. *)
Theorem queue_macros_implement_lists h head l :
  queue h head l →
  (∀ node, is_node h node → node ∉ head :: l →
    wp (iqueue_add node head) (λ _ h', queue h' head (node :: l) ∧ others (node :: head :: l) h h') h ∧
    wp (iqueue_add_tail node head) (λ _ h', queue h' head (l ++ [node]) ∧ others (node :: head :: l) h h') h ∧
    wp (iqueue_init node) (λ _ h', queue h' node []) h) ∧
  (∀ l1 e l2, l = l1 ++ e :: l2 →
    wp (iqueue_del e) (λ _ h', queue h' head (l1 ++ l2) ∧ others (head :: l) h h' ∧
      q_next h' !! e = Some None ∧ q_prev h' !! e = Some None) h) ∧
  wp (iqueue_is_empty head) (λ r h', r = bool_decide (l = []) ∧ h' = h) h ∧
  wp (iqueue_foreach (S (S (length l))) head) (λ r h', r = l ∧ h' = h) h.
Proof.
  intros Hq. pose proof (queue_head_next h head l Hq) as [Hn _]. split_and!.
  - intros node Hnode Hout. split_and!; [by apply add_spec|by apply add_tail_spec|].
    destruct Hnode as [Ha Hb]. unfold iqueue_init. wp_step. apply wp_set_next; [done|]. apply wp_set_prev; [done|].
    split; [apply NoDup_singleton|]. split; apply lookup_insert_eq.
  - intros l1 e l2 ->. by apply del_spec.
  - unfold iqueue_is_empty. wp_step. eapply wp_q_field; [done|]. wp_step. split; [|done]. apply bool_decide_ext.
    destruct Hq as [Hnd _]. apply NoDup_cons in Hnd as [Hhead _]. destruct l; cbn; [done|]. set_solver.
  - unfold iqueue_foreach. wp_step. eapply wp_q_field; [done|]. destruct Hq as [Hnd Hpath].
    apply NoDup_cons in Hnd as [Hhead _]. destruct l as [|b l].
    + cbn [hd foreach_loop length]. by rewrite decide_True.
    + destruct Hpath as [_ Hpath]. cbn [hd]. apply foreach_loop_spec; [done|done|cbn; lia].
Qed.

(** A queue at 1 with the node 2; node 3 is in no queue. *)
Definition demo_heap : qheap :=
  mk_qheap (list_to_map [(1%positive, Some 2%positive); (2%positive, Some 1%positive); (3%positive, None)])
    (list_to_map [(1%positive, Some 2%positive); (2%positive, Some 1%positive); (3%positive, None)]).
Lemma queue_macros_implement_lists_witness :
  queue demo_heap 1 [2%positive] ∧
  wp (iqueue_add_tail 3 1) (λ _ h', queue h' 1 [2%positive; 3%positive]) demo_heap.
Proof.
  assert (queue demo_heap 1 [2%positive]) as Hq.
  { split; [|done]. by apply (bool_decide_eq_true_1 _). }
  split; [done|]. destruct (queue_macros_implement_lists demo_heap 1 [2%positive] Hq) as [Hadd _].
  destruct (Hadd 3%positive) as (_ & Htail & _); [by split; eexists|by apply (bool_decide_eq_true_1 _)|].
  eapply wp_mono; [exact Htail|]. by intros _ h' [? _].
Defined.
