(* ===== verification/KcpCb.v ===== *)
(** KCP: the control block (struct IKCPCB of include/ikcp.h) and the functions
    that create, release and configure it (src/ikcp.c).  The four queues are the
    lists of their segments from head->next to head->prev; KcpQueue.v relates
    the linked representation to lists. *)
From S2P Require Import Prelude KvMem KcpBase.

(** [k_acklist] is the array of ackblock pairs (sn, ts), NULL at first, its
    entries [None] until they are written;
    [k_buffer] the size of the block flush assembles datagrams in; [k_output]
    tells whether the output callback is set, and [k_wire] lists the datagrams
    handed to it. *)
Record ikcpcb : Type := mk_kcp {
  k_conv : Z; k_mtu : Z; k_mss : Z; k_state : Z; k_snd_una : Z; k_snd_nxt : Z; k_rcv_nxt : Z;
  k_ts_recent : Z; k_ts_lastack : Z; k_ssthresh : Z; k_rx_rttval : Z; k_rx_srtt : Z; k_rx_rto :
  Z; k_rx_minrto : Z; k_snd_wnd : Z; k_rcv_wnd : Z; k_rmt_wnd : Z; k_cwnd : Z; k_probe : Z;
  k_current : Z; k_interval : Z; k_ts_flush : Z; k_xmit : Z; k_nrcv_buf : Z; k_nsnd_buf : Z;
  k_nrcv_que : Z; k_nsnd_que : Z; k_nodelay : Z; k_updated : Z; k_ts_probe : Z; k_probe_wait :
  Z; k_dead_link : Z; k_incr : Z; k_snd_queue : list IKCPSEG; k_rcv_queue : list IKCPSEG;
  k_snd_buf : list IKCPSEG; k_rcv_buf : list IKCPSEG; k_acklist : option (list (option Z)); k_ackcount :
  Z; k_ackblock : Z; k_buffer : option Z; k_fastresend : Z; k_fastlimit : Z; k_nocwnd : Z;
  k_stream : Z; k_output : bool; k_wire : list (list Z) }.

(** Assignments to one field. *)
Definition kcp_eta (k : ikcpcb) : ikcpcb :=
  mk_kcp (k_conv k) (k_mtu k) (k_mss k) (k_state k) (k_snd_una k) (k_snd_nxt k) (k_rcv_nxt k)
    (k_ts_recent k) (k_ts_lastack k) (k_ssthresh k) (k_rx_rttval k) (k_rx_srtt k) (k_rx_rto k)
    (k_rx_minrto k) (k_snd_wnd k) (k_rcv_wnd k) (k_rmt_wnd k) (k_cwnd k) (k_probe k) (k_current
    k) (k_interval k) (k_ts_flush k) (k_xmit k) (k_nrcv_buf k) (k_nsnd_buf k) (k_nrcv_que k)
    (k_nsnd_que k) (k_nodelay k) (k_updated k) (k_ts_probe k) (k_probe_wait k) (k_dead_link k)
    (k_incr k) (k_snd_queue k) (k_rcv_queue k) (k_snd_buf k) (k_rcv_buf k) (k_acklist k)
    (k_ackcount k) (k_ackblock k) (k_buffer k) (k_fastresend k) (k_fastlimit k) (k_nocwnd k)
    (k_stream k) (k_output k) (k_wire k).
Ltac set_field proj :=
  let v := fresh "v" in let k := fresh "k" in
  intros v k;
  let e := eval unfold kcp_eta in (kcp_eta k) in
  let p := eval pattern (proj k) in e in
  match p with ?f _ => let b := eval cbv beta in (f v) in exact b end.
Definition set_mtu : Z → ikcpcb → ikcpcb := ltac:(set_field k_mtu).
Definition set_mss : Z → ikcpcb → ikcpcb := ltac:(set_field k_mss).
Definition set_state : Z → ikcpcb → ikcpcb := ltac:(set_field k_state).
Definition set_snd_una : Z → ikcpcb → ikcpcb := ltac:(set_field k_snd_una).
Definition set_snd_nxt : Z → ikcpcb → ikcpcb := ltac:(set_field k_snd_nxt).
Definition set_rcv_nxt : Z → ikcpcb → ikcpcb := ltac:(set_field k_rcv_nxt).
Definition set_ssthresh : Z → ikcpcb → ikcpcb := ltac:(set_field k_ssthresh).
Definition set_rx_rttval : Z → ikcpcb → ikcpcb := ltac:(set_field k_rx_rttval).
Definition set_rx_srtt : Z → ikcpcb → ikcpcb := ltac:(set_field k_rx_srtt).
Definition set_rx_rto : Z → ikcpcb → ikcpcb := ltac:(set_field k_rx_rto).
Definition set_rx_minrto : Z → ikcpcb → ikcpcb := ltac:(set_field k_rx_minrto).
Definition set_snd_wnd : Z → ikcpcb → ikcpcb := ltac:(set_field k_snd_wnd).
Definition set_rcv_wnd : Z → ikcpcb → ikcpcb := ltac:(set_field k_rcv_wnd).
Definition set_rmt_wnd : Z → ikcpcb → ikcpcb := ltac:(set_field k_rmt_wnd).
Definition set_cwnd : Z → ikcpcb → ikcpcb := ltac:(set_field k_cwnd).
Definition set_probe : Z → ikcpcb → ikcpcb := ltac:(set_field k_probe).
Definition set_current : Z → ikcpcb → ikcpcb := ltac:(set_field k_current).
Definition set_interval : Z → ikcpcb → ikcpcb := ltac:(set_field k_interval).
Definition set_ts_flush : Z → ikcpcb → ikcpcb := ltac:(set_field k_ts_flush).
Definition set_xmit : Z → ikcpcb → ikcpcb := ltac:(set_field k_xmit).
Definition set_nrcv_buf : Z → ikcpcb → ikcpcb := ltac:(set_field k_nrcv_buf).
Definition set_nsnd_buf : Z → ikcpcb → ikcpcb := ltac:(set_field k_nsnd_buf).
Definition set_nrcv_que : Z → ikcpcb → ikcpcb := ltac:(set_field k_nrcv_que).
Definition set_nsnd_que : Z → ikcpcb → ikcpcb := ltac:(set_field k_nsnd_que).
Definition set_nodelay : Z → ikcpcb → ikcpcb := ltac:(set_field k_nodelay).
Definition set_updated : Z → ikcpcb → ikcpcb := ltac:(set_field k_updated).
Definition set_ts_probe : Z → ikcpcb → ikcpcb := ltac:(set_field k_ts_probe).
Definition set_probe_wait : Z → ikcpcb → ikcpcb := ltac:(set_field k_probe_wait).
Definition set_incr : Z → ikcpcb → ikcpcb := ltac:(set_field k_incr).
Definition set_snd_queue : list IKCPSEG → ikcpcb → ikcpcb := ltac:(set_field k_snd_queue).
Definition set_rcv_queue : list IKCPSEG → ikcpcb → ikcpcb := ltac:(set_field k_rcv_queue).
Definition set_snd_buf : list IKCPSEG → ikcpcb → ikcpcb := ltac:(set_field k_snd_buf).
Definition set_rcv_buf : list IKCPSEG → ikcpcb → ikcpcb := ltac:(set_field k_rcv_buf).
Definition set_acklist : option (list (option Z)) → ikcpcb → ikcpcb := ltac:(set_field k_acklist).
Definition set_ackcount : Z → ikcpcb → ikcpcb := ltac:(set_field k_ackcount).
Definition set_ackblock : Z → ikcpcb → ikcpcb := ltac:(set_field k_ackblock).
Definition set_buffer : option Z → ikcpcb → ikcpcb := ltac:(set_field k_buffer).
Definition set_fastresend : Z → ikcpcb → ikcpcb := ltac:(set_field k_fastresend).
Definition set_nocwnd : Z → ikcpcb → ikcpcb := ltac:(set_field k_nocwnd).
Definition set_stream : Z → ikcpcb → ikcpcb := ltac:(set_field k_stream).
Definition set_output : bool → ikcpcb → ikcpcb := ltac:(set_field k_output).
Definition set_wire : list (list Z) → ikcpcb → ikcpcb := ltac:(set_field k_wire).

(** ** Allocation *)

Definition ikcp_malloc (size : Z) : M alloc bool := kvs_malloc size.
Definition ikcp_free : M alloc unit := kvs_free_block.

(** Blocks a control block owns, itself included. *)
Definition kcp_owned (k : ikcpcb) : Z :=
  1 + (if k_buffer k is Some _ then 1 else 0) + (if k_acklist k is Some _ then 1 else 0) +
  Z.of_nat (length (k_snd_queue k)) + Z.of_nat (length (k_rcv_queue k)) +
  Z.of_nat (length (k_snd_buf k)) + Z.of_nat (length (k_rcv_buf k)).

(** The fields ikcp_create sets before the blocks are used. *)
Definition kcp_init (conv : Z) : ikcpcb :=
  let mtu := IKCP_MTU_DEF in
  {|
    k_conv := conv; k_mtu := mtu; k_mss := u32 (mtu - IKCP_OVERHEAD); k_state := 0;
    k_snd_una := 0; k_snd_nxt := 0; k_rcv_nxt := 0; k_ts_recent := 0; k_ts_lastack := 0;
    k_ssthresh := IKCP_THRESH_INIT; k_rx_rttval := 0; k_rx_srtt := 0; k_rx_rto := IKCP_RTO_DEF;
    k_rx_minrto := IKCP_RTO_MIN; k_snd_wnd := IKCP_WND_SND; k_rcv_wnd := IKCP_WND_RCV;
    k_rmt_wnd := IKCP_WND_RCV; k_cwnd := 0; k_probe := 0; k_current := 0;
    k_interval := IKCP_INTERVAL; k_ts_flush := IKCP_INTERVAL; k_xmit := 0; k_nrcv_buf := 0;
    k_nsnd_buf := 0; k_nrcv_que := 0; k_nsnd_que := 0; k_nodelay := 0; k_updated := 0;
    k_ts_probe := 0; k_probe_wait := 0; k_dead_link := IKCP_DEADLINK; k_incr := 0;
    k_snd_queue := []; k_rcv_queue := []; k_snd_buf := []; k_rcv_buf := [];
    k_acklist := None; k_ackcount := 0; k_ackblock := 0;
    k_buffer := Some (u32 ((mtu + IKCP_OVERHEAD) * 3)); k_fastresend := 0;
    k_fastlimit := IKCP_FASTACK_LIMIT; k_nocwnd := 0; k_stream := 0; k_output := false;
    k_wire := [] |}.
Definition ikcp_create (conv : Z) : M alloc (option ikcpcb) :=
  ok ← ikcp_malloc 488;
  if negb ok then ret None else
  let mtu := IKCP_MTU_DEF in
  ok ← ikcp_malloc (u32 ((mtu + IKCP_OVERHEAD) * 3));
  if negb ok then ikcp_free;; ret None else
  ret (Some (kcp_init conv)).

(** while (!iqueue_is_empty(q)) { iqueue_del(..); ikcp_segment_delete(..); } *)
Fixpoint delete_all (q : list IKCPSEG) : M alloc unit :=
  match q with [] => ret () | _ :: q => ikcp_free;; delete_all q end.
Definition ikcp_release (k : ikcpcb) : M alloc unit :=
  delete_all (k_snd_buf k);; delete_all (k_rcv_buf k);;
  delete_all (k_snd_queue k);; delete_all (k_rcv_queue k);;
  (if k_buffer k is Some _ then ikcp_free else ret ());;
  (if k_acklist k is Some _ then ikcp_free else ret ());;
  ikcp_free.

(** ** Configuration *)

Abbreviation kst := (ikcpcb * alloc)%type.

Definition ikcp_setoutput : M ikcpcb unit := modify (set_output true).

Definition ikcp_setmtu (mtu : Z) : M kst Z :=
  if (mtu <? 50) || (mtu <? IKCP_OVERHEAD) then ret (-1) else
  ok ← on_snd (ikcp_malloc (u32 ((mtu + IKCP_OVERHEAD) * 3)));
  if negb ok then ret (-2) else
  on_fst (modify (set_mtu mtu));;
  on_fst (modify (λ k, set_mss (u32 (k_mtu k - IKCP_OVERHEAD)) k));;
  old ← on_fst (gets k_buffer);
  (if old is Some _ then on_snd ikcp_free else ret ());;
  on_fst (modify (set_buffer (Some (u32 ((mtu + IKCP_OVERHEAD) * 3)))));;
  ret 0.

Definition clamp_interval (interval : Z) : Z :=
  if 5000 <? interval then 5000 else if interval <? 10 then 10 else interval.
Definition ikcp_interval (interval : Z) : M ikcpcb Z :=
  modify (set_interval (clamp_interval interval));; ret 0.

Definition ikcp_nodelay (nodelay interval resend nc : Z) : M ikcpcb Z :=
  modify (λ k, if 0 <=? nodelay
    then set_rx_minrto (if nodelay =? 0 then IKCP_RTO_MIN else IKCP_RTO_NDL) (set_nodelay nodelay k)
    else k);;
  modify (λ k, if 0 <=? interval then set_interval (clamp_interval interval) k else k);;
  modify (λ k, if 0 <=? resend then set_fastresend resend k else k);;
  modify (λ k, if 0 <=? nc then set_nocwnd nc k else k);;
  ret 0.

Definition ikcp_wndsize (sndwnd rcvwnd : Z) : M ikcpcb Z :=
  modify (λ k, if 0 <? sndwnd then set_snd_wnd sndwnd k else k);;
  modify (λ k, if 0 <? rcvwnd then set_rcv_wnd (_imax_ rcvwnd IKCP_WND_RCV) k else k);;
  ret 0.

Definition ikcp_waitsnd (k : ikcpcb) : Z := i32 (k_nsnd_buf k + k_nsnd_que k).
Definition ikcp_getconv (p : list Z) : option Z := fst <$> ikcp_decode32u p.
