(* ===== verification/KcpAck.v ===== *)
(** KCP: round-trip estimation, removal of acknowledged segments from the send
    buffer, and the list of acknowledgements to send (src/ikcp.c). *)
From S2P Require Import Prelude KvMem KcpBase KcpCb.

(** ** Round-trip time *)

Definition ikcp_update_ack (rtt : Z) : M ikcpcb unit :=
  k ← get;
  (if k_rx_srtt k =? 0 then
     modify (λ k, set_rx_rttval (Z.quot rtt 2) (set_rx_srtt rtt k))
   else
     delta ← int_expr EstimateOverflow (rtt - k_rx_srtt k);
     let delta := if delta <? 0 then - delta else delta in
     v3 ← int_expr EstimateOverflow (3 * k_rx_rttval k);
     modify (set_rx_rttval (i32 (Z.quot (v3 + delta) 4)));;
     s7 ← int_expr EstimateOverflow (7 * k_rx_srtt k);
     s8 ← int_expr EstimateOverflow (s7 + rtt);
     modify (set_rx_srtt (Z.quot s8 8));;
     modify (λ k, if k_rx_srtt k <? 1 then set_rx_srtt 1 k else k));;
  k ← get;
  v4 ← int_expr EstimateOverflow (4 * k_rx_rttval k);
  let rto := i32 (u32 (k_rx_srtt k + _imax_ (k_interval k) (u32 v4))) in
  modify (set_rx_rto (i32 (_ibound_ (u32 (k_rx_minrto k)) (u32 rto) IKCP_RTO_MAX))).

(** ** The send buffer *)

Definition ikcp_shrink_buf : M ikcpcb unit :=
  modify (λ k, set_snd_una (if k_snd_buf k is seg :: _ then s_sn seg else k_snd_nxt k) k).

(** The walk over snd_buf with [pre] already passed. *)
Fixpoint parse_ack_loop (sn : Z) (pre buf : list IKCPSEG) : M kst unit :=
  match buf with
  | [] => ret ()
  | seg :: rest =>
      if sn =? s_sn seg then
        on_fst (modify (λ k, set_nsnd_buf (u32 (k_nsnd_buf k - 1)) (set_snd_buf (pre ++ rest) k)));;
        on_snd ikcp_free
      else if _itimediff sn (s_sn seg) <? 0 then ret ()
      else parse_ack_loop sn (pre ++ [seg]) rest
  end.
Definition ikcp_parse_ack (sn : Z) : M kst unit :=
  k ← on_fst get;
  if (_itimediff sn (k_snd_una k) <? 0) || (0 <=? _itimediff sn (k_snd_nxt k)) then ret () else
  parse_ack_loop sn [] (k_snd_buf k).

Fixpoint parse_una_loop (una : Z) (buf : list IKCPSEG) : M kst unit :=
  match buf with
  | [] => ret ()
  | seg :: rest =>
      if 0 <? _itimediff una (s_sn seg) then
        on_fst (modify (λ k, set_nsnd_buf (u32 (k_nsnd_buf k - 1)) (set_snd_buf rest k)));;
        on_snd ikcp_free;;
        parse_una_loop una rest
      else ret ()
  end.
Definition ikcp_parse_una (una : Z) : M kst unit :=
  k ← on_fst get; parse_una_loop una (k_snd_buf k).

Definition set_s_fastack (v : Z) (s : IKCPSEG) : IKCPSEG :=
  mk_seg (s_conv s) (s_cmd s) (s_frg s) (s_wnd s) (s_ts s) (s_sn s) (s_una s) (s_len s)
    (s_resendts s) (s_rto s) v (s_xmit s) (s_data s).
(** seg->fastack++ for the segments before [sn]. *)
Fixpoint fastack_loop (sn : Z) (buf : list IKCPSEG) : list IKCPSEG :=
  match buf with
  | [] => []
  | seg :: rest =>
      if _itimediff sn (s_sn seg) <? 0 then buf
      else if negb (sn =? s_sn seg) then set_s_fastack (u32 (s_fastack seg + 1)) seg :: fastack_loop sn rest
      else seg :: fastack_loop sn rest
  end.
Definition ikcp_parse_fastack (sn ts : Z) : M ikcpcb unit :=
  k ← get;
  if (_itimediff sn (k_snd_una k) <? 0) || (0 <=? _itimediff sn (k_snd_nxt k)) then ret () else
  modify (λ k, set_snd_buf (fastack_loop sn (k_snd_buf k)) k).

(** ** Acknowledgements to send *)

(** for (newblock = 8; newblock < newsize; newblock <<= 1); *)
Fixpoint grow_block (fuel : nat) (newblock newsize : Z) : M kst Z :=
  if newblock <? newsize then
    match fuel with O => no_fuel | S fuel => grow_block fuel (u32 (Z.shiftl newblock 1)) newsize end
  else ret newblock.

Definition store_ack (i : Z) (v : Z) : M kst unit :=
  k ← on_fst get;
  match k_acklist k with
  | None => undef NullDeref
  | Some l => if (0 <=? i) && (i <? Z.of_nat (length l))
              then on_fst (modify (set_acklist (Some (<[Z.to_nat i:=Some v]> l))))
              else undef OutOfBounds
  end.

(** The copy of the old pairs is a block copy of 2 * ackcount words: the loop's
    index x * 2 does not wrap for lists of less than 2^31 pairs. *)
Definition ikcp_ack_push (sn ts : Z) : M kst unit :=
  k ← on_fst get;
  let newsize := u32 (k_ackcount k + 1) in
  (if k_ackblock k <? newsize then
     newblock ← grow_block 32 8 newsize;
     ok ← on_snd (ikcp_malloc (newblock * 8));
     if negb ok then undef AssertFailure else
     let fresh := replicate (Z.to_nat (2 * newblock)) None in
     new ← match k_acklist k with
           | None => ret fresh
           | Some old =>
               let n := Z.to_nat (2 * k_ackcount k) in
               if decide (n ≤ length old ∧ n ≤ length fresh)%nat
               then on_snd ikcp_free;; ret (take n old ++ drop n fresh) else undef OutOfBounds
           end;
     on_fst (modify (λ k, set_ackblock newblock (set_acklist (Some new) k)))
   else ret ());;
  store_ack (u32 (k_ackcount k * 2)) sn;;
  store_ack (u32 (k_ackcount k * 2) + 1) ts;;
  on_fst (modify (λ k, set_ackcount (u32 (k_ackcount k + 1)) k)).

Definition ikcp_ack_get (p : Z) : M ikcpcb (Z * Z) :=
  k ← get;
  match k_acklist k with
  | None => undef NullDeref
  | Some l =>
      sn ← from_opt OutOfBounds (l !! Z.to_nat (2 * p));
      sn ← from_opt IndetRead sn;
      ts ← from_opt OutOfBounds (l !! Z.to_nat (2 * p + 1));
      ts ← from_opt IndetRead ts;
      ret (sn, ts)
  end.
