(* ===== verification/KcpData.v ===== *)
(** KCP: the data path between the application and the queues (src/ikcp.c):
    ikcp_send cuts messages into segments, ikcp_parse_data orders received
    segments, ikcp_recv hands whole messages back. *)
From S2P Require Import Prelude KvMem KcpBase KcpCb.

(** ** Sending *)

(** A block from ikcp_segment_new: only the fields ikcp_send writes matter, the
    others are set when the segment is first transmitted. *)
Definition new_segment (len frg : Z) (data : list Z) : IKCPSEG :=
  mk_seg 0 0 frg 0 0 0 0 len 0 0 0 0 data.

(** memcpy from the user's buffer (the callers pass one, never NULL). *)
Definition read_bytes {S} (n : Z) (buffer : list Z) : M S (list Z) :=
  if Z.of_nat (length buffer) <? n then undef OutOfBounds else ret (take (Z.to_nat n) buffer).

Definition segment_new (size : Z) : M kst unit :=
  ok ← on_snd (ikcp_malloc (72 + size));
  if ok : bool then ret () else undef AssertFailure.

(** for (i = 0; i < count; i++): [i] segments done, [n] to go, [len] bytes left. *)
Fixpoint send_loop (n : nat) (i count : Z) (buffer : list Z) (len : Z) : M kst unit :=
  match n with
  | O => ret ()
  | S n =>
      k ← on_fst get;
      let mss := i32 (k_mss k) in
      let size := if mss <? len then mss else len in
      segment_new size;;
      data ← (if 0 <? len then read_bytes size buffer else ret []);
      let frg := if k_stream k =? 0 then u32 (count - i - 1) else 0 in
      on_fst (modify (λ k, set_nsnd_que (u32 (k_nsnd_que k + 1))
        (set_snd_queue (k_snd_queue k ++ [new_segment (u32 size) frg data]) k)));;
      send_loop n (i + 1) count (drop (Z.to_nat size) buffer) (len - size)
  end.

(** The streaming mode tops up the last queued segment: the bytes and the length
    left to send. *)
Definition send_extend (buffer : list Z) (len : Z) : M kst (list Z * Z) :=
  k ← on_fst get;
  match last (k_snd_queue k) with
  | None => ret (buffer, len)
  | Some old =>
      if s_len old <? k_mss k then
        let capacity := i32 (u32 (k_mss k - s_len old)) in
        let extend := if len <? capacity then len else capacity in
        segment_new (i32 (u32 (s_len old + extend)));;
        data ← read_bytes extend buffer;
        let seg := new_segment (u32 (s_len old + extend)) 0 (take (Z.to_nat (s_len old)) (s_data old) ++ data) in
        on_fst (modify (λ k, set_snd_queue (removelast (k_snd_queue k) ++ [seg]) k));;
        on_snd ikcp_free;;
        ret (drop (Z.to_nat extend) buffer, len - extend)
      else ret (buffer, len)
  end.

Definition ikcp_send (buffer : list Z) (len : Z) : M kst Z :=
  k ← on_fst get;
  if k_mss k <=? 0 then undef AssertFailure else
  if len <? 0 then ret (-1) else
  ' (buffer, len) ← (if k_stream k =? 0 then ret (buffer, len) else send_extend buffer len);
  if negb (k_stream k =? 0) && (len <=? 0) then ret 0 else
  let count := if len <=? i32 (k_mss k) then 1
               else i32 (u32 (u32 (len + k_mss k - 1) / k_mss k)) in
  if IKCP_WND_RCV <=? count then ret (-2) else
  let count := if count =? 0 then 1 else count in
  send_loop (Z.to_nat count) 0 count buffer len;;
  ret 0.

(** ** Receiving *)

(** The loop of ikcp_peeksize over the queue. *)
Fixpoint peek_loop (length : Z) (q : list IKCPSEG) : Z :=
  match q with
  | [] => length
  | seg :: q =>
      let length := i32 (u32 (length + s_len seg)) in
      if s_frg seg =? 0 then length else peek_loop length q
  end.
Definition ikcp_peeksize (k : ikcpcb) : Z :=
  match k_rcv_queue k with
  | [] => -1
  | seg :: _ =>
      if s_frg seg =? 0 then i32 (s_len seg) else
      if k_nrcv_que k <? u32 (s_frg seg + 1) then -1 else
      peek_loop 0 (k_rcv_queue k)
  end.

(** The merge loop of ikcp_recv: bytes copied and their number. *)
Fixpoint merge_loop (ispeek : bool) (len : Z) (buf : list Z) (q : list IKCPSEG) : M kst (Z * list Z) :=
  match q with
  | [] => ret (len, buf)
  | seg :: rest =>
      let buf := buf ++ take (Z.to_nat (s_len seg)) (s_data seg) in
      let len := i32 (u32 (len + s_len seg)) in
      (if ispeek then ret () else
         on_fst (modify (λ k, set_nrcv_que (u32 (k_nrcv_que k - 1)) (set_rcv_queue rest k)));;
         on_snd ikcp_free);;
      if s_frg seg =? 0 then ret (len, buf) else merge_loop ispeek len buf rest
  end.

(** while (!iqueue_is_empty(rcv_buf)): move what is next in order to rcv_queue. *)
Fixpoint move_loop (buf : list IKCPSEG) : M ikcpcb unit :=
  match buf with
  | [] => ret ()
  | seg :: rest =>
      k ← get;
      if (s_sn seg =? k_rcv_nxt k) && (k_nrcv_que k <? k_rcv_wnd k) then
        modify (λ k, set_rcv_nxt (u32 (k_rcv_nxt k + 1)) (set_nrcv_que (u32 (k_nrcv_que k + 1))
          (set_rcv_queue (k_rcv_queue k ++ [seg]) (set_nrcv_buf (u32 (k_nrcv_buf k - 1))
          (set_rcv_buf rest k)))));;
        move_loop rest
      else ret ()
  end.

(** The bytes copied to the user's buffer of [len] bytes, and the return value. *)
Definition ikcp_recv (len : Z) : M kst (Z * list Z) :=
  k ← on_fst get;
  let ispeek := len <? 0 in
  match k_rcv_queue k with
  | [] => ret (-1, [])
  | _ =>
      len ← int_expr SignedOverflow (if len <? 0 then - len else len);
      let peeksize := ikcp_peeksize k in
      if peeksize <? 0 then ret (-2, []) else
      if len <? peeksize then ret (-3, []) else
      let recover := k_rcv_wnd k <=? k_nrcv_que k in
      ' (len, buf) ← merge_loop ispeek 0 [] (k_rcv_queue k);
      if negb (len =? peeksize) then undef AssertFailure else
      k ← on_fst get;
      on_fst (move_loop (k_rcv_buf k));;
      on_fst (modify (λ k, if (k_nrcv_que k <? k_rcv_wnd k) && recover
        then set_probe (Z.lor (k_probe k) IKCP_ASK_TELL) k else k));;
      ret (len, buf)
  end.

(** The walk from rcv_buf.prev towards the head: [Some i] to insert before the
    last [i] segments, [None] for a repeated sequence number.  [rbuf] is rcv_buf
    reversed. *)
Fixpoint find_slot (sn : Z) (rbuf : list IKCPSEG) (i : nat) : option nat :=
  match rbuf with
  | [] => Some i
  | seg :: rbuf =>
      if s_sn seg =? sn then None
      else if 0 <? _itimediff sn (s_sn seg) then Some i
      else find_slot sn rbuf (S i)
  end.

Definition ikcp_parse_data (newseg : IKCPSEG) : M kst unit :=
  k ← on_fst get;
  let sn := s_sn newseg in
  if (0 <=? _itimediff sn (u32 (k_rcv_nxt k + k_rcv_wnd k))) || (_itimediff sn (k_rcv_nxt k) <? 0)
  then on_snd ikcp_free else
  match find_slot sn (reverse (k_rcv_buf k)) 0 with
  | None => on_snd ikcp_free
  | Some i =>
      let at_ := (length (k_rcv_buf k) - i)%nat in
      on_fst (modify (λ k, set_nrcv_buf (u32 (k_nrcv_buf k + 1))
        (set_rcv_buf (take at_ (k_rcv_buf k) ++ newseg :: drop at_ (k_rcv_buf k)) k)))
  end;;
  k ← on_fst get;
  on_fst (move_loop (k_rcv_buf k)).
