(* ===== verification/KcpInput.v ===== *)
(** KCP: ikcp_input (src/ikcp.c), the processing of one received datagram. *)
From S2P Require Import Prelude KvMem KcpBase KcpCb KcpAck KcpData.

(** The segment built from a received header and its payload. *)
Definition received (h : header) (data : list Z) : IKCPSEG :=
  mk_seg (h_conv h) (h_cmd h) (h_frg h) (h_wnd h) (h_ts h) (h_sn h) (h_una h) (h_len h) 0 0 0 0
    (take (Z.to_nat (h_len h)) data).

(** IKCP_CMD_PUSH; a NULL from ikcp_segment_new is dereferenced. *)
Definition input_push (h : header) (data : list Z) : M kst unit :=
  k ← on_fst get;
  if _itimediff (h_sn h) (u32 (k_rcv_nxt k + k_rcv_wnd k)) <? 0 then
    ikcp_ack_push (h_sn h) (h_ts h);;
    k ← on_fst get;
    if 0 <=? _itimediff (h_sn h) (k_rcv_nxt k) then
      ok ← on_snd (ikcp_malloc (72 + h_len h));
      if negb ok then undef NullDeref else
      ikcp_parse_data (received h data)
    else ret ()
  else ret ().

(** What the ACK segments of a datagram leave for the fast-retransmit pass: the
    flag, maxack and latest_ts. *)
Record ack_seen : Type := mk_seen { flag : bool; maxack : Z; latest_ts : Z }.

Definition input_ack (h : header) (seen : ack_seen) : M kst ack_seen :=
  k ← on_fst get;
  (if 0 <=? _itimediff (k_current k) (h_ts h)
   then on_fst (ikcp_update_ack (_itimediff (k_current k) (h_ts h))) else ret ());;
  ikcp_parse_ack (h_sn h);;
  on_fst ikcp_shrink_buf;;
  ret (if negb (flag seen) then mk_seen true (h_sn h) (h_ts h)
       else if 0 <? _itimediff (h_sn h) (maxack seen) then mk_seen true (h_sn h) (h_ts h)
       else seen).

Definition known_cmd (cmd : Z) : bool :=
  (cmd =? IKCP_CMD_PUSH) || (cmd =? IKCP_CMD_ACK) || (cmd =? IKCP_CMD_WASK) || (cmd =? IKCP_CMD_WINS).

(** One segment with a valid header. *)
Definition input_segment (h : header) (data : list Z) (seen : ack_seen) : M kst ack_seen :=
  on_fst (modify (set_rmt_wnd (h_wnd h)));;
  ikcp_parse_una (h_una h);;
  on_fst ikcp_shrink_buf;;
  if h_cmd h =? IKCP_CMD_ACK then input_ack h seen
  else if h_cmd h =? IKCP_CMD_PUSH then input_push h data;; ret seen
  else if h_cmd h =? IKCP_CMD_WASK then
    on_fst (modify (λ k, set_probe (Z.lor (k_probe k) IKCP_ASK_TELL) k));; ret seen
  else ret seen.

(** The while (1): [inl c] is an early return of c. *)
Fixpoint input_loop (fuel : nat) (data : list Z) (seen : ack_seen) : M kst (Z + ack_seen) :=
  let size := Z.of_nat (length data) in
  if size <? IKCP_OVERHEAD then ret (inr seen) else
  match fuel with
  | O => no_fuel
  | S fuel =>
      k ← on_fst get;
      ' (h, data) ← from_opt OutOfBounds (decode_header data);
      if negb (h_conv h =? k_conv k) then ret (inl (-1)) else
      let size := size - IKCP_OVERHEAD in
      if (size <? h_len h) || (i32 (h_len h) <? 0) then ret (inl (-2)) else
      if negb (known_cmd (h_cmd h)) then ret (inl (-3)) else
      seen ← input_segment h data seen;
      input_loop fuel (drop (Z.to_nat (h_len h)) data) seen
  end.

(** The congestion window after snd_una advanced. *)
Definition update_cwnd (k : ikcpcb) : ikcpcb :=
  if k_cwnd k <? k_rmt_wnd k then
    let mss := k_mss k in
    let k :=
      if k_cwnd k <? k_ssthresh k then
        set_incr (u32 (k_incr k + mss)) (set_cwnd (u32 (k_cwnd k + 1)) k)
      else
        let k := if k_incr k <? mss then set_incr mss k else k in
        let k := set_incr (u32 (k_incr k + u32 (u32 (mss * mss) / k_incr k + mss / 16))) k in
        if u32 (u32 (k_cwnd k + 1) * mss) <=? k_incr k
        then set_cwnd (u32 (k_incr k + mss - 1) / (if 0 <? mss then mss else 1)) k else k in
    if k_rmt_wnd k <? k_cwnd k
    then set_incr (u32 (k_rmt_wnd k * mss)) (set_cwnd (k_rmt_wnd k) k) else k
  else k.

Definition ikcp_input (data : option (list Z)) : M kst Z :=
  k ← on_fst get;
  let prev_una := k_snd_una k in
  match data with
  | None => ret (-1)
  | Some data =>
      if i32 (Z.of_nat (length data)) <? IKCP_OVERHEAD then ret (-1) else
      r ← input_loop (length data) data (mk_seen false 0 0);
      match r with
      | inl c => ret c
      | inr seen =>
          (if flag seen then on_fst (ikcp_parse_fastack (maxack seen) (latest_ts seen)) else ret ());;
          on_fst (modify (λ k, if 0 <? _itimediff (k_snd_una k) prev_una then update_cwnd k else k));;
          ret 0
      end
  end.
