(* ===== verification/KcpFlush.v ===== *)
(** KCP: ikcp_flush, ikcp_update and ikcp_check (src/ikcp.c): assembling
    acknowledgements, window probes and data segments into datagrams, and the
    clock that drives it. *)
From S2P Require Import Prelude KvMem KcpBase KcpCb KcpAck KcpData.

Definition ikcp_wnd_unused (k : ikcpcb) : Z :=
  if k_nrcv_que k <? k_rcv_wnd k then i32 (u32 (k_rcv_wnd k - k_nrcv_que k)) else 0.

(** ikcp_output(kcp, buffer, size) with the bytes written so far. *)
Definition ikcp_output (data : list Z) : M ikcpcb unit :=
  k ← get;
  if negb (k_output k) then undef AssertFailure else
  if Z.of_nat (length data) =? 0 then ret () else
  modify (λ k, set_wire (k_wire k ++ [data]) k).

(** Writing behind the [ptr - buffer] bytes of [acc]. *)
Definition put_bytes (acc bs : list Z) : M ikcpcb (list Z) :=
  k ← get;
  match k_buffer k with
  | None => undef NullDeref
  | Some cap => if cap <? Z.of_nat (length (acc ++ bs)) then undef OutOfBounds else ret (acc ++ bs)
  end.
(** size = ptr - buffer; if (size + need > mtu) { ikcp_output(..); ptr = buffer; } *)
Definition make_room (need : Z) (acc : list Z) : M ikcpcb (list Z) :=
  k ← get;
  if i32 (k_mtu k) <? Z.of_nat (length acc) + need then ikcp_output acc;; ret [] else ret acc.

(** The acknowledgements [i .. i + n): ikcp_ack_get stores sn and ts in the segment
    [seg] of ikcp_flush, which keeps them afterwards. *)
Fixpoint flush_acks (n : nat) (i : Z) (seg : IKCPSEG) (acc : list Z) : M ikcpcb (IKCPSEG * list Z) :=
  match n with
  | O => ret (seg, acc)
  | S n =>
      acc ← make_room IKCP_OVERHEAD acc;
      ' (sn, ts) ← ikcp_ack_get i;
      let seg := mk_seg (s_conv seg) (s_cmd seg) (s_frg seg) (s_wnd seg) ts sn (s_una seg) (s_len seg) 0 0 0 0 [] in
      acc ← put_bytes acc (ikcp_encode_seg seg);
      flush_acks n (i + 1) seg acc
  end.

(** Whether and when to ask for the remote window. *)
Definition probe_clock (k : ikcpcb) : ikcpcb :=
  if k_rmt_wnd k =? 0 then
    if k_probe_wait k =? 0 then
      set_ts_probe (u32 (k_current k + IKCP_PROBE_INIT)) (set_probe_wait IKCP_PROBE_INIT k)
    else if 0 <=? _itimediff (k_current k) (k_ts_probe k) then
      let w := if k_probe_wait k <? IKCP_PROBE_INIT then IKCP_PROBE_INIT else k_probe_wait k in
      let w := u32 (w + w / 2) in
      let w := if IKCP_PROBE_LIMIT <? w then IKCP_PROBE_LIMIT else w in
      set_probe (Z.lor (k_probe k) IKCP_ASK_SEND)
        (set_ts_probe (u32 (k_current k + w)) (set_probe_wait w k))
    else k
  else set_probe_wait 0 (set_ts_probe 0 k).

Definition set_s_cmd (cmd : Z) (s : IKCPSEG) : IKCPSEG :=
  mk_seg (s_conv s) cmd (s_frg s) (s_wnd s) (s_ts s) (s_sn s) (s_una s) (s_len s)
    (s_resendts s) (s_rto s) (s_fastack s) (s_xmit s) (s_data s).
(** if (kcp->probe & bit) append a segment with the command. *)
Definition flush_probe (bit cmd : Z) (seg : IKCPSEG) (acc : list Z) : M ikcpcb (IKCPSEG * list Z) :=
  k ← get;
  if Z.land (k_probe k) bit =? 0 then ret (seg, acc) else
  let seg := set_s_cmd cmd seg in
  acc ← make_room IKCP_OVERHEAD acc;
  acc ← put_bytes acc (ikcp_encode_seg seg);
  ret (seg, acc).

(** while (snd_nxt before snd_una + cwnd): number the next queued segment and
    move it to snd_buf. *)
Fixpoint move_snd (cwnd wnd current : Z) (q : list IKCPSEG) (k : ikcpcb) : ikcpcb :=
  match q with
  | [] => k
  | seg :: q =>
      if _itimediff (k_snd_nxt k) (u32 (k_snd_una k + cwnd)) <? 0 then
        let newseg := mk_seg (k_conv k) IKCP_CMD_PUSH (s_frg seg) wnd current (k_snd_nxt k) (k_rcv_nxt k)
                        (s_len seg) current (u32 (k_rx_rto k)) 0 0 (s_data seg) in
        move_snd cwnd wnd current q
          (set_snd_nxt (u32 (k_snd_nxt k + 1)) (set_nsnd_buf (u32 (k_nsnd_buf k + 1))
            (set_nsnd_que (u32 (k_nsnd_que k - 1)) (set_snd_buf (k_snd_buf k ++ [newseg])
            (set_snd_queue q k)))))
      else k
  end.

(** The timers of a segment: transmit for the first time, after a timeout, or
    after [resent] skipped acknowledgements. *)
Inductive xmit_reason : Type := XNone | XFirst | XTimeout | XFast.
Definition set_s_timer (resendts rto fastack xmit : Z) (s : IKCPSEG) : IKCPSEG :=
  mk_seg (s_conv s) (s_cmd s) (s_frg s) (s_wnd s) (s_ts s) (s_sn s) (s_una s) (s_len s)
    resendts rto fastack xmit (s_data s).
Definition transmit (k : ikcpcb) (current resent rtomin : Z) (s : IKCPSEG) : xmit_reason * IKCPSEG :=
  if s_xmit s =? 0 then
    let rto := u32 (k_rx_rto k) in
    (XFirst, set_s_timer (u32 (current + rto + rtomin)) rto (s_fastack s) (u32 (s_xmit s + 1)) s)
  else if 0 <=? _itimediff current (s_resendts s) then
    let rto :=
      if k_nodelay k =? 0 then u32 (s_rto s + _imax_ (s_rto s) (u32 (k_rx_rto k)))
      else let step := if k_nodelay k <? 2 then i32 (s_rto s) else k_rx_rto k in
           u32 (s_rto s + Z.quot step 2) in
    (XTimeout, set_s_timer (u32 (current + rto)) rto (s_fastack s) (u32 (s_xmit s + 1)) s)
  else if resent <=? s_fastack s then
    if (i32 (s_xmit s) <=? k_fastlimit k) || (k_fastlimit k <=? 0)
    then (XFast, set_s_timer (u32 (current + s_rto s)) (s_rto s) 0 (u32 (s_xmit s + 1)) s)
    else (XNone, s)
  else (XNone, s).

Definition set_s_head (ts wnd una : Z) (s : IKCPSEG) : IKCPSEG :=
  mk_seg (s_conv s) (s_cmd s) (s_frg s) wnd ts (s_sn s) una (s_len s)
    (s_resendts s) (s_rto s) (s_fastack s) (s_xmit s) (s_data s).

(** The loop over snd_buf, with the segments before [buf] in [done_]; the bytes
    pending in the buffer and whether a timeout or a fast retransmit happened. *)
Fixpoint flush_data (wnd current resent rtomin : Z) (done_ buf : list IKCPSEG) (acc : list Z) (lost change : bool)
    : M ikcpcb (list Z * bool * bool) :=
  match buf with
  | [] => ret (acc, lost, change)
  | segment :: rest =>
      k ← get;
      let '(why, segment) := transmit k current resent rtomin segment in
      let k := if why is XTimeout then set_xmit (u32 (k_xmit k + 1)) k else k in
      let segment := if why is XNone then segment else set_s_head current wnd (k_rcv_nxt k) segment in
      put (set_snd_buf (done_ ++ segment :: rest) k);;
      let lost := if why is XTimeout then true else lost in
      let change := if why is XFast then true else change in
      acc ← (if why is XNone then ret acc else
        let need := i32 (u32 (IKCP_OVERHEAD + s_len segment)) in
        acc ← make_room need acc;
        acc ← put_bytes acc (ikcp_encode_seg segment);
        acc ← (if 0 <? s_len segment then put_bytes acc (take (Z.to_nat (s_len segment)) (s_data segment))
               else ret acc);
        modify (λ k, if k_dead_link k <=? s_xmit segment then set_state (2 ^ 32 - 1) k else k);;
        ret acc);
      flush_data wnd current resent rtomin (done_ ++ [segment]) rest acc lost change
  end.

(** ssthresh and cwnd after the pass. *)
Definition flush_cc (cwnd resent : Z) (lost change : bool) (k : ikcpcb) : ikcpcb :=
  let k :=
    if change : bool then
      let inflight := u32 (k_snd_nxt k - k_snd_una k) in
      let th := inflight / 2 in
      let th := if th <? IKCP_THRESH_MIN then IKCP_THRESH_MIN else th in
      let k := set_cwnd (u32 (th + resent)) (set_ssthresh th k) in
      set_incr (u32 (k_cwnd k * k_mss k)) k
    else k in
  let k :=
    if lost : bool then
      let th := cwnd / 2 in
      let th := if th <? IKCP_THRESH_MIN then IKCP_THRESH_MIN else th in
      set_incr (k_mss k) (set_cwnd 1 (set_ssthresh th k))
    else k in
  if k_cwnd k <? 1 then set_incr (k_mss k) (set_cwnd 1 k) else k.

Definition ikcp_flush : M ikcpcb unit :=
  k ← get;
  let current := k_current k in
  if k_updated k =? 0 then ret () else
  let wnd := u32 (ikcp_wnd_unused k) in
  let seg := mk_seg (k_conv k) IKCP_CMD_ACK 0 wnd 0 0 (k_rcv_nxt k) 0 0 0 0 0 [] in
  ' (seg, acc) ← flush_acks (Z.to_nat (i32 (k_ackcount k))) 0 seg [];
  modify (set_ackcount 0);;
  modify probe_clock;;
  ' (seg, acc) ← flush_probe IKCP_ASK_SEND IKCP_CMD_WASK seg acc;
  ' (seg, acc) ← flush_probe IKCP_ASK_TELL IKCP_CMD_WINS seg acc;
  modify (set_probe 0);;
  k ← get;
  let cwnd := _imin_ (k_snd_wnd k) (k_rmt_wnd k) in
  let cwnd := if k_nocwnd k =? 0 then _imin_ (k_cwnd k) cwnd else cwnd in
  put (move_snd cwnd wnd current (k_snd_queue k) k);;
  k ← get;
  let resent := if 0 <? k_fastresend k then u32 (k_fastresend k) else 2 ^ 32 - 1 in
  let rtomin := if k_nodelay k =? 0 then u32 (Z.shiftr (k_rx_rto k) 3) else 0 in
  ' (acc, lost, change) ← flush_data wnd current resent rtomin [] (k_snd_buf k) acc false false;
  (if 0 <? Z.of_nat (length acc) then ikcp_output acc else ret ());;
  modify (flush_cc cwnd resent lost change).

Definition ikcp_update (current : Z) : M ikcpcb unit :=
  modify (set_current current);;
  modify (λ k, if k_updated k =? 0 then set_ts_flush (k_current k) (set_updated 1 k) else k);;
  k ← get;
  let slap := _itimediff (k_current k) (k_ts_flush k) in
  let reset := (10000 <=? slap) || (slap <? -10000) in
  modify (λ k, if reset then set_ts_flush (k_current k) k else k);;
  let slap := if reset then 0 else slap in
  if 0 <=? slap then
    modify (λ k, set_ts_flush (u32 (k_ts_flush k + k_interval k)) k);;
    modify (λ k, if 0 <=? _itimediff (k_current k) (k_ts_flush k)
                 then set_ts_flush (u32 (k_current k + k_interval k)) k else k);;
    ikcp_flush
  else ret ().

(** The earliest resend time in snd_buf, or [None] when one is due. *)
Fixpoint check_loop (current tm_packet : Z) (buf : list IKCPSEG) : option Z :=
  match buf with
  | [] => Some tm_packet
  | seg :: buf =>
      let diff := _itimediff (s_resendts seg) current in
      if diff <=? 0 then None
      else check_loop current (if diff <? tm_packet then diff else tm_packet) buf
  end.
Definition ikcp_check (k : ikcpcb) (current : Z) : Z :=
  if k_updated k =? 0 then current else
  let late := (10000 <=? _itimediff current (k_ts_flush k)) || (_itimediff current (k_ts_flush k) <? -10000) in
  let ts_flush := if late then current else k_ts_flush k in
  if 0 <=? _itimediff current ts_flush then current else
  let tm_flush := _itimediff ts_flush current in
  match check_loop current 2147483647 (k_snd_buf k) with
  | None => current
  | Some tm_packet =>
      let minimal := u32 (if tm_packet <? tm_flush then tm_packet else tm_flush) in
      let minimal := if k_interval k <=? minimal then k_interval k else minimal in
      u32 (current + minimal)
  end.
