(* ===== verification/KcpInv.v ===== *)
(** KCP: the invariant of a control block.  A block [(k, a)] is described by the
    fragments it has numbered so far ([L], in order, the position of a fragment
    being its sequence number), by what it may believe of the segments it
    received ([G]), and by the blocks the rest of the program holds ([c]). *)
From S2P Require Import Prelude KvMem KcpBase KcpCb KcpAck KcpData KcpInput KcpFlush.

(** ** Datagrams *)

(** The header ikcp_encode_seg writes: every field cut to its width. *)
Definition wire_header (s : IKCPSEG) : header :=
  mk_header (u32 (s_conv s)) (u8 (s_cmd s)) (u8 (s_frg s)) (u16 (s_wnd s)) (u32 (s_ts s))
    (u32 (s_sn s)) (u32 (s_una s)) (u32 (s_len s)).

(** A datagram made of segments that satisfy [P]. *)
Inductive dgram (P : header → list Z → Prop) : list Z → Prop :=
| dgram_nil : dgram P []
| dgram_cons seg data rest :
    P (wire_header seg) data → u32 (s_len seg) = Z.of_nat (length data) → dgram P rest →
    dgram P (ikcp_encode_seg seg ++ data ++ rest).

(** The data segments (sn, frg, payload) ikcp_input gets to in a datagram. *)
Fixpoint pushes (fuel : nat) (data : list Z) : list (Z * Z * list Z) :=
  match fuel, decode_header data with
  | S fuel, Some (h, data) =>
      if Z.of_nat (length data) <? h_len h then [] else
      (if h_cmd h =? IKCP_CMD_PUSH then [(h_sn h, h_frg h, take (Z.to_nat (h_len h)) data)] else []) ++
      pushes fuel (drop (Z.to_nat (h_len h)) data)
  | _, _ => []
  end.

(** Fragments: what the sender promises about a sequence number. *)
Abbreviation frag := (Z * list Z)%type.
Definition seg_frag (s : IKCPSEG) : frag := (s_frg s, s_data s).
Definition pushed (L : list frag) (sn : Z) (f : frag) : Prop :=
  ∃ i : nat, L !! i = Some f ∧ sn = u32 (Z.of_nat i).
Definition wire_ok (conv : Z) (L : list frag) (d : list Z) : Prop :=
  dgram (λ h data, h_conv h = conv ∧ (h_cmd h = IKCP_CMD_PUSH → pushed L (h_sn h) (h_frg h, data))) d.

(** ** The invariant *)

Record cfg_inv (k : ikcpcb) : Prop := {
  cfg_conv : is_u32 (k_conv k);
  cfg_mtu : 50 ≤ k_mtu k < 2 ^ 30;
  cfg_mss : k_mss k = k_mtu k - IKCP_OVERHEAD;
  cfg_buffer : ∃ cap, k_buffer k = Some cap ∧ k_mtu k ≤ cap;
  cfg_output : k_output k = true;
}.

(** A segment that waits to be sent: its length is that of its data and at most
    mss, and it has one of the 127 fragment numbers of a message. *)
Record seg_fit (mss : Z) (s : IKCPSEG) : Prop := {
  fit_len : s_len s = Z.of_nat (length (s_data s));
  fit_mss : s_len s ≤ mss;
  fit_frg : 0 ≤ s_frg s < IKCP_WND_RCV;
}.
Record seg_sent (conv : Z) (L : list frag) (s : IKCPSEG) : Prop := {
  sent_conv : s_conv s = conv;
  sent_cmd : s_cmd s = IKCP_CMD_PUSH;
  sent_log : pushed L (s_sn s) (seg_frag s);
}.
Record snd_inv (L : list frag) (k : ikcpcb) : Prop := {
  snd_nxt : k_snd_nxt k = u32 (Z.of_nat (length L));
  snd_que : Forall (seg_fit (k_mss k)) (k_snd_queue k);
  snd_fit : Forall (seg_fit (k_mss k)) (k_snd_buf k);
  snd_sent : Forall (seg_sent (k_conv k) L) (k_snd_buf k);
  snd_wire : Forall (wire_ok (k_conv k) L) (k_wire k);
}.

(** The acknowledgement list has room for ackblock pairs, the first ackcount of
    them written. *)
Record ack_inv (k : ikcpcb) : Prop := {
  ack_count : 0 ≤ k_ackcount k ≤ k_ackblock k;
  ack_block : k_ackblock k < 2 ^ 31;
  ack_list : match k_acklist k with
             | None => k_ackblock k = 0
             | Some l => Z.of_nat (length l) = 2 * k_ackblock k ∧
                 ∀ i, (Z.of_nat i < 2 * k_ackcount k) → is_Some (mjoin (l !! i))
             end;
}.

(** The first sequence number of rcv_queue: what the application has not read. *)
Definition rcv_base (k : ikcpcb) : Z := u32 (k_rcv_nxt k - Z.of_nat (length (k_rcv_queue k))).
Record seg_recv (G : Z → frag → Prop) (s : IKCPSEG) : Prop := {
  recv_good : G (s_sn s) (seg_frag s);
  recv_len : s_len s = Z.of_nat (length (s_data s));
}.
Record rcv_inv (G : Z → frag → Prop) (k : ikcpcb) : Prop := {
  rcv_nxt : is_u32 (k_rcv_nxt k);
  rcv_que : Forall (seg_recv G) (k_rcv_queue k);
  rcv_bufs : Forall (seg_recv G) (k_rcv_buf k);
  rcv_order : ∀ i s, k_rcv_queue k !! i = Some s → s_sn s = u32 (rcv_base k + Z.of_nat i);
}.

(** The counters are the lengths of the queues. *)
Record cnt_inv (k : ikcpcb) : Prop := {
  cnt_snd_que : k_nsnd_que k = u32 (Z.of_nat (length (k_snd_queue k)));
  cnt_snd_buf : k_nsnd_buf k = u32 (Z.of_nat (length (k_snd_buf k)));
  cnt_rcv_que : k_nrcv_que k = u32 (Z.of_nat (length (k_rcv_queue k)));
  cnt_rcv_buf : k_nrcv_buf k = u32 (Z.of_nat (length (k_rcv_buf k)));
}.

Record kcp_inv (c : Z) (L : list frag) (G : Z → frag → Prop) (s : kst) : Prop := {
  inv_cfg : cfg_inv s.1;
  inv_snd : snd_inv L s.1;
  inv_ack : ack_inv s.1;
  inv_rcv : rcv_inv G s.1;
  inv_cnt : cnt_inv s.1;
  inv_live : al_live s.2 = kcp_owned s.1 + c;
  inv_supplied : supplied s.2;
}.

(** ** Tactics *)

(** Take the invariant apart; put it together for a block whose fields changed. *)
Ltac inv_open H :=
  destruct H as [[?Hconv ?Hmtu ?Hmss ?Hbuf ?Hout] [?Hnxt ?Hsq ?Hsf ?Hss ?Hwire] [?Hac ?Hab ?Hal]
                 [?Hrn ?Hrq ?Hrb ?Hro] [?Hcsq ?Hcsb ?Hcrq ?Hcrb] ?Hlive ?Hsup]; cbn [fst snd] in *.
Ltac inv_close := repeat lazymatch goal with |- kcp_inv _ _ _ _ => constructor
  | |- cfg_inv _ => constructor | |- snd_inv _ _ => constructor | |- ack_inv _ => constructor
  | |- rcv_inv _ _ => constructor | |- cnt_inv _ => constructor end; cbn; try done.

(** ** Encoding *)

Lemma land_255_u32 l n : 0 ≤ n ≤ 24 → Z.land (Z.shiftr (u32 l) n) 255 = Z.land (Z.shiftr l n) 255.
Proof.
  intros Hn. apply Z.bits_inj. intros i. rewrite !Z.land_spec.
  change 255 with (Z.ones 8). destruct (decide (0 ≤ i)); [|by rewrite !(Z.testbit_neg_r _ i) by lia].
  destruct (decide (i < 8)); [|by rewrite (Z.ones_spec_high 8 i), !andb_false_r by lia].
  rewrite !Z.shiftr_spec by lia. unfold u32. by rewrite Z.mod_pow2_bits_low by lia.
Qed.
Lemma encode32u_cut l : ikcp_encode32u (u32 l) = ikcp_encode32u l.
Proof. unfold ikcp_encode32u. by rewrite !land_255_u32 by lia. Qed.
Lemma u8_u8 z : u8 (u8 z) = u8 z.
Proof. unfold u8. by rewrite Z.mod_mod. Qed.
Lemma u16_u16 z : u16 (u16 z) = u16 z.
Proof. unfold u16. by rewrite Z.mod_mod. Qed.
Lemma u32_u32 z : u32 (u32 z) = u32 z.
Proof. unfold u32. by rewrite Z.mod_mod. Qed.

(** Whatever the fields of a segment are, its header is read back cut to width. *)
Lemma decode_encode_wire seg p : decode_header (ikcp_encode_seg seg ++ p) = Some (wire_header seg, p).
Proof.
  set (seg' := mk_seg (u32 (s_conv seg)) (u8 (s_cmd seg)) (u8 (s_frg seg)) (u16 (s_wnd seg))
    (u32 (s_ts seg)) (u32 (s_sn seg)) (u32 (s_una seg)) (u32 (s_len seg)) 0 0 0 0 []).
  replace (ikcp_encode_seg seg) with (ikcp_encode_seg seg'); [apply (decode_encode_seg seg')|].
  - split; cbn; auto with word_db.
  - unfold ikcp_encode_seg, seg', ikcp_encode8u. cbn [s_conv s_cmd s_frg s_wnd s_ts s_sn s_una s_len].
    by rewrite !encode32u_cut, !u8_u8, u16_u16.
Qed.

Lemma decode_header_some p : (24 ≤ length p)%nat → ∃ h, decode_header p = Some (h, drop 24 p).
Proof.
  intros Hp. do 24 (destruct p as [|? p]; cbn in Hp; [lia|]). eexists. reflexivity.
Qed.
Lemma decode_header_length p h q : decode_header p = Some (h, q) → (length p = 24 + length q)%nat.
Proof.
  intros Hd. do 24 (destruct p as [|? p]; [discriminate Hd|]).
  destruct (decode_header_some (z :: z0 :: z1 :: z2 :: z3 :: z4 :: z5 :: z6 :: z7 :: z8 :: z9 :: z10 :: z11
    :: z12 :: z13 :: z14 :: z15 :: z16 :: z17 :: z18 :: z19 :: z20 :: z21 :: z22 :: p)) as [h' Hh'];
    [cbn; lia|]. rewrite Hd in Hh'. injection Hh' as _ ->. cbn. by rewrite drop_0.
Qed.
Lemma decode_header_ranges p h q :
  decode_header p = Some (h, q) → is_u32 (h_len h) ∧ is_u32 (h_sn h) ∧ is_u32 (h_ts h).
Proof.
  intros Hd. do 24 (destruct p as [|? p]; [discriminate Hd|]).
  unfold decode_header in Hd. cbn in Hd. injection Hd as <- _. cbn. auto with word_db.
Qed.

Lemma dgram_app P d1 d2 : dgram P d1 → dgram P d2 → dgram P (d1 ++ d2).
Proof.
  intros Hd1 Hd2. induction Hd1 as [|seg data rest HP Hlen _ IH]; [done|].
  rewrite <-!app_assoc. by constructor.
Qed.
Lemma dgram_one (P : header → list Z → Prop) seg data :
  P (wire_header seg) data → u32 (s_len seg) = Z.of_nat (length data) → dgram P (ikcp_encode_seg seg ++ data).
Proof. intros. rewrite <-(app_nil_r data). apply dgram_cons; [done|done|constructor]. Qed.
Lemma dgram_mono (P Q : header → list Z → Prop) d : (∀ h x, P h x → Q h x) → dgram P d → dgram Q d.
Proof. intros HPQ. induction 1; constructor; auto. Qed.

Lemma pushed_mono L L' sn f : L `prefix_of` L' → pushed L sn f → pushed L' sn f.
Proof. intros HL (i&Hi&->). exists i. split; [by eapply prefix_lookup_Some|done]. Qed.
Lemma wire_ok_mono conv L L' d : L `prefix_of` L' → wire_ok conv L d → wire_ok conv L' d.
Proof. intros HL. apply dgram_mono. intros h x [? HP]. split; [done|]. eauto using pushed_mono. Qed.

(** The data segments of a datagram are those it was made of. *)
Lemma dgram_pushes P d n :
  dgram P d → Forall (λ x : Z * Z * list Z, ∃ h, P h x.2 ∧ h_cmd h = IKCP_CMD_PUSH ∧ h_sn h = x.1.1 ∧ h_frg h = x.1.2) (pushes n d).
Proof.
  intros Hd. revert n. induction Hd as [|seg data rest HP Hlen _ IH]; intros [|n]; cbn [pushes]; try done.
  rewrite decode_encode_wire. cbn [h_len wire_header]. rewrite Hlen, Nat2Z.id, length_app, take_app_length, drop_app_length.
  destruct (_ <? _); [done|]. apply Forall_app. split; [|apply IH].
  destruct (h_cmd (wire_header seg) =? _) eqn:Hc; [|done]. apply Z.eqb_eq in Hc.
  constructor; [|done]. eexists. by split_and!.
Qed.
Lemma wire_pushes conv L d n :
  wire_ok conv L d → Forall (λ x, pushed L x.1.1 (x.1.2, x.2)) (pushes n d).
Proof.
  intros Hd. eapply Forall_impl; [by apply dgram_pushes|]. intros [[sn fr] x] (h&[_ HP]&Hc&<-&<-). by apply HP.
Qed.

(** ** What the processing of input leaves alone *)

(** Of what the application and the network see, only acknowledgements to send,
    at most [n] of them, and received segments are added. *)
Record input_frame (n : Z) (k k' : ikcpcb) : Prop := {
  if_queue : k_snd_queue k' = k_snd_queue k;
  if_wire : k_wire k' = k_wire k;
  if_conv : k_conv k' = k_conv k;
  if_stream : k_stream k' = k_stream k;
  if_base : rcv_base k' = rcv_base k;
  if_ack : k_ackcount k' ≤ k_ackcount k + n;
  if_mtu : k_mtu k' = k_mtu k;
}.
Definition input_to c L G n (s s' : kst) : Prop := kcp_inv c L G s' ∧ input_frame n s.1 s'.1.

Lemma input_frame_refl n k : 0 ≤ n → input_frame n k k.
Proof. intros. constructor; try done. lia. Qed.
Lemma input_frame_trans n m k1 k2 k3 :
  input_frame n k1 k2 → input_frame m k2 k3 → input_frame (n + m) k1 k3.
Proof. intros [] []. constructor; try congruence. lia. Qed.
Lemma input_to_refl c L G s : kcp_inv c L G s → input_to c L G 0 s s.
Proof. intros. split; [done|by apply input_frame_refl]. Qed.
Lemma input_to_trans c L G n m s1 s2 s3 :
  input_to c L G n s1 s2 → input_to c L G m s2 s3 → input_to c L G (n + m) s1 s3.
Proof. intros [_ ?] [? ?]. split; [done|by eapply input_frame_trans]. Qed.

(** Sequencing of steps that keep the invariant. *)
Lemma input_seq {A B} c L G n m s (f : M kst A) (g : A → M kst B) :
  swp f (λ _, input_to c L G n s) s →
  (∀ a s', input_to c L G n s s' → swp (g a) (λ _, input_to c L G m s') s') →
  swp (bind f g) (λ _, input_to c L G (n + m) s) s.
Proof.
  intros Hf Hg. eapply swp_seq; [exact Hf|]. intros a s' H1. eapply swp_mono; [by apply Hg|].
  intros b s'' H2. exact (input_to_trans _ _ _ _ _ _ _ _ H1 H2).
Qed.

Ltac frame_close := lazymatch goal with |- input_frame _ _ _ => constructor end; cbn; try done; try lia.

Lemma swp_estimate {S} z (Q : Z → S → Prop) s : Q z s → swp (int_expr EstimateOverflow z) Q s.
Proof. intros HQ. unfold int_expr. by destruct (_ && _). Qed.
Lemma swp_int_expr {S} w z (Q : Z → S → Prop) s : is_i32 z → Q z s → swp (int_expr w z) Q s.
Proof.
  intros [??] HQ. unfold int_expr. by rewrite (proj2 (Z.leb_le _ _)), (proj2 (Z.ltb_lt _ _)) by done.
Qed.

Lemma swp_free (Q : unit → alloc → Prop) a :
  swp ikcp_free Q a ↔ Q () (mk_alloc (al_plan a) (al_live a - 1) (al_rand a)).
Proof. done. Qed.
#[export] Hint Rewrite swp_free : wp_db.
Lemma swp_malloc size (Q : bool → alloc → Prop) a :
  supplied a →
  (∀ a', supplied a' → al_live a' = al_live a + 1 → Q true a') → swp (ikcp_malloc size) Q a.
Proof.
  intros Ha HQ. apply wp_swp. eapply wp_mono; [by apply supplied_malloc|].
  intros ok a' (->&?&?). by apply HQ.
Qed.

(** ** Acknowledged segments *)

Lemma update_ack_frame rtt k :
  swp (ikcp_update_ack rtt) (λ _ k', ∃ v s r, k' = set_rx_rto r (set_rx_srtt s (set_rx_rttval v k))) k.
Proof.
  unfold ikcp_update_ack. rewrite swp_bind, swp_get.
  eapply (swp_seq _ _ (λ _ k', ∃ v s, k' = set_rx_srtt s (set_rx_rttval v k))).
  - destruct (k_rx_srtt k =? 0); wp_step; [by repeat eexists|].
    do 4 (apply swp_estimate; wp_step). destruct (_ <? 1); by repeat eexists.
  - intros _ k' (v&s&->). wp_step. apply swp_estimate. wp_step. by repeat eexists.
Qed.

Section ack.
Context (c : Z) (L : list frag) (G : Z → frag → Prop).

Lemma update_ack_inv rtt s :
  kcp_inv c L G s → swp (on_fst (ikcp_update_ack rtt)) (λ _, input_to c L G 0 s) s.
Proof.
  destruct s as [k a]. intros Hi. wp_step. eapply swp_mono; [apply update_ack_frame|].
  intros _ k' (v&r&t&->). split; [|frame_close]. inv_open Hi. inv_close.
Qed.
Lemma shrink_inv s : kcp_inv c L G s → swp (on_fst ikcp_shrink_buf) (λ _, input_to c L G 0 s) s.
Proof.
  destruct s as [k a]. intros Hi. wp_step. unfold ikcp_shrink_buf. wp_step.
  split; [|frame_close]. inv_open Hi. inv_close.
Qed.

(** Removing one segment of snd_buf. *)
Lemma drop_snd_inv k a pre seg rest :
  k_snd_buf k = pre ++ seg :: rest → kcp_inv c L G (k, a) →
  input_to c L G 0 (k, a)
    (set_nsnd_buf (u32 (k_nsnd_buf k - 1)) (set_snd_buf (pre ++ rest) k),
     mk_alloc (al_plan a) (al_live a - 1) (al_rand a)).
Proof.
  intros Hb Hi. split; [|frame_close]. inv_open Hi. cbn in *. rewrite Hb in Hsf, Hss, Hcsb.
  inv_close.
  - apply Forall_app in Hsf as [? [_ ?]%Forall_cons]. by apply Forall_app.
  - apply Forall_app in Hss as [? [_ ?]%Forall_cons]. by apply Forall_app.
  - rewrite Hcsb, !length_app. cbn. word.
  - rewrite Hlive. unfold kcp_owned. cbn. rewrite Hb, !length_app. cbn. lia.
Qed.

Lemma parse_ack_loop_inv sn pre buf s :
  k_snd_buf s.1 = pre ++ buf → kcp_inv c L G s →
  swp (parse_ack_loop sn pre buf) (λ _, input_to c L G 0 s) s.
Proof.
  revert pre. induction buf as [|seg rest IH]; intros pre Hb Hi; cbn [parse_ack_loop]; [by apply input_to_refl|].
  destruct (sn =? s_sn seg).
  { destruct s as [k a]. wp_step. by eapply drop_snd_inv. }
  destruct (_ <? 0); [by apply input_to_refl|]. apply IH; [|done]. by rewrite <-app_assoc.
Qed.
Lemma parse_ack_inv sn s : kcp_inv c L G s → swp (ikcp_parse_ack sn) (λ _, input_to c L G 0 s) s.
Proof.
  destruct s as [k a]. intros Hi. unfold ikcp_parse_ack. wp_step.
  destruct (_ || _); [by apply input_to_refl|]. by apply parse_ack_loop_inv.
Qed.

Lemma parse_una_loop_inv una buf s :
  k_snd_buf s.1 = buf → kcp_inv c L G s → swp (parse_una_loop una buf) (λ _, input_to c L G 0 s) s.
Proof.
  revert s. induction buf as [|seg rest IH]; intros [k a] Hb Hi; cbn [parse_una_loop]; [by apply input_to_refl|].
  destruct (0 <? _); [|by apply input_to_refl]. wp_step.
  pose proof (drop_snd_inv k a [] seg rest Hb Hi) as H1.
  eapply swp_mono; [apply IH; [done|apply H1]|]. intros [] s' H2.
  exact (input_to_trans _ _ _ 0 0 _ _ _ H1 H2).
Qed.
Lemma parse_una_inv una s : kcp_inv c L G s → swp (ikcp_parse_una una) (λ _, input_to c L G 0 s) s.
Proof. destruct s as [k a]. intros Hi. unfold ikcp_parse_una. wp_step. by apply parse_una_loop_inv. Qed.

Lemma fastack_loop_Forall (P : IKCPSEG → Prop) sn buf :
  (∀ s v, P s → P (set_s_fastack v s)) → Forall P buf → Forall P (fastack_loop sn buf).
Proof.
  intros HP. induction 1 as [|s buf Hs Hbuf IH]; cbn; [done|].
  destruct (_ <? 0); [by constructor|]. destruct (negb _); constructor; auto.
Qed.
Lemma length_fastack_loop sn buf : length (fastack_loop sn buf) = length buf.
Proof. induction buf as [|s buf IH]; cbn; [done|]. destruct (_ <? 0); [done|]. destruct (negb _); cbn; by rewrite IH. Qed.
Lemma parse_fastack_inv sn ts s :
  kcp_inv c L G s → swp (on_fst (ikcp_parse_fastack sn ts)) (λ _, input_to c L G 0 s) s.
Proof.
  destruct s as [k a]. intros Hi. unfold ikcp_parse_fastack. wp_step.
  destruct (_ || _); wp_step; [by apply input_to_refl|]. split; [|frame_close]. inv_open Hi. inv_close.
  - apply fastack_loop_Forall; [|done]. by intros ? ? [].
  - apply fastack_loop_Forall; [|done]. by intros ? ? [].
  - by rewrite length_fastack_loop.
  - rewrite Hlive. unfold kcp_owned. cbn. by rewrite length_fastack_loop.
Qed.
End ack.
