(* ===== verification/KcpRecvInv.v ===== *)
(** KCP: the receiving side keeps the invariant of KcpInv, for any bytes the
    network delivers: the acknowledgement list grows within its block, received
    segments reach rcv_queue in the order of their numbers, ikcp_recv's
    assertion holds. *)
From S2P Require Import Prelude KvMem KcpBase KcpCb KcpAck KcpData KcpInput KcpFlush KcpInv.

(** ** The acknowledgement list *)

Lemma grow_block_spec fuel e newsize s :
  0 ≤ e ≤ 30 → 30 - e ≤ Z.of_nat fuel → newsize ≤ 2 ^ 30 →
  wp (grow_block fuel (2 ^ e) newsize) (λ b s', s' = s ∧ newsize ≤ b ≤ 2 ^ 30) s.
Proof.
  revert e. induction fuel as [|fuel IH]; intros e He Hf Hn; cbn [grow_block].
  - assert (e = 30) as -> by lia. rewrite (proj2 (Z.ltb_ge _ _)) by lia. wp_step. by split_and!.
  - destruct (Z.ltb_spec (2 ^ e) newsize) as [Hlt|Hge].
    + assert (e < 30).
      { destruct (decide (e = 30)) as [->|]; lia. }
      rewrite Z.shiftl_mul_pow2, <-Z.pow_add_r by lia.
      assert (2 ^ (e + 1) ≤ 2 ^ 30) by (apply Z.pow_le_mono_r; lia).
      assert (0 < 2 ^ (e + 1)) by (apply Z.pow_pos_nonneg; lia).
      rewrite u32_id by word. apply IH; lia.
    + wp_step. split; [done|]. split; [done|]. apply Z.pow_le_mono_r; lia.
Qed.

Lemma store_ack_spec i v k a l :
  k_acklist k = Some l → 0 ≤ i < Z.of_nat (length l) →
  store_ack i v (k, a) = Ok ((), (set_acklist (Some (<[Z.to_nat i:=Some v]> l)) k, a)).
Proof.
  intros Hl Hi. unfold store_ack, bind. cbn. rewrite Hl.
  rewrite (proj2 (Z.leb_le _ _)), (proj2 (Z.ltb_lt _ _)) by lia. done.
Qed.

(** The list with its first [n] words written. *)
Definition written (l : list (option Z)) (n : Z) : Prop := ∀ i : nat, Z.of_nat i < n → is_Some (mjoin (l !! i)).
Lemma written_insert l n v :
  0 ≤ n < Z.of_nat (length l) → written l n → written (<[Z.to_nat n:=Some v]> l) (n + 1).
Proof.
  intros Hn Hw i Hi. destruct (decide (i = Z.to_nat n)) as [->|Hne].
  - rewrite list_lookup_insert_eq by lia. by eexists.
  - rewrite list_lookup_insert_ne by done. apply Hw. lia.
Qed.
Lemma written_grow old fresh n :
  0 ≤ n ≤ Z.of_nat (length old) → written old n → written (take (Z.to_nat n) old ++ fresh) n.
Proof.
  intros Hn Hw i Hi. rewrite lookup_app_l by (rewrite length_take; lia).
  rewrite lookup_take_lt by lia. by apply Hw.
Qed.

Lemma ack_push_inv c L G sn ts s :
  kcp_inv c L G s → k_ackcount s.1 < 2 ^ 30 →
  swp (ikcp_ack_push sn ts) (λ _, input_to c L G 1 s) s.
Proof.
  destruct s as [k a]. intros Hi Hlt. cbn in Hlt. unfold ikcp_ack_push. rewrite swp_bind, swp_on_fst, swp_get.
  cbv zeta. assert (0 ≤ k_ackcount k) by apply Hi. rewrite (u32_id (k_ackcount k + 1)) by word.
  eapply (swp_seq _ _ (λ _ s', ∃ l b a', s' = (set_ackblock b (set_acklist (Some l) k), a') ∧
    k_ackcount k < b < 2 ^ 31 ∧ Z.of_nat (length l) = 2 * b ∧ written l (2 * k_ackcount k) ∧
    supplied a' ∧ al_live a' = kcp_owned (set_acklist (Some l) k) + c)).
  - inv_open Hi. destruct (Z.ltb_spec (k_ackblock k) (k_ackcount k + 1)) as [Hg|Hg].
    + eapply swp_seq; [apply wp_swp; apply (grow_block_spec 32 3); lia|]. intros b ? (->&Hb).
      rewrite swp_bind, swp_on_snd. apply swp_malloc; [done|]. intros a' Hs' Hl'. cbn [negb].
      set (fresh := replicate (Z.to_nat (2 * b)) None).
      assert (Hfl : length fresh = Z.to_nat (2 * b)) by apply length_replicate.
      destruct (k_acklist k) as [old|] eqn:Hold.
      * destruct Hal as [Hlen Hw]. rewrite decide_True by lia. wp_step.
        eexists _, b, _. split; [done|]. split; [lia|]. split.
        { rewrite length_app, length_take, length_drop. lia. }
        split; [|split; [done|]].
        { apply written_grow; [lia|done]. }
        cbn. unfold kcp_owned in *. cbn. rewrite Hold in Hlive. lia.
      * wp_step. eexists _, b, _. split; [done|]. split; [lia|]. split; [lia|]. split; [|split; [done|]].
        { intros i Hi. lia. }
        cbn. unfold kcp_owned in *. cbn. rewrite Hold in Hlive. lia.
    + wp_step. destruct (k_acklist k) as [l|] eqn:Hold; [|lia]. destruct Hal as [Hlen Hw].
      exists l, (k_ackblock k), a. split; [destruct k; cbn in *; by rewrite Hold|]. split_and!; try done; try lia.
      unfold kcp_owned in *. cbn. by rewrite Hold in Hlive.
  - intros [] s' (l&b&a'&->&Hb&Hlen&Hw&Hs'&Hl'). inv_open Hi. rewrite (u32_id (k_ackcount k * 2)) by word.
    rewrite swp_bind. unfold swp at 1. erewrite store_ack_spec by (cbn; (done || lia)).
    rewrite swp_bind. unfold swp at 1. erewrite store_ack_spec; [|done|rewrite length_insert; lia]. wp_step.
    split; [|constructor; cbn; (done || word)]. inv_close; try (cbn; word).
    + split; [rewrite !length_insert; lia|]. cbn. rewrite u32_id by word. intros i Hi.
      apply (written_insert _ (k_ackcount k * 2 + 1)); [rewrite length_insert; lia| |lia].
      apply written_insert; [lia|]. intros j Hj. apply Hw. lia.
Qed.

(** ** Ordering received segments *)

Section recv.
Context (c : Z) (L : list frag) (G : Z → frag → Prop).

(** The next segment in order moves from rcv_buf to rcv_queue. *)
Lemma move_one_inv k a seg rest :
  k_rcv_buf k = seg :: rest → s_sn seg = k_rcv_nxt k → kcp_inv c L G (k, a) →
  input_to c L G 0 (k, a)
    (set_rcv_nxt (u32 (k_rcv_nxt k + 1)) (set_nrcv_que (u32 (k_nrcv_que k + 1))
       (set_rcv_queue (k_rcv_queue k ++ [seg]) (set_nrcv_buf (u32 (k_nrcv_buf k - 1))
       (set_rcv_buf rest k)))), a).
Proof.
  intros Hb Hsn Hi. inv_open Hi. rewrite Hb in Hrb, Hcrb. apply Forall_cons in Hrb as [Hseg Hrest].
  assert (Hbase : u32 (u32 (k_rcv_nxt k + 1) - Z.of_nat (length (k_rcv_queue k ++ [seg]))) = rcv_base k).
  { unfold rcv_base. rewrite length_app. cbn. word. }
  split; [|constructor; cbn; try done; lia].
  inv_close; auto with word_db.
  - apply Forall_app. split; [done|by apply Forall_singleton].
  - intros i s Hs. unfold rcv_base. cbn. rewrite Hbase.
    apply lookup_snoc_Some in Hs as [[_ Hs]|[-> <-]]; [by apply Hro|].
    rewrite Hsn. unfold rcv_base. word.
  - rewrite Hcrq, length_app. cbn. word.
  - rewrite Hcrb. cbn. word.
  - rewrite Hlive. unfold kcp_owned. cbn. rewrite Hb, length_app. cbn. lia.
Qed.
Lemma move_loop_inv buf s :
  kcp_inv c L G s → k_rcv_buf s.1 = buf → swp (on_fst (move_loop buf)) (λ _, input_to c L G 0 s) s.
Proof.
  revert s. induction buf as [|seg rest IH]; intros [k a] Hi Hb; wp_step; cbn [move_loop].
  { by apply input_to_refl. }
  wp_step. destruct ((s_sn seg =? k_rcv_nxt k) && _) eqn:E; [|by apply input_to_refl].
  apply andb_true_iff in E as [Hsn%Z.eqb_eq _]. wp_step.
  pose proof (move_one_inv k a seg rest Hb Hsn Hi) as H1.
  pose proof (IH _ (proj1 H1) eq_refl) as IH1. rewrite swp_on_fst in IH1.
  eapply swp_mono; [exact IH1|]. intros [] s' H2. exact (input_to_trans _ _ _ 0 0 _ _ _ H1 H2).
Qed.

(** A segment that was just allocated: one block more than the queues hold. *)
Lemma parse_data_inv seg k a :
  kcp_inv c L G (k, mk_alloc (al_plan a) (al_live a - 1) (al_rand a)) → seg_recv G seg →
  swp (ikcp_parse_data seg) (λ _, input_to c L G 0 (k, a)) (k, a).
Proof.
  intros Hi Hseg. unfold ikcp_parse_data. wp_step. cbv zeta.
  assert (Hdrop : input_to c L G 0 (k, a) (k, mk_alloc (al_plan a) (al_live a - 1) (al_rand a))).
  { split; [done|by apply input_frame_refl]. }
  destruct (_ || _); wp_step; [done|].
  destruct (find_slot _ _ _) as [i|]; wp_step.
  - set (n := (length (k_rcv_buf k) - i)%nat).
    set (k1 := set_nrcv_buf (u32 (k_nrcv_buf k + 1)) (set_rcv_buf (take n (k_rcv_buf k) ++ seg :: drop n (k_rcv_buf k)) k)).
    assert (H1 : input_to c L G 0 (k, a) (k1, a)).
    { split; [|constructor; cbn; (done || lia)]. subst k1. inv_open Hi. inv_close.
      - apply Forall_app. split; [by apply Forall_take|]. constructor; [done|by apply Forall_drop].
      - rewrite Hcrb, length_app. cbn. rewrite length_take, length_drop. word.
      - unfold kcp_owned in *. cbn in *. rewrite length_app. cbn. rewrite length_take, length_drop. lia. }
    pose proof (move_loop_inv _ _ (proj1 H1) eq_refl) as H2. rewrite swp_on_fst in H2.
    eapply swp_mono; [exact H2|]. intros [] s' H3. exact (input_to_trans _ _ _ 0 0 _ _ _ H1 H3).
  - pose proof (move_loop_inv _ _ (proj1 Hdrop) eq_refl) as H2. rewrite swp_on_fst in H2.
    eapply swp_mono; [exact H2|]. intros [] s' H3. exact (input_to_trans _ _ _ 0 0 _ _ _ Hdrop H3).
Qed.

Lemma input_push_inv h data s :
  kcp_inv c L G s → k_ackcount s.1 < 2 ^ 30 → 0 ≤ h_len h ≤ Z.of_nat (length data) →
  G (h_sn h) (h_frg h, take (Z.to_nat (h_len h)) data) →
  swp (input_push h data) (λ _, input_to c L G 1 s) s.
Proof.
  destruct s as [k a]. intros Hi Hac Hlen HG. unfold input_push. rewrite swp_bind, swp_on_fst, swp_get.
  assert (Hskip : input_to c L G 1 (k, a) (k, a)) by (split; [done|by apply input_frame_refl]).
  destruct (_ <? 0); [|done]. eapply swp_seq; [by apply ack_push_inv|]. intros [] [k1 a1] H1.
  rewrite swp_bind, swp_on_fst, swp_get. destruct (0 <=? _); [|done].
  rewrite swp_bind, swp_on_snd. apply swp_malloc; [apply H1|]. intros a2 Hs2 Hl2. cbn [negb].
  assert (Hseg : seg_recv G (received h data)).
  { constructor; [done|]. cbn. rewrite length_take. lia. }
  eapply swp_mono; [apply parse_data_inv; [|done]|].
  - destruct H1 as [Hi1 _]. inv_open Hi1. inv_close. lia.
  - intros [] s' [? Hf]. split; [done|]. destruct H1 as [_ Hf1].
    exact (input_frame_trans 1 0 _ _ _ Hf1 Hf).
Qed.
End recv.

(** ** Datagrams *)

Section input.
Context (c : Z) (L : list frag) (G : Z → frag → Prop).

Lemma input_to_le n m s s' : n ≤ m → input_to c L G n s s' → input_to c L G m s s'.
Proof. intros Hnm [? []]. split; [done|]. constructor; try done. lia. Qed.

Lemma input_ack_inv h seen s : kcp_inv c L G s → swp (input_ack h seen) (λ _, input_to c L G 0 s) s.
Proof.
  destruct s as [k a]. intros Hi. unfold input_ack. rewrite swp_bind, swp_on_fst, swp_get.
  apply (input_seq c L G 0 0).
  { destruct (0 <=? _); [by apply update_ack_inv|by apply input_to_refl]. }
  intros _ s1 [Hi1 _]. apply (input_seq c L G 0 0); [by apply parse_ack_inv|].
  intros _ s2 [Hi2 _]. apply (input_seq c L G 0 0); [by apply shrink_inv|].
  intros _ s3 [Hi3 _]. by apply input_to_refl.
Qed.

Lemma input_segment_inv h data seen s :
  kcp_inv c L G s → k_ackcount s.1 < 2 ^ 30 → 0 ≤ h_len h ≤ Z.of_nat (length data) →
  (h_cmd h = IKCP_CMD_PUSH → G (h_sn h) (h_frg h, take (Z.to_nat (h_len h)) data)) →
  swp (input_segment h data seen) (λ _, input_to c L G 1 s) s.
Proof.
  destruct s as [k a]. intros Hi Hac Hlen HG. unfold input_segment.
  apply (input_seq c L G 0 1).
  { wp_step. split; [|frame_close]. inv_open Hi. inv_close. }
  intros [] s1 [Hi1 Hf1]. apply (input_seq c L G 0 1); [by apply parse_una_inv|].
  intros [] s2 [Hi2 Hf2]. apply (input_seq c L G 0 1); [by apply shrink_inv|].
  intros [] s3 [Hi3 Hf3].
  assert (Hac3 : k_ackcount s3.1 < 2 ^ 30) by (destruct Hf1, Hf2, Hf3; cbn in *; lia).
  assert (Hskip : input_to c L G 1 s3 s3) by (eapply (input_to_le 0); [lia|by apply input_to_refl]).
  destruct (h_cmd h =? IKCP_CMD_ACK).
  { eapply swp_mono; [by apply input_ack_inv|]. intros ? ? ?. by apply (input_to_le 0). }
  destruct (h_cmd h =? IKCP_CMD_PUSH) eqn:Hc.
  { apply Z.eqb_eq in Hc. apply (input_seq c L G 1 0); [by apply input_push_inv; [| | |apply HG]|].
    intros [] s4 [Hi4 _]. by apply input_to_refl. }
  destruct (h_cmd h =? IKCP_CMD_WASK); [|done].
  destruct s3 as [k3 a3]. wp_step. split; [|frame_close]. inv_open Hi3. inv_close.
Qed.

Lemma input_loop_inv fuel data seen s :
  (length data ≤ 24 * fuel)%nat →
  kcp_inv c L G s → k_ackcount s.1 + Z.of_nat (length data) / 24 ≤ 2 ^ 30 →
  Forall (λ x, G x.1.1 (x.1.2, x.2)) (pushes fuel data) →
  swp (input_loop fuel data seen) (λ _, input_to c L G (Z.of_nat (length data) / 24) s) s.
Proof.
  revert data seen s. induction fuel as [|fuel IH]; intros data seen s Hf Hi Hac HG; cbn [input_loop].
  { rewrite (proj2 (Z.ltb_lt _ _)) by (unfold IKCP_OVERHEAD; lia). wp_step.
    eapply (input_to_le 0); [|by apply input_to_refl]. apply Z.div_pos; lia. }
  assert (Hskip : input_to c L G (Z.of_nat (length data) / 24) s s).
  { eapply (input_to_le 0); [|by apply input_to_refl]. apply Z.div_pos; lia. }
  destruct (Z.ltb_spec (Z.of_nat (length data)) IKCP_OVERHEAD) as [Hs|Hs]; unfold IKCP_OVERHEAD in Hs; [done|].
  destruct (decode_header_some data) as [h Hd]; [lia|]. destruct s as [k a].
  rewrite swp_bind, swp_on_fst, swp_get, swp_bind, Hd. cbn [from_opt]. rewrite swp_ret. cbn [fst snd].
  destruct (negb (h_conv h =? k_conv k)); [done|].
  destruct (decode_header_ranges _ _ _ Hd) as (Hl&_&_). unfold is_u32 in Hl.
  cbn [pushes] in HG. rewrite Hd in HG.
  pose proof (decode_header_length _ _ _ Hd) as Hlen. set (rest := drop 24 data) in *.
  unfold IKCP_OVERHEAD. destruct ((_ <? h_len h) || _) eqn:E; [done|].
  apply orb_false_iff in E as [Hle%Z.ltb_ge _]. rewrite (proj2 (Z.ltb_ge _ _)) in HG by lia.
  apply Forall_app in HG as [HG1 HG2]. destruct (negb (known_cmd _)); [done|].
  set (rest' := drop (Z.to_nat (h_len h)) rest) in *.
  assert (Hr : Z.of_nat (length data) = 24 + h_len h + Z.of_nat (length rest')).
  { subst rest'. rewrite length_drop. lia. }
  assert (Hdiv : 1 + Z.of_nat (length rest') / 24 ≤ Z.of_nat (length data) / 24).
  { rewrite Hr. Z.div_mod_to_equations. lia. }
  eapply swp_mono; [|intros r s'; apply (input_to_le _ _ _ _ Hdiv)].
  assert (0 ≤ Z.of_nat (length rest') / 24) by (apply Z.div_pos; lia).
  eapply input_seq.
  - apply input_segment_inv; [done|cbn in *; lia|lia|]. intros Hc. rewrite Hc, Z.eqb_refl in HG1.
    by apply Forall_inv in HG1.
  - intros seen' s' [Hi' Hf']. destruct Hf'. cbn in *. apply IH; [|done|cbn in *; lia|done].
    subst rest'. rewrite length_drop. lia.
Qed.

(** Any bytes whatsoever keep the invariant, as long as the data segments in them
    are ones the peer sent. *)
Lemma ikcp_input_inv data s :
  kcp_inv c L G s →
  k_ackcount s.1 + Z.of_nat (length (default [] data)) / 24 ≤ 2 ^ 30 →
  Forall (λ x, G x.1.1 (x.1.2, x.2)) (pushes (length (default [] data)) (default [] data)) →
  swp (ikcp_input data) (λ _, input_to c L G (Z.of_nat (length (default [] data)) / 24) s) s.
Proof.
  destruct s as [k a]. intros Hi Hac HG. unfold ikcp_input. rewrite swp_bind, swp_on_fst, swp_get. cbv zeta.
  destruct data as [data|]; cbn [from_option id] in *; [|by apply input_to_refl].
  assert (Hskip : ∀ s, kcp_inv c L G s → input_to c L G (Z.of_nat (length data) / 24) s s).
  { intros. eapply (input_to_le 0); [|by apply input_to_refl]. apply Z.div_pos; lia. }
  destruct (_ <? IKCP_OVERHEAD); [by apply Hskip|].
  rewrite <-(Z.add_0_r (Z.of_nat (length data) / 24)).
  apply (input_seq c L G _ 0); [apply input_loop_inv; [lia|done..]|].
  intros [code|seen] s1 [Hi1 _]; [by apply input_to_refl|].
  apply (input_seq c L G 0 0).
  { destruct (flag seen); [by apply parse_fastack_inv|by apply input_to_refl]. }
  intros [] s2 [Hi2 _]. apply (input_seq c L G 0 0); [|intros [] s3 [Hi3 _]; by apply input_to_refl].
  destruct s2 as [k2 a2]. wp_step. destruct (0 <? _); [|by apply input_to_refl].
  unfold update_cwnd. repeat (match goal with |- context [if ?b then _ else _] => destruct b end; cbn [k_rmt_wnd]);
  (split; [|frame_close]; inv_open Hi2; inv_close).
Qed.
End input.

(** ** Reading *)

(** The segments of the first message of a queue, and the others. *)
Fixpoint cut_msg (q : list IKCPSEG) : list IKCPSEG * list IKCPSEG :=
  match q with
  | [] => ([], [])
  | s :: q => if s_frg s =? 0 then ([s], q) else let '(m, r) := cut_msg q in (s :: m, r)
  end.
Definition payload (q : list IKCPSEG) : list Z := mjoin (s_data <$> q).

Lemma payload_cons s q : payload (s :: q) = s_data s ++ payload q.
Proof. done. Qed.

(** What reading leaves alone. *)
Record recv_frame (k k' : ikcpcb) : Prop := {
  rf_queue : k_snd_queue k' = k_snd_queue k;
  rf_wire : k_wire k' = k_wire k;
  rf_conv : k_conv k' = k_conv k;
  rf_stream : k_stream k' = k_stream k;
  rf_ack : k_ackcount k' ≤ k_ackcount k;
  rf_mtu : k_mtu k' = k_mtu k;
}.
Lemma recv_frame_refl k : recv_frame k k.
Proof. done. Qed.
Lemma recv_frame_trans k1 k2 k3 : recv_frame k1 k2 → recv_frame k2 k3 → recv_frame k1 k3.
Proof. intros [] []. constructor; try congruence. lia. Qed.
Lemma input_frame_recv k k' : input_frame 0 k k' → recv_frame k k'.
Proof. intros []. constructor; try done. lia. Qed.

Lemma cut_msg_app q : (cut_msg q).1 ++ (cut_msg q).2 = q.
Proof.
  induction q as [|s q IH]; cbn; [done|]. destruct (s_frg s =? 0); [done|].
  destruct (cut_msg q). cbn in *. by rewrite IH.
Qed.
Lemma i32_u32 z : i32 (u32 z) = i32 z.
Proof. word. Qed.
(** The two loops over the queue compute the same length, that of the payload. *)
Lemma peek_loop_length q len :
  Forall (λ s, s_len s = Z.of_nat (length (s_data s))) q → is_i32 len →
  peek_loop len q = i32 (len + Z.of_nat (length (payload (cut_msg q).1))).
Proof.
  intros Hq. revert len. induction Hq as [|s q Hs Hq IH]; intros len Hlen; cbn [peek_loop cut_msg].
  { rewrite i32_id; cbn; [lia|]. unfold is_i32 in *. lia. }
  rewrite i32_u32. destruct (s_frg s =? 0).
  - cbn. rewrite app_nil_r. by rewrite Hs.
  - rewrite IH by apply i32_range. destruct (cut_msg q) as [m r]. rewrite i32_wrap, Hs. f_equal.
    cbn [fst]. rewrite payload_cons, length_app. lia.
Qed.
Lemma peeksize_spec k :
  k_rcv_queue k ≠ [] → 0 ≤ ikcp_peeksize k → ikcp_peeksize k = peek_loop 0 (k_rcv_queue k).
Proof.
  unfold ikcp_peeksize. destruct (k_rcv_queue k) as [|s q]; [done|]. intros _. cbn [peek_loop].
  destruct (s_frg s =? 0); [by rewrite i32_u32|]. by destruct (_ <? _).
Qed.

Section recv.
Context (c : Z) (L : list frag) (G : Z → frag → Prop).

Lemma read_one_inv k a s q :
  k_rcv_queue k = s :: q → kcp_inv c L G (k, a) →
  kcp_inv c L G (set_nrcv_que (u32 (k_nrcv_que k - 1)) (set_rcv_queue q k),
                 mk_alloc (al_plan a) (al_live a - 1) (al_rand a)) ∧
  rcv_base (set_nrcv_que (u32 (k_nrcv_que k - 1)) (set_rcv_queue q k)) = u32 (rcv_base k + 1).
Proof.
  intros Hq Hi. inv_open Hi. rewrite Hq in Hrq, Hcrq, Hro. apply Forall_cons in Hrq as [_ Hrq].
  assert (Hb : u32 (k_rcv_nxt k - Z.of_nat (length q)) = u32 (rcv_base k + 1)).
  { unfold rcv_base. rewrite Hq. cbn. word. }
  split; [|exact Hb]. inv_close.
  - intros i t Ht. unfold rcv_base at 1. cbn. rewrite Hb. rewrite (Hro (S i) t Ht). word.
  - rewrite Hcrq. cbn. word.
  - rewrite Hlive. unfold kcp_owned. cbn. rewrite Hq. cbn. lia.
Qed.

Lemma merge_peek len buf q s :
  merge_loop true len buf q s =
  Ok ((peek_loop len q, buf ++ mjoin ((λ s, take (Z.to_nat (s_len s)) (s_data s)) <$> (cut_msg q).1)), s).
Proof.
  revert len buf. induction q as [|t q IH]; intros len buf; cbn [merge_loop peek_loop cut_msg].
  { cbn. by rewrite app_nil_r. }
  unfold bind, ret. destruct (s_frg t =? 0); [cbn; by rewrite app_nil_r|].
  rewrite IH. destruct (cut_msg q). cbn. by rewrite <-app_assoc.
Qed.
Lemma merge_loop_inv len buf q s :
  kcp_inv c L G s → k_rcv_queue s.1 = q →
  swp (merge_loop false len buf q)
    (λ r s', r = (peek_loop len q, buf ++ mjoin ((λ s, take (Z.to_nat (s_len s)) (s_data s)) <$> (cut_msg q).1)) ∧
       kcp_inv c L G s' ∧ recv_frame s.1 s'.1 ∧
       rcv_base s'.1 = u32 (rcv_base s.1 + Z.of_nat (length (cut_msg q).1))) s.
Proof.
  revert len buf s. induction q as [|t q IH]; intros len buf [k a] Hi Hq; cbn [merge_loop peek_loop cut_msg].
  { wp_step. split_and!; try done; [cbn; by rewrite app_nil_r|]. unfold rcv_base. cbn. word. }
  destruct (read_one_inv k a t q Hq Hi) as [Hi1 Hb1].
  wp_step. destruct (s_frg t =? 0).
  - wp_step. split_and!; try done. cbn. by rewrite app_nil_r.
  - eapply swp_mono; [by apply (IH _ _ _ Hi1)|]. intros r s' (->&Hi'&Hf'&Hb'). cbn [fst] in *. rewrite Hb1 in Hb'.
    destruct (cut_msg q) as [m r]. cbn in *. split_and!; [by rewrite <-app_assoc|done|by destruct Hf'|].
    rewrite Hb'. word.
Qed.

Lemma take_all_payload q :
  Forall (seg_recv G) q →
  mjoin ((λ s, take (Z.to_nat (s_len s)) (s_data s)) <$> (cut_msg q).1) = payload (cut_msg q).1.
Proof.
  intros Hq. assert (Hm : Forall (seg_recv G) (cut_msg q).1).
  { rewrite <-(cut_msg_app q) in Hq. by apply Forall_app in Hq as [? _]. }
  unfold payload. f_equal. apply list_fmap_ext. intros i s Hs.
  apply (Forall_lookup_1 _ _ _ _ Hm) in Hs as [_ Hlen]. rewrite Hlen, Nat2Z.id. by rewrite take_ge.
Qed.

(** ikcp_recv, in full: either it refuses and changes nothing, or it returns the
    first message of the queue, with its length. *)
Lemma ikcp_recv_inv len s :
  kcp_inv c L G s → - 2 ^ 31 < len < 2 ^ 31 →
  swp (ikcp_recv len) (λ '(r, buf) s',
    kcp_inv c L G s' ∧ recv_frame s.1 s'.1 ∧
    (r < 0 ∧ buf = [] ∧ s' = s ∧ (k_rcv_queue s.1 = [] ∨ ikcp_peeksize s.1 < 0 ∨ Z.abs len < ikcp_peeksize s.1) ∨
     0 ≤ ikcp_peeksize s.1 ≤ Z.abs len ∧ k_rcv_queue s.1 ≠ [] ∧
     r = ikcp_peeksize s.1 ∧ r = i32 (Z.of_nat (length buf)) ∧ buf = payload (cut_msg (k_rcv_queue s.1)).1 ∧
     rcv_base s'.1 = u32 (rcv_base s.1 +
       if len <? 0 then 0 else Z.of_nat (length (cut_msg (k_rcv_queue s.1)).1)))) s.
Proof.
  destruct s as [k a]. intros Hi Hrange. unfold ikcp_recv. rewrite swp_bind, swp_on_fst, swp_get. cbv zeta. cbn [fst].
  destruct (k_rcv_queue k) as [|s0 q0] eqn:Hq.
  { wp_step. split_and!; [done|apply recv_frame_refl|]. left. by split_and!; [..|left]. }
  assert (Habs : (if len <? 0 then - len else len) = Z.abs len) by (destruct (Z.ltb_spec len 0); lia).
  rewrite swp_bind. apply swp_int_expr; [rewrite Habs; unfold is_i32; lia|]. rewrite <-Hq.
  rewrite Habs.
  destruct (Z.ltb_spec (ikcp_peeksize k) 0) as [Hp|Hp].
  { wp_step. split_and!; [done|apply recv_frame_refl|]. left. split_and!; try done. by right; left. }
  destruct (Z.ltb_spec (Z.abs len) (ikcp_peeksize k)) as [Hl|Hl].
  { wp_step. split_and!; [done|apply recv_frame_refl|]. left. split_and!; try done. by right; right. }
  assert (Hne : k_rcv_queue k ≠ []) by (by rewrite Hq).
  pose proof (peeksize_spec k Hne Hp) as Hpeek.
  assert (Hrq : Forall (seg_recv G) (k_rcv_queue k)) by apply Hi.
  set (q := k_rcv_queue k) in *.
  assert (Hr : peek_loop 0 q = i32 (Z.of_nat (length (payload (cut_msg q).1)))).
  { rewrite peek_loop_length; [done| |done]. eapply Forall_impl; [exact Hrq|]. by intros ? []. }
  eapply (swp_seq _ _ (λ r s', r = (peek_loop 0 q, payload (cut_msg q).1) ∧ kcp_inv c L G s' ∧ recv_frame k s'.1 ∧
    rcv_base s'.1 = u32 (rcv_base k + if len <? 0 then 0 else Z.of_nat (length (cut_msg q).1)))).
  { destruct (len <? 0).
    - unfold swp. rewrite merge_peek. cbn [app]. rewrite (take_all_payload _ Hrq). split_and!; try done.
      unfold rcv_base. cbn. word.
    - eapply swp_mono; [by apply merge_loop_inv|]. cbn [app]. intros r s'. rewrite (take_all_payload _ Hrq). done. }
  intros ? [k1 a1] (->&Hi1&Hf1&Hb1). cbn [fst snd] in *. rewrite Hpeek, Z.eqb_refl. cbn [negb].
  rewrite swp_bind, swp_on_fst, swp_get. rewrite swp_bind.
  eapply swp_mono; [by apply (move_loop_inv c L G _ _ Hi1)|]. intros [] [k2 a2] [Hi2 Hf2]. cbn [fst] in *.
  wp_step. set (k3 := if _ && _ then _ else _).
  assert (H3 : kcp_inv c L G (k3, a2) ∧ recv_frame k2 k3 ∧ rcv_base k3 = rcv_base k2).
  { subst k3. destruct (_ && _); [|done]. split_and!; [|done|done]. inv_open Hi2. inv_close. }
  destruct H3 as (Hi3&Hf3&Hb3). split; [done|]. split.
  - eapply recv_frame_trans; [exact Hf1|]. eapply recv_frame_trans; [by apply input_frame_recv|done].
  - right. split_and!; try done; try lia. cbn [fst].
    rewrite Hb3. destruct Hf2 as [_ _ _ _ Hb2 _ _]. by rewrite Hb2.
Qed.
End recv.
