(* ===== verification/KcpSendInv.v ===== *)
(** KCP: ikcp_send keeps the invariant of KcpInv and queues exactly the bytes it
    was given, cut into fragments of at most mss bytes. *)
From S2P Require Import Prelude KvMem KcpBase KcpCb KcpAck KcpData KcpInput KcpFlush KcpInv KcpRecvInv.

(** ** Fragmentation *)

(** [n] fragments of at most [mss] bytes, numbered down to 0. *)
Fixpoint fragments (mss n : nat) (b : list Z) : list frag :=
  match n with
  | O => []
  | S n => (Z.of_nat n, take mss b) :: fragments mss n (drop mss b)
  end.
(** The number of fragments of a message of [len] bytes. *)
Definition frag_count (mss len : Z) : Z := if len <=? mss then 1 else (len + mss - 1) / mss.

Lemma fragments_data mss n b : (length b ≤ n * mss)%nat → mjoin (snd <$> fragments mss n b) = b.
Proof.
  revert b. induction n as [|n IH]; intros b Hb; cbn.
  - by destruct b; cbn in Hb; [|lia].
  - change (take mss b ++ mjoin (snd <$> fragments mss n (drop mss b)) = b).
    rewrite IH; [apply take_drop|]. rewrite length_drop. lia.
Qed.
Lemma length_fragments mss n b : length (fragments mss n b) = n.
Proof. revert b. induction n as [|n IH]; intros b; cbn; [done|]. by rewrite IH. Qed.

Lemma frag_count_bounds mss len :
  0 < mss → 0 ≤ len → 1 ≤ frag_count mss len ∧ len ≤ frag_count mss len * mss.
Proof.
  intros. unfold frag_count. destruct (Z.leb_spec len mss); [lia|].
  Z.div_mod_to_equations. nia.
Qed.

(** What sending leaves alone. *)
Record send_frame (k k' : ikcpcb) : Prop := {
  sf_wire : k_wire k' = k_wire k;
  sf_conv : k_conv k' = k_conv k;
  sf_stream : k_stream k' = k_stream k;
  sf_base : rcv_base k' = rcv_base k;
  sf_mss : k_mss k' = k_mss k;
  sf_ack : k_ackcount k' = k_ackcount k;
  sf_mtu : k_mtu k' = k_mtu k;
}.
Lemma send_frame_refl k : send_frame k k.
Proof. done. Qed.
Lemma send_frame_trans k1 k2 k3 : send_frame k1 k2 → send_frame k2 k3 → send_frame k1 k3.
Proof. intros [] []. constructor; congruence. Qed.

Section send.
Context (c : Z) (L : list frag) (G : Z → frag → Prop).

Lemma swp_segment_new size k a (Q : unit → kst → Prop) :
  supplied a → (∀ a', supplied a' → al_live a' = al_live a + 1 → Q () (k, a')) →
  swp (segment_new size) Q (k, a).
Proof.
  intros Ha HQ. unfold segment_new. rewrite swp_bind, swp_on_snd. apply swp_malloc; [done|].
  intros a' ? ?. wp_step. by apply HQ.
Qed.
Lemma swp_read_bytes {S} n b (Q : list Z → S → Prop) s :
  n ≤ Z.of_nat (length b) → Q (take (Z.to_nat n) b) s → swp (read_bytes n b) Q s.
Proof. intros. unfold read_bytes. by rewrite (proj2 (Z.ltb_ge _ _)). Qed.

Lemma queue_one_inv k a a' seg :
  kcp_inv c L G (k, a) → supplied a' → al_live a' = al_live a + 1 → seg_fit (k_mss k) seg →
  kcp_inv c L G (set_nsnd_que (u32 (k_nsnd_que k + 1)) (set_snd_queue (k_snd_queue k ++ [seg]) k), a').
Proof.
  intros Hi Hs Hl Hseg. inv_open Hi. inv_close.
  - apply Forall_app. split; [done|by apply Forall_singleton].
  - rewrite Hcsq, length_app. cbn. word.
  - unfold kcp_owned in *. cbn. rewrite length_app. cbn. lia.
Qed.

Lemma send_loop_inv n i count buffer len s :
  kcp_inv c L G s → len = Z.of_nat (length buffer) → len < 2 ^ 31 → len ≤ Z.of_nat n * k_mss s.1 →
  i + Z.of_nat n = count → 0 ≤ i → count < IKCP_WND_RCV →
  swp (send_loop n i count buffer len)
    (λ _ s', kcp_inv c L G s' ∧ send_frame s.1 s'.1 ∧ ∃ segs,
       k_snd_queue s'.1 = k_snd_queue s.1 ++ segs ∧ payload segs = buffer ∧
       (k_stream s.1 = 0 → seg_frag <$> segs = fragments (Z.to_nat (k_mss s.1)) n buffer)) s.
Proof.
  revert i buffer len s. induction n as [|n IH]; intros i buffer len [k a] Hi Hlen Hl31 Hle Hin Hi0 Hc; cbn [send_loop].
  { wp_step. split_and!; [done|apply send_frame_refl|]. exists []. rewrite app_nil_r. cbn in *.
    split_and!; try done. destruct buffer; [done|]. cbn in *. lia. }
  assert (Hmss : 26 ≤ k_mss k < 2 ^ 30).
  { destruct Hi as [[_ Hm Hs _ _] _ _ _ _ _ _]. unfold IKCP_OVERHEAD in *. cbn in *. lia. }
  rewrite swp_bind, swp_on_fst, swp_get. cbn [fst] in *. rewrite (i32_id (k_mss k)) by word. cbv zeta.
  set (size := if k_mss k <? len then k_mss k else len).
  assert (Hsz : size = Z.of_nat (length (take (Z.to_nat (k_mss k)) buffer)) ∧ size ≤ k_mss k ∧ size ≤ len).
  { rewrite length_take. subst size. destruct (Z.ltb_spec (k_mss k) len); lia. }
  assert (Htake : take (Z.to_nat size) buffer = take (Z.to_nat (k_mss k)) buffer).
  { subst size. destruct (Z.ltb_spec (k_mss k) len); [done|]. rewrite !take_ge; [done|lia|lia]. }
  assert (Hdrop : drop (Z.to_nat size) buffer = drop (Z.to_nat (k_mss k)) buffer).
  { subst size. destruct (Z.ltb_spec (k_mss k) len); [done|]. rewrite !drop_ge; [done|lia|lia]. }
  assert (Hrest : len - size ≤ Z.of_nat n * k_mss k).
  { subst size. destruct (Z.ltb_spec (k_mss k) len); nia. }
  destruct Hsz as (Hsz&Hsm&Hsl).
  rewrite swp_bind. apply swp_segment_new; [apply Hi|]. intros a' Hs' Hl'. rewrite swp_bind.
  assert (Hdata : ∀ Q : list Z → kst → Prop, Q (take (Z.to_nat (k_mss k)) buffer) (k, a') →
    swp (if 0 <? len then read_bytes size buffer else ret []) Q (k, a')).
  { intros Q HQ. destruct (Z.ltb_spec 0 len).
    - apply swp_read_bytes; [lia|]. by rewrite Htake.
    - wp_step. by destruct buffer; [rewrite take_nil in HQ|cbn in *; lia]. }
  apply Hdata. clear Hdata. rewrite (u32_id (count - i - 1)) by (unfold IKCP_WND_RCV in *; word).
  rewrite (u32_id size) by word. rewrite swp_bind, swp_on_fst, swp_modify.
  set (seg := new_segment size (if k_stream k =? 0 then count - i - 1 else 0) (take (Z.to_nat (k_mss k)) buffer)).
  assert (Hseg : seg_fit (k_mss k) seg).
  { constructor; cbn; [done|lia|]. unfold IKCP_WND_RCV in *. destruct (k_stream k =? 0); lia. }
  pose proof (queue_one_inv k a a' seg Hi Hs' Hl' Hseg) as Hi1.
  eapply swp_mono; [apply (IH (i + 1) _ _ _ Hi1); (exact Hrest || rewrite ?Hdrop, ?length_drop; rewrite ?length_take in Hsz; cbn; lia)|].
  intros [] s' (Hi'&Hf'&segs&Hq&Hp&Hfr). split; [done|]. split; [by destruct Hf'|].
  exists (seg :: segs). cbn in Hq. cbn [fst]. rewrite Hq. split_and!.
  - by rewrite <-app_assoc.
  - rewrite payload_cons, Hp, Hdrop. apply take_drop.
  - intros Hst. rewrite fmap_cons. cbn [fragments]. rewrite <-Hdrop. f_equal; [|by apply Hfr].
    unfold seg_frag, seg. cbn. rewrite Hst. cbn. f_equal. lia.
Qed.

(** Topping up the last segment keeps the bytes queued in order. *)
Lemma send_extend_inv buffer len s :
  kcp_inv c L G s → len = Z.of_nat (length buffer) → len < 2 ^ 31 →
  swp (send_extend buffer len)
    (λ r s', kcp_inv c L G s' ∧ send_frame s.1 s'.1 ∧ r.2 = Z.of_nat (length r.1) ∧ r.2 ≤ len ∧
       payload (k_snd_queue s'.1) ++ r.1 = payload (k_snd_queue s.1) ++ buffer) s.
Proof.
  destruct s as [k a]. intros Hi Hlen Hl31. unfold send_extend. rewrite swp_bind, swp_on_fst, swp_get. cbn [fst].
  assert (Hskip : kcp_inv c L G (k, a) ∧ send_frame k k ∧ len = Z.of_nat (length buffer) ∧ len ≤ len ∧
    payload (k_snd_queue k) ++ buffer = payload (k_snd_queue k) ++ buffer) by (split_and!; (done || apply send_frame_refl || lia)).
  destruct (last (k_snd_queue k)) as [old|] eqn:Hlast; [|done].
  destruct (Z.ltb_spec (s_len old) (k_mss k)) as [Hlt|]; [|done].
  apply last_Some in Hlast as [q Hq].
  assert (Hold : seg_fit (k_mss k) old).
  { destruct Hi as [_ [_ Hf _ _ _] _ _ _ _ _]. cbn in Hf. rewrite Hq in Hf.
    apply Forall_app in Hf as [_ Hf]. by apply Forall_inv in Hf. }
  assert (Hmss : 26 ≤ k_mss k < 2 ^ 30).
  { destruct Hi as [[_ Hm Hs _ _] _ _ _ _ _ _]. unfold IKCP_OVERHEAD in *. cbn in *. lia. }
  destruct Hold as [Hol Hom Hof]. cbv zeta.
  rewrite (u32_id (k_mss k - s_len old)), (i32_id (k_mss k - s_len old)) by word.
  set (extend := if len <? _ then len else _).
  assert (He : 0 ≤ extend ≤ len ∧ s_len old + extend ≤ k_mss k).
  { subst extend. destruct (Z.ltb_spec len (k_mss k - s_len old)); lia. }
  rewrite swp_bind. apply swp_segment_new; [apply Hi|]. intros a' Hs' Hl'. rewrite swp_bind.
  apply swp_read_bytes; [lia|]. wp_step.
  rewrite (u32_id (s_len old + extend)) by word. rewrite Hol, Nat2Z.id, take_ge by lia.
  rewrite Hq, removelast_last. split_and!.
  - inv_open Hi. rewrite Hq in Hsq, Hcsq. apply Forall_app in Hsq as [Hsq _]. inv_close.
    + apply Forall_app. split; [done|]. apply Forall_singleton. constructor; cbn; [|lia|by vm_compute].
      rewrite length_app, length_take. lia.
    + rewrite Hcsq, !length_app. done.
    + unfold kcp_owned in *. cbn. rewrite Hq, length_app in Hlive. rewrite length_app. cbn in *. lia.
  - done.
  - cbn. rewrite length_drop. lia.
  - cbn. lia.
  - cbn. unfold payload. rewrite !fmap_app, !join_app. cbn. rewrite !app_nil_r, <-!app_assoc. by rewrite take_drop.
Qed.

(** ikcp_send of [len] bytes: refused with -2 when it needs 128 fragments or more
    (in message mode nothing changed then), otherwise every byte is queued. *)
Lemma ikcp_send_inv buffer s :
  kcp_inv c L G s → Z.of_nat (length buffer) < 2 ^ 31 →
  swp (ikcp_send buffer (Z.of_nat (length buffer)))
    (λ r s', kcp_inv c L G s' ∧ send_frame s.1 s'.1 ∧
       ((r = 0 ∧ payload (k_snd_queue s'.1) = payload (k_snd_queue s.1) ++ buffer) ∨ r = -2) ∧
       (k_stream s.1 = 0 →
          let n := frag_count (k_mss s.1) (Z.of_nat (length buffer)) in
          if n <? IKCP_WND_RCV
          then r = 0 ∧ seg_frag <$> k_snd_queue s'.1 =
                 (seg_frag <$> k_snd_queue s.1) ++ fragments (Z.to_nat (k_mss s.1)) (Z.to_nat n) buffer
          else r = -2 ∧ s' = s)) s.
Proof.
  destruct s as [k a]. intros Hi Hl31. unfold ikcp_send. rewrite swp_bind, swp_on_fst, swp_get. cbn [fst].
  assert (Hmss : 26 ≤ k_mss k < 2 ^ 30).
  { destruct Hi as [[_ Hm Hs _ _] _ _ _ _ _ _]. unfold IKCP_OVERHEAD in *. cbn in *. lia. }
  rewrite (proj2 (Z.leb_gt _ _)) by lia. rewrite (proj2 (Z.ltb_ge (Z.of_nat _) _)) by lia.
  eapply (swp_seq _ _ (λ r s', kcp_inv c L G s' ∧ send_frame k s'.1 ∧ r.2 = Z.of_nat (length r.1) ∧ r.2 < 2 ^ 31 ∧
    payload (k_snd_queue s'.1) ++ r.1 = payload (k_snd_queue k) ++ buffer ∧
    (k_stream k = 0 → s' = (k, a) ∧ r.1 = buffer))).
  { destruct (Z.eqb_spec (k_stream k) 0); [by wp_step; split_and!; [..|auto]|].
    eapply swp_mono; [by apply send_extend_inv|]. intros r s' (?&?&?&?&?). split_and!; try done. cbn in *. lia. }
  intros [b len] [k1 a1] (Hi1&Hf1&Hlen&Hlt&Hpay&Hmsg). cbn [fst snd] in *.
  destruct (negb (k_stream k =? 0) && (len <=? 0)) eqn:Hdone.
  { apply andb_true_iff in Hdone as [Hst%negb_true_iff%Z.eqb_neq Hle%Z.leb_le]. wp_step.
    split_and!; try done. left. split; [done|]. rewrite <-Hpay. destruct b; [by rewrite app_nil_r|cbn in *; lia]. }
  rewrite (i32_id (k_mss k)) by word. rewrite (u32_id (len + k_mss k - 1)) by word.
  assert (0 ≤ (len + k_mss k - 1) / k_mss k < 2 ^ 31) by (Z.div_mod_to_equations; nia).
  rewrite (u32_id (_ / _)), (i32_id (_ / _)) by word. fold (frag_count (k_mss k) len). cbv zeta.
  destruct (frag_count_bounds (k_mss k) len) as [Hc1 Hc2]; [lia|lia|].
  destruct (Z.leb_spec IKCP_WND_RCV (frag_count (k_mss k) len)) as [Hbig|Hsmall].
  { wp_step. split_and!; try done; [auto|]. intros Hst. destruct (Hmsg Hst) as [[= -> ->] ->].
    rewrite <-Hlen, (proj2 (Z.ltb_ge _ _)) by done. done. }
  rewrite (proj2 (Z.eqb_neq _ 0)) by lia. destruct Hf1 as [? ? Hst1 ? Hmss1 ? ?].
  eapply swp_seq; [apply (send_loop_inv _ 0 _ _ _ _ Hi1); cbn [fst]; try done; rewrite ?Hmss1; lia|].
  intros [] s' (Hi'&Hf'&segs&Hq&Hp&Hfr). wp_step. cbn [fst] in *. split_and!; [done| | |].
  - eapply send_frame_trans; [|exact Hf']. done.
  - left. split; [done|]. rewrite Hq. unfold payload in *. rewrite fmap_app, join_app, Hp. done.
  - intros Hst. destruct (Hmsg Hst) as [[= -> ->] ->]. rewrite <-Hlen, (proj2 (Z.ltb_lt _ _)) by done.
    split; [done|]. rewrite Hq, fmap_app, Hfr by done. done.
Qed.
End send.
