(* ===== verification/KcpFlushInv.v ===== *)
(** KCP: ikcp_flush and ikcp_update keep the invariant of KcpInv: every datagram
    they hand to the output callback is at most mtu bytes long, is assembled
    within the buffer, and holds segments the receiver can read back; what they
    number comes from snd_queue in order. *)
From S2P Require Import Prelude KvMem KcpBase KcpCb KcpAck KcpData KcpInput KcpFlush KcpInv.

(** What the pass over one kind of segments leaves alone; [w] are the datagrams
    that became full meanwhile. *)
Record flush_frame (k k' : ikcpcb) : Prop := {
  ff_conv : k_conv k' = k_conv k;
  ff_stream : k_stream k' = k_stream k;
  ff_mtu : k_mtu k' = k_mtu k;
  ff_base : rcv_base k' = rcv_base k;
  ff_queue : k_snd_queue k' = k_snd_queue k;
  ff_ack : k_ackcount k' = k_ackcount k;
  ff_wire : ∃ w, k_wire k' = k_wire k ++ w ∧ Forall (λ d, 0 < Z.of_nat (length d) ≤ k_mtu k) w;
}.
Lemma flush_frame_refl k : flush_frame k k.
Proof. constructor; try done. exists []. by rewrite app_nil_r. Qed.
Lemma flush_frame_trans k1 k2 k3 : flush_frame k1 k2 → flush_frame k2 k3 → flush_frame k1 k3.
Proof.
  intros [? ? Hm ? ? ? (w1&Hw1&H1)] [? ? ? ? ? ? (w2&Hw2&H2)]. constructor; try congruence.
  exists (w1 ++ w2). rewrite Hw2, Hw1, app_assoc. split; [done|]. apply Forall_app. by rewrite Hm in H2.
Qed.
#[export] Hint Resolve flush_frame_refl flush_frame_trans : core.

Section flush.
Context (c : Z) (L : list frag) (G : Z → frag → Prop) (a : alloc).

(** Bytes pending in the buffer. *)
Definition acc_ok (k : ikcpcb) (acc : list Z) : Prop :=
  wire_ok (k_conv k) L acc ∧ Z.of_nat (length acc) ≤ k_mtu k.
Definition flush_to (k k' : ikcpcb) : Prop := kcp_inv c L G (k', a) ∧ flush_frame k k'.

Lemma acc_ok_nil k : kcp_inv c L G (k, a) → acc_ok k [].
Proof. intros [[? ?] ? ? ? ? ? ?]. split; [constructor|cbn in *; lia]. Qed.
Lemma flush_to_trans k1 k2 k3 : flush_to k1 k2 → flush_to k2 k3 → flush_to k1 k3.
Proof. intros [? ?] [? ?]. split; eauto. Qed.

Lemma flush_to_refl k : kcp_inv c L G (k, a) → flush_to k k.
Proof. by split. Qed.

Lemma output_inv acc k :
  kcp_inv c L G (k, a) → acc_ok k acc → swp (ikcp_output acc) (λ _ k', flush_to k k' ∧ k_snd_buf k' = k_snd_buf k ∧ k_mss k' = k_mss k) k.
Proof.
  intros Hi [Hw Hl]. unfold ikcp_output. wp_step.
  assert (k_output k = true) as -> by apply Hi. cbn [negb].
  destruct (Z.eqb_spec (Z.of_nat (length acc)) 0); wp_step; [by split; [apply flush_to_refl|]|].
  split; [split|done].
  - inv_open Hi. inv_close. apply Forall_app. split; [done|by apply Forall_singleton].
  - constructor; try done. exists [acc]. split; [done|]. apply Forall_singleton. lia.
Qed.

Lemma make_room_inv need acc k :
  kcp_inv c L G (k, a) → acc_ok k acc → 0 ≤ need ≤ k_mtu k →
  swp (make_room need acc)
    (λ acc' k', flush_to k k' ∧ acc_ok k' acc' ∧ Z.of_nat (length acc') + need ≤ k_mtu k' ∧
       k_snd_buf k' = k_snd_buf k ∧ k_mss k' = k_mss k) k.
Proof.
  intros Hi Hacc Hneed. unfold make_room. wp_step.
  assert (Hm : 50 ≤ k_mtu k < 2 ^ 30) by apply Hi. rewrite (i32_id (k_mtu k)) by word.
  destruct (Z.ltb_spec (k_mtu k) (Z.of_nat (length acc) + need)).
  - wp_step. eapply swp_mono; [by apply output_inv|]. intros [] k' [[Hi' Hf] Hb]. wp_step.
    split; [done|]. split; [by apply acc_ok_nil|]. split; [|done]. destruct Hf as [_ _ -> _ _ _ _]. cbn. lia.
  - wp_step. by split_and!.
Qed.

Lemma put_bytes_spec acc bs k :
  kcp_inv c L G (k, a) → Z.of_nat (length (acc ++ bs)) ≤ k_mtu k → put_bytes acc bs k = Ok (acc ++ bs, k).
Proof.
  intros [[_ _ _ (cap&Hcap&Hle) _] _ _ _ _ _ _] Hlen. unfold put_bytes, bind. cbn in *. rewrite Hcap.
  by rewrite (proj2 (Z.ltb_ge _ _)) by lia.
Qed.
Lemma swp_put_bytes acc bs k (Q : list Z → ikcpcb → Prop) :
  kcp_inv c L G (k, a) → Z.of_nat (length (acc ++ bs)) ≤ k_mtu k → Q (acc ++ bs) k → swp (put_bytes acc bs) Q k.
Proof. intros. unfold swp. by rewrite put_bytes_spec. Qed.

(** A segment without data: an acknowledgement or a window command. *)
Record seg_ctl (k : ikcpcb) (s : IKCPSEG) : Prop := {
  ctl_conv : s_conv s = k_conv k;
  ctl_cmd : s_cmd s = IKCP_CMD_ACK ∨ s_cmd s = IKCP_CMD_WASK ∨ s_cmd s = IKCP_CMD_WINS;
  ctl_len : s_len s = 0;
}.
Lemma put_ctl_inv seg acc k :
  kcp_inv c L G (k, a) → acc_ok k acc → seg_ctl k seg → Z.of_nat (length acc) + IKCP_OVERHEAD ≤ k_mtu k →
  swp (put_bytes acc (ikcp_encode_seg seg)) (λ acc' k', k' = k ∧ acc_ok k acc') k.
Proof.
  intros Hi [Hw Hl] [Hconv Hcmd Hlen] Hroom.
  assert (Hlen' : Z.of_nat (length (acc ++ ikcp_encode_seg seg)) ≤ k_mtu k).
  { rewrite length_app, length_encode_seg. unfold IKCP_OVERHEAD in *. lia. }
  apply swp_put_bytes; [done|done|]. split; [done|]. split; [|done].
  apply dgram_app; [done|]. rewrite <-(app_nil_r (ikcp_encode_seg seg)). apply dgram_one; [|by rewrite Hlen].
  split; [cbn; rewrite Hconv; apply u32_id, Hi|]. cbn. by destruct Hcmd as [Hx|[Hx|Hx]]; rewrite Hx.
Qed.

Lemma ack_get_spec i k :
  ack_inv k → 0 ≤ i < k_ackcount k → ∃ x, ikcp_ack_get i k = Ok (x, k).
Proof.
  intros [Hc Hb Hl] Hi. unfold ikcp_ack_get, bind, from_opt. cbn.
  destruct (k_acklist k) as [l|]; [|lia]. destruct Hl as [_ Hw].
  destruct (Hw (Z.to_nat (2 * i))) as [x Hx]; [lia|]. destruct (Hw (Z.to_nat (2 * i + 1))) as [y Hy]; [lia|].
  destruct (l !! Z.to_nat (2 * i)) as [[?|]|]; try discriminate Hx.
  destruct (l !! Z.to_nat (2 * i + 1)) as [[?|]|]; try discriminate Hy. cbn. eauto.
Qed.

Lemma seg_ctl_frame k k' s : flush_frame k k' → seg_ctl k s → seg_ctl k' s.
Proof. intros [Hc _ _ _ _ _ _] []. constructor; try done. congruence. Qed.

Lemma flush_acks_inv n i seg acc k :
  kcp_inv c L G (k, a) → acc_ok k acc → seg_ctl k seg → 0 ≤ i → i + Z.of_nat n ≤ k_ackcount k →
  swp (flush_acks n i seg acc)
    (λ r k', flush_to k k' ∧ acc_ok k' r.2 ∧ seg_ctl k' r.1) k.
Proof.
  revert i seg acc k. induction n as [|n IH]; intros i seg acc k Hi Hacc Hseg Hi0 Hn; cbn [flush_acks].
  { wp_step. by split_and!. }
  eapply swp_seq; [apply make_room_inv; [done|done|]|].
  { destruct Hi as [[_ Hm _ _ _] _ _ _ _ _ _]. unfold IKCP_OVERHEAD. cbn in *. lia. }
  intros acc1 k1 ([Hi1 Hf1]&Hacc1&Hroom&_). rewrite swp_bind. unfold swp at 1.
  destruct (ack_get_spec i k1) as [[sn ts] ->]; [apply Hi1|destruct Hf1; lia|].
  set (seg' := mk_seg _ _ _ _ _ _ _ _ _ _ _ _ _).
  assert (Hseg' : seg_ctl k1 seg'). { apply (seg_ctl_frame _ _ _ Hf1) in Hseg as []. by constructor. }
  eapply swp_seq; [by apply put_ctl_inv|]. intros acc2 ? [-> Hacc2].
  eapply swp_mono; [apply IH; try done; [lia|destruct Hf1; lia]|].
  intros [seg3 acc3] k3 (H3&?&?). split_and!; [|done..]. eapply flush_to_trans; [|exact H3]. done.
Qed.

Lemma flush_probe_inv bit cmd seg acc k :
  cmd = IKCP_CMD_WASK ∨ cmd = IKCP_CMD_WINS →
  kcp_inv c L G (k, a) → acc_ok k acc → seg_ctl k seg →
  swp (flush_probe bit cmd seg acc)
    (λ r k', flush_to k k' ∧ acc_ok k' r.2 ∧ seg_ctl k' r.1) k.
Proof.
  intros Hcmd Hi Hacc Hseg. unfold flush_probe. rewrite swp_bind, swp_get.
  destruct (_ =? 0); [wp_step; split_and!; try done; apply flush_frame_refl|].
  eapply swp_seq; [apply make_room_inv; [done|done|]|].
  { destruct Hi as [[_ Hm _ _ _] _ _ _ _ _ _]. unfold IKCP_OVERHEAD. cbn in *. lia. }
  intros acc1 k1 ([Hi1 Hf1]&Hacc1&Hroom&_).
  assert (Hseg' : seg_ctl k1 (set_s_cmd cmd seg)).
  { apply (seg_ctl_frame _ _ _ Hf1) in Hseg as []. constructor; cbn; auto. }
  eapply swp_seq; [by apply put_ctl_inv|]. intros acc2 ? [-> Hacc2]. wp_step. by split_and!.
Qed.
End flush.

(** ** Numbering *)

Definition frags (q : list IKCPSEG) : list frag := seg_frag <$> q.

Section move.
Context (c : Z) (G : Z → frag → Prop) (a : alloc).

Definition numbered (k : ikcpcb) (wnd current : Z) (seg : IKCPSEG) : IKCPSEG :=
  mk_seg (k_conv k) IKCP_CMD_PUSH (s_frg seg) wnd current (k_snd_nxt k) (k_rcv_nxt k)
    (s_len seg) current (u32 (k_rx_rto k)) 0 0 (s_data seg).
Lemma seg_sent_mono conv L L' s : L `prefix_of` L' → seg_sent conv L s → seg_sent conv L' s.
Proof. intros ? []. constructor; try done. by eapply pushed_mono. Qed.

Lemma number_one_inv L k wnd current seg q :
  kcp_inv c L G (k, a) → k_snd_queue k = seg :: q →
  kcp_inv c (L ++ [seg_frag seg]) G
    (set_snd_nxt (u32 (k_snd_nxt k + 1)) (set_nsnd_buf (u32 (k_nsnd_buf k + 1))
       (set_nsnd_que (u32 (k_nsnd_que k - 1)) (set_snd_buf (k_snd_buf k ++ [numbered k wnd current seg])
       (set_snd_queue q k)))), a).
Proof.
  intros Hi Hq. inv_open Hi. rewrite Hq in Hsq, Hcsq. apply Forall_cons in Hsq as [Hseg Hsq].
  assert (HL : L `prefix_of` L ++ [seg_frag seg]) by by eexists.
  inv_close.
  - rewrite Hnxt, length_app. cbn. word.
  - apply Forall_app. split; [done|]. apply Forall_singleton. by destruct Hseg.
  - apply Forall_app. split; [eapply Forall_impl; [done|]; intros ?; by apply seg_sent_mono|].
    apply Forall_singleton. constructor; [done|done|]. exists (length L). cbn. split; [|done].
    by rewrite lookup_app_r, Nat.sub_diag by lia.
  - eapply Forall_impl; [done|]. intros ?. by apply wire_ok_mono.
  - rewrite Hcsq. cbn. word.
  - rewrite Hcsb, length_app. cbn. word.
  - rewrite Hlive. unfold kcp_owned. cbn. rewrite Hq, length_app. cbn. lia.
Qed.

Record move_frame (k k' : ikcpcb) : Prop := {
  mf_conv : k_conv k' = k_conv k;
  mf_stream : k_stream k' = k_stream k;
  mf_mtu : k_mtu k' = k_mtu k;
  mf_base : rcv_base k' = rcv_base k;
  mf_ack : k_ackcount k' = k_ackcount k;
  mf_wire : k_wire k' = k_wire k;
}.

(** What leaves snd_queue is numbered in order. *)
Lemma move_snd_inv cwnd wnd current q L k :
  kcp_inv c L G (k, a) → k_snd_queue k = q →
  let k' := move_snd cwnd wnd current q k in
  ∃ m, q = m ++ k_snd_queue k' ∧ kcp_inv c (L ++ frags m) G (k', a) ∧ move_frame k k'.
Proof.
  cbv zeta. revert L k. induction q as [|seg q IH]; intros L k Hi Hq; cbn [move_snd].
  { exists []. rewrite Hq. cbn. by rewrite app_nil_r. }
  destruct (_ <? 0); [|exists []; cbn; by rewrite app_nil_r].
  destruct (IH _ _ (number_one_inv L k wnd current seg q Hi Hq)) as (m&Hm&Hi'&Hf'); [done|].
  exists (seg :: m). cbv zeta. fold (numbered k wnd current seg).
  split; [by rewrite Hm at 1|]. split; [by rewrite <-app_assoc in Hi'|by destruct Hf'].
Qed.
End move.

(** ** Data segments *)

(** Retransmission changes timers and counters only. *)
Definition same_data (s s' : IKCPSEG) : Prop :=
  s_conv s' = s_conv s ∧ s_cmd s' = s_cmd s ∧ s_frg s' = s_frg s ∧ s_sn s' = s_sn s ∧
  s_len s' = s_len s ∧ s_data s' = s_data s.
Lemma transmit_same k current resent rtomin s : same_data s (transmit k current resent rtomin s).2.
Proof.
  unfold transmit. destruct (_ =? 0); [done|]. destruct (0 <=? _); [done|]. destruct (_ <=? _); [|done].
  by destruct (_ || _).
Qed.

Section data.
Context (c : Z) (L : list frag) (G : Z → frag → Prop) (a : alloc).

Lemma replace_seg_inv k done_ s s' rest :
  k_snd_buf k = done_ ++ s :: rest → same_data s s' → kcp_inv c L G (k, a) →
  kcp_inv c L G (set_snd_buf (done_ ++ s' :: rest) k, a).
Proof.
  intros Hb (Hc&Hm&Hf&Hs&Hl&Hd) Hi. inv_open Hi. rewrite Hb in Hsf, Hss, Hcsb.
  apply Forall_app in Hsf as [? [[]%id ?]%Forall_cons]. apply Forall_app in Hss as [? [[]%id ?]%Forall_cons].
  inv_close.
  - apply Forall_app. split; [done|]. constructor; [|done]. constructor; by rewrite ?Hl, ?Hd, ?Hf.
  - apply Forall_app. split; [done|]. constructor; [|done]. unfold seg_frag in *. constructor; unfold seg_frag; by rewrite ?Hc, ?Hm, ?Hs, ?Hf, ?Hd.
  - rewrite Hcsb, !length_app. done.
  - rewrite Hlive. unfold kcp_owned. cbn. rewrite Hb, !length_app. done.
Qed.

(** A data segment in the buffer. *)
Lemma put_data_inv {A} seg acc k (rest : list Z → M ikcpcb A) (Q : A → ikcpcb → Prop) :
  kcp_inv c L G (k, a) → acc_ok L k acc → seg_fit (k_mss k) seg → seg_sent (k_conv k) L seg →
  Z.of_nat (length acc) + IKCP_OVERHEAD + s_len seg ≤ k_mtu k →
  (∀ acc', acc_ok L k acc' → swp (rest acc') Q k) →
  swp (acc ← put_bytes acc (ikcp_encode_seg seg);
       acc ← (if 0 <? s_len seg then put_bytes acc (take (Z.to_nat (s_len seg)) (s_data seg)) else ret acc);
       rest acc) Q k.
Proof.
  intros Hi [Hw Hl] [Hlen Hmss Hfrg] [Hconv Hcmd Hlog] Hroom Hrest.
  assert (Hhd : Z.of_nat (length (acc ++ ikcp_encode_seg seg)) = Z.of_nat (length acc) + IKCP_OVERHEAD).
  { rewrite length_app, length_encode_seg. unfold IKCP_OVERHEAD. lia. }
  rewrite swp_bind. eapply swp_put_bytes; [exact Hi|lia|].
  assert (Hacc' : acc_ok L k ((acc ++ ikcp_encode_seg seg) ++ s_data seg)).
  { split; [|rewrite length_app; lia]. rewrite <-app_assoc. apply dgram_app; [done|].
    assert (k_mtu k < 2 ^ 30) by apply Hi. unfold IKCP_OVERHEAD in *.
    apply dgram_one; [|rewrite u32_id; [done|word]].
    split; cbn; [rewrite Hconv; apply u32_id, Hi|]. intros _. unfold IKCP_WND_RCV in *.
    rewrite (u8_id (s_frg seg)) by word. destruct Hlog as (i&?&Hsn). exists i. by rewrite Hsn, u32_u32. }
  rewrite Hlen, Nat2Z.id, take_ge by done. rewrite swp_bind.
  destruct (Z.ltb_spec 0 (Z.of_nat (length (s_data seg)))).
  - eapply swp_put_bytes; [exact Hi|rewrite length_app; lia|by apply Hrest].
  - rewrite swp_ret. apply Hrest. destruct (s_data seg); [by rewrite app_nil_r in Hacc'|cbn in *; lia].
Qed.

Lemma set_xmit_inv v k : kcp_inv c L G (k, a) → kcp_inv c L G (set_xmit v k, a).
Proof. intros Hi. inv_open Hi. inv_close. Qed.
Lemma set_state_inv v k : kcp_inv c L G (k, a) → kcp_inv c L G (set_state v k, a).
Proof. intros Hi. inv_open Hi. inv_close. Qed.

(** Appending a segment that is due, in a fresh datagram if it does not fit. *)
Lemma emit_inv seg acc k :
  kcp_inv c L G (k, a) → acc_ok L k acc → seg_fit (k_mss k) seg → seg_sent (k_conv k) L seg →
  swp (acc ← make_room (i32 (u32 (IKCP_OVERHEAD + s_len seg))) acc;
       acc ← put_bytes acc (ikcp_encode_seg seg);
       acc ← (if 0 <? s_len seg then put_bytes acc (take (Z.to_nat (s_len seg)) (s_data seg)) else ret acc);
       modify (λ k, if k_dead_link k <=? s_xmit seg then set_state (2 ^ 32 - 1) k else k);;
       ret acc)
    (λ acc' k', flush_to c L G a k k' ∧ acc_ok L k' acc' ∧ k_snd_buf k' = k_snd_buf k) k.
Proof.
  intros Hi Hacc Hfit Hsent. assert (Hm : 50 ≤ k_mtu k < 2 ^ 30) by apply Hi.
  assert (Hmss : k_mss k = k_mtu k - IKCP_OVERHEAD) by apply Hi. unfold IKCP_OVERHEAD in Hmss.
  assert (Hneed : i32 (u32 (IKCP_OVERHEAD + s_len seg)) = IKCP_OVERHEAD + s_len seg).
  { destruct Hfit. unfold IKCP_OVERHEAD. rewrite u32_id, i32_id by word. done. }
  rewrite Hneed. eapply swp_seq; [apply make_room_inv; [done|done|destruct Hfit; unfold IKCP_OVERHEAD; lia]|].
  intros acc1 k1 ([Hi1 Hf1]&Hacc1&Hroom&Hb1&Hm1). eapply put_data_inv; [exact Hi1|done|by rewrite Hm1| |lia|].
  { by destruct Hf1 as [-> _ _ _ _ _ _]. }
  intros acc2 Hacc2. wp_step. destruct (_ <=? _); [|done].
  split; [split; [by apply set_state_inv|]|by split].
  eapply flush_frame_trans; [exact Hf1|]. constructor; try done. exists []. cbn. by rewrite app_nil_r.
Qed.

Lemma flush_data_inv wnd current resent rtomin done_ buf acc lost change k :
  kcp_inv c L G (k, a) → acc_ok L k acc → k_snd_buf k = done_ ++ buf →
  swp (flush_data wnd current resent rtomin done_ buf acc lost change)
    (λ r k', flush_to c L G a k k' ∧ acc_ok L k' r.1.1) k.
Proof.
  revert done_ acc lost change k. induction buf as [|seg rest IH]; intros done_ acc lost change k Hi Hacc Hb; cbn [flush_data].
  { wp_step. split; [|done]. by split. }
  rewrite swp_bind, swp_get.
  pose proof (transmit_same k current resent rtomin seg) as Hsame.
  destruct (transmit k current resent rtomin seg) as [why seg1]. cbn [snd] in Hsame.
  set (k1 := if why is XTimeout then _ else k).
  set (seg2 := if why is XNone then seg1 else _).
  assert (Hsame2 : same_data seg seg2) by (subst seg2; by destruct why).
  assert (Hb1 : k_snd_buf k1 = done_ ++ seg :: rest) by (subst k1; by destruct why).
  assert (Hi1 : kcp_inv c L G (k1, a)) by (subst k1; destruct why; auto using set_xmit_inv).
  assert (Hf1 : flush_frame k k1). { subst k1. destruct why; auto. constructor; try done. exists []. cbn. by rewrite app_nil_r. }
  cbv zeta. rewrite swp_bind, swp_put. set (k2 := set_snd_buf (done_ ++ seg2 :: rest) k1).
  assert (Hi2 : kcp_inv c L G (k2, a)) by (by eapply replace_seg_inv).
  assert (Hf2 : flush_frame k k2).
  { eapply flush_frame_trans; [exact Hf1|]. constructor; try done. exists []. cbn. by rewrite app_nil_r. }
  assert (Hseg : seg_fit (k_mss k2) seg2 ∧ seg_sent (k_conv k2) L seg2).
  { destruct Hi2 as [_ [_ _ Hs1 Hs2 _] _ _ _ _ _]. cbn in Hs1, Hs2.
    apply Forall_app in Hs1 as [_ Hs1%Forall_inv]. by apply Forall_app in Hs2 as [_ Hs2%Forall_inv]. }
  assert (Hacc2 : acc_ok L k2 acc) by (destruct Hacc, Hf2; split; congruence).
  clearbody k1. eapply (swp_seq _ _ (λ acc' k', flush_to c L G a k2 k' ∧ acc_ok L k' acc' ∧ k_snd_buf k' = k_snd_buf k2)).
  { clearbody seg2. destruct Hseg. destruct why; [wp_step; by split; [apply flush_to_refl|]|by apply emit_inv..]. }
  intros acc3 k3 ([Hi3 Hf3]&Hacc3&Hb3).
  eapply swp_mono; [apply IH; [done|done|]|].
  { rewrite Hb3. cbn. by rewrite <-app_assoc. }
  intros r k4 [[Hi4 Hf4] Hacc4]. split; [split|]; eauto.
Qed.
End data.

(** ** The whole pass *)

(** What a flush leaves alone, and the datagrams [w] it sends. *)
Record flushed (k k' : ikcpcb) : Prop := {
  fl_conv : k_conv k' = k_conv k;
  fl_stream : k_stream k' = k_stream k;
  fl_mtu : k_mtu k' = k_mtu k;
  fl_base : rcv_base k' = rcv_base k;
  fl_ack : k_ackcount k' ≤ k_ackcount k;
  fl_wire : ∃ w, k_wire k' = k_wire k ++ w ∧ Forall (λ d, 0 < Z.of_nat (length d) ≤ k_mtu k) w;
}.
Lemma flushed_trans k1 k2 k3 : flushed k1 k2 → flushed k2 k3 → flushed k1 k3.
Proof.
  intros [? ? Hm ? ? (w1&Hw1&H1)] [? ? ? ? ? (w2&Hw2&H2)]. constructor; try congruence; try lia.
  exists (w1 ++ w2). rewrite Hw2, Hw1, app_assoc. split; [done|]. apply Forall_app. by rewrite Hm in H2.
Qed.
Lemma frame_flushed k k' : flush_frame k k' → flushed k k'.
Proof. intros []. constructor; try done. lia. Qed.
Lemma quiet_flushed k k' :
  k_conv k' = k_conv k → k_stream k' = k_stream k → k_mtu k' = k_mtu k → rcv_base k' = rcv_base k →
  k_ackcount k' ≤ k_ackcount k → k_wire k' = k_wire k → flushed k k'.
Proof. intros ? ? ? ? ? Hw. constructor; try done. exists []. by rewrite Hw, app_nil_r. Qed.

Section pass.
Context (c : Z) (L : list frag) (G : Z → frag → Prop) (a : alloc).

Definition flush_result (k k' : ikcpcb) : Prop :=
  ∃ m, k_snd_queue k = m ++ k_snd_queue k' ∧ kcp_inv c (L ++ frags m) G (k', a) ∧ flushed k k'.
Lemma flush_result_refl k : kcp_inv c L G (k, a) → flush_result k k.
Proof. intros. exists []. rewrite app_nil_r. split_and!; try done. by apply quiet_flushed. Qed.

Lemma reset_ack_inv k : kcp_inv c L G (k, a) → kcp_inv c L G (set_ackcount 0 k, a) ∧ flushed k (set_ackcount 0 k).
Proof.
  intros Hi. inv_open Hi. split; [|apply quiet_flushed; cbn; (done || lia)]. inv_close; [lia|].
  destruct (k_acklist k); [|done]. split; [apply Hal|]. intros i ?. cbn in *. lia.
Qed.
Lemma probe_clock_inv k :
  kcp_inv c L G (k, a) →
  kcp_inv c L G (probe_clock k, a) ∧ flushed k (probe_clock k) ∧ k_snd_queue (probe_clock k) = k_snd_queue k.
Proof.
  intros Hi. unfold probe_clock.
  repeat match goal with |- context [if ?b then _ else _] => destruct b end;
    (split; [inv_open Hi; inv_close|split; [by apply quiet_flushed|done]]).
Qed.
Lemma flush_cc_inv L' cwnd resent lost change k :
  kcp_inv c L' G (k, a) →
  kcp_inv c L' G (flush_cc cwnd resent lost change k, a) ∧ flushed k (flush_cc cwnd resent lost change k) ∧
  k_snd_queue (flush_cc cwnd resent lost change k) = k_snd_queue k.
Proof.
  intros Hi. unfold flush_cc. destruct change, lost; cbv zeta;
  repeat match goal with |- context [if ?b then _ else _] => destruct b end;
    (split; [inv_open Hi; inv_close|split; [by apply quiet_flushed|done]]).
Qed.

Lemma ikcp_flush_inv k : kcp_inv c L G (k, a) → swp ikcp_flush (λ _ k', flush_result k k') k.
Proof.
  intros Hi. unfold ikcp_flush. rewrite swp_bind, swp_get. cbv zeta.
  destruct (k_updated k =? 0); [by apply flush_result_refl|].
  assert (Hack : 0 ≤ k_ackcount k < 2 ^ 31) by (destruct Hi as [_ _ [] _ _ _ _]; cbn in *; lia).
  set (seg := mk_seg _ _ _ _ _ _ _ _ _ _ _ _ _). assert (Hseg : seg_ctl k seg) by (constructor; auto).
  rewrite (i32_id (k_ackcount k)) by word.
  eapply swp_seq; [apply (flush_acks_inv c L G a); [done|by eapply acc_ok_nil|done|done|lia]|].
  intros [seg1 acc1] k1 ([Hi1 Hf1]&Hacc1&Hs1). cbn [fst snd] in *. rewrite swp_bind, swp_modify, swp_bind, swp_modify.
  destruct (reset_ack_inv k1 Hi1) as [Hi2 Hf2]. destruct (probe_clock_inv _ Hi2) as (Hi3&Hf3&Hq3).
  assert (Hacc3 : acc_ok L (probe_clock (set_ackcount 0 k1)) acc1).
  { destruct Hf2 as [Hx _ Hy _ _ _], Hf3 as [Hx' _ Hy' _ _ _], Hacc1. split; congruence. }
  assert (Hs3 : seg_ctl (probe_clock (set_ackcount 0 k1)) seg1).
  { destruct Hs1. constructor; try done. destruct Hf2, Hf3. congruence. }
  eapply swp_seq; [by eapply flush_probe_inv; [left|..]|]. intros [seg4 acc4] k4 ([Hi4 Hf4]&Hacc4&Hs4). cbn [fst snd] in *.
  eapply swp_seq; [by eapply flush_probe_inv; [right|..]|]. intros [seg5 acc5] k5 ([Hi5 Hf5]&Hacc5&Hs5). cbn [fst snd] in *.
  rewrite swp_bind, swp_modify, swp_bind, swp_get, swp_bind, swp_put.
  set (k6 := set_probe 0 k5). assert (Hi6 : kcp_inv c L G (k6, a)) by (inv_open Hi5; inv_close).
  set (cwnd := if k_nocwnd k6 =? 0 then _ else _).
  set (wnd := u32 (ikcp_wnd_unused k)).
  destruct (move_snd_inv c G a cwnd wnd (k_current k) (k_snd_queue k6) L k6 Hi6 eq_refl) as (m&Hq&Hi7&Hf7).
  set (k7 := move_snd _ _ _ _ k6) in *. rewrite swp_bind, swp_get.
  assert (Hacc7 : acc_ok (L ++ frags m) k7 acc5).
  { destruct Hf7 as [Hx _ Hy _ _ _], Hacc5 as [Hw Hl]. split; [|rewrite Hy; done]. rewrite Hx.
    eapply wire_ok_mono; [|exact Hw]. by eexists. }
  eapply swp_seq; [by apply (flush_data_inv c (L ++ frags m) G a _ _ _ _ [])|].
  intros [[acc8 lost] change] k8 ([Hi8 Hf8]&Hacc8). cbn [fst] in Hacc8.
  eapply (swp_seq _ _ (λ _ k', flush_to c (L ++ frags m) G a k8 k')).
  { destruct (0 <? _); [|by apply flush_to_refl].
    eapply swp_mono; [by apply (output_inv c (L ++ frags m) G a)|]. by intros [] k' [? _]. }
  intros [] k9 [Hi9 Hf9]. rewrite swp_modify.
  destruct (flush_cc_inv (L ++ frags m) cwnd (if 0 <? k_fastresend k7 then u32 (k_fastresend k7) else 2 ^ 32 - 1)
    lost change k9 Hi9) as (Hi10&Hf10&Hq10).
  exists m. split_and!; [|exact Hi10|].
  - rewrite Hq10. destruct Hf9 as [_ _ _ _ -> _ _], Hf8 as [_ _ _ _ -> _ _]. rewrite <-Hq.
    cbn. destruct Hf5 as [_ _ _ _ -> _ _], Hf4 as [_ _ _ _ -> _ _]. rewrite Hq3. cbn.
    by destruct Hf1 as [_ _ _ _ -> _ _].
  - assert (H67 : flushed k5 k7). { destruct Hf7 as [? ? ? ? Hx ?]. apply quiet_flushed; try done. by rewrite Hx. }
    apply frame_flushed in Hf1, Hf4, Hf5, Hf8, Hf9.
    do 3 (eapply flushed_trans; [eassumption|]). do 3 (eapply flushed_trans; [eassumption|]).
    do 2 (eapply flushed_trans; [eassumption|]). exact Hf10.
Qed.

Lemma ikcp_update_inv current k : kcp_inv c L G (k, a) → swp (ikcp_update current) (λ _ k', flush_result k k') k.
Proof.
  intros Hi. unfold ikcp_update. wp_step. cbv zeta.
  assert (Hquiet : ∀ k' : ikcpcb, kcp_inv c L G (k', a) → flushed k k' → k_snd_queue k' = k_snd_queue k →
    ∀ m : M ikcpcb unit, m = ikcp_flush ∨ m = ret () → swp m (λ _, flush_result k) k').
  { intros k' Hi' Hf' Hq' m [->| ->].
    - eapply swp_mono; [by apply ikcp_flush_inv|]. intros [] k'' (q&Hq&Hi''&Hf''). exists q. rewrite <-Hq'.
      split_and!; try done. by eapply flushed_trans.
    - wp_step. exists []. rewrite app_nil_r. by rewrite Hq'. }
  set (k1 := if k_updated _ =? 0 then _ else _).
  assert (H1 : kcp_inv c L G (k1, a) ∧ flushed k k1 ∧ k_snd_queue k1 = k_snd_queue k).
  { subst k1. destruct (_ =? 0); (split; [inv_open Hi; inv_close|split; [by apply quiet_flushed|done]]). }
  destruct H1 as (Hi1&Hf1&Hq1). clearbody k1.
  set (k2 := if _ || _ then set_ts_flush _ k1 else k1).
  assert (H2 : kcp_inv c L G (k2, a) ∧ flushed k k2 ∧ k_snd_queue k2 = k_snd_queue k).
  { subst k2. destruct (_ || _); [|done]. split; [inv_open Hi1; inv_close|split; [|done]].
    eapply flushed_trans; [exact Hf1|]. by apply quiet_flushed. }
  destruct H2 as (Hi2&Hf2&Hq2). clearbody k2.
  destruct (0 <=? _); [|apply Hquiet; auto]. wp_step.
  apply Hquiet; [| | |by left].
  - destruct (0 <=? _); inv_open Hi2; inv_close.
  - eapply flushed_trans; [exact Hf2|]. destruct (0 <=? _); by apply quiet_flushed.
  - by destruct (0 <=? _).
Qed.
End pass.
