(* ===== verification/KcpSession.v ===== *)
(** KCP: sessions of one control block, from ikcp_create to ikcp_release, under
    any sequence of calls and any bytes from the network. *)
From S2P Require Import Prelude KvMem KcpBase KcpCb KcpAck KcpData KcpInput KcpFlush.
From S2P Require Import KcpInv KcpRecvInv KcpSendInv KcpFlushInv.

(** ** Calls *)

Inductive kcp_op : Type :=
| OSend (buffer : list Z) | ORecv (len : Z) | OInput (data : option (list Z))
| OUpdate (current : Z) | OFlush | OPeek
| OInterval (interval : Z) | ONodelay (nodelay interval resend nc : Z) | OWndsize (sndwnd rcvwnd : Z).

(** The int a call returns and the bytes it copies out. *)
Definition kcp_do (o : kcp_op) : M kst (Z * list Z) :=
  match o with
  | OSend buffer => r ← ikcp_send buffer (Z.of_nat (length buffer)); ret (r, [])
  | ORecv len => ikcp_recv len
  | OInput data => r ← ikcp_input data; ret (r, [])
  | OUpdate current => on_fst (ikcp_update current);; ret (0, [])
  | OFlush => on_fst ikcp_flush;; ret (0, [])
  | OPeek => r ← on_fst (gets ikcp_peeksize); ret (r, [])
  | OInterval i => r ← on_fst (ikcp_interval i); ret (r, [])
  | ONodelay n i r c => r ← on_fst (ikcp_nodelay n i r c); ret (r, [])
  | OWndsize s r => r ← on_fst (ikcp_wndsize s r); ret (r, [])
  end.
Fixpoint kcp_run (os : list kcp_op) : M kst (list (Z * list Z)) :=
  match os with
  | [] => ret []
  | o :: os => r ← kcp_do o; rs ← kcp_run os; ret (r :: rs)
  end.

(** Run code on a control block of its own, which is lost afterwards. *)
Definition with_kcp {A} (k : ikcpcb) (m : M kst A) : M alloc (A * ikcpcb) := λ a,
  match m (k, a) with Ok (x, (k', a')) => Ok ((x, k'), a') | UB w => UB w | OutOfFuel => OutOfFuel end.

(** create; set the output callback, the mode and the mtu; calls; release.  The
    answers of the calls and the datagrams sent; nothing if create fails. *)
Definition kcp_session (conv mtu stream : Z) (os : list kcp_op) : M alloc (list (Z * list Z) * list (list Z)) :=
  kcp ← ikcp_create conv;
  match kcp with
  | None => ret ([], [])
  | Some k =>
      ' (rs, k) ← with_kcp k (on_fst ikcp_setoutput;; on_fst (modify (set_stream stream));;
                              ikcp_setmtu mtu;; kcp_run os);
      ikcp_release k;;
      ret (rs, k_wire k)
  end.

(** ** Configuration *)

Lemma swp_with_kcp {A} k (m : M kst A) Q a :
  swp m (λ x s, Q (x, s.1) s.2) (k, a) → swp (with_kcp k m) Q a.
Proof. unfold swp, with_kcp. by destruct (m (k, a)) as [[x [k' a']]| |]. Qed.

Section config.
Context (c : Z) (L : list frag) (G : Z → frag → Prop).

(** Parameters that the invariant does not mention. *)
Record config_frame (k k' : ikcpcb) : Prop := {
  cf_queue : k_snd_queue k' = k_snd_queue k;
  cf_wire : k_wire k' = k_wire k;
  cf_conv : k_conv k' = k_conv k;
  cf_stream : k_stream k' = k_stream k;
  cf_mtu : k_mtu k' = k_mtu k;
  cf_base : rcv_base k' = rcv_base k;
  cf_ack : k_ackcount k' = k_ackcount k;
}.
Lemma interval_inv i s :
  kcp_inv c L G s → swp (on_fst (ikcp_interval i)) (λ _ s', kcp_inv c L G s' ∧ config_frame s.1 s'.1) s.
Proof. destruct s as [k a]. intros Hi. unfold ikcp_interval. wp_step. split; [inv_open Hi; inv_close|done]. Qed.
Lemma nodelay_inv n i r nc s :
  kcp_inv c L G s → swp (on_fst (ikcp_nodelay n i r nc)) (λ _ s', kcp_inv c L G s' ∧ config_frame s.1 s'.1) s.
Proof.
  destruct s as [k a]. intros Hi. unfold ikcp_nodelay. wp_step.
  destruct (0 <=? n), (0 <=? i), (0 <=? r), (0 <=? nc); (split; [inv_open Hi; inv_close|done]).
Qed.
Lemma wndsize_inv sw rw s :
  kcp_inv c L G s → swp (on_fst (ikcp_wndsize sw rw)) (λ _ s', kcp_inv c L G s' ∧ config_frame s.1 s'.1) s.
Proof.
  destruct s as [k a]. intros Hi. unfold ikcp_wndsize. wp_step.
  destruct (0 <? sw), (0 <? rw); (split; [inv_open Hi; inv_close|done]).
Qed.
End config.

(** Opening a block: the invariant holds with nothing numbered and nothing
    received. *)
Definition kcp_open (stream mtu : Z) : M kst Z :=
  on_fst ikcp_setoutput;; on_fst (modify (set_stream stream));; ikcp_setmtu mtu.

Definition opened (conv mtu stream : Z) (k : ikcpcb) : Prop :=
  k_snd_queue k = [] ∧ k_wire k = [] ∧ k_conv k = conv ∧ k_stream k = stream ∧ k_mtu k = mtu ∧
  rcv_base k = 0 ∧ k_ackcount k = 0.
Lemma create_inv conv mtu stream G a :
  is_u32 conv → 50 ≤ mtu < 2 ^ 30 → supplied a →
  swp (ikcp_create conv)
    (λ k a', ∃ k0, k = Some k0 ∧
       swp (kcp_open stream mtu) (λ r s, r = 0 ∧ kcp_inv (al_live a) [] G s ∧ opened conv mtu stream s.1) (k0, a')) a.
Proof.
  intros Hconv Hmtu Ha. unfold ikcp_create. rewrite swp_bind. apply swp_malloc; [done|]. intros a1 Ha1 Hl1. cbn [negb].
  rewrite swp_bind. apply swp_malloc; [done|]. intros a2 Ha2 Hl2. cbn [negb]. rewrite swp_ret. eexists. split; [done|].
  unfold kcp_open, ikcp_setoutput. wp_step. unfold ikcp_setmtu.
  rewrite (proj2 (Z.ltb_ge mtu 50)), (proj2 (Z.ltb_ge mtu IKCP_OVERHEAD)) by (unfold IKCP_OVERHEAD; lia).
  cbn [orb]. rewrite swp_bind, swp_on_snd. apply swp_malloc; [done|]. intros a3 Ha3 Hl3. cbn [negb]. wp_step.
  split; [done|]. split; [|done]. inv_close.
  - unfold IKCP_OVERHEAD. rewrite u32_id by word. done.
  - eexists. split; [done|]. unfold IKCP_OVERHEAD. word.
  - unfold kcp_owned. cbn. lia.
Qed.

Lemma delete_all_spec q a :
  swp (delete_all q) (λ _ a', al_live a' = al_live a - Z.of_nat (length q)) a.
Proof.
  revert a. induction q as [|s q IH]; intros a; cbn [delete_all].
  { wp_step. cbn. lia. }
  wp_step. eapply swp_mono; [apply IH|]. cbn. intros _ a' ->. lia.
Qed.
Lemma release_spec k a : swp (ikcp_release k) (λ _ a', al_live a' = al_live a - kcp_owned k) a.
Proof.
  unfold ikcp_release.
  do 4 (eapply swp_seq; [apply delete_all_spec|]; intros [] ? ?).
  destruct (k_buffer k) eqn:Hb, (k_acklist k) eqn:Hl; wp_step; unfold kcp_owned; rewrite Hb, Hl; cbn in *; lia.
Qed.

(** ** Any call keeps the invariant *)

(** Acknowledgements a call may queue, and calls with C-sized arguments. *)
Definition op_acks (o : kcp_op) : Z :=
  if o is OInput (Some d) then Z.of_nat (length d) / 24 else 0.
Definition op_ok (o : kcp_op) : Prop :=
  match o with
  | OSend b => Z.of_nat (length b) < 2 ^ 31
  | ORecv len => - 2 ^ 31 < len < 2 ^ 31
  | _ => True
  end.
Abbreviation any_seg := (λ (_ : Z) (_ : frag), True).

Lemma op_acks_pos o : 0 ≤ op_acks o.
Proof. destruct o as [| |[d|]| | | | | |]; cbn; try lia. apply Z.div_pos; lia. Qed.

Definition safe_st (c mtu : Z) (n : Z) (s : kst) : Prop :=
  ∃ L, kcp_inv c L any_seg s ∧ k_mtu s.1 = mtu ∧ k_ackcount s.1 ≤ n ∧
    Forall (λ d, 0 < Z.of_nat (length d) ≤ mtu) (k_wire s.1).

Lemma kcp_do_safe c mtu n o s :
  safe_st c mtu n s → op_ok o → n + op_acks o ≤ 2 ^ 30 →
  swp (kcp_do o) (λ _, safe_st c mtu (n + op_acks o)) s.
Proof.
  destruct s as [k a]. intros (L&Hi&Hm&Hn&Hw) Hok Hacks. pose proof (op_acks_pos o) as Hpos.
  assert (Hquiet : ∀ s', kcp_inv c L any_seg s' ∧ config_frame k s'.1 → safe_st c mtu (n + op_acks o) s').
  { intros s' [Hi' [? Hw' ? ? Hm' ? Ha']]. exists L. cbn in *. rewrite Hw', Hm', Ha'. split_and!; try done; lia. }
  assert (Hflush : ∀ k', flush_result c L any_seg a k k' → safe_st c mtu (n + op_acks o) (k', a)).
  { intros k' (m&_&Hi'&[? ? Hm' ? Ha' (w&Hw'&Hlen)]). eexists. split; [exact Hi'|]. cbn in *.
    rewrite Hm', Hw', Hm in *. split_and!; try done; try lia. by apply Forall_app. }
  destruct o as [b|len|d|t| | |i|nd i r nc|sw rw]; cbn [kcp_do op_ok] in *.
  - eapply swp_seq; [by apply ikcp_send_inv|]. intros r s' (Hi'&[Hw' ? ? ? ? Ha' Hm']&_). wp_step.
    exists L. cbn in *. rewrite Hw', Hm', Ha'. split_and!; try done; lia.
  - eapply swp_mono; [by apply ikcp_recv_inv|]. intros [r b] s' (Hi'&[? Hw' ? ? Ha' Hm']&_).
    exists L. cbn in *. rewrite Hw', Hm'. split_and!; try done; lia.
  - assert (Hd : op_acks (OInput d) = Z.of_nat (length (default [] d)) / 24) by (by destruct d).
    rewrite Hd in *. eapply swp_seq; [apply (ikcp_input_inv c L any_seg); [done|cbn in *; lia|]|].
    { apply Forall_forall. done. }
    intros r s' [Hi' [? Hw' ? ? ? Ha' Hm']]. wp_step. exists L. cbn in *. rewrite Hw', Hm'. split_and!; try done; lia.
  - rewrite swp_bind, swp_on_fst. eapply swp_mono; [by apply ikcp_update_inv|]. intros [] k' Hf. wp_step. auto.
  - rewrite swp_bind, swp_on_fst. eapply swp_mono; [by apply ikcp_flush_inv|]. intros [] k' Hf. wp_step. auto.
  - wp_step. apply Hquiet. by split.
  - eapply swp_seq; [by apply interval_inv|]. intros r s' Hs. wp_step. auto.
  - eapply swp_seq; [by apply nodelay_inv|]. intros r' s' Hs. wp_step. auto.
  - eapply swp_seq; [by apply wndsize_inv|]. intros r s' Hs. wp_step. auto.
Qed.

Fixpoint run_acks (os : list kcp_op) : Z :=
  match os with [] => 0 | o :: os => op_acks o + run_acks os end.
Lemma run_acks_pos os : 0 ≤ run_acks os.
Proof. induction os as [|o os IH]; cbn; [done|]. pose proof (op_acks_pos o). lia. Qed.

Lemma kcp_run_safe c mtu n os s :
  safe_st c mtu n s → Forall op_ok os → n + run_acks os ≤ 2 ^ 30 →
  swp (kcp_run os) (λ _, safe_st c mtu (n + run_acks os)) s.
Proof.
  revert n s. induction os as [|o os IH]; intros n s Hs Hok Hacks; cbn [kcp_run run_acks] in *.
  { wp_step. by rewrite Z.add_0_r. }
  apply Forall_cons in Hok as [Hok1 Hok2]. pose proof (run_acks_pos os). rewrite Z.add_assoc in *.
  eapply swp_seq; [by apply (kcp_do_safe c mtu n); [..|lia]|]. intros r s1 Hs1.
  eapply swp_seq; [by apply (IH (n + op_acks o))|]. intros rs s2 Hs2. by wp_step.
Qed.

(** C13: A session of one control block, with any calls and any bytes from the
    network, never dereferences, indexes or asserts wrongly and never runs out of
    loop iterations: its only undefined behaviour is int overflow in the
    round-trip estimate of ikcp_update_ack.  It hands only datagrams of 1 to mtu bytes to the output
    callback, and ikcp_release returns every block the session took.  (malloc
    succeeds; messages are shorter than 2^31 bytes and the
    lengths given to ikcp_recv are of absolute value below 2^31; the bytes received have room
    for at most 2^30 segment headers.) *)
Theorem kcp_session_safe conv mtu stream os a :
  is_u32 conv → 50 ≤ mtu < 2 ^ 30 → supplied a → Forall op_ok os → run_acks os ≤ 2 ^ 30 →
  swp (kcp_session conv mtu stream os)
    (λ out a', al_live a' = al_live a ∧ Forall (λ d, 0 < Z.of_nat (length d) ≤ mtu) out.2) a.
Proof.
  intros Hconv Hmtu Ha Hok Hacks. unfold kcp_session.
  eapply swp_seq; [by apply (create_inv conv mtu stream any_seg)|]. intros ? a1 (k0&->&Hopen).
  eapply (swp_seq _ _ (λ rk a', al_live a' = kcp_owned rk.2 + al_live a ∧
    Forall (λ d, 0 < Z.of_nat (length d) ≤ mtu) (k_wire rk.2))).
  - apply swp_with_kcp. unfold kcp_open in Hopen. rewrite !swp_bind in Hopen. rewrite !swp_bind.
    eapply swp_mono; [exact Hopen|]. intros [] s1 H1. cbv beta in H1 |- *. rewrite swp_bind in H1. rewrite swp_bind.
    eapply swp_mono; [exact H1|]. intros [] s2 H2. cbv beta in H2 |- *. rewrite swp_bind.
    eapply swp_mono; [exact H2|]. intros r s3 (_&Hi&(_&Hw&_&_&Hm&_&Hac)). cbv beta.
    eapply swp_mono; [apply (kcp_run_safe (al_live a) mtu 0); [|done|done]|].
    + exists []. rewrite Hw, Hac. by split_and!.
    + intros rs s4 (L&Hi4&_&_&Hw4). cbn. split; [apply Hi4|done].
  - intros [rs k] a2 [Hl Hw]. cbn [fst snd] in *. eapply swp_seq; [apply release_spec|]. intros [] a3 Hl3.
    wp_step. split; [cbv beta in Hl3; lia|done].
Qed.

(** A session that sends 30 bytes through an mtu of 50, reads garbage and an
    acknowledgement of the first fragment. *)
Definition demo_ops : list kcp_op :=
  [OUpdate 0; OSend (replicate 30 7); OUpdate 100; OInput (Some (replicate 40 9)); OInput None;
   OInput (Some (ikcp_encode_seg (mk_seg 1 IKCP_CMD_ACK 0 128 100 0 1 0 0 0 0 0 []))); OUpdate 200; ORecv 100].
Lemma kcp_session_safe_witness :
  fst <$> match kcp_session 1 50 0 demo_ops (mk_alloc [] 0 []) with Ok (out, _) => Some (out.1, length <$> out.2) | _ => None end
    = Some [(0, []); (0, []); (0, []); (-1, []); (-1, []); (0, []); (0, []); (-1, [])] ∧
  swp (kcp_session 1 50 0 demo_ops)
    (λ out a', al_live a' = 0 ∧ Forall (λ d, 0 < Z.of_nat (length d) ≤ 50) out.2) (mk_alloc [] 0 []).
Proof.
  split; [vm_compute; reflexivity|].
  apply (kcp_session_safe 1 50 0 demo_ops (mk_alloc [] 0 [])); [done|done|by constructor| |vm_compute; discriminate].
  repeat constructor.
Defined.
