(* ===== verification/KcpNet.v ===== *)
(** KCP: two endpoints over a network that may lose, repeat, delay and reorder
    datagrams.  Whatever it does, each application reads the messages the other
    sent, whole and in order. *)
From S2P Require Import Prelude KvMem KcpBase KcpCb KcpAck KcpData KcpInput KcpFlush.
From S2P Require Import KcpInv KcpRecvInv KcpSendInv KcpFlushInv KcpSession.

(** ** Two endpoints *)

(** A control block, the messages its application sent with success and those it
    read. *)
Record endpoint : Type := mk_ep { ep_st : kst; ep_sent : list (list Z); ep_got : list (list Z) }.

(** [NDeliver i] delivers the [i]-th datagram the other side has output so far:
    a datagram never delivered is lost, one delivered twice is repeated. *)
Inductive net_ev : Type :=
| NSend (m : list Z) | NRecv (len : Z) | NUpdate (current : Z) | NDeliver (i : nat)
| NNodelay (nodelay interval resend nc : Z) | NWndsize (sndwnd rcvwnd : Z).

Definition ep_call (o : kcp_op) : M endpoint (Z * list Z) := λ ep,
  match kcp_do o (ep_st ep) with
  | Ok (r, st) => Ok (r, mk_ep st (ep_sent ep) (ep_got ep))
  | UB w => UB w | OutOfFuel => OutOfFuel
  end.
Definition ep_step (inbox : list (list Z)) (e : net_ev) : M endpoint unit :=
  match e with
  | NSend m =>
      r ← ep_call (OSend m);
      if r.1 =? 0 then modify (λ ep, mk_ep (ep_st ep) (ep_sent ep ++ [m]) (ep_got ep)) else ret ()
  | NRecv len =>
      r ← ep_call (ORecv len);
      if (r.1 <? 0) || (len <? 0) then ret ()
      else modify (λ ep, mk_ep (ep_st ep) (ep_sent ep) (ep_got ep ++ [r.2]))
  | NUpdate t => ep_call (OUpdate t);; ret ()
  | NDeliver i =>
      match inbox !! i with Some d => ep_call (OInput (Some d));; ret () | None => ret () end
  | NNodelay n i r c => ep_call (ONodelay n i r c);; ret ()
  | NWndsize s r => ep_call (OWndsize s r);; ret ()
  end.

(** The events of a run, each at one side ([true] the first endpoint). *)
Abbreviation net := (endpoint * endpoint)%type.
Definition outbox (ep : endpoint) : list (list Z) := k_wire (ep_st ep).1.
Definition net_step (x : bool * net_ev) : M net unit := λ n,
  if x.1 then on_fst (ep_step (outbox n.2) x.2) n else on_snd (ep_step (outbox n.1) x.2) n.
Fixpoint net_run (xs : list (bool * net_ev)) : M net unit :=
  match xs with [] => ret () | x :: xs => net_step x;; net_run xs end.

(** Each side creates its block in its own process. *)
Definition ep_open (conv mtu : Z) (a : alloc) : res endpoint :=
  match ikcp_create conv a with
  | Ok (Some k, a) =>
      match kcp_open 0 mtu (k, a) with
      | Ok (_, st) => Ok (mk_ep st [] []) | UB w => UB w | OutOfFuel => OutOfFuel
      end
  | Ok (None, _) => UB NullDeref
  | UB w => UB w | OutOfFuel => OutOfFuel
  end.
Definition net_session (conv mtu : Z) (xs : list (bool * net_ev)) (a b : alloc) : res net :=
  match ep_open conv mtu a, ep_open conv mtu b with
  | Ok p, Ok q => match net_run xs (p, q) with Ok (_, n) => Ok n | UB w => UB w | OutOfFuel => OutOfFuel end
  | UB w, _ | _, UB w => UB w
  | _, _ => OutOfFuel
  end.
(** A result that satisfies [Q], or int overflow in the round-trip estimate. *)
Definition safe_res {A} (r : res A) (Q : A → Prop) : Prop :=
  match r with Ok x => Q x | UB w => w = EstimateOverflow | OutOfFuel => False end.

(** ** Messages and their fragments *)

Definition is_msg (fs : list frag) (m : list Z) : Prop :=
  ∃ mss n : nat, (0 < n < 128)%nat ∧ (length m ≤ n * mss)%nat ∧ fs = fragments mss n m.

(** What was numbered ([L]) and what still waits are the fragments [fss] of the
    messages sent. *)
Record sender (L : list frag) (fss : list (list frag)) (ep : endpoint) : Prop := {
  sd_log : L ++ frags (k_snd_queue (ep_st ep).1) = mjoin fss;
  sd_msgs : Forall2 is_msg fss (ep_sent ep);
}.
(** The messages read are the first [j] of the other side, and rcv_queue starts
    behind their fragments. *)
Definition receiver (L : list frag) (fss : list (list frag)) (sent : list (list Z)) (ep : endpoint) : Prop :=
  ∃ j, (j ≤ length fss)%nat ∧ ep_got ep = take j sent ∧
    (length (mjoin (take j fss)) ≤ length L)%nat ∧
    rcv_base (ep_st ep).1 = u32 (Z.of_nat (length (mjoin (take j fss)))).

Lemma prefix_of_drop {A} (q P : list A) D :
  (∀ i f, q !! i = Some f → P !! (D + i)%nat = Some f) → q `prefix_of` drop D P.
Proof.
  revert D. induction q as [|f q IH]; intros D Hall; [apply prefix_nil|].
  pose proof (Hall 0%nat f eq_refl) as H0. rewrite Nat.add_0_r in H0. rewrite (drop_S _ _ _ H0).
  apply prefix_cons, IH. intros i g Hg. rewrite Nat.add_succ_comm. by apply Hall.
Qed.
(** rcv_queue continues what was read, fragment by fragment. *)
Lemma queue_continues c L P k a (D : nat) :
  kcp_inv c L (pushed P) (k, a) → Z.of_nat (length P) < 2 ^ 32 → (D ≤ length P)%nat →
  rcv_base k = u32 (Z.of_nat D) →
  frags (k_rcv_queue k) `prefix_of` drop D P.
Proof.
  intros Hi HP HD Hb. destruct Hi as [_ _ _ [_ Hq _ Ho] _ _ _]. cbn in Hq, Ho.
  assert (Hall : ∀ i s, k_rcv_queue k !! i = Some s → P !! (D + i)%nat = Some (seg_frag s)).
  { intros i. induction i as [i IH] using lt_wf_ind. intros s Hs.
    assert (Hle : (D + i ≤ length P)%nat).
    { destruct i as [|i]; [lia|]. destruct (k_rcv_queue k !! i) as [t|] eqn:Ht.
      - apply IH in Ht; [|lia]. apply lookup_lt_Some in Ht. lia.
      - apply lookup_ge_None in Ht. apply lookup_lt_Some in Hs. lia. }
    apply (Forall_lookup_1 _ _ _ _ Hq) in Hs as Hg. destruct Hg as [(j&Hj&Hsn) _].
    apply lookup_lt_Some in Hj as Hjl. rewrite (Ho i s Hs), Hb in Hsn.
    assert (j = D + i)%nat as <- by word. done. }
  apply prefix_of_drop. intros i f Hf. apply list_lookup_fmap_Some in Hf as (t&->&Ht). by apply Hall.
Qed.

(** The first message of a queue that starts with all fragments of one. *)
Lemma cut_fragments q mss n m rest :
  frags q `prefix_of` fragments mss n m ++ rest → (0 < n ≤ length q)%nat →
  frags (cut_msg q).1 = fragments mss n m.
Proof.
  revert q m. induction n as [|n IH]; intros q m Hp Hn; [lia|].
  destruct q as [|s q]; cbn in Hn; [lia|]. cbn [fragments app] in *.
  apply prefix_cons_inv_1 in Hp as Hs. apply prefix_cons_inv_2 in Hp.
  assert (Hfrg : s_frg s = Z.of_nat n) by (by injection Hs). cbn [cut_msg]. rewrite Hfrg.
  destruct n as [|n].
  - change (frags [s] = [(Z.of_nat 0, take mss m)]). unfold frags. by rewrite list_fmap_singleton, Hs.
  - rewrite (proj2 (Z.eqb_neq _ 0)) by lia. destruct (cut_msg q) as [x y] eqn:Hx.
    specialize (IH q (drop mss m)). rewrite Hx in IH. cbn [fst] in *. unfold frags in *. rewrite fmap_cons, Hs.
    f_equal. apply IH; [done|lia].
Qed.
Lemma payload_frags q : payload q = mjoin (snd <$> frags q).
Proof. unfold payload, frags. rewrite <-list_fmap_compose. done. Qed.

Lemma drop_mjoin {A} (fss : list (list A)) j : drop (length (mjoin (take j fss))) (mjoin fss) = mjoin (drop j fss).
Proof. rewrite <-(take_drop j fss) at 2. rewrite join_app. apply drop_app_length. Qed.

(** A successful read returns the next message of the other side. *)
Lemma read_next c L P k a fss sent tail (j : nat) :
  kcp_inv c L (pushed P) (k, a) → Z.of_nat (length P) < 2 ^ 32 →
  P ++ tail = mjoin fss → Forall2 is_msg fss sent →
  (length (mjoin (take j fss)) ≤ length P)%nat →
  rcv_base k = u32 (Z.of_nat (length (mjoin (take j fss)))) →
  k_rcv_queue k ≠ [] → 0 ≤ ikcp_peeksize k →
  let msg := (cut_msg (k_rcv_queue k)).1 in
  ∃ fs m, fss !! j = Some fs ∧ sent !! j = Some m ∧ payload msg = m ∧ length msg = length fs ∧
    (length (mjoin (take j fss)) + length fs ≤ length P)%nat.
Proof.
  intros Hi HP Hlog Hmsgs HD Hb Hne Hpeek. cbv zeta. set (D := length (mjoin (take j fss))) in *.
  assert (Hcrq : k_nrcv_que k = u32 (Z.of_nat (length (k_rcv_queue k)))) by apply Hi.
  pose proof (queue_continues _ _ _ _ _ D Hi HP HD Hb) as Hq.
  assert (Hlen : (D + length (k_rcv_queue k) ≤ length P)%nat).
  { apply prefix_length in Hq. unfold frags in Hq. rewrite length_fmap, length_drop in Hq. lia. }
  assert (Hq' : frags (k_rcv_queue k) `prefix_of` mjoin (drop j fss)).
  { rewrite <-drop_mjoin, <-Hlog. fold D. rewrite drop_app_le by lia. by apply prefix_app_r. }
  unfold ikcp_peeksize in Hpeek. destruct (k_rcv_queue k) as [|s q] eqn:Hqe; [done|].
  destruct (drop j fss) as [|fs rest] eqn:Hdrop; [by apply prefix_nil_not in Hq'|].
  assert (Hfs : fss !! j = Some fs).
  { rewrite <-(Nat.add_0_r j), <-lookup_drop, Hdrop. done. }
  destruct (Forall2_lookup_l _ _ _ _ _ Hmsgs Hfs) as (m&Hm&(mss&n&Hn&Hlm&->)).
  assert (Hnq : (n ≤ length (s :: q))%nat).
  { destruct n as [|n]; [lia|]. cbn [fragments mjoin list_join app] in Hq'.
    apply prefix_cons_inv_1 in Hq'. injection Hq' as Hfrg _. rewrite Hfrg in Hpeek.
    destruct (Z.eqb_spec (Z.of_nat n) 0); [cbn; lia|].
    destruct (Z.ltb_spec (k_nrcv_que k) (u32 (Z.of_nat n + 1))) as [|Hge]; [lia|].
    rewrite Hcrq, (u32_id (Z.of_nat n + 1)), u32_id in Hge by word. lia. }
  pose proof (cut_fragments (s :: q) mss n m (mjoin rest) Hq') as Hcut.
  exists (fragments mss n m), m. rewrite length_fragments. split_and!; [done|done| | |].
  - rewrite payload_frags, Hcut by lia. by apply fragments_data.
  - apply (f_equal length) in Hcut; [|lia]. unfold frags in Hcut. by rewrite length_fmap, length_fragments in Hcut.
  - lia.
Qed.

(** ** The invariant of a run *)

Record ep_inv (c mtu n : Z) (L P : list frag) (ep : endpoint) : Prop := {
  ei_inv : kcp_inv c L (pushed P) (ep_st ep);
  ei_mode : k_stream (ep_st ep).1 = 0;
  ei_mtu : k_mtu (ep_st ep).1 = mtu;
  ei_ack : k_ackcount (ep_st ep).1 ≤ n;
  ei_wire : Forall (λ d, Z.of_nat (length d) ≤ mtu) (outbox ep);
}.

Lemma kcp_inv_mono c L P P' s : P `prefix_of` P' → kcp_inv c L (pushed P) s → kcp_inv c L (pushed P') s.
Proof.
  intros HP Hi. inv_open Hi. inv_close.
  - eapply Forall_impl; [exact Hrq|]. intros ? []. constructor; [by eapply pushed_mono|done].
  - eapply Forall_impl; [exact Hrb|]. intros ? []. constructor; [by eapply pushed_mono|done].
Qed.
Lemma ep_inv_mono c mtu n n' L P P' ep :
  P `prefix_of` P' → n ≤ n' → ep_inv c mtu n L P ep → ep_inv c mtu n' L P' ep.
Proof. intros ? ? []. constructor; try done; [by eapply kcp_inv_mono|lia]. Qed.
Lemma receiver_mono L L' fss fss' sent sent' ep :
  L `prefix_of` L' → fss `prefix_of` fss' → sent `prefix_of` sent' → length sent = length fss →
  receiver L fss sent ep → receiver L' fss' sent' ep.
Proof.
  intros HL%prefix_length [f ->] [m ->] Hlen (j&Hj&Hg&HD&Hb). exists j.
  rewrite !take_app_le by lia. rewrite length_app. split_and!; try done; lia.
Qed.

Section step.
Context (c mtu n : Z) (P tail : list frag) (fss sent : list (list frag)) (msgs : list (list Z)).
Context (Hlog : P ++ tail = mjoin fss) (Hmsgs : Forall2 is_msg fss msgs) (HP : Z.of_nat (length P) < 2 ^ 32).

(** One event at an endpoint whose log is [L] with messages [out]. *)
Definition ep_ok (m : Z) (L : list frag) (out : list (list frag)) (ep : endpoint) : Prop :=
  ep_inv c mtu m L P ep ∧ sender L out ep ∧ receiver P fss msgs ep.
Definition ep_next (L : list frag) (out : list (list frag)) (ep ep' : endpoint) : Prop :=
  ∃ L' out', L `prefix_of` L' ∧ out `prefix_of` out' ∧ ep_sent ep `prefix_of` ep_sent ep' ∧
    (length (mjoin out') ≤ length (mjoin out) + 127)%nat ∧ ep_ok (n + mtu / 24) L' out' ep'.

Lemma swp_ep_call o (Q : Z * list Z → endpoint → Prop) ep :
  swp (kcp_do o) (λ r st, Q r (mk_ep st (ep_sent ep) (ep_got ep))) (ep_st ep) → swp (ep_call o) Q ep.
Proof. unfold swp, ep_call. by destruct (kcp_do o (ep_st ep)) as [[]| |]. Qed.

(** Steps that leave the messages alone. *)
Lemma ep_next_quiet L out st ep :
  ep_ok n L out ep → 50 ≤ mtu → kcp_inv c L (pushed P) st →
  k_snd_queue st.1 = k_snd_queue (ep_st ep).1 → k_wire st.1 = k_wire (ep_st ep).1 →
  k_stream st.1 = k_stream (ep_st ep).1 → k_mtu st.1 = k_mtu (ep_st ep).1 →
  rcv_base st.1 = rcv_base (ep_st ep).1 → k_ackcount st.1 ≤ k_ackcount (ep_st ep).1 + mtu / 24 →
  ep_next L out ep (mk_ep st (ep_sent ep) (ep_got ep)).
Proof.
  intros ([_ Hst Hm Ha Hw]&[Hl Hs]&(j&?&?&?&Hb)) Hmtu Hi Hq Hwi Hstr Hmt Hba Hac.
  exists L, out. split_and!; try done; [lia|]. split_and!.
  - constructor; cbn; try done; try congruence; try lia. unfold outbox in *. cbn. by rewrite Hwi.
  - constructor; cbn; [by rewrite Hq|done].
  - exists j. cbn. rewrite Hba. by split_and!.
Qed.

Lemma ep_send inbox L out m ep :
  ep_ok n L out ep → 50 ≤ mtu → Z.of_nat (length m) < 2 ^ 31 →
  swp (ep_step inbox (NSend m)) (λ _, ep_next L out ep) ep.
Proof.
  intros Hok Hmtu Hm. pose proof Hok as ([Hi Hst Hmt Ha Hw]&[Hl Hs]&Hr). cbn [ep_step]. rewrite swp_bind.
  apply swp_ep_call. cbn [kcp_do]. eapply swp_seq; [by apply ikcp_send_inv|].
  intros r s' (Hi'&[Hw' ? Hst' Hb' ? Ha' Hm']&_&Hfr). rewrite swp_ret. cbn [fst]. specialize (Hfr Hst). cbv zeta in Hfr.
  assert (Hmss : k_mss (ep_st ep).1 = mtu - IKCP_OVERHEAD) by (rewrite <-Hmt; apply Hi). unfold IKCP_OVERHEAD in Hmss.
  destruct (frag_count_bounds (k_mss (ep_st ep).1) (Z.of_nat (length m))) as [Hn1 Hn2]; [lia|lia|].
  set (cnt := frag_count _ _) in *. destruct (Z.ltb_spec cnt IKCP_WND_RCV) as [Hlt|]; unfold IKCP_WND_RCV in *.
  - destruct Hfr as [-> Hfr]. wp_step. cbn [ep_st ep_sent ep_got].
    exists L, (out ++ [fragments (Z.to_nat (k_mss (ep_st ep).1)) (Z.to_nat cnt) m]).
    split_and!; [done|by eexists|by eexists| |].
    { rewrite join_app. cbn. rewrite !length_app, length_fragments. cbn. lia. }
    split_and!.
    + assert (0 ≤ mtu / 24) by (apply Z.div_pos; lia). constructor; cbn; try done; try congruence; try lia.
      unfold outbox in *. cbn. by rewrite Hw'.
    + constructor; cbn.
      * unfold frags in *. rewrite Hfr, join_app, app_assoc, Hl. cbn. by rewrite app_nil_r.
      * apply Forall2_app; [done|]. constructor; [|constructor]. exists (Z.to_nat (k_mss (ep_st ep).1)), (Z.to_nat cnt).
        split; [lia|]. split; [|done]. rewrite <-Z2Nat.inj_mul by lia. lia.
    + destruct Hr as (j&?&?&?&?). exists j. cbn. rewrite Hb'. by split_and!.
  - destruct Hfr as [-> ->]. wp_step. destruct ep as [st se go]. cbn in *.
    apply (ep_next_quiet L out st (mk_ep st se go)); try done. cbn.
    assert (0 ≤ mtu / 24) by (apply Z.div_pos; lia). lia.
Qed.

Lemma ep_recv inbox L out len ep :
  ep_ok n L out ep → 50 ≤ mtu → - 2 ^ 31 < len < 2 ^ 31 →
  swp (ep_step inbox (NRecv len)) (λ _, ep_next L out ep) ep.
Proof.
  intros Hok Hmtu Hrange. pose proof Hok as ([Hi Hst Hmt Ha Hw]&[Hl Hs]&(j&Hj&Hg&HD&Hb)). cbn [ep_step]. rewrite swp_bind.
  assert (0 ≤ mtu / 24) by (apply Z.div_pos; lia).
  apply swp_ep_call. eapply swp_mono; [by apply ikcp_recv_inv|].
  intros [r buf] s' (Hi'&[Hq' Hw' ? Hst' Ha' Hm']&[(Hr&->&->&_)|(Hp&Hne&Hr&Hri&Hbuf&Hbase)]); cbn [fst snd].
  - rewrite (proj2 (Z.ltb_lt r 0)) by lia. wp_step. apply ep_next_quiet; try done. lia.
  - rewrite (proj2 (Z.ltb_ge r 0)) by lia. cbn [orb]. destruct (Z.ltb_spec len 0).
    { wp_step. apply ep_next_quiet; try done; [|lia]. rewrite Hbase. unfold rcv_base. word. }
    destruct (ep_st ep) as [k a] eqn:Hep. cbn [fst snd] in *.
    destruct (read_next c L P k a fss msgs tail j Hi HP Hlog Hmsgs HD Hb Hne) as (fs&m&Hfs&Hm&Hpay&Hlen&HD'); [lia|].
    wp_step. cbn [ep_st ep_sent ep_got]. exists L, out. split_and!; try done; [lia|]. split_and!.
    + constructor; cbn; try done; try congruence; try lia. unfold outbox in *. cbn. rewrite Hw'. by rewrite Hep in Hw.
    + constructor; cbn; [by rewrite Hq'|done].
    + exists (S j). apply lookup_lt_Some in Hfs as Hlt. cbn. split; [lia|].
      rewrite (take_S_r _ _ _ Hfs), (take_S_r _ _ _ Hm), Hg, Hbuf, Hpay, join_app. cbn.
      rewrite app_nil_r, length_app. split_and!; [done|lia|]. rewrite Hbase, Hb, Hlen. word.
Qed.

Lemma ep_deliver conv inbox L out i ep :
  ep_ok n L out ep → 50 ≤ mtu → n + mtu / 24 ≤ 2 ^ 30 →
  Forall (wire_ok conv P) inbox → Forall (λ d, Z.of_nat (length d) ≤ mtu) inbox →
  swp (ep_step inbox (NDeliver i)) (λ _, ep_next L out ep) ep.
Proof.
  intros Hok Hmtu Hn Hin Hlen. pose proof Hok as ([Hi Hst Hmt Ha Hw]&[Hl Hs]&Hr). cbn [ep_step].
  assert (0 ≤ mtu / 24) by (apply Z.div_pos; lia).
  destruct (inbox !! i) as [d|] eqn:Hd.
  - apply (Forall_lookup_1 _ _ _ _ Hin) in Hd as Hwire. apply (Forall_lookup_1 _ _ _ _ Hlen) in Hd. rewrite swp_bind.
    assert (Hdiv : Z.of_nat (length d) / 24 ≤ mtu / 24) by (by apply Z.div_le_mono).
    apply swp_ep_call. cbn [kcp_do].
    eapply swp_seq; [apply (ikcp_input_inv c L (pushed P) (Some d)); [done|cbn; lia|by eapply wire_pushes]|].
    intros r s' [Hi' [Hq' Hw' ? Hst' Hb' Ha' Hm']]. wp_step. apply ep_next_quiet; try done. cbn in *. lia.
  - wp_step. destruct ep as [st se go]. apply (ep_next_quiet L out st (mk_ep st se go)); try done. cbn. lia.
Qed.

Lemma ep_update inbox L out t ep :
  ep_ok n L out ep → 50 ≤ mtu → swp (ep_step inbox (NUpdate t)) (λ _, ep_next L out ep) ep.
Proof.
  intros Hok Hmtu. pose proof Hok as ([Hi Hst Hmt Ha Hw]&[Hl Hs]&(j&?&?&?&Hb)). cbn [ep_step]. rewrite swp_bind.
  assert (0 ≤ mtu / 24) by (apply Z.div_pos; lia).
  apply swp_ep_call. cbn [kcp_do]. destruct ep as [[k a] se go]. cbn [ep_st ep_sent ep_got fst] in *.
  rewrite swp_bind, swp_on_fst. eapply swp_mono; [by apply (ikcp_update_inv c L (pushed P) a)|].
  intros [] k' (q&Hq&Hi'&[? Hst' Hm' Hb' Ha' (w&Hw'&Hlen)]). wp_step.
  exists (L ++ frags q), out. split_and!; [by eexists|done|done|lia|]. split_and!.
  - constructor; cbn; try done; try congruence; try lia. unfold outbox in *. cbn in *. rewrite Hw'. apply Forall_app.
    split; [done|]. eapply Forall_impl; [exact Hlen|]. intros x [_ ?]. cbn in *. lia.
  - constructor; cbn; [|done]. rewrite <-app_assoc, <-Hl, Hq. f_equal. unfold frags. by rewrite fmap_app.
  - exists j. cbn. rewrite Hb'. by split_and!.
Qed.

Lemma ep_config L out o ep :
  ep_ok n L out ep → 50 ≤ mtu → (∃ x i r y, o = ONodelay x i r y) ∨ (∃ x y, o = OWndsize x y) →
  swp (ep_call o;; ret ()) (λ _, ep_next L out ep) ep.
Proof.
  intros Hok Hmtu Ho. pose proof Hok as ([Hi Hst Hmt Ha Hw]&[Hl Hs]&Hr). rewrite swp_bind.
  assert (0 ≤ mtu / 24) by (apply Z.div_pos; lia).
  apply swp_ep_call. destruct Ho as [(x&i&r&y&->)|(x&y&->)]; cbn [kcp_do];
  (eapply swp_seq; [by (apply nodelay_inv || apply wndsize_inv)|]); intros rv s' [Hi' []]; wp_step;
  apply ep_next_quiet; try done; cbn in *; lia.
Qed.

Definition ev_ok (e : net_ev) : Prop :=
  match e with
  | NSend m => Z.of_nat (length m) < 2 ^ 31
  | NRecv len => - 2 ^ 31 < len < 2 ^ 31
  | _ => True
  end.
Lemma ep_step_ok conv inbox L out e ep :
  ep_ok n L out ep → 50 ≤ mtu → n + mtu / 24 ≤ 2 ^ 30 → ev_ok e →
  Forall (wire_ok conv P) inbox → Forall (λ d, Z.of_nat (length d) ≤ mtu) inbox →
  swp (ep_step inbox e) (λ _, ep_next L out ep) ep.
Proof.
  intros. destruct e; [by apply ep_send|by apply ep_recv|by apply ep_update|by eapply ep_deliver| |];
    apply ep_config; try done; [left|right]; by repeat eexists.
Qed.
End step.

(** Both sides after [t] events. *)
Definition side_ok (c mtu t : Z) (L P : list frag) (out fss : list (list frag)) (p q : endpoint) : Prop :=
  ep_ok c mtu P fss (ep_sent q) (t * (mtu / 24)) L out p ∧ Z.of_nat (length (mjoin out)) ≤ 127 * t.
Definition net_ok (mtu t : Z) (n : net) : Prop :=
  ∃ c d Lp Lq fp fq, side_ok c mtu t Lp Lq fp fq n.1 n.2 ∧ side_ok d mtu t Lq Lp fq fp n.2 n.1.
Lemma net_ok_swap mtu t p q : net_ok mtu t (p, q) → net_ok mtu t (q, p).
Proof. intros (c&d&Lp&Lq&fp&fq&?&?). by exists d, c, Lq, Lp, fq, fp. Qed.

Lemma sender_length L out ep : sender L out ep → (length L ≤ length (mjoin out))%nat.
Proof. intros [Hl _]. rewrite <-Hl, length_app. lia. Qed.

(** An event at the first endpoint. *)
Lemma net_step_fst mtu t e p q :
  net_ok mtu t (p, q) → 50 ≤ mtu → (t + 1) * (mtu / 24) ≤ 2 ^ 30 → 127 * t < 2 ^ 32 → ev_ok e →
  swp (ep_step (outbox q) e) (λ _ p', net_ok mtu (t + 1) (p', q)) p.
Proof.
  intros (c&d&Lp&Lq&fp&fq&[Hp Hpl]&[Hq Hql]) Hmtu Ht Ht2 He. cbn [fst snd] in *.
  assert (0 ≤ mtu / 24) by (apply Z.div_pos; lia).
  pose proof Hq as ([Hqi Hqs Hqm Hqa Hqw]&Hqsnd&Hqr). pose proof (sender_length _ _ _ Hqsnd) as HLq.
  eapply swp_mono.
  - eapply (ep_step_ok c mtu (t * (mtu / 24)) Lq _ fq (ep_sent q) (sd_log _ _ _ Hqsnd) (sd_msgs _ _ _ Hqsnd));
      [lia|exact Hp|done|lia|done|apply Hqi|done].
  - intros [] p' (L'&out'&HL&Hout&Hsent&Hlen&Hp'). exists c, d, L', Lq, out', fq.
    assert (Hsp : length (ep_sent p) = length fp).
    { destruct Hp as (_&[_ Hm]&_). symmetry. by eapply Forall2_length. }
    split; (split; [|cbn; lia]).
    + by replace ((t + 1) * (mtu / 24)) with (t * (mtu / 24) + mtu / 24) by lia.
    + split_and!; [|done|by eapply receiver_mono].
      eapply (ep_inv_mono _ _ (t * (mtu / 24))); [exact HL|nia|done].
Qed.

Lemma net_step_ok mtu t x n :
  net_ok mtu t n → 50 ≤ mtu → (t + 1) * (mtu / 24) ≤ 2 ^ 30 → 127 * t < 2 ^ 32 → ev_ok x.2 →
  swp (net_step x) (λ _, net_ok mtu (t + 1)) n.
Proof.
  destruct n as [p q], x as [side e]. intros Hn Hmtu Ht Ht2 He. unfold swp, net_step. cbn [fst snd]. destruct side.
  - pose proof (net_step_fst mtu t e p q Hn Hmtu Ht Ht2 He) as H. unfold swp in H. cbn.
    by destruct (ep_step (outbox q) e p) as [[]| |].
  - pose proof (net_step_fst mtu t e q p (net_ok_swap _ _ _ _ Hn) Hmtu Ht Ht2 He) as H. unfold swp in H. cbn.
    destruct (ep_step (outbox p) e q) as [[]| |]; try done. by apply net_ok_swap.
Qed.
Lemma net_run_ok mtu t xs n :
  net_ok mtu t n → 50 ≤ mtu → 0 ≤ t → (t + Z.of_nat (length xs)) * (mtu / 24) ≤ 2 ^ 30 →
  127 * (t + Z.of_nat (length xs)) < 2 ^ 32 → Forall (λ x, ev_ok x.2) xs →
  swp (net_run xs) (λ _, net_ok mtu (t + Z.of_nat (length xs))) n.
Proof.
  revert t n. induction xs as [|x xs IH]; intros t n Hn Hmtu Ht Hb1 Hb2 Hx; cbn [net_run length] in *.
  { wp_step. by rewrite Z.add_0_r. }
  assert (0 ≤ mtu / 24) by (apply Z.div_pos; lia).
  apply Forall_cons in Hx as [Hx1 Hx2]. eapply swp_seq; [apply (net_step_ok mtu t); try done; [nia|lia]|].
  intros [] n1 Hn1. replace (t + Z.of_nat (S (length xs))) with (t + 1 + Z.of_nat (length xs)) in * by lia.
  apply IH; try done. lia.
Qed.

Lemma ep_open_ok conv mtu P a :
  is_u32 conv → 50 ≤ mtu < 2 ^ 30 → supplied a →
  safe_res (ep_open conv mtu a) (λ p, ep_ok (al_live a) mtu P [] [] 0 [] [] p ∧ ep_sent p = []).
Proof.
  intros Hconv Hmtu Ha. pose proof (create_inv conv mtu 0 (pushed P) a Hconv Hmtu Ha) as Hc.
  unfold safe_res, ep_open, swp in *. destruct (ikcp_create conv a) as [[k a']| |]; try done.
  destruct Hc as (k0&->&Hc). destruct (kcp_open 0 mtu (k0, a')) as [[r st]| |]; try done.
  destruct Hc as (_&Hi&(Hq&Hw&_&Hst&Hm&Hb&Hac)). split; [|done]. split_and!.
  - constructor; cbn; try done; [lia|]. unfold outbox. cbn. by rewrite Hw.
  - constructor; cbn; [by rewrite Hq|done].
  - exists 0%nat. cbn. rewrite Hb. split_and!; try done; try lia.
Qed.

(** C2: Two endpoints that talk through a network which loses, repeats, delays and
    reorders datagrams as it likes: the messages each application has read are the
    first ones the other application sent, byte for byte and in order, and neither
    side reaches undefined behaviour other than int overflow in the round-trip
    estimate of ikcp_update_ack.  (Message mode, stream = 0; malloc succeeds; messages
    are shorter than 2^31 bytes and the lengths given to ikcp_recv of absolute value
    below 2^31; with N events, N * (mtu / 24) is at most 2^30, which bounds the
    acknowledgements queued, and 127 N is below 2^32, which bounds the fragments
    numbered.) *)
Theorem kcp_delivers_in_order conv mtu xs a b :
  is_u32 conv → 50 ≤ mtu < 2 ^ 30 → supplied a → supplied b →
  Forall (λ x, ev_ok x.2) xs →
  Z.of_nat (length xs) * (mtu / 24) ≤ 2 ^ 30 → 127 * Z.of_nat (length xs) < 2 ^ 32 →
  safe_res (net_session conv mtu xs a b)
    (λ n, ep_got n.2 `prefix_of` ep_sent n.1 ∧ ep_got n.1 `prefix_of` ep_sent n.2).
Proof.
  intros Hconv Hmtu Ha Hb Hx Hb1 Hb2. unfold net_session.
  pose proof (ep_open_ok conv mtu [] a Hconv Hmtu Ha) as Hp. pose proof (ep_open_ok conv mtu [] b Hconv Hmtu Hb) as Hq.
  destruct (ep_open conv mtu a) as [p| |], (ep_open conv mtu b) as [q| |]; try done.
  destruct Hp as [Hp Hps], Hq as [Hq Hqs].
  assert (Hn : net_ok mtu 0 (p, q)).
  { exists (al_live a), (al_live b), [], [], [], []. unfold side_ok. cbn [fst snd]. by rewrite Hps, Hqs, Z.mul_0_l. }
  pose proof (net_run_ok mtu 0 xs (p, q) Hn) as Hr. unfold swp in Hr.
  destruct (net_run xs (p, q)) as [[[] [p' q']]| |]; cbn; try (apply Hr; (done || lia)).
  destruct Hr as (c&d&Lp&Lq&fp&fq&[(_&_&(j&_&Hg&_)) _]&[(_&_&(i&_&Hg'&_)) _]); try (done || lia).
  cbn in *. rewrite Hg, Hg'. split; apply prefix_take.
Qed.

(** A message of three fragments; the second datagram is lost at first, the third
    repeated; it arrives after a retransmission, and is answered. *)
Definition demo_run : list (bool * net_ev) :=
  [(true, NNodelay 1 10 2 1); (true, NSend (replicate 60 5)); (true, NSend [8]); (true, NUpdate 0); (false, NUpdate 0);
   (false, NDeliver 2); (false, NDeliver 2); (false, NDeliver 0); (false, NRecv 100); (false, NUpdate 100);
   (true, NDeliver 0); (true, NUpdate 300); (false, NDeliver 3); (false, NDeliver 4); (false, NRecv 100); (false, NSend [1; 2]);
   (false, NUpdate 200); (false, NUpdate 300); (false, NRecv 100); (true, NDeliver 1); (true, NDeliver 2); (true, NDeliver 3); (true, NRecv 10)].
Lemma kcp_delivers_in_order_witness :
  match net_session 7 50 demo_run (mk_alloc [] 0 []) (mk_alloc [] 0 []) with
  | Ok (p, q) => ep_got q = [replicate 60 5; [8]] ∧ ep_got p = [[1; 2]] | _ => False end ∧
  safe_res (net_session 7 50 demo_run (mk_alloc [] 0 []) (mk_alloc [] 0 []))
    (λ n, ep_got n.2 `prefix_of` ep_sent n.1 ∧ ep_got n.1 `prefix_of` ep_sent n.2).
Proof.
  split; [vm_compute; by split|].
  apply (kcp_delivers_in_order 7 50 demo_run (mk_alloc [] 0 []) (mk_alloc [] 0 []));
    [done|done|by constructor|by constructor| |vm_compute; discriminate|vm_compute; reflexivity].
  repeat constructor.
Defined.
