(* ===== verification/KcpWindow.v ===== *)
(** KCP: the two sliding windows.  On the receiving side ikcp_parse_data keeps
    rcv_buf sorted and free of repetitions and hands on everything that is in
    order; on the sending side acknowledgements remove exactly the segments they
    name, and ikcp_flush never numbers beyond the window. *)
From S2P Require Import Prelude KvMem KcpBase KcpCb KcpAck KcpData KcpInput KcpFlush KcpInv.

(** ** Positions relative to a wrapping base *)

Definition offset (base sn : Z) : Z := u32 (sn - base).
(** Sorted by distance from [base], all within [wnd] of it. *)
Definition window_sorted (base wnd : Z) (buf : list IKCPSEG) : Prop :=
  StronglySorted (λ s t, offset base (s_sn s) < offset base (s_sn t)) buf ∧
  Forall (λ s, is_u32 (s_sn s) ∧ offset base (s_sn s) < wnd) buf.

Lemma offset_range base sn : 0 ≤ offset base sn < 2 ^ 32.
Proof. apply u32_range. Qed.
Lemma offset_diff base x y wnd :
  wnd ≤ 2 ^ 31 → offset base x < wnd → offset base y < wnd →
  _itimediff x y = offset base x - offset base y.
Proof.
  intros Hw Hx Hy. apply itimediff_exact.
  - pose proof (offset_range base x). pose proof (offset_range base y). lia.
  - unfold offset. word.
Qed.
Lemma offset_inj base x y : is_u32 x → is_u32 y → offset base x = offset base y → x = y.
Proof. unfold offset. word. Qed.
Lemma offset_refl base : offset base base = 0.
Proof. unfold offset. by rewrite Z.sub_diag. Qed.
Lemma in_window base wnd sn :
  is_u32 base → is_u32 sn → 0 ≤ wnd ≤ 2 ^ 31 →
  (0 <=? _itimediff sn (u32 (base + wnd))) || (_itimediff sn base <? 0) = negb (offset base sn <? wnd).
Proof.
  intros Hb Hs Hw. assert (H1 : _itimediff sn base = i32 (offset base sn)) by done.
  assert (H2 : _itimediff sn (u32 (base + wnd)) = i32 (offset base sn - wnd)).
  { unfold _itimediff, offset. word. }
  rewrite H1, H2. pose proof (offset_range base sn).
  destruct (Z.leb_spec 0 (i32 (offset base sn - wnd))), (Z.ltb_spec (i32 (offset base sn)) 0),
    (Z.ltb_spec (offset base sn) wnd); try done; exfalso; word.
Qed.

Lemma sorted_app_iff {A} (R : A → A → Prop) l k :
  StronglySorted R (l ++ k) ↔ StronglySorted R l ∧ StronglySorted R k ∧ ∀ x y, x ∈ l → y ∈ k → R x y.
Proof.
  induction l as [|a l IH]; cbn.
  - split; [intros H; split_and!; [constructor|done|]; intros ?? []%not_elem_of_nil|tauto].
  - split.
    + intros [Hs Hf]%StronglySorted_inv. apply IH in Hs as (H1&H2&H3). rewrite Forall_app in Hf. destruct Hf as [Hf1 Hf2].
      split_and!; [by constructor|done|]. intros x y [->|Hx]%elem_of_cons Hy; [|by apply H3].
      by eapply Forall_forall in Hf2.
    + intros ([Hs Hf]%StronglySorted_inv&H2&H3). constructor.
      * apply IH. split_and!; try done. intros x y Hx. apply H3. by right.
      * apply Forall_app. split; [done|]. apply Forall_forall. intros y Hy. apply H3; [by left|done].
Qed.

(** ** Receiving *)

Section receive.
Context (base wnd sn : Z) (Hwnd : 0 ≤ wnd ≤ 2 ^ 31).
Context (Hsn : is_u32 sn) (Hoff : offset base sn < wnd).

(** The scan from the end of a sorted buffer finds a repetition or the place. *)
Lemma find_slot_spec rbuf i :
  window_sorted base wnd (reverse rbuf) →
  match find_slot sn rbuf i with
  | None => sn ∈ s_sn <$> rbuf
  | Some j => ∃ post pre, rbuf = post ++ pre ∧ j = (i + length post)%nat ∧
      Forall (λ s, offset base sn < offset base (s_sn s)) post ∧
      Forall (λ s, offset base (s_sn s) < offset base sn) pre
  end.
Proof.
  revert i. induction rbuf as [|seg rbuf IH]; intros i Hs; cbn [find_slot].
  { exists [], []. split_and!; try done; cbn; try lia. }
  rewrite reverse_cons in Hs. destruct Hs as [Hs Hf]. apply sorted_app_iff in Hs as (Hs&_&Hlt).
  apply Forall_app in Hf as [Hf [Hseg Hso]%Forall_inv].
  destruct (Z.eqb_spec (s_sn seg) sn) as [<-|Hne]; [apply list_elem_of_here|].
  rewrite (offset_diff base sn (s_sn seg) wnd) by (done || lia).
  destruct (Z.ltb_spec 0 (offset base sn - offset base (s_sn seg))) as [Hlt1|Hge].
  - exists [], (seg :: rbuf). split_and!; [done|cbn; lia|done|]. constructor; [lia|].
    apply Forall_forall. intros s Hin. assert (offset base (s_sn s) < offset base (s_sn seg)); [|lia].
    apply Hlt; [by apply elem_of_reverse|by apply list_elem_of_singleton].
  - specialize (IH (S i)). destruct (find_slot sn rbuf (S i)) as [j|].
    + destruct IH as (post&pre&->&->&Hp1&Hp2); [done|]. exists (seg :: post), pre.
      split_and!; [done|cbn; lia| |done]. constructor; [|done].
      assert (offset base sn ≠ offset base (s_sn seg)); [|lia]. intros Heq. apply Hne. symmetry. by eapply offset_inj.
    + right. by apply IH.
Qed.
End receive.

(** What is next in order leaves the buffer, as long as rcv_queue has room. *)
Lemma move_loop_spec buf k :
  k_rcv_buf k = buf → is_u32 (k_rcv_nxt k) →
  ∃ m k', move_loop buf k = Ok ((), k') ∧ buf = m ++ k_rcv_buf k' ∧ k_rcv_queue k' = k_rcv_queue k ++ m ∧
    k_rcv_nxt k' = u32 (k_rcv_nxt k + Z.of_nat (length m)) ∧ k_rcv_wnd k' = k_rcv_wnd k ∧
    (∀ i s, m !! i = Some s → s_sn s = u32 (k_rcv_nxt k + Z.of_nat i)) ∧
    (∀ s, head (k_rcv_buf k') = Some s → s_sn s ≠ k_rcv_nxt k' ∨ k_rcv_wnd k' ≤ k_nrcv_que k').
Proof.
  revert k. induction buf as [|seg rest IH]; intros k Hb Hn; cbn [move_loop].
  { exists [], k. rewrite Hb, !app_nil_r. cbn. rewrite Z.add_0_r, u32_id by done. by split_and!. }
  unfold bind at 1, get. destruct (Z.eqb_spec (s_sn seg) (k_rcv_nxt k)) as [Heq|Hne], (Z.ltb_spec (k_nrcv_que k) (k_rcv_wnd k)) as [Hlt|Hge]; cbn [andb].
  2-4: exists [], k; rewrite Hb, !app_nil_r; cbn; rewrite Z.add_0_r, u32_id by done; split_and!; try done;
    intros s [= <-]; auto.
  unfold bind, modify. set (k1 := set_rcv_nxt _ _).
  destruct (IH k1 eq_refl) as (m&k'&Hrun&->&Hq&Hnx&Hw&Hm&Hh); [apply u32_range|].
  exists (seg :: m), k'. cbn in Hq, Hnx, Hw. split_and!; try done.
  - by rewrite Hq, <-app_assoc.
  - rewrite Hnx. cbn [length]. word.
  - intros [|i] s Hs; [injection Hs as <-; rewrite Heq, Z.add_0_r, u32_id; done|].
    cbn in Hm. rewrite (Hm i s Hs). word.
Qed.

Lemma shift_sorted base wnd m r :
  is_u32 base → wnd ≤ 2 ^ 31 → window_sorted base wnd (m ++ r) →
  (∀ i s, m !! i = Some s → s_sn s = u32 (base + Z.of_nat i)) →
  window_sorted (u32 (base + Z.of_nat (length m))) wnd r.
Proof.
  intros Hb Hw [Hs Hf] Hm. apply sorted_app_iff in Hs as (_&Hs&Hlt). apply Forall_app in Hf as [Hfm Hf].
  assert (Hoff : ∀ i s, m !! i = Some s → Z.of_nat i < 2 ^ 31 → offset base (s_sn s) = Z.of_nat i).
  { intros i s Hi ?. rewrite (Hm i s Hi). unfold offset. word. }
  assert (Hlen : Z.of_nat (length m) ≤ 2 ^ 31).
  { destruct (Z.le_gt_cases (Z.of_nat (length m)) (2 ^ 31)) as [|Hgt]; [done|].
    destruct (lookup_lt_is_Some_2 m (Z.to_nat (2 ^ 31))) as [s Hi]; [lia|].
    apply (Forall_lookup_1 _ _ _ _ Hfm) in Hi as Hx. rewrite (Hm _ _ Hi) in Hx. destruct Hx as [_ Hx].
    exfalso. unfold offset in Hx. rewrite Z2Nat.id in Hx by done. clear -Hx Hw Hb. word. }
  assert (Hge : ∀ s, s ∈ r → Z.of_nat (length m) ≤ offset base (s_sn s)).
  { intros s Hin. destruct m as [|s0 m0] eqn:Hm0; [cbn; apply offset_range|]. rewrite <-Hm0 in *.
    destruct (lookup_lt_is_Some_2 m (length m - 1)) as [t Ht]; [subst; cbn; lia|].
    assert (length m ≠ 0%nat) by (by subst).
    specialize (Hlt t s (list_elem_of_lookup_2 _ _ _ Ht) Hin). rewrite (Hoff _ _ Ht) in Hlt by lia. lia. }
  assert (Hshift : ∀ s, s ∈ r → offset (u32 (base + Z.of_nat (length m))) (s_sn s) = offset base (s_sn s) - Z.of_nat (length m)).
  { intros s Hin. pose proof (Hge s Hin) as H. unfold offset in *. clear -H Hlen. word. }
  split.
  - clear -Hs Hshift. induction Hs as [|s r Hs IH Hf]; constructor.
    + apply IH. intros t Ht. apply Hshift. by right.
    + apply Forall_forall. intros t Ht. rewrite !Hshift by (by (right + left)).
      apply (proj1 (Forall_forall _ _) Hf) in Ht. lia.
  - apply Forall_forall. intros s Hin. rewrite (Hshift s Hin). apply (proj1 (Forall_forall _ _) Hf) in Hin as [? ?].
    split; [done|lia].
Qed.

(** Inserting before the last [i] segments. *)
Lemma insert_sorted base wnd sn buf i seg :
  is_u32 base → 0 ≤ wnd ≤ 2 ^ 31 → is_u32 sn → offset base sn < wnd → s_sn seg = sn →
  window_sorted base wnd buf → find_slot sn (reverse buf) 0 = Some i →
  let at_ := (length buf - i)%nat in
  window_sorted base wnd (take at_ buf ++ seg :: drop at_ buf) ∧ sn ∉ s_sn <$> buf.
Proof.
  intros Hb Hw Hsn Hoff Heq Hs Hfind. cbv zeta.
  pose proof (find_slot_spec base wnd sn Hw Hsn Hoff (reverse buf) 0) as H. rewrite Hfind, reverse_involutive in H.
  destruct (H Hs) as (post&pre&Hr&->&Hpost&Hpre). clear H Hfind.
  assert (Hbuf : buf = reverse pre ++ reverse post) by (by rewrite <-reverse_app, <-Hr, reverse_involutive).
  rewrite Hbuf. replace (_ - _)%nat with (length (reverse pre)) by (rewrite length_app, !length_reverse; lia).
  rewrite take_app_length, drop_app_length. apply Forall_reverse in Hpre, Hpost. rewrite Hbuf in Hs.
  destruct Hs as [Hs Hf]. apply sorted_app_iff in Hs as (Hs1&Hs2&Hlt). apply Forall_app in Hf as [Hf1 Hf2]. subst sn.
  split; [split|].
  - apply sorted_app_iff. split_and!; [done|by constructor|]. intros x y Hx [->|Hy]%elem_of_cons; [|by apply Hlt].
    by eapply Forall_forall in Hpre.
  - apply Forall_app. split; [done|]. by constructor.
  - rewrite fmap_app, elem_of_app, !list_elem_of_fmap. intros [(t&Ht&Hin)|(t&Ht&Hin)].
    + eapply Forall_forall in Hpre; [|exact Hin]. rewrite Ht in Hpre. lia.
    + eapply Forall_forall in Hpost; [|exact Hin]. rewrite Ht in Hpost. lia.
Qed.

(** What ikcp_parse_data promises for a segment in the window. *)
Record ordered (seg : IKCPSEG) (k k' : ikcpcb) (buf m : list IKCPSEG) : Prop := {
  or_new : s_sn seg ∉ s_sn <$> k_rcv_buf k → buf ≡ₚ seg :: k_rcv_buf k;
  or_old : s_sn seg ∈ s_sn <$> k_rcv_buf k → buf = k_rcv_buf k;
  or_split : buf = m ++ k_rcv_buf k';
  or_queue : k_rcv_queue k' = k_rcv_queue k ++ m;
  or_next : k_rcv_nxt k' = u32 (k_rcv_nxt k + Z.of_nat (length m));
  or_moved : ∀ i s, m !! i = Some s → s_sn s = u32 (k_rcv_nxt k + Z.of_nat i);
  or_sorted : window_sorted (k_rcv_nxt k') (k_rcv_wnd k') (k_rcv_buf k');
  or_drained : ∀ s, head (k_rcv_buf k') = Some s → s_sn s ≠ k_rcv_nxt k' ∨ k_rcv_wnd k' ≤ k_nrcv_que k';
}.

(** C29: ikcp_parse_data on a sorted receive buffer.  A segment outside the receive
    window, or one whose number is already buffered, is dropped; any other is
    inserted at its place.  What follows rcv_nxt without a gap then moves to
    rcv_queue, rcv_nxt advances by as much, the buffer stays sorted, in the window
    and free of repetitions, and nothing that is next in order stays behind unless
    rcv_queue is full. *)
Theorem parse_data_orders seg k a :
  is_u32 (k_rcv_nxt k) → 0 ≤ k_rcv_wnd k ≤ 2 ^ 31 → is_u32 (s_sn seg) →
  window_sorted (k_rcv_nxt k) (k_rcv_wnd k) (k_rcv_buf k) →
  wp (ikcp_parse_data seg) (λ _ s',
    if offset (k_rcv_nxt k) (s_sn seg) <? k_rcv_wnd k
    then ∃ buf m, ordered seg k s'.1 buf m
    else s' = (k, mk_alloc (al_plan a) (al_live a - 1) (al_rand a))) (k, a).
Proof.
  intros Hb Hw Hsn Hs. unfold ikcp_parse_data. wp_step. cbv zeta. rewrite in_window by done.
  destruct (Z.ltb_spec (offset (k_rcv_nxt k) (s_sn seg)) (k_rcv_wnd k)) as [Hoff|Hoff]; cbn [negb]; [|done].
  assert (Hfin : ∀ buf k1 a1,
    (s_sn seg ∉ s_sn <$> k_rcv_buf k → buf ≡ₚ seg :: k_rcv_buf k) → (s_sn seg ∈ s_sn <$> k_rcv_buf k → buf = k_rcv_buf k) →
    k_rcv_buf k1 = buf → k_rcv_nxt k1 = k_rcv_nxt k → k_rcv_queue k1 = k_rcv_queue k → k_rcv_wnd k1 = k_rcv_wnd k →
    window_sorted (k_rcv_nxt k) (k_rcv_wnd k) buf →
    wp (move_loop (k_rcv_buf k1)) (λ _ k', ∃ b m, ordered seg k (k', a1 : alloc).1 b m) k1).
  { intros buf k1 a1 Hnew Hold Hbuf Hn Hq Hwn Hsrt. rewrite Hbuf.
    destruct (move_loop_spec buf k1 Hbuf) as (m&k'&Hrun&Hsp&Hq'&Hn'&Hw'&Hm&Hh); [by rewrite Hn|].
    eapply wp_lift_any; [exact Hrun|]. exists buf, m. rewrite Hn in *. constructor; cbn; try done; try congruence.
    rewrite Hn', Hw', Hwn. eapply shift_sorted; [done|lia|by rewrite <-Hsp|done]. }
  wp_step. pose proof (find_slot_spec _ _ (s_sn seg) Hw Hsn Hoff (reverse (k_rcv_buf k)) 0) as Hfs.
  rewrite reverse_involutive in Hfs. specialize (Hfs Hs).
  destruct (find_slot _ _ _) as [i|] eqn:Hfind; wp_step.
  - destruct (insert_sorted _ _ _ _ _ seg Hb Hw Hsn Hoff eq_refl Hs Hfind) as [Hs' Hnin].
    eapply (Hfin _ _ a); cycle 2; [done..|exact Hs'| |by intros ?].
    intros _. cbn [k_rcv_buf set_nrcv_buf set_rcv_buf]. by rewrite <-Permutation_middle, take_drop.
  - apply (Hfin (k_rcv_buf k) k a); try done. intros Hnin. exfalso. apply Hnin.
    rewrite fmap_reverse in Hfs. exact (proj1 (elem_of_reverse _ _) Hfs).
Qed.

(** ** Sending *)

Section acknowledge.
Context (base wnd : Z) (Hwnd : 0 ≤ wnd ≤ 2 ^ 31).

(** Removing segments from snd_buf, with their count and their blocks. *)
Definition removed (s : kst) (buf : list IKCPSEG) (s' : kst) : Prop :=
  ∃ n, s'.1 = set_nsnd_buf n (set_snd_buf buf s.1) ∧
    n = u32 (k_nsnd_buf s.1 - (Z.of_nat (length (k_snd_buf s.1)) - Z.of_nat (length buf))) ∧
    al_live s'.2 = al_live s.2 - (Z.of_nat (length (k_snd_buf s.1)) - Z.of_nat (length buf)).
Lemma removed_none k a : is_u32 (k_nsnd_buf k) → removed (k, a) (k_snd_buf k) (k, a).
Proof.
  intros H. exists (k_nsnd_buf k). cbn. rewrite Z.sub_diag, !Z.sub_0_r, u32_id by done. by destruct k.
Qed.

Lemma filter_all (P : IKCPSEG → Prop) `{∀ s, Decision (P s)} l : Forall P l → filter P l = l.
Proof. induction 1 as [|s l Hs _ IH]; [done|]. by rewrite filter_cons_True, IH. Qed.

Lemma window_sorted_cons s buf :
  window_sorted base wnd (s :: buf) →
  window_sorted base wnd buf ∧ is_u32 (s_sn s) ∧ offset base (s_sn s) < wnd ∧
  Forall (λ t, offset base (s_sn s) < offset base (s_sn t)) buf.
Proof. intros [[Hs Hlt]%StronglySorted_inv [[? ?] Hf]%Forall_cons]. by split_and!. Qed.

Lemma parse_una_loop_spec una buf k a :
  offset base una < 2 ^ 31 → is_u32 (k_nsnd_buf k) → k_snd_buf k = buf → window_sorted base wnd buf →
  wp (parse_una_loop una buf)
    (λ _, removed (k, a) (filter (λ s, offset base una ≤ offset base (s_sn s)) buf)) (k, a).
Proof.
  intros Hu. revert k a. induction buf as [|seg rest IH]; intros k a Hn Hb Hs; cbn [parse_una_loop].
  { wp_step. rewrite filter_nil. rewrite <-Hb. by apply removed_none. }
  apply window_sorted_cons in Hs as (Hs&Hsn&Ho&Hlt). rewrite (offset_diff base una (s_sn seg) (2 ^ 31)) by lia.
  destruct (Z.ltb_spec 0 (offset base una - offset base (s_sn seg))).
  - wp_step. unfold ikcp_free, kvs_free_block. wp_step. rewrite filter_cons_False by lia.
    set (k1 := set_nsnd_buf _ _).
    eapply wp_mono; [apply (IH k1); [apply u32_range|done|done]|]. intros [] s' (n&Hk&->&Hl).
    eexists. split; [by rewrite Hk|]. cbn in *. rewrite Hb in *. cbn. split; [word|lia].
  - wp_step. rewrite filter_all; [rewrite <-Hb; by apply removed_none|].
    constructor; [lia|]. eapply Forall_impl; [exact Hlt|]. intros t ?. cbn in *. lia.
Qed.

Lemma parse_ack_loop_spec sn pre buf k a :
  is_u32 sn → offset base sn < wnd → is_u32 (k_nsnd_buf k) → k_snd_buf k = pre ++ buf → window_sorted base wnd buf →
  wp (parse_ack_loop sn pre buf) (λ _, removed (k, a) (pre ++ filter (λ s, s_sn s ≠ sn) buf)) (k, a).
Proof.
  intros Hsn Ho Hn. revert pre. induction buf as [|seg rest IH]; intros pre Hb Hs; cbn [parse_ack_loop].
  { wp_step. rewrite filter_nil, <-Hb. by apply removed_none. }
  apply window_sorted_cons in Hs as (Hs&Hsg&Hog&Hlt).
  assert (Hrest : offset base sn ≤ offset base (s_sn seg) → filter (λ s, s_sn s ≠ sn) rest = rest).
  { intros Hle. apply filter_all. eapply Forall_impl; [exact Hlt|]. intros t Ht Heq. cbn in Ht. rewrite Heq in Ht. lia. }
  destruct (Z.eqb_spec sn (s_sn seg)) as [->|Hne].
  - wp_step. unfold ikcp_free, kvs_free_block. wp_step. rewrite filter_cons_False by tauto. rewrite Hrest by lia.
    eexists. split; [done|]. cbn. rewrite Hb, !length_app. cbn. split; [word|lia].
  - rewrite (offset_diff base sn (s_sn seg) wnd) by lia. rewrite filter_cons_True by congruence.
    destruct (Z.ltb_spec (offset base sn - offset base (s_sn seg)) 0).
    + wp_step. rewrite Hrest, <-Hb by lia. by apply removed_none.
    + pose proof (IH (pre ++ [seg])) as IH1. rewrite <-!app_assoc in IH1. by apply IH1.
Qed.
End acknowledge.

(** The cumulative acknowledgement of a header: with snd_buf sorted from
    snd_una on, ikcp_parse_una removes exactly the segments before [una], frees
    their blocks and corrects the counter. *)
Theorem una_removes_acknowledged una k a :
  is_u32 (k_nsnd_buf k) → window_sorted (k_snd_una k) (2 ^ 31) (k_snd_buf k) → offset (k_snd_una k) una < 2 ^ 31 →
  wp (ikcp_parse_una una)
    (λ _, removed (k, a) (filter (λ s, offset (k_snd_una k) una ≤ offset (k_snd_una k) (s_sn s)) (k_snd_buf k))) (k, a).
Proof. intros Hn Hs Hu. unfold ikcp_parse_una. wp_step. by apply (parse_una_loop_spec (k_snd_una k) (2 ^ 31)). Qed.

(** A selective acknowledgement: with snd_buf sorted between snd_una and
    snd_nxt, ikcp_parse_ack removes exactly the segment with that number, if it
    is there, whatever number the peer sends. *)
Theorem ack_removes_one sn k a :
  is_u32 (k_nsnd_buf k) → is_u32 (k_snd_una k) → is_u32 (k_snd_nxt k) → is_u32 sn →
  offset (k_snd_una k) (k_snd_nxt k) ≤ 2 ^ 31 →
  window_sorted (k_snd_una k) (offset (k_snd_una k) (k_snd_nxt k)) (k_snd_buf k) →
  wp (ikcp_parse_ack sn) (λ _, removed (k, a) (filter (λ s, s_sn s ≠ sn) (k_snd_buf k))) (k, a).
Proof.
  intros Hn Hu Hx Hsn Hw Hs. set (N := offset (k_snd_una k) (k_snd_nxt k)) in *. pose proof (offset_range (k_snd_una k) (k_snd_nxt k)).
  unfold ikcp_parse_ack. wp_step.
  assert (Hnxt : k_snd_nxt k = u32 (k_snd_una k + N)) by (unfold N, offset; word).
  rewrite orb_comm, Hnxt, in_window by (done || lia).
  destruct (Z.ltb_spec (offset (k_snd_una k) sn) N); cbn [negb].
  - eapply (parse_ack_loop_spec (k_snd_una k) N ltac:(lia) sn []); done.
  - wp_step. rewrite filter_all; [by apply removed_none|]. destruct Hs as [_ Hf].
    eapply Forall_impl; [exact Hf|]. intros t [_ Ht] Heq. cbn in Ht. rewrite Heq in Ht. lia.
Qed.

(** The segment ikcp_flush numbers with [i] more than snd_nxt. *)
Definition numbered_as (k : ikcpcb) (s t : IKCPSEG) (i : nat) : Prop :=
  s_sn t = u32 (k_snd_nxt k + Z.of_nat i) ∧ s_frg t = s_frg s ∧ s_data t = s_data s ∧ s_len t = s_len s ∧
  s_cmd t = IKCP_CMD_PUSH ∧ s_conv t = k_conv k ∧ s_xmit t = 0.

(** The sending window: with [N] numbers outstanding, ikcp_flush numbers the
    first min(queued, cwnd - N) segments of snd_queue, consecutively from snd_nxt,
    appends them to snd_buf and leaves the rest queued. *)
Theorem flush_fills_window cwnd wnd current k :
  is_u32 (k_snd_una k) → is_u32 (k_snd_nxt k) → 0 ≤ cwnd < 2 ^ 31 → offset (k_snd_una k) (k_snd_nxt k) < 2 ^ 31 →
  let k' := move_snd cwnd wnd current (k_snd_queue k) k in
  let n := Nat.min (length (k_snd_queue k)) (Z.to_nat (cwnd - offset (k_snd_una k) (k_snd_nxt k))) in
  k_snd_queue k' = drop n (k_snd_queue k) ∧ k_snd_nxt k' = u32 (k_snd_nxt k + Z.of_nat n) ∧
  ∃ new, k_snd_buf k' = k_snd_buf k ++ new ∧ length new = n ∧
    ∀ i t, new !! i = Some t → ∃ s, k_snd_queue k !! i = Some s ∧ numbered_as k s t i.
Proof.
  intros Hu Hx Hc. cbv zeta. remember (k_snd_queue k) as q eqn:Hq. revert k Hq Hu Hx.
  induction q as [|seg q IH]; intros k Hq Hu Hx HN; cbn [move_snd length Nat.min].
  { rewrite <-Hq, Z.add_0_r, u32_id by done. split_and!; try done. exists []. by rewrite app_nil_r. }
  assert (Hd : _itimediff (k_snd_nxt k) (u32 (k_snd_una k + cwnd)) = offset (k_snd_una k) (k_snd_nxt k) - cwnd).
  { unfold _itimediff, offset in *. word. }
  rewrite Hd. pose proof (offset_range (k_snd_una k) (k_snd_nxt k)).
  destruct (Z.ltb_spec (offset (k_snd_una k) (k_snd_nxt k) - cwnd) 0).
  - set (k1 := set_snd_nxt _ _).
    assert (HN1 : offset (k_snd_una k1) (k_snd_nxt k1) = offset (k_snd_una k) (k_snd_nxt k) + 1).
    { cbn. unfold offset in *. word. }
    destruct (IH k1) as (IH1&IH2&new&IH3&IH4&IH5); [done|done|apply u32_range|lia|].
    rewrite HN1 in *. replace (Z.to_nat (cwnd - _)) with (S (Z.to_nat (cwnd - (offset (k_snd_una k) (k_snd_nxt k) + 1)))) by lia.
    cbn [Nat.min drop]. set (n := Nat.min _ _) in *. split; [done|].
    cbn [k_snd_nxt k1 set_snd_nxt] in IH2. split; [rewrite IH2; word|].
    cbn in IH3. rewrite <-app_assoc in IH3. eexists. split; [exact IH3|]. cbn [length app]. split; [by rewrite IH4|].
    intros [|i] t Ht.
    + injection Ht as <-. exists seg. split; [done|]. unfold numbered_as. cbn. rewrite Z.add_0_r, u32_id by done. done.
    + destruct (IH5 i t Ht) as (s&Hs&Hn). exists s. split; [done|]. destruct Hn as (Hn&?). split; [|done].
      rewrite Hn. cbn. word.
  - replace (Z.to_nat _) with 0%nat by lia. cbn. rewrite <-Hq, Z.add_0_r, u32_id by done. split_and!; try done.
    exists []. by rewrite app_nil_r.
Qed.

(** ** Examples *)

(** Sequence numbers across the wrap of 2^32. *)
Definition seg_sn (sn : Z) : IKCPSEG := mk_seg 0 IKCP_CMD_PUSH 0 0 0 sn 0 1 0 0 0 1 [5].
Definition demo_rcv : ikcpcb := set_rcv_nxt (2 ^ 32 - 2) (set_rcv_buf [seg_sn (2 ^ 32 - 1); seg_sn 1] (kcp_init 1)).
Definition demo_snd : ikcpcb :=
  set_snd_una (2 ^ 32 - 1) (set_snd_nxt 2 (set_nsnd_buf 3 (set_snd_buf (seg_sn <$> [2 ^ 32 - 1; 0; 1])
    (set_snd_queue (seg_sn <$> [0; 0; 0]) (kcp_init 1))))).
Definition al0 : alloc := mk_alloc [] 10 [].

Lemma parse_data_orders_witness :
  (is_u32 (k_rcv_nxt demo_rcv) ∧ 0 ≤ k_rcv_wnd demo_rcv ≤ 2 ^ 31 ∧ is_u32 (s_sn (seg_sn (2 ^ 32 - 2))) ∧
   window_sorted (k_rcv_nxt demo_rcv) (k_rcv_wnd demo_rcv) (k_rcv_buf demo_rcv)) ∧
  wp (ikcp_parse_data (seg_sn (2 ^ 32 - 2))) (λ _ s',
    if offset (k_rcv_nxt demo_rcv) (s_sn (seg_sn (2 ^ 32 - 2))) <? k_rcv_wnd demo_rcv
    then ∃ buf m, ordered (seg_sn (2 ^ 32 - 2)) demo_rcv s'.1 buf m
    else s' = (demo_rcv, mk_alloc (al_plan al0) (al_live al0 - 1) (al_rand al0))) (demo_rcv, al0).
Proof.
  assert (H : is_u32 (k_rcv_nxt demo_rcv) ∧ 0 ≤ k_rcv_wnd demo_rcv ≤ 2 ^ 31 ∧ is_u32 (s_sn (seg_sn (2 ^ 32 - 2))) ∧
   window_sorted (k_rcv_nxt demo_rcv) (k_rcv_wnd demo_rcv) (k_rcv_buf demo_rcv)).
  { split_and!; try (cbn; unfold IKCP_WND_RCV; word); repeat (constructor; cbn; try (unfold offset; word)). }
  split; [exact H|]. destruct H as (?&?&?&?). by apply (parse_data_orders (seg_sn (2 ^ 32 - 2)) demo_rcv al0).
Defined.
Lemma una_removes_acknowledged_witness :
  offset (k_snd_una demo_snd) 1 = 2 ∧
  wp (ikcp_parse_una 1)
    (λ _, removed (demo_snd, al0) (filter (λ s, offset (k_snd_una demo_snd) 1 ≤ offset (k_snd_una demo_snd) (s_sn s))
       (k_snd_buf demo_snd))) (demo_snd, al0).
Proof.
  split; [reflexivity|]. apply (una_removes_acknowledged 1 demo_snd al0); [cbn; word| |cbn; unfold offset; word].
  split; repeat (constructor; cbn; try (unfold offset; word)).
Defined.
Lemma ack_removes_one_witness :
  k_snd_buf demo_snd = seg_sn <$> [2 ^ 32 - 1; 0; 1] ∧
  wp (ikcp_parse_ack 0) (λ _, removed (demo_snd, al0) (filter (λ s, s_sn s ≠ 0) (k_snd_buf demo_snd))) (demo_snd, al0).
Proof.
  split; [reflexivity|].
  apply (ack_removes_one 0 demo_snd al0); try (cbn; word); [cbn; unfold offset; word|].
  split; repeat (constructor; cbn; try (unfold offset; word)).
Defined.
(** Three numbers outstanding and a window of 5: two of three segments leave. *)
Lemma flush_fills_window_witness :
  offset (k_snd_una demo_snd) (k_snd_nxt demo_snd) = 3 ∧
  let k' := move_snd 5 128 0 (k_snd_queue demo_snd) demo_snd in
  let n := Nat.min 3 2 in
  k_snd_queue k' = drop n (k_snd_queue demo_snd) ∧ k_snd_nxt k' = u32 (k_snd_nxt demo_snd + Z.of_nat n) ∧
  ∃ new, k_snd_buf k' = k_snd_buf demo_snd ++ new ∧ length new = n ∧
    ∀ i t, new !! i = Some t → ∃ s, k_snd_queue demo_snd !! i = Some s ∧ numbered_as demo_snd s t i.
Proof.
  split; [reflexivity|].
  apply (flush_fills_window 5 128 0 demo_snd); cbn; try word. unfold offset. word.
Defined.
