(* ===== verification/KcpTiming.v ===== *)
(** KCP: clocks.  The retransmission timeout stays in its bounds, ikcp_update and
    ikcp_check agree on when work is due, the configuration keeps its limits. *)
From S2P Require Import Prelude KvMem KcpBase KcpCb KcpAck KcpData KcpInput KcpFlush KcpInv.

Lemma imin_min a b : _imin_ a b = Z.min a b.
Proof. unfold _imin_. destruct (Z.leb_spec a b); lia. Qed.
Lemma imax_max a b : _imax_ a b = Z.max a b.
Proof. unfold _imax_. destruct (Z.leb_spec b a); lia. Qed.

(** ** The retransmission timeout *)

Lemma wp_int_expr {S} w z (Q : Z → S → Prop) s : is_i32 z → Q z s → wp (int_expr w z) Q s.
Proof.
  intros Hz HQ. unfold int_expr, is_i32 in *.
  by rewrite (proj2 (Z.leb_le _ _)), (proj2 (Z.ltb_lt _ _)) by lia.
Qed.

(** The estimate of a connection whose round trips were all below 2^28 ms. *)
Record estimate (k : ikcpcb) : Prop := {
  es_srtt : 0 ≤ k_rx_srtt k < 2 ^ 28;
  es_rttval : 0 ≤ k_rx_rttval k < 2 ^ 28;
  es_minrto : 0 ≤ k_rx_minrto k ≤ IKCP_RTO_MAX;
  es_interval : 10 ≤ k_interval k ≤ 5000;
}.

Lemma rto_step k :
  estimate k →
  wp (k ← get;
      v4 ← int_expr EstimateOverflow (4 * k_rx_rttval k);
      let rto := i32 (u32 (k_rx_srtt k + _imax_ (k_interval k) (u32 v4))) in
      modify (set_rx_rto (i32 (_ibound_ (u32 (k_rx_minrto k)) (u32 rto) IKCP_RTO_MAX))))
    (λ _ k', k' = set_rx_rto (Z.min (Z.max (k_rx_minrto k)
       (k_rx_srtt k + Z.max (k_interval k) (4 * k_rx_rttval k))) IKCP_RTO_MAX) k) k.
Proof.
  intros [Hs Hv Hm Hi]. unfold IKCP_RTO_MAX in *. wp_step. apply wp_int_expr; [word|]. wp_step. f_equal. unfold _ibound_. rewrite imin_min, !imax_max.
  rewrite (u32_id (4 * k_rx_rttval k)), (u32_id (k_rx_minrto k)) by word.
  rewrite (u32_id (k_rx_srtt k + _)), (i32_id (k_rx_srtt k + _)), (u32_id (k_rx_srtt k + _)) by word.
  apply i32_id. unfold is_i32. lia.
Qed.

(** C34: ikcp_update_ack with a round trip below 2^28 ms (about three days) has no
    int overflow, keeps the smoothed values below 2^28, and sets the timeout to
    srtt + max(interval, 4 * rttvar) cut to [rx_minrto, 60000]. *)
Theorem rto_in_bounds rtt k :
  0 ≤ rtt < 2 ^ 28 → estimate k →
  wp (ikcp_update_ack rtt) (λ _ k', estimate k' ∧ k_rx_minrto k' = k_rx_minrto k ∧
    k_rx_rto k' = Z.min (Z.max (k_rx_minrto k') (k_rx_srtt k' + Z.max (k_interval k') (4 * k_rx_rttval k'))) IKCP_RTO_MAX ∧
    k_rx_minrto k ≤ k_rx_rto k' ≤ IKCP_RTO_MAX) k.
Proof.
  intros Hr [Hs Hv Hm Hi]. unfold ikcp_update_ack. rewrite wp_bind, wp_get.
  eapply (wp_seq _ _ (λ _ k', estimate k' ∧ k_rx_minrto k' = k_rx_minrto k)).
  - destruct (Z.eqb_spec (k_rx_srtt k) 0).
    + wp_step. split; [|done]. constructor; cbn; try lia; try done. rewrite Z.quot_div_nonneg by lia. Z.div_mod_to_equations. lia.
    + wp_step. apply wp_int_expr; [word|]. wp_step. set (delta := if _ <? 0 then _ else _).
      assert (0 ≤ delta < 2 ^ 28) by (subst delta; destruct (Z.ltb_spec (rtt - k_rx_srtt k) 0); lia).
      apply wp_int_expr; [word|]. wp_step. apply wp_int_expr; [cbn; word|]. wp_step. cbn [k_rx_srtt set_rx_rttval].
      apply wp_int_expr; [word|]. wp_step.
      assert (0 ≤ Z.quot (3 * k_rx_rttval k + delta) 4 < 2 ^ 28) by (rewrite Z.quot_div_nonneg by lia; Z.div_mod_to_equations; lia).
      assert (0 ≤ Z.quot (7 * k_rx_srtt k + rtt) 8 < 2 ^ 28) by (rewrite Z.quot_div_nonneg by lia; Z.div_mod_to_equations; lia).
      rewrite (i32_id (Z.quot _ 4)) by word.
      destruct (_ <? 1); (split; [|done]); constructor; cbn; try lia; try done.
  - intros [] k1 [He Hm1]. eapply wp_mono; [by apply rto_step|]. intros [] k2 ->. destruct He as [? ? ? ?]. rewrite <-Hm1.
    split; [by constructor|]. cbn. unfold IKCP_RTO_MAX in *. split_and!; try done; lia.
Qed.

Lemma update_ack_overflow rtt k :
  k_rx_srtt k = 0 → 2 ^ 30 ≤ rtt < 2 ^ 31 → ikcp_update_ack rtt k = UB EstimateOverflow.
Proof.
  intros Hs Hr. unfold ikcp_update_ack, bind, get, modify. cbn beta iota. rewrite Hs. cbn [Z.eqb k_rx_rttval set_rx_rttval set_rx_srtt].
  unfold int_expr. rewrite Z.quot_div_nonneg by lia.
  rewrite (proj2 (Z.ltb_ge (4 * (rtt / 2)) _)), andb_false_r by (Z.div_mod_to_equations; lia). done.
Qed.

(** One acknowledgement with a forged timestamp: a first round trip of 2^30 ms
    or more makes 4 * rx_rttval overflow int, whatever else the block holds. *)
Theorem forged_ack_overflows bytes h k a :
  decode_header bytes = Some (h, []) → h_conv h = k_conv k → h_cmd h = IKCP_CMD_ACK → h_len h = 0 →
  k_snd_buf k = [] → k_rx_srtt k = 0 → 2 ^ 30 ≤ _itimediff (k_current k) (h_ts h) →
  ikcp_input (Some bytes) (k, a) = UB EstimateOverflow.
Proof.
  intros Hd Hconv Hcmd Hlen Hb Hs Hrtt. apply decode_header_length in Hd as Hl. cbn in Hl.
  pose proof (itimediff_range (k_current k) (h_ts h)) as Hi. unfold is_i32 in Hi.
  unfold ikcp_input, bind, on_fst, get at 1. rewrite Hl. change (i32 (Z.of_nat 24) <? IKCP_OVERHEAD) with false. cbn iota beta.
  cbn [input_loop]. rewrite Hl. change (Z.of_nat 24 <? IKCP_OVERHEAD) with false. unfold bind, on_fst, get at 1. cbn iota beta.
  rewrite Hd. cbn [from_opt ret]. unfold ret at 1. rewrite Hconv, Z.eqb_refl, Hlen, Hcmd. cbn [negb].
  change ((Z.of_nat 24 - IKCP_OVERHEAD <? 0) || (i32 0 <? 0)) with false. change (negb (known_cmd IKCP_CMD_ACK)) with false.
  cbn iota beta. unfold input_segment, bind, on_fst, modify at 1. rewrite Hcmd. cbn [Z.eqb].
  unfold ikcp_parse_una, bind, on_fst, get at 1. cbn [k_snd_buf set_rmt_wnd]. rewrite Hb. cbn [parse_una_loop ret]. unfold ret at 1.
  unfold ikcp_shrink_buf, modify at 1. cbn [k_snd_buf set_rmt_wnd]. rewrite Hb. change (IKCP_CMD_ACK =? IKCP_CMD_ACK) with true.
  unfold input_ack, bind, on_fst, get at 1. cbn [k_current set_snd_una set_rmt_wnd].
  rewrite (proj2 (Z.leb_le 0 _)) by lia. rewrite update_ack_overflow; [done|done|lia].
Qed.

Lemma rto_in_bounds_witness :
  wp (ikcp_update_ack 250) (λ _ k', k_rx_rto k' = 750) (set_output true (kcp_init 1)) ∧
  wp (ikcp_update_ack 250) (λ _ k', estimate k' ∧ k_rx_minrto k' = 100 ∧
    k_rx_rto k' = Z.min (Z.max (k_rx_minrto k') (k_rx_srtt k' + Z.max (k_interval k') (4 * k_rx_rttval k'))) IKCP_RTO_MAX ∧
    100 ≤ k_rx_rto k' ≤ IKCP_RTO_MAX) (kcp_init 1).
Proof. split; [vm_compute; reflexivity|]. apply (rto_in_bounds 250 (kcp_init 1)); [lia|]. by constructor. Defined.

Definition forged : IKCPSEG := mk_seg 1 IKCP_CMD_ACK 0 128 (2 ^ 32 - 2 ^ 30) 0 0 0 0 0 0 0 [].
Lemma forged_ack_overflows_witness :
  ikcp_input (Some (ikcp_encode_seg forged)) (kcp_init 1, mk_alloc [] 2 []) = UB EstimateOverflow.
Proof.
  apply (forged_ack_overflows (ikcp_encode_seg forged) (seg_header forged) (kcp_init 1) (mk_alloc [] 2 []));
    [reflexivity..|vm_compute; discriminate].
Defined.

(** ** When to update *)

(** What [ikcp_check] must not sleep past: the next flush and every resend time. *)
Definition due_in (k : ikcpcb) (current : Z) : Z :=
  if (10000 <=? _itimediff current (k_ts_flush k)) || (_itimediff current (k_ts_flush k) <? -10000) then 0
  else Z.max 0 (_itimediff (k_ts_flush k) current).

Lemma itimediff_antisym a b : -10000 ≤ _itimediff a b < 10000 → _itimediff b a = - _itimediff a b.
Proof. unfold _itimediff. word. Qed.

Lemma check_loop_spec current tm buf :
  0 < tm →
  match check_loop current tm buf with
  | None => ∃ s, s ∈ buf ∧ _itimediff (s_resendts s) current ≤ 0
  | Some t => 0 < t ≤ tm ∧ Forall (λ s, t ≤ _itimediff (s_resendts s) current) buf
  end.
Proof.
  revert tm. induction buf as [|s buf IH]; intros tm Htm; cbn [check_loop]; [by split; [lia|]|].
  destruct (Z.leb_spec (_itimediff (s_resendts s) current) 0) as [Hle|Hgt].
  { exists s. split; [apply list_elem_of_here|done]. }
  set (tm' := if _ <? tm then _ else tm).
  assert (0 < tm' ≤ tm ∧ tm' ≤ _itimediff (s_resendts s) current).
  { subst tm'. destruct (Z.ltb_spec (_itimediff (s_resendts s) current) tm); lia. }
  specialize (IH tm'). destruct (check_loop current tm' buf) as [t|].
  - destruct IH as [? Hf]; [lia|]. split; [lia|]. constructor; [lia|done].
  - destruct IH as (t&?&?); [lia|]. exists t. split; [by right|done].
Qed.

(** ikcp_check names a moment between now and now + interval that is not later
    than the next flush and not later than any resend time in snd_buf; it names
    now exactly when one of them is due. *)
Theorem check_is_timely k current :
  k_updated k ≠ 0 → is_u32 current → 10 ≤ k_interval k ≤ 5000 →
  let d := _itimediff (ikcp_check k current) current in
  0 ≤ d ≤ k_interval k ∧ d ≤ due_in k current ∧
  Forall (λ s, d ≤ Z.max 0 (_itimediff (s_resendts s) current)) (k_snd_buf k) ∧
  (d = 0 ↔ due_in k current = 0 ∨ ∃ s, s ∈ k_snd_buf k ∧ _itimediff (s_resendts s) current ≤ 0).
Proof.
  intros Hu Hc Hi. cbv zeta. unfold ikcp_check, due_in. rewrite (proj2 (Z.eqb_neq _ _) Hu).
  assert (Hnow : ∀ P : Prop, P → _itimediff current current = 0 ∧ P) by (intros; split; [apply itimediff_refl|done]).
  assert (Hz : ∀ e, 0 ≤ e → (e = 0 ∨ ∃ s, s ∈ k_snd_buf k ∧ _itimediff (s_resendts s) current ≤ 0) →
    let d := _itimediff current current in 0 ≤ d ≤ k_interval k ∧ d ≤ e ∧
    Forall (λ s, d ≤ Z.max 0 (_itimediff (s_resendts s) current)) (k_snd_buf k) ∧
    (d = 0 ↔ e = 0 ∨ ∃ s, s ∈ k_snd_buf k ∧ _itimediff (s_resendts s) current ≤ 0)).
  { intros e He Hdue. cbv zeta. rewrite itimediff_refl. split_and!; try lia; [|tauto].
    apply Forall_forall. intros s _. lia. }
  destruct (_ || _) eqn:Hlate.
  { rewrite itimediff_refl. cbn [Z.leb Z.compare]. apply Hz; [lia|by left]. }
  apply orb_false_iff in Hlate as [H1%Z.leb_gt H2%Z.ltb_ge].
  pose proof (itimediff_antisym current (k_ts_flush k) ltac:(lia)) as Hanti.
  destruct (Z.leb_spec 0 (_itimediff current (k_ts_flush k))) as [Hle|Hgt].
  { apply Hz; [lia|left; lia]. }
  pose proof (check_loop_spec current 2147483647 (k_snd_buf k) ltac:(lia)) as Hloop.
  destruct (check_loop _ _ _) as [tm|].
  - destruct Hloop as [Htm Hf]. set (fl := _itimediff (k_ts_flush k) current) in *.
    set (mn := u32 (if tm <? fl then tm else fl)).
    assert (Hmn : mn = Z.min tm fl).
    { subst mn. destruct (Z.ltb_spec tm fl); rewrite u32_id by word; lia. }
    set (w := if k_interval k <=? mn then _ else mn).
    assert (Hw : w = Z.min (k_interval k) mn) by (subst w; destruct (Z.leb_spec (k_interval k) mn); lia).
    assert (Hd : _itimediff (u32 (current + w)) current = w).
    { apply itimediff_exact; [lia|]. clear -Hw. word. }
    rewrite Hd. split_and!; try lia.
    + eapply Forall_impl; [exact Hf|]. intros s ?. cbn in *. lia.
    + split; [lia|]. intros [?|(s&Hin&Hs)]; [lia|]. eapply Forall_forall in Hf; [|exact Hin]. cbn in Hf. lia.
  - destruct Hloop as (s&?&?). apply Hz; [lia|]. right. by exists s.
Qed.

(** ** Configuration *)

Record tuned (k : ikcpcb) : Prop := {
  tn_interval : 10 ≤ k_interval k ≤ 5000;
  tn_rcv_wnd : IKCP_WND_RCV ≤ k_rcv_wnd k;
  tn_snd_wnd : 0 < k_snd_wnd k;
  tn_minrto : k_rx_minrto k = IKCP_RTO_MIN ∨ k_rx_minrto k = IKCP_RTO_NDL;
}.
Lemma clamp_interval_range i : 10 ≤ clamp_interval i ≤ 5000.
Proof. unfold clamp_interval. destruct (Z.ltb_spec 5000 i), (Z.ltb_spec i 10); lia. Qed.

(** Whatever ints ikcp_interval, ikcp_nodelay and ikcp_wndsize are given, they
    return 0, the flush interval stays in 10 .. 5000 ms, the receive window never
    shrinks below 128 segments (a whole message fits), and the minimal timeout is
    30 or 100 ms. *)
Theorem configuration_in_bounds k :
  tuned k →
  (∀ i, wp (ikcp_interval i) (λ r k', r = 0 ∧ tuned k') k) ∧
  (∀ n i r c, wp (ikcp_nodelay n i r c) (λ rv k', rv = 0 ∧ tuned k' ∧
     (0 ≤ n → k_rx_minrto k' = if n =? 0 then IKCP_RTO_MIN else IKCP_RTO_NDL)) k) ∧
  (∀ s r, wp (ikcp_wndsize s r) (λ rv k', rv = 0 ∧ tuned k') k).
Proof.
  intros [Hi Hr Hs Hm]. unfold IKCP_WND_RCV in *. split_and!.
  - intros i. unfold ikcp_interval. wp_step. split; [done|]. constructor; cbn; try done. apply clamp_interval_range.
  - intros n i r c. unfold ikcp_nodelay. wp_step. pose proof (clamp_interval_range i).
    destruct (Z.leb_spec 0 n), (0 <=? i), (0 <=? r), (0 <=? c), (n =? 0); cbn;
      (split; [done|split; [constructor; cbn; unfold IKCP_WND_RCV; auto; lia|intros; cbn; (done || lia)]]).
  - intros s r. unfold ikcp_wndsize, IKCP_WND_RCV. wp_step. rewrite imax_max.
    destruct (Z.ltb_spec 0 s), (Z.ltb_spec 0 r); (split; [done|constructor; cbn; unfold IKCP_WND_RCV; auto; lia]).
Qed.
Lemma configuration_in_bounds_witness :
  tuned (kcp_init 9) ∧ wp (ikcp_wndsize 64 5) (λ rv k', rv = 0 ∧ tuned k') (kcp_init 9).
Proof.
  assert (H : tuned (kcp_init 9)) by (constructor; cbn; unfold IKCP_INTERVAL; [lia|done|done|by left]).
  split; [exact H|]. apply (configuration_in_bounds (kcp_init 9) H).
Defined.
Lemma check_is_timely_witness :
  let k := set_ts_flush 130 (set_updated 1 (kcp_init 1)) in
  ikcp_check k 100 = 130 ∧
  0 ≤ _itimediff (ikcp_check k 100) 100 ≤ k_interval k.
Proof.
  split; [reflexivity|].
  apply (check_is_timely (set_ts_flush 130 (set_updated 1 (kcp_init 1))) 100); [done|done|]. cbn. unfold IKCP_INTERVAL. lia.
Defined.
