(* ===== verification/KcpApi.v ===== *)
(** KCP: what the calls of the application promise, the header format, and calls
    that break the promises. *)
From S2P Require Import Prelude KvMem KcpBase KcpCb KcpAck KcpData KcpInput KcpFlush.
From S2P Require Import KcpInv KcpRecvInv KcpSendInv KcpSession.

(** ** The wire format *)

(** Reading a header back: whatever a segment holds, ikcp_input decodes the 24
    bytes of ikcp_encode_seg to its fields cut to their widths, and consumes no
    more; fields within their widths come back as they were. *)
Theorem header_roundtrip seg p :
  decode_header (ikcp_encode_seg seg ++ p) = Some (wire_header seg, p) ∧
  length (ikcp_encode_seg seg) = 24%nat ∧ (header_ok (seg_header seg) → wire_header seg = seg_header seg).
Proof.
  split; [apply decode_encode_wire|]. split; [done|]. intros H.
  pose proof (decode_encode_seg seg p H) as Hd. rewrite decode_encode_wire in Hd. congruence.
Qed.
Lemma header_roundtrip_witness :
  header_ok (seg_header (mk_seg 7 81 2 128 5 6 4 10 0 0 0 0 [])) ∧
  wire_header (mk_seg 7 81 2 128 5 6 4 10 0 0 0 0 []) = seg_header (mk_seg 7 81 2 128 5 6 4 10 0 0 0 0 []).
Proof.
  assert (H : header_ok (seg_header (mk_seg 7 81 2 128 5 6 4 10 0 0 0 0 []))) by (constructor; cbn; word).
  split; [exact H|]. by apply (header_roundtrip _ []).
Defined.

(** ** ikcp_send *)

Lemma fragments_bound mss n b : (0 < mss)%nat → Forall (λ f : frag, (length f.2 ≤ mss)%nat) (fragments mss n b).
Proof.
  intros. revert b. induction n as [|n IH]; intros b; cbn; constructor; [|apply IH]. cbn. rewrite length_take. lia.
Qed.
Lemma fragments_numbers mss n b : fst <$> fragments mss n b = reverse (Z.of_nat <$> seq 0 n).
Proof.
  revert b. induction n as [|n IH]; intros b; [done|]. rewrite seq_S, fmap_app, reverse_app. cbn. by rewrite IH.
Qed.

(** C33: ikcp_send in message mode.  A message of [len] bytes becomes
    max(1, ceil(len / mss)) segments appended to snd_queue, whose data concatenate
    to the message, each of at most mss bytes, numbered down to 0.  From 128
    segments on the call returns -2 and changes nothing. *)
Theorem send_cuts_message c L G buffer s :
  kcp_inv c L G s → Z.of_nat (length buffer) < 2 ^ 31 → k_stream s.1 = 0 →
  swp (ikcp_send buffer (Z.of_nat (length buffer)))
    (λ r s',
       let n := frag_count (k_mss s.1) (Z.of_nat (length buffer)) in
       if n <? IKCP_WND_RCV
       then r = 0 ∧ ∃ fs : list frag,
         seg_frag <$> k_snd_queue s'.1 = (seg_frag <$> k_snd_queue s.1) ++ fs ∧ mjoin fs.*2 = buffer ∧
         Forall (λ f, Z.of_nat (length f.2) ≤ k_mss s.1) fs ∧ fs.*1 = reverse (Z.of_nat <$> seq 0 (Z.to_nat n))
       else r = -2 ∧ s' = s) s.
Proof.
  intros Hi Hl Hst. eapply swp_mono; [by apply ikcp_send_inv|]. intros r s' (_&_&_&H). specialize (H Hst).
  cbv zeta in H |- *. destruct (_ <? _); [|done]. destruct H as [-> H]. split; [done|].
  assert (26 ≤ k_mss s.1 < 2 ^ 30).
  { destruct Hi as [[_ Hm Hs _ _] _ _ _ _ _ _]. unfold IKCP_OVERHEAD in *. cbn in *. lia. }
  destruct (frag_count_bounds (k_mss s.1) (Z.of_nat (length buffer))) as [Hn1 Hn2]; [lia|lia|].
  eexists. split; [exact H|]. split_and!.
  - apply fragments_data. rewrite <-Z2Nat.inj_mul by lia. lia.
  - eapply Forall_impl; [apply fragments_bound; lia|]. intros f Hf. cbn in Hf. lia.
  - apply fragments_numbers.
Qed.

(** A block that was just opened. *)
Definition fresh (mtu : Z) : kst :=
  (set_output true (set_mtu mtu (set_mss (mtu - IKCP_OVERHEAD) (set_buffer (Some ((mtu + IKCP_OVERHEAD) * 3)) (kcp_init 1)))),
   mk_alloc [] 2 []).
Lemma fresh_inv G mtu : 50 ≤ mtu < 2 ^ 30 → kcp_inv 0 [] G (fresh mtu).
Proof.
  intros Hm. inv_close.
  - eexists. split; [done|]. unfold IKCP_OVERHEAD. lia.
  - by constructor.
Qed.
Lemma send_cuts_message_witness :
  frag_count 26 60 = 3 ∧
  swp (ikcp_send (replicate 60 5) 60)
    (λ r s', r = 0 ∧ ∃ fs : list frag,
         seg_frag <$> k_snd_queue s'.1 = [] ++ fs ∧ mjoin fs.*2 = replicate 60 5 ∧
         Forall (λ f, Z.of_nat (length f.2) ≤ 26) fs ∧ fs.*1 = [2; 1; 0]) (fresh 50).
Proof.
  split; [reflexivity|].
  apply (send_cuts_message 0 [] any_seg (replicate 60 5) (fresh 50)); [apply fresh_inv; lia|vm_compute; reflexivity|reflexivity].
Defined.

(** ** ikcp_recv *)

Lemma swp_and_wlp {S A} (m : M S A) (P Q : A → S → Prop) s :
  swp m P s → wlp m Q s → swp m (λ a s', P a s' ∧ Q a s') s.
Proof. unfold swp, wlp. by destruct (m s) as [[]| |]. Qed.

Lemma merge_loop_queue len buf q s :
  k_rcv_queue s.1 = q →
  wlp (merge_loop false len buf q) (λ _ s', k_rcv_queue s'.1 = (cut_msg q).2) s.
Proof.
  revert len buf s. induction q as [|t q IH]; intros len buf [k a] Hq; cbn [merge_loop cut_msg]; [done|].
  wp_step. change (wlp ikcp_free ?Q a) with (Q () (mk_alloc (al_plan a) (al_live a - 1) (al_rand a))). cbv beta.
  destruct (s_frg t =? 0); wp_step; [done|]. eapply wlp_mono; [by apply IH|]. intros r s'. by destruct (cut_msg q).
Qed.
Lemma move_loop_queue buf k : wlp (move_loop buf) (λ _ k', k_rcv_queue k `prefix_of` k_rcv_queue k') k.
Proof.
  revert k. induction buf as [|s buf IH]; intros k; cbn [move_loop]; [by wp_step|].
  wp_step. destruct (_ && _); [|by wp_step]. wp_step. eapply wlp_mono; [apply IH|].
  intros [] k' H. cbn in H. etrans; [|exact H]. by eexists.
Qed.
(** What ikcp_recv answers, and what it leaves in the queue. *)
Lemma recv_codes len s :
  - 2 ^ 31 < len < 2 ^ 31 →
  wlp (ikcp_recv len) (λ '(r, buf) s',
    let q := k_rcv_queue s.1 in
    let size := ikcp_peeksize s.1 in
    if bool_decide (q = []) then r = -1 ∧ buf = [] ∧ s' = s
    else if size <? 0 then r = -2 ∧ buf = [] ∧ s' = s
    else if Z.abs len <? size then r = -3 ∧ buf = [] ∧ s' = s
    else (if len <? 0 then q else (cut_msg q).2) `prefix_of` k_rcv_queue s'.1) s.
Proof.
  destruct s as [k a]. intros Hlen. unfold ikcp_recv. cbn [fst]. rewrite wlp_bind, wlp_on_fst, wlp_get. cbv zeta.
  destruct (k_rcv_queue k) as [|s0 q0] eqn:Hq; [by wp_step|]. rewrite <-Hq.
  rewrite bool_decide_eq_false_2 by (by rewrite Hq).
  assert (Habs : (if len <? 0 then - len else len) = Z.abs len) by (destruct (Z.ltb_spec len 0); lia).
  rewrite Habs. unfold int_expr. rewrite (proj2 (Z.leb_le _ _)), (proj2 (Z.ltb_lt _ _)) by lia. cbn [andb]. wp_step.
  destruct (ikcp_peeksize k <? 0); [by wp_step|]. destruct (Z.abs len <? _); [by wp_step|]. wp_step.
  set (q := k_rcv_queue k) in *.
  eapply (wlp_mono _ (λ _ s', (if len <? 0 then q else (cut_msg q).2) = k_rcv_queue s'.1)).
  { destruct (len <? 0); [unfold wlp; by rewrite merge_peek|].
    eapply wlp_mono; [by apply merge_loop_queue|]. by intros ? ? ->. }
  intros [len' buf] [k1 a1] ->. cbn [fst]. destruct (negb _); [by wp_step|]. wp_step.
  eapply wlp_mono; [apply move_loop_queue|]. intros [] k2 H. wp_step. by destruct (_ && _).
Qed.


(** A queue with a message of two segments and the start of another. *)
Definition demo_read : kst :=
  (set_rcv_nxt 3 (set_nrcv_que 3 (set_rcv_queue [mk_seg 1 81 1 0 0 0 0 2 0 0 0 0 [1; 2]; mk_seg 1 81 0 0 0 1 0 1 0 0 0 0 [3];
     mk_seg 1 81 1 0 0 2 0 1 0 0 0 0 [4]] (fresh 50).1)), mk_alloc [] 5 []).
Lemma demo_read_inv : kcp_inv 0 [] any_seg demo_read.
Proof.
  inv_close; repeat (constructor; try done).
  - eexists. split; [reflexivity|]. done.
  - intros [|[|[|i]]] s Hs; try (injection Hs as <-; reflexivity). discriminate Hs.
Qed.

(** ** Calls that break the promises *)

(** ikcp_setmtu may shrink the buffer below the segments already queued: after
    a send of one full segment at the default mtu and ikcp_setmtu(50), the flush
    copies 1400 bytes into the new buffer of 222. *)
Theorem setmtu_shrink_overflows :
  (ikcp_send (replicate 1376 1) 1376;; ikcp_setmtu 50;; on_fst (ikcp_update 0);; on_fst (ikcp_update 100)) (fresh 1400)
  = UB OutOfBounds.
Proof. vm_compute. reflexivity. Qed.

(** In stream mode ikcp_send may return the error -2 after it has queued part
    of the buffer: with one byte queued and an mss of 26, a send of 3400 bytes
    fails, but its first 25 bytes have been appended and will be sent. *)
Theorem stream_send_fails_midway :
  ∃ s1 s2,
    ikcp_send [1] 1 (set_stream 1 (fresh 50).1, (fresh 50).2) = Ok (0, s1) ∧
    ikcp_send (replicate 3400 2) 3400 s1 = Ok (-2, s2) ∧
    payload (k_snd_queue s1.1) = [1] ∧ payload (k_snd_queue s2.1) = 1 :: replicate 25 2.
Proof. eexists _, _. split; [vm_compute; reflexivity|]. split; vm_compute; [reflexivity|by split]. Qed.

(** ikcp_wndsize accepts windows the 16-bit field of the header cannot carry:
    with a receive window of 65536 segments and an empty queue, every header
    advertises a window of 0. *)
Theorem wide_window_advertises_zero k :
  k_nrcv_que k = 0 →
  wp (ikcp_wndsize 0 65536) (λ r k', r = 0 ∧ k_rcv_wnd k' = 65536 ∧ ikcp_wnd_unused k' = 65536 ∧
    ∀ seg p, s_wnd seg = u32 (ikcp_wnd_unused k') →
      ∃ h, decode_header (ikcp_encode_seg seg ++ p) = Some (h, p) ∧ h_wnd h = 0) k.
Proof.
  intros Hq. unfold ikcp_wndsize. wp_step. cbn. split; [done|]. split; [done|].
  unfold ikcp_wnd_unused. cbn. rewrite Hq. split; [done|]. intros seg p Hw. eexists. split; [apply decode_encode_wire|].
  cbn. by rewrite Hw.
Qed.
Lemma wide_window_advertises_zero_witness :
  wp (ikcp_wndsize 0 65536) (λ r k', r = 0 ∧ k_rcv_wnd k' = 65536 ∧ ikcp_wnd_unused k' = 65536 ∧
    ∀ seg p, s_wnd seg = u32 (ikcp_wnd_unused k') →
      ∃ h, decode_header (ikcp_encode_seg seg ++ p) = Some (h, p) ∧ h_wnd h = 0) (kcp_init 1).
Proof. apply (wide_window_advertises_zero (kcp_init 1)). reflexivity. Defined.
