(* ===== verification/UsWire.v ===== *)
(** The user-space network stack (senior/2.4_Ustack/tcp.c): what it takes from
    DPDK, byte order, the headers it reads and writes, and the frames it builds.
    A frame is the list of the bytes of an mbuf, from the ethernet header on; the
    host is little-endian. *)
From S2P Require Import Prelude.

(** ** DPDK *)

(** What the code calls in DPDK: lockless rings of RING_SIZE slots, the checksums
    of an IPv4 header and of the TCP or UDP packet behind one, the room an mbuf
    has for data, and the MAC address of the port (read once, at the start). *)
Class Dpdk (R : Type → Type) : Type := {
  rte_ring_new : ∀ {A}, R A;
  rte_ring_mp_enqueue : ∀ {A}, A → R A → Z * R A;
  rte_ring_mc_dequeue : ∀ {A}, R A → option (A * R A);      (* None: a negative number *)
  rte_ring_enqueue_burst : ∀ {A}, list A → R A → nat * R A;
  rte_ring_dequeue_burst : ∀ {A}, nat → R A → list A * R A;
  rte_ipv4_cksum : list Z → Z;
  rte_ipv4_udptcp_cksum : list Z → list Z → Z;
  mbuf_room : Z;
  gSrcMac : list Z
}.

(** A ring of 1024 slots holds 1023 entries. *)
Definition RING_SIZE : nat := 1024.
Abbreviation ring_cap := (RING_SIZE - 1)%nat.

(** The documented behaviour of the rings: bounded FIFO queues. *)
Class DpdkLaws (R : Type → Type) `{Dpdk R} : Type := {
  ring_items : ∀ {A}, R A → list A;
  ring_items_new {A} : ring_items (rte_ring_new (A := A)) = [];
  ring_enqueue_room {A} (x : A) r : (length (ring_items r) < ring_cap)%nat →
    ring_items (rte_ring_mp_enqueue x r).2 = ring_items r ++ [x];
  ring_enqueue_full {A} (x : A) r : (ring_cap ≤ length (ring_items r))%nat →
    ring_items (rte_ring_mp_enqueue x r).2 = ring_items r;
  ring_dequeue_some {A} (r : R A) x l : ring_items r = x :: l →
    ∃ r', rte_ring_mc_dequeue r = Some (x, r') ∧ ring_items r' = l;
  ring_dequeue_none {A} (r : R A) : ring_items r = [] → rte_ring_mc_dequeue r = None;
  ring_enqueue_burst {A} (xs : list A) r :
    ring_items (rte_ring_enqueue_burst xs r).2
    = ring_items r ++ take (ring_cap - length (ring_items r)) xs;
  ring_dequeue_burst {A} n (r : R A) : ∃ r',
    rte_ring_dequeue_burst n r = (take n (ring_items r), r') ∧ ring_items r' = drop n (ring_items r)
}.

(** Lists with this bound meet the contract; the checksums are sums of bytes. *)
Definition sum_bytes (l1 l2 : list Z) : Z := foldr Z.add 0 (l1 ++ l2).
Definition list_dpdk : Dpdk list := {|
  rte_ring_new A := [];
  rte_ring_mp_enqueue A x r := if (length r <? ring_cap)%nat then (0, r ++ [x]) else (-105, r);
  rte_ring_mc_dequeue A r := match r with x :: r => Some (x, r) | [] => None end;
  rte_ring_enqueue_burst A xs r :=
    let n := Nat.min (length xs) (ring_cap - length r) in (n, r ++ take n xs);
  rte_ring_dequeue_burst A n r := (take n r, drop n r);
  rte_ipv4_cksum l := sum_bytes l []; rte_ipv4_udptcp_cksum := sum_bytes;
  mbuf_room := 2048; gSrcMac := [2; 0; 0; 0; 0; 1] |}.
Lemma list_dpdk_laws : @DpdkLaws list list_dpdk.
Proof.
  refine (@Build_DpdkLaws list list_dpdk (λ A l, l) _ _ _ _ _ _ _); intros A; cbn -[RING_SIZE Nat.ltb Nat.sub]; intros.
  - done.
  - by rewrite (proj2 (Nat.ltb_lt _ _)).
  - by rewrite (proj2 (Nat.ltb_ge _ _)).
  - subst. eauto.
  - by subst.
  - f_equal. destruct (decide (length xs ≤ ring_cap - length r)%nat).
    + rewrite Nat.min_l, !take_ge by lia. done.
    + by rewrite Nat.min_r by lia.
  - eauto.
Defined.

(** ** Integers in memory *)

Definition le16 (v : Z) : list Z := [v mod 2 ^ 8; v / 2 ^ 8 mod 2 ^ 8].
Definition le32 (v : Z) : list Z := le16 v ++ le16 (v / 2 ^ 16).
(** ntohs = htons and ntohl = htonl *)
Definition ntohs (v : Z) : Z := v mod 2 ^ 8 * 2 ^ 8 + v / 2 ^ 8 mod 2 ^ 8.
Definition ntohl (v : Z) : Z := ntohs (v mod 2 ^ 16) * 2 ^ 16 + ntohs (v / 2 ^ 16 mod 2 ^ 16).

(** Loads of an unsigned integer at an offset of a frame; the bytes behind those
    received are not part of it. *)
Definition ld8 (p : list Z) (off : nat) : option Z := p !! off.
Definition ld16 (p : list Z) (off : nat) : option Z :=
  match ld8 p off, ld8 p (S off) with
  | Some a, Some b => Some (a + b * 2 ^ 8)
  | _, _ => None
  end.
Definition ld32 (p : list Z) (off : nat) : option Z :=
  match ld16 p off, ld16 p (2 + off) with
  | Some a, Some b => Some (a + b * 2 ^ 16)
  | _, _ => None
  end.
Definition ld_bytes (p : list Z) (off n : nat) : option (list Z) :=
  if (off + n <=? length p)%nat then Some (take n (drop off p)) else None.

(** ** Constants *)

Definition RTE_ETHER_TYPE_IPV4 : Z := 0x0800.
Definition RTE_ETHER_TYPE_ARP : Z := 0x0806.
Definition RTE_ARP_OP_REQUEST : Z := 1.
Definition IPPROTO_TCP : Z := 6.
Definition IPPROTO_UDP : Z := 17.
Definition RTE_TCP_FIN_FLAG : Z := 0x01.
Definition RTE_TCP_SYN_FLAG : Z := 0x02.
Definition RTE_TCP_PSH_FLAG : Z := 0x08.
Definition RTE_TCP_ACK_FLAG : Z := 0x10.
Definition TCP_MAX_SEQ : Z := 4294967295.
Definition TCP_INITIAL_WINDOW : Z := 14600.
Definition gDefaultArpMac : list Z := [0xFF; 0xFF; 0xFF; 0xFF; 0xFF; 0xFF].

(** ** Headers *)

(** The fields the code reads of the IPv4 header at offset 14; addresses and ports
    keep their network byte order. *)
Record ipv4_hdr : Type := mk_ipv4 { total_length : Z; next_proto_id : Z; src_addr : Z; dst_addr : Z }.
Definition load_ipv4 (p : list Z) : option ipv4_hdr :=
  match ld16 p 16, ld8 p 23, ld32 p 26, ld32 p 30 with
  | Some tl, Some pr, Some s, Some d => Some (mk_ipv4 tl pr s d)
  | _, _, _, _ => None
  end.
(** struct rte_tcp_hdr, 20 bytes behind it. *)
Record tcp_hdr : Type := mk_tcp {
  src_port : Z; dst_port : Z; sent_seq : Z; recv_ack : Z; data_off : Z; tcp_flags : Z; rx_win : Z; cksum : Z; tcp_urp : Z }.
Definition load_tcp (p : list Z) : option tcp_hdr :=
  match ld16 p 34, ld16 p 36, ld32 p 38, ld32 p 42, ld8 p 46, ld8 p 47, ld16 p 48, ld16 p 50, ld16 p 52 with
  | Some sp, Some dp, Some sq, Some ak, Some off, Some fl, Some win, Some ck, Some urp =>
      Some (mk_tcp sp dp sq ak off fl win ck urp)
  | _, _, _, _, _, _, _, _, _ => None
  end.
(** struct rte_udp_hdr at the same place. *)
Record udp_hdr : Type := mk_udp { udp_src_port : Z; udp_dst_port : Z; dgram_len : Z; dgram_cksum : Z }.
Definition load_udp (p : list Z) : option udp_hdr :=
  match ld16 p 34, ld16 p 36, ld16 p 38, ld16 p 40 with
  | Some sp, Some dp, Some l, Some ck => Some (mk_udp sp dp l ck)
  | _, _, _, _ => None
  end.

(** ** Data of the sockets *)

(** struct ng_tcp_fragment, what sockets and network loop exchange in the rings of a
    stream.  [fr_data] is the block behind the data pointer; [fr_tcp_urp] and
    [fr_optlen] are [None] in a block that was not cleared.  The cksum field and the
    option words have no readers. *)
Record ng_tcp_fragment : Type := mk_fragment {
  fr_sport : Z; fr_dport : Z; fr_seqnum : Z; fr_acknum : Z; fr_hdrlen_off : Z; fr_tcp_flags : Z;
  fr_windows : Z; fr_tcp_urp : option Z; fr_optlen : option Z; fr_data : option (list Z); fr_length : Z }.
(** struct offload, the same for datagrams; its protocol has no reader. *)
Record offload : Type := mk_offload {
  ol_sip : Z; ol_dip : Z; ol_sport : Z; ol_dport : Z; ol_data : list Z; ol_length : Z }.

(** ** Frames *)

Section frames.
Context {R : Type → Type} `{Dpdk R} {S : Type}.

Definition ether_hdr (dst src : list Z) (type : Z) : list Z := dst ++ src ++ le16 (ntohs type).
Definition ip_hdr (proto total_len sip dip ck : Z) : list Z :=
  [0x45; 0] ++ le16 (ntohs (u16 (total_len - 14))) ++ le16 0 ++ le16 0 ++ [64; proto] ++ le16 ck ++ le32 sip ++ le32 dip.
Definition ip_hdr_cksum (proto total_len sip dip : Z) : list Z :=
  ip_hdr proto total_len sip dip (u16 (rte_ipv4_cksum (ip_hdr proto total_len sip dip 0))).

(** The 42 bytes ng_encode_arp_pkt writes.  Its strncmp stops at a zero byte, which
    the broadcast address does not have, so it compares six bytes. *)
Definition ng_encode_arp_pkt (opcode : Z) (dst_mac : list Z) (sip dip : Z) : list Z :=
  ether_hdr (if decide (dst_mac = gDefaultArpMac) then [0; 0; 0; 0; 0; 0] else dst_mac) gSrcMac RTE_ETHER_TYPE_ARP ++
  le16 (ntohs 1) ++ le16 (ntohs RTE_ETHER_TYPE_IPV4) ++ [6; 4] ++ le16 (ntohs opcode) ++
  gSrcMac ++ le32 sip ++ dst_mac ++ le32 dip.

Definition tcp_header (f : ng_tcp_fragment) (urp ck : Z) : list Z :=
  le16 (fr_sport f) ++ le16 (fr_dport f) ++ le32 (ntohl (fr_seqnum f)) ++ le32 (ntohl (fr_acknum f)) ++
  [fr_hdrlen_off f; fr_tcp_flags f] ++ le16 (fr_windows f) ++ le16 ck ++ le16 urp.

(** The option words are not written, so with options the checksum runs over memory
    that has no value yet. *)
Definition ng_encode_tcp_apppkt (sip dip : Z) (srcmac dstmac : list Z) (f : ng_tcp_fragment) : M S (list Z) :=
  optlen ← from_opt IndetRead (fr_optlen f);
  let total_len := u32 (fr_length f + 14 + 20 + 20 + optlen * 4) in
  let eth := ether_hdr dstmac srcmac RTE_ETHER_TYPE_IPV4 in
  let ip := ip_hdr_cksum IPPROTO_TCP total_len sip dip in
  urp ← from_opt IndetRead (fr_tcp_urp f);
  if mbuf_room <? 14 + 20 + 20 + optlen * 4 + fr_length f then undef OutOfBounds else
  payload ← (match fr_data f with
             | Some data => from_opt OutOfBounds (ld_bytes data 0 (Z.to_nat (fr_length f)))
             | None => if fr_length f =? 0 then ret [] else undef IndetRead
             end);
  if negb (optlen =? 0) then undef IndetRead else
  ret (eth ++ ip ++ tcp_header f urp (u16 (rte_ipv4_udptcp_cksum ip (tcp_header f urp 0 ++ payload))) ++ payload).

Definition udp_header (sport dport len ck : Z) : list Z := le16 sport ++ le16 dport ++ le16 (ntohs len) ++ le16 ck.
(** The copy of the payload takes udplen bytes, the 8 of the UDP header too many; the
    frame ends after total_len bytes. *)
Definition ng_encode_udp_apppkt (sip dip sport dport : Z) (srcmac dstmac data : list Z) (total_len : Z) : M S (list Z) :=
  let eth := ether_hdr dstmac srcmac RTE_ETHER_TYPE_IPV4 in
  let ip := ip_hdr_cksum IPPROTO_UDP total_len sip dip in
  let udplen := u16 (total_len - 14 - 20) in
  if mbuf_room <? 14 + 20 + 8 + udplen then undef OutOfBounds else
  payload ← from_opt OutOfBounds (ld_bytes data 0 (Z.to_nat udplen));
  let body := take (Z.to_nat udplen - 8) payload in
  ret (eth ++ ip ++ udp_header sport dport udplen
    (u16 (rte_ipv4_udptcp_cksum ip (udp_header sport dport udplen 0 ++ body))) ++ body).
End frames.
