(* ===== verification/UsSock.v ===== *)
(** The state of the user-space stack and its socket layer
    (senior/2.4_Ustack/tcp.c): the ARP table, the descriptor bitmap, the two
    lists of sockets and nsocket, nbind, nlisten, naccept, nsend, nrecv,
    nrecvfrom, nsendto and nclose. *)
From S2P Require Import Prelude UsWire.

(** typedef enum NG_TCP_STATUS *)
Inductive NG_TCP_STATUS : Type :=
| CLOSED | LISTEN | SYN_RCVD | SYN_SENT | ESTABLISHED
| FIN_WAIT_1 | FIN_WAIT_2 | CLOSING | TIME_WAIT
| CLOSE_WAIT | LAST_ACK.
#[export] Instance NG_TCP_STATUS_eq_dec : EqDecision NG_TCP_STATUS.
Proof. solve_decision. Defined.

Definition DEFAULT_FD_NUM : Z := 3.
Definition MAX_FD_COUNT : Z := 1024.
Definition SOCK_STREAM : Z := 1.
Definition SOCK_DGRAM : Z := 2.

(** ** State *)

(** A ring with the name it is registered under. *)
Record ring {R : Type → Type} {A : Type} : Type := mk_ring { rg_name : string; rg_q : R A }.
Arguments ring : clear implicits.

(** struct localhost, a UDP socket. *)
Record localhost {R : Type → Type} : Type := mk_host {
  h_fd : Z; h_localip : Z; h_localmac : list Z; h_localport : Z; h_protocol : Z;
  h_sndbuf : ring R offload; h_rcvbuf : ring R offload }.
Arguments localhost : clear implicits.

(** struct ng_tcp_stream.  A ring is [None] when it is NULL, [st_rcv_nxt] is [None]
    until it is written. *)
Record ng_tcp_stream {R : Type → Type} : Type := mk_stream {
  st_fd : Z; st_dip : Z; st_localmac : list Z; st_dport : Z; st_protocol : Z;
  st_sport : Z; st_sip : Z; st_snd_nxt : Z; st_rcv_nxt : option Z; st_status : NG_TCP_STATUS;
  st_sndbuf : option (ring R ng_tcp_fragment); st_rcvbuf : option (ring R ng_tcp_fragment) }.
Arguments ng_tcp_stream : clear implicits.

Section updates.
Context {R : Type → Type}.
Implicit Types s : ng_tcp_stream R.
Definition set_status x s := mk_stream R (st_fd s) (st_dip s) (st_localmac s) (st_dport s) (st_protocol s)
  (st_sport s) (st_sip s) (st_snd_nxt s) (st_rcv_nxt s) x (st_sndbuf s) (st_rcvbuf s).
Definition set_fd x s := mk_stream R x (st_dip s) (st_localmac s) (st_dport s) (st_protocol s)
  (st_sport s) (st_sip s) (st_snd_nxt s) (st_rcv_nxt s) (st_status s) (st_sndbuf s) (st_rcvbuf s).
Definition set_nxt snd rcv s := mk_stream R (st_fd s) (st_dip s) (st_localmac s) (st_dport s) (st_protocol s)
  (st_sport s) (st_sip s) snd rcv (st_status s) (st_sndbuf s) (st_rcvbuf s).
Definition set_sndbuf x s := mk_stream R (st_fd s) (st_dip s) (st_localmac s) (st_dport s) (st_protocol s)
  (st_sport s) (st_sip s) (st_snd_nxt s) (st_rcv_nxt s) (st_status s) x (st_rcvbuf s).
Definition set_rcvbuf x s := mk_stream R (st_fd s) (st_dip s) (st_localmac s) (st_dport s) (st_protocol s)
  (st_sport s) (st_sip s) (st_snd_nxt s) (st_rcv_nxt s) (st_status s) (st_sndbuf s) x.
Definition set_local dip mac dport s := mk_stream R (st_fd s) dip mac dport (st_protocol s)
  (st_sport s) (st_sip s) (st_snd_nxt s) (st_rcv_nxt s) (st_status s) (st_sndbuf s) (st_rcvbuf s).
Definition host_rings snd rcv (h : localhost R) :=
  mk_host R (h_fd h) (h_localip h) (h_localmac h) (h_localport h) (h_protocol h) snd rcv.
Definition host_local ip mac port (h : localhost R) :=
  mk_host R (h_fd h) ip mac port (h_protocol h) (h_sndbuf h) (h_rcvbuf h).
End updates.

(** The global state.  [us_plan] lists the outcomes of the coming requests for memory
    (rte_malloc, rte_ring_create, rte_pktmbuf_alloc), past its end they succeed;
    [us_rand] lists those of rand_r; [us_names] are the names of the existing
    rings.  [us_in] and [us_out] are the rings of ringInstance, [us_kni] the frames
    handed to the kernel. *)
Record ustack {R : Type → Type} : Type := mk_us {
  us_hosts : list (localhost R); us_tcbs : list (ng_tcp_stream R); fd_table : list Z;
  arp_entries : list (Z * list Z); arp_count : Z;
  us_in : R (list Z); us_out : R (list Z); us_kni : list (list Z);
  us_names : list string; us_plan : list bool; us_rand : list Z }.
Arguments ustack : clear implicits.

Section stack.
Context {R : Type → Type} `{Dpdk R}.
Abbreviation store := (ustack R).

Definition with_hosts f (s : store) := mk_us R (f (us_hosts s)) (us_tcbs s) (fd_table s) (arp_entries s)
  (arp_count s) (us_in s) (us_out s) (us_kni s) (us_names s) (us_plan s) (us_rand s).
Definition with_tcbs f (s : store) := mk_us R (us_hosts s) (f (us_tcbs s)) (fd_table s) (arp_entries s)
  (arp_count s) (us_in s) (us_out s) (us_kni s) (us_names s) (us_plan s) (us_rand s).
Definition with_fds f (s : store) := mk_us R (us_hosts s) (us_tcbs s) (f (fd_table s)) (arp_entries s)
  (arp_count s) (us_in s) (us_out s) (us_kni s) (us_names s) (us_plan s) (us_rand s).
Definition with_arp e c (s : store) := mk_us R (us_hosts s) (us_tcbs s) (fd_table s) e
  c (us_in s) (us_out s) (us_kni s) (us_names s) (us_plan s) (us_rand s).
Definition with_in r (s : store) := mk_us R (us_hosts s) (us_tcbs s) (fd_table s) (arp_entries s)
  (arp_count s) r (us_out s) (us_kni s) (us_names s) (us_plan s) (us_rand s).
Definition with_out r (s : store) := mk_us R (us_hosts s) (us_tcbs s) (fd_table s) (arp_entries s)
  (arp_count s) (us_in s) r (us_kni s) (us_names s) (us_plan s) (us_rand s).
Definition with_kni f (s : store) := mk_us R (us_hosts s) (us_tcbs s) (fd_table s) (arp_entries s)
  (arp_count s) (us_in s) (us_out s) (f (us_kni s)) (us_names s) (us_plan s) (us_rand s).
Definition with_names f (s : store) := mk_us R (us_hosts s) (us_tcbs s) (fd_table s) (arp_entries s)
  (arp_count s) (us_in s) (us_out s) (us_kni s) (f (us_names s)) (us_plan s) (us_rand s).
Definition with_plan p (s : store) := mk_us R (us_hosts s) (us_tcbs s) (fd_table s) (arp_entries s)
  (arp_count s) (us_in s) (us_out s) (us_kni s) (us_names s) p (us_rand s).
Definition with_rand r (s : store) := mk_us R (us_hosts s) (us_tcbs s) (fd_table s) (arp_entries s)
  (arp_count s) (us_in s) (us_out s) (us_kni s) (us_names s) (us_plan s) r.

(** ** Memory and rings *)

Definition next_alloc : M store bool := λ s,
  match us_plan s with [] => Ok (true, s) | b :: p => Ok (b, with_plan p s) end.
(** rte_malloc gives NULL for a size of 0 and for one no machine has. *)
Definition rte_malloc (size : Z) : M store bool :=
  if (size =? 0) || (2 ^ 63 <=? size) then ret false else next_alloc.
(** rte_ring_create gives NULL when a ring of the name exists. *)
Definition rte_ring_create {A} (name : string) : M store (option (ring R A)) :=
  names ← gets us_names;
  if decide (name ∈ names) then ret None else
  ok ← next_alloc;
  if ok : bool then modify (with_names (cons name));; ret (Some (mk_ring R A name rte_ring_new)) else ret None.
Definition rte_ring_free {A} (r : option (ring R A)) : M store unit :=
  match r with
  | Some r => modify (with_names (filter (λ n, n ≠ rg_name r)))
  | None => ret ()
  end.
(** The result of an enqueue is always ignored. *)
Definition enqueue {A} (x : A) (r : ring R A) : ring R A := mk_ring R A (rg_name r) (rte_ring_mp_enqueue x (rg_q r)).2.
Definition dequeue {A} (r : ring R A) : option (A * ring R A) :=
  (λ '(x, q), (x, mk_ring R A (rg_name r) q)) <$> rte_ring_mc_dequeue (rg_q r).

(** ** The ARP table *)

Fixpoint arp_loop (count : Z) (l : list (Z * list Z)) (dip : Z) : option (list Z) :=
  match l with
  | (ip, hwaddr) :: l =>
      if count =? 0 then None else if dip =? ip then Some hwaddr else arp_loop (count - 1) l dip
  | [] => None
  end.
Definition ng_get_dst_macaddr (dip : Z) : M store (option (list Z)) :=
  gets (λ s, arp_loop (arp_count s) (arp_entries s) dip).

Definition ng_arp_entry_insert (ip : Z) (mac : list Z) : M store Z :=
  hwaddr ← ng_get_dst_macaddr ip;
  match hwaddr with
  | None =>
      entry ← rte_malloc 32;
      if entry : bool
      then modify (λ s, with_arp ((ip, mac) :: arp_entries s) (arp_count s + 1) s);; ret 1
      else ret 1
  | Some _ => ret 0
  end.

(** ** Descriptors *)

Definition ld_fd (fd : Z) : M store Z := s ← get; from_opt OutOfBounds (fd_table s !! Z.to_nat (fd / 8)).
Fixpoint fd_loop (fuel : nat) (fd : Z) : M store Z :=
  match fuel with
  | O => no_fuel
  | S fuel =>
      if fd <? MAX_FD_COUNT then
        b ← ld_fd fd;
        if Z.land b (Z.shiftl 1 (fd mod 8)) =? 0
        then modify (with_fds (λ t, <[Z.to_nat (fd / 8):=u8 (Z.lor b (Z.shiftl 1 (fd mod 8)))]> t));; ret fd
        else fd_loop fuel (fd + 1)
      else ret (-1)
  end.
Definition get_fd_frombitmap : M store Z := fd_loop (S (Z.to_nat MAX_FD_COUNT)) DEFAULT_FD_NUM.

(** fd % 8 is negative for a negative fd. *)
Definition set_fd_frombitmap (fd : Z) : M store Z :=
  if MAX_FD_COUNT <=? fd then ret (-1) else
  if fd <? 0 then undef (if Z.rem fd 8 =? 0 then OutOfBounds else SignedOverflow) else
  b ← ld_fd fd;
  modify (with_fds (λ t, <[Z.to_nat (fd / 8):=u8 (Z.land b (Z.lnot (Z.shiftl 1 (fd mod 8))))]> t));;
  ret 0.

(** ** Looking up sockets *)

(** A pointer to a socket is its position in its list, a [void *] to one or the
    other kind a sum. *)
Inductive hostinfo : Type := HHost (i : nat) | HStream (i : nat).

Definition find_tcb (f : ng_tcp_stream R → bool) (l : list (ng_tcp_stream R)) : option nat :=
  fst <$> list_find (λ x, f x = true) l.
Definition find_host (f : localhost R → bool) (l : list (localhost R)) : option nat :=
  fst <$> list_find (λ x, f x = true) l.

Definition get_accept_tcb (dport : Z) : M store (option nat) :=
  gets (λ s, find_tcb (λ apt, (dport =? st_dport apt) && (st_fd apt =? -1)) (us_tcbs s)).
Definition get_hostinfo_fromfd (sockfd : Z) : M store (option hostinfo) :=
  gets (λ s,
    match find_host (λ h, sockfd =? h_fd h) (us_hosts s) with
    | Some i => Some (HHost i)
    | None => HStream <$> find_tcb (λ x, sockfd =? st_fd x) (us_tcbs s)
    end).
Definition get_hostinfo_fromip_port (dip port proto : Z) : M store (option nat) :=
  gets (λ s, find_host (λ h, (dip =? h_localip h) && (port =? h_localport h) && (proto =? h_protocol h)) (us_hosts s)).

Definition get_tcb (i : nat) : M store (ng_tcp_stream R) :=
  s ← get; from_opt DanglingDeref (us_tcbs s !! i).
Definition set_tcb (i : nat) (x : ng_tcp_stream R) : M store unit := modify (with_tcbs (λ l, <[i:=x]> l)).
Definition get_host (i : nat) : M store (localhost R) :=
  s ← get; from_opt DanglingDeref (us_hosts s !! i).
Definition set_host (i : nat) (x : localhost R) : M store unit := modify (with_hosts (λ l, <[i:=x]> l)).

(** rte_ring_mp_enqueue into a ring of a stream. *)
Definition tcb_send (i : nat) (f : ng_tcp_fragment) : M store unit :=
  x ← get_tcb i;
  r ← from_opt NullDeref (st_sndbuf x);
  set_tcb i (set_sndbuf (Some (enqueue f r)) x).
Definition tcb_receive (i : nat) (f : ng_tcp_fragment) : M store unit :=
  x ← get_tcb i;
  r ← from_opt NullDeref (st_rcvbuf x);
  set_tcb i (set_rcvbuf (Some (enqueue f r)) x).

(** ** The socket calls *)

Definition nsocket (type : Z) : M store Z :=
  fd ← get_fd_frombitmap;
  if type =? SOCK_DGRAM then
    host ← rte_malloc 144;
    if negb host then ret (-1) else
    rcvbuf ← rte_ring_create "recv buffer";
    match rcvbuf with
    | None => ret (-1)
    | Some rcvbuf =>
        sndbuf ← rte_ring_create "send buffer";
        match sndbuf with
        | None => rte_ring_free (Some rcvbuf);; ret (-1)
        | Some sndbuf =>
            modify (with_hosts (cons (mk_host R fd 0 [0; 0; 0; 0; 0; 0] 0 IPPROTO_UDP sndbuf rcvbuf)));;
            ret fd
        end
    end
  else if type =? SOCK_STREAM then
    stream ← rte_malloc 160;
    if negb stream then ret (-1) else
    rcvbuf ← rte_ring_create "tcp recv buffer";
    match rcvbuf with
    | None => ret (-1)
    | Some rcvbuf =>
        sndbuf ← rte_ring_create "tcp send buffer";
        match sndbuf with
        | None => rte_ring_free (Some rcvbuf);; ret (-1)
        | Some sndbuf =>
            modify (with_tcbs (cons (mk_stream R fd 0 [0; 0; 0; 0; 0; 0] 0 IPPROTO_TCP 0 0 0 (Some 0) CLOSED
              (Some sndbuf) (Some rcvbuf))));;
            ret fd
        end
    end
  else ret fd.

(** [ip] and [port] are those of the sockaddr_in, in network byte order. *)
Definition nbind (sockfd ip port : Z) : M store Z :=
  info ← get_hostinfo_fromfd sockfd;
  match info with
  | None => ret (-1)
  | Some (HHost i) =>
      h ← get_host i;
      if h_protocol h =? IPPROTO_UDP then set_host i (host_local ip gSrcMac port h);; ret 0 else ret 0
  | Some (HStream i) =>
      x ← get_tcb i;
      if st_protocol x =? IPPROTO_TCP
      then set_tcb i (set_status CLOSED (set_local ip gSrcMac port x));; ret 0 else ret 0
  end.

(** The casts between the two socket types below only read the protocol, which has
    the same place in both. *)
Definition nlisten (sockfd : Z) : M store Z :=
  info ← get_hostinfo_fromfd sockfd;
  match info with
  | None => ret (-1)
  | Some (HHost _) => ret 0
  | Some (HStream i) =>
      x ← get_tcb i;
      if st_protocol x =? IPPROTO_TCP then set_tcb i (set_status LISTEN x);; ret 0 else ret 0
  end.

(** A call that waits on its condition variable is [None] and leaves the state as it
    is: it is tried again after a signal.  naccept gives the descriptor and the
    peer's port and address. *)
Definition naccept (sockfd : Z) : M store (option (Z * Z * Z)) :=
  info ← get_hostinfo_fromfd sockfd;
  match info with
  | None | Some (HHost _) => ret (Some (-1, 0, 0))
  | Some (HStream i) =>
      stream ← get_tcb i;
      if st_protocol stream =? IPPROTO_TCP then
        apt ← get_accept_tcb (st_dport stream);
        match apt with
        | None => ret None
        | Some j =>
            fd ← get_fd_frombitmap;
            x ← get_tcb j;
            set_tcb j (set_fd fd x);;
            ret (Some (fd, st_sport x, st_sip x))
        end
      else ret (Some (-1, 0, 0))
  end.

Definition nsend (sockfd : Z) (buf : list Z) : M store Z :=
  info ← get_hostinfo_fromfd sockfd;
  match info with
  | None => ret (-1)
  | Some (HHost _) => ret 0
  | Some (HStream i) =>
      stream ← get_tcb i;
      if negb (st_protocol stream =? IPPROTO_TCP) then ret 0 else
      fragment ← rte_malloc 80;
      if negb fragment then ret (-2) else
      acknum ← from_opt IndetRead (st_rcv_nxt stream);
      data ← rte_malloc (Z.of_nat (length buf) + 1);
      if negb data then ret (-1) else
      let len := u32 (Z.of_nat (length buf)) in
      tcb_send i (mk_fragment (st_dport stream) (st_sport stream) (st_snd_nxt stream) acknum 0x50
        (Z.lor RTE_TCP_ACK_FLAG RTE_TCP_PSH_FLAG) TCP_INITIAL_WINDOW (Some 0) (Some 0) (Some (buf ++ [0])) len);;
      ret len
  end.

(** The result and the bytes written to buf. *)
Definition nrecv (sockfd len : Z) : M store (option (Z * list Z)) :=
  info ← get_hostinfo_fromfd sockfd;
  match info with
  | None => ret (Some (-1, []))
  | Some (HHost _) => ret (Some (0, []))
  | Some (HStream i) =>
      stream ← get_tcb i;
      if negb (st_protocol stream =? IPPROTO_TCP) then ret (Some (0, [])) else
      rcvbuf ← from_opt NullDeref (st_rcvbuf stream);
      match dequeue rcvbuf with
      | None => ret None
      | Some (f, rcvbuf) =>
          set_tcb i (set_rcvbuf (Some rcvbuf) stream);;
          if len <? fr_length f then
            data ← from_opt NullDeref (fr_data f);
            out ← from_opt OutOfBounds (ld_bytes data 0 (Z.to_nat len));
            moved ← from_opt OutOfBounds (ld_bytes data (Z.to_nat len) (Z.to_nat (fr_length f - len)));
            tcb_receive i (mk_fragment (fr_sport f) (fr_dport f) (fr_seqnum f) (fr_acknum f) (fr_hdrlen_off f)
              (fr_tcp_flags f) (fr_windows f) (fr_tcp_urp f) (fr_optlen f)
              (Some (moved ++ drop (Z.to_nat (fr_length f - len)) data)) (fr_length f - len));;
            ret (Some (fr_length f - len, out))
          else if fr_length f =? 0 then ret (Some (0, []))
          else
            data ← from_opt NullDeref (fr_data f);
            out ← from_opt OutOfBounds (ld_bytes data 0 (Z.to_nat (fr_length f)));
            ret (Some (fr_length f, out))
      end
  end.

(** The result, the bytes written to buf and the peer's port and address. *)
Definition nrecvfrom (sockfd len : Z) : M store (option (Z * list Z * Z * Z)) :=
  info ← get_hostinfo_fromfd sockfd;
  match info with
  | None => ret (Some (-1, [], 0, 0))
  | Some (HStream _) => undef TypePun
  | Some (HHost i) =>
      host ← get_host i;
      match dequeue (h_rcvbuf host) with
      | None => ret None
      | Some (ol, rcvbuf) =>
          set_host i (host_rings (h_sndbuf host) rcvbuf host);;
          if len <? ol_length ol then
            out ← from_opt OutOfBounds (ld_bytes (ol_data ol) 0 (Z.to_nat len));
            ptr ← rte_malloc (ol_length ol - len);
            if negb ptr then undef NullDeref else
            rest ← from_opt OutOfBounds (ld_bytes (ol_data ol) (Z.to_nat len) (Z.to_nat (ol_length ol - len)));
            set_host i (host_rings (h_sndbuf host)
              (enqueue (mk_offload (ol_sip ol) (ol_dip ol) (ol_sport ol) (ol_dport ol) rest (ol_length ol - len)) rcvbuf) host);;
            ret (Some (len, out, ol_sport ol, ol_sip ol))
          else
            out ← from_opt OutOfBounds (ld_bytes (ol_data ol) 0 (Z.to_nat (ol_length ol)));
            ret (Some (ol_length ol, out, ol_sport ol, ol_sip ol))
      end
  end.

(** The destination's address and port come from the sockaddr_in; length is a uint16_t. *)
Definition nsendto (sockfd : Z) (buf : list Z) (ip port : Z) : M store Z :=
  info ← get_hostinfo_fromfd sockfd;
  match info with
  | None => ret (-1)
  | Some (HStream _) => undef TypePun
  | Some (HHost i) =>
      host ← get_host i;
      ol ← rte_malloc 32;
      if negb ol then ret (-1) else
      data ← rte_malloc (Z.of_nat (length buf));
      if negb data then ret (-1) else
      set_host i (host_rings (enqueue (mk_offload (h_localip host) ip (h_localport host) port buf
        (u16 (Z.of_nat (length buf)))) (h_sndbuf host)) (h_rcvbuf host) host);;
      ret (Z.of_nat (length buf))
  end.

(** The fragment with the FIN is not cleared: its urgent pointer and its option
    length have no value. *)
Definition nclose (fd : Z) : M store Z :=
  info ← get_hostinfo_fromfd fd;
  match info with
  | None => ret (-1)
  | Some (HHost i) =>
      host ← get_host i;
      if h_protocol host =? IPPROTO_UDP then
        modify (with_hosts (delete i));;
        rte_ring_free (Some (h_rcvbuf host));;
        rte_ring_free (Some (h_sndbuf host));;
        set_fd_frombitmap fd;;
        ret 0
      else ret 0
  | Some (HStream i) =>
      stream ← get_tcb i;
      if negb (st_protocol stream =? IPPROTO_TCP) then ret 0 else
      if decide (st_status stream = LISTEN) then modify (with_tcbs (delete i));; ret 0 else
      fragment ← rte_malloc 80;
      if negb fragment then ret (-1) else
      acknum ← from_opt IndetRead (st_rcv_nxt stream);
      tcb_send i (mk_fragment (st_dport stream) (st_sport stream) (st_snd_nxt stream) acknum 0x50
        (Z.lor RTE_TCP_FIN_FLAG RTE_TCP_ACK_FLAG) TCP_INITIAL_WINDOW None None None 0);;
      x ← get_tcb i;
      set_tcb i (set_status LAST_ACK x);;
      set_fd_frombitmap fd;;
      ret 0
  end.
End stack.
