(* ===== verification/UsTcp.v ===== *)
(** The network loop of the user-space stack (senior/2.4_Ustack/tcp.c): the TCP
    handlers and their dispatch ng_tcp_process, udp_process, the output routines
    ng_tcp_out and udp_out, the ARP timer, pkt_process, the rounds of main and of
    the two servers. *)
From S2P Require Import Prelude UsWire UsSock.

Section tcp.
Context {R : Type → Type} `{Dpdk R}.
Abbreviation store := (ustack R).

(** ** Streams *)

Definition exact_match (sip dip sport dport : Z) (x : ng_tcp_stream R) : bool :=
  (st_sip x =? sip) && (st_dip x =? dip) && (st_sport x =? sport) && (st_dport x =? dport).
Definition listens_on (dport : Z) (x : ng_tcp_stream R) : bool :=
  (st_dport x =? dport) && bool_decide (st_status x = LISTEN).
Definition ng_tcp_stream_search (sip dip sport dport : Z) : M store (option nat) :=
  gets (λ s,
    match find_tcb (exact_match sip dip sport dport) (us_tcbs s) with
    | Some i => Some i
    | None => find_tcb (listens_on dport) (us_tcbs s)
    end).

(** printf's %x of an unsigned int. *)
Definition hex_digit (d : Z) : Ascii.ascii := Ascii.ascii_of_nat (Z.to_nat (if d <? 10 then 48 + d else 87 + d)).
Fixpoint hex (digits : nat) (z : Z) (acc : string) : string :=
  match digits with
  | O => acc
  | S n => let acc := String (hex_digit (z mod 16)) acc in if z <? 16 then acc else hex n (z / 16) acc
  end.
Definition ring_name (prefix : string) (sip sport : Z) : string :=
  (prefix +:+ hex 8 sip "" +:+ pretty sport)%string.

Definition rand_r : M store Z := λ s,
  match us_rand s with [] => Ok (0, s) | x :: l => Ok (x, with_rand l s) end.

Definition ng_tcp_stream_create (sip dip sport dport : Z) : M store (option (ng_tcp_stream R)) :=
  stream ← rte_malloc 160;
  if negb stream then ret None else
  sndbuf ← rte_ring_create (ring_name "sndbuf" sip sport);
  rcvbuf ← rte_ring_create (ring_name "rcvbuf" sip sport);
  next ← rand_r;
  ret (Some (mk_stream R (-1) dip gSrcMac dport IPPROTO_TCP sport sip (u32 (Z.rem next TCP_MAX_SEQ)) None LISTEN sndbuf rcvbuf)).

(** The flag is set in the header's tcp_flags. *)
Definition has_flag (tcp : tcp_hdr) (flag : Z) : bool := negb (Z.land (tcp_flags tcp) flag =? 0).

(** ** Handlers *)

(** A fragment with neither data nor options, as the handlers clear and fill one. *)
Definition control_fragment (sport dport seqnum acknum flags : Z) : ng_tcp_fragment :=
  mk_fragment sport dport seqnum acknum 0x50 flags TCP_INITIAL_WINDOW (Some 0) (Some 0) None 0.

(** The new stream is at the head of the list, the listener behind it. *)
Definition ng_tcp_handle_listen (i : nat) (tcp : tcp_hdr) (ip : ipv4_hdr) : M store Z :=
  if has_flag tcp RTE_TCP_SYN_FLAG then
    stream ← get_tcb i;
    if decide (st_status stream = LISTEN) then
      syn ← ng_tcp_stream_create (src_addr ip) (dst_addr ip) (src_port tcp) (dst_port tcp);
      syn ← from_opt NullDeref syn;
      modify (with_tcbs (cons syn));;
      fragment ← rte_malloc 80;
      if negb fragment then ret (-1) else
      let acknum := u32 (ntohl (sent_seq tcp) + 1) in
      set_tcb 0 (set_nxt (st_snd_nxt syn) (Some acknum) syn);;
      tcb_send 0 (control_fragment (dst_port tcp) (src_port tcp) (st_snd_nxt syn) acknum
        (Z.lor RTE_TCP_SYN_FLAG RTE_TCP_ACK_FLAG));;
      syn ← get_tcb 0;
      set_tcb 0 (set_status SYN_RCVD syn);;
      ret 0
    else ret 0
  else ret 0.

(** The acknowledgement number is looked at, but nothing depends on it; the signal
    to the listener only wakes naccept. *)
Definition ng_tcp_handle_syn_rcvd (i : nat) (tcp : tcp_hdr) : M store Z :=
  if has_flag tcp RTE_TCP_ACK_FLAG then
    stream ← get_tcb i;
    if decide (st_status stream = SYN_RCVD) then
      set_tcb i (set_status ESTABLISHED stream);;
      listener ← ng_tcp_stream_search 0 0 0 (st_dport stream);
      if listener is Some _ then ret 0 else undef ProcessExit
    else ret 0
  else ret 0.

(** [p] is the frame; a payload longer than what was received is read beyond it. *)
Definition ng_tcp_enqueue_recvbuffer (i : nat) (p : list Z) (tcp : tcp_hdr) (tcplen : Z) : M store Z :=
  rfragment ← rte_malloc 80;
  if negb rfragment then ret (-1) else
  let hdrlen := Z.shiftr (data_off tcp) 4 in
  let payloadlen := tcplen - hdrlen * 4 in
  let rfrag data len := mk_fragment (ntohs (src_port tcp)) (ntohs (dst_port tcp)) 0 0 0 0 0 (Some 0) (Some 0) data len in
  if 0 <? payloadlen then
    data ← rte_malloc (payloadlen + 1);
    if negb data then ret (-1) else
    payload ← from_opt OutOfBounds (ld_bytes p (Z.to_nat (34 + hdrlen * 4)) (Z.to_nat payloadlen));
    tcb_receive i (rfrag (Some (payload ++ [0])) payloadlen);;
    ret 0
  else
    tcb_receive i (rfrag None 0);;
    ret 0.

Definition ng_tcp_send_ackpkt (i : nat) (tcp : tcp_hdr) : M store Z :=
  ackfrag ← rte_malloc 80;
  if negb ackfrag then ret (-1) else
  stream ← get_tcb i;
  acknum ← from_opt IndetRead (st_rcv_nxt stream);
  tcb_send i (control_fragment (dst_port tcp) (src_port tcp) (st_snd_nxt stream) acknum RTE_TCP_ACK_FLAG);;
  ret 0.

(** stream->rcv_nxt += n; stream->snd_nxt = ntohl(tcphdr->recv_ack) *)
Definition advance (i : nat) (tcp : tcp_hdr) (n : Z) : M store unit :=
  stream ← get_tcb i;
  rcv_nxt ← from_opt IndetRead (st_rcv_nxt stream);
  set_tcb i (set_nxt (ntohl (recv_ack tcp)) (Some (u32 (rcv_nxt + n))) stream).

Definition ng_tcp_handle_established (i : nat) (p : list Z) (tcp : tcp_hdr) (tcplen : Z) : M store Z :=
  (if has_flag tcp RTE_TCP_PSH_FLAG then
     ng_tcp_enqueue_recvbuffer i p tcp tcplen;;
     advance i tcp (tcplen - Z.shiftr (data_off tcp) 4 * 4);;
     ng_tcp_send_ackpkt i tcp;; ret ()
   else ret ());;
  (if has_flag tcp RTE_TCP_FIN_FLAG then
     stream ← get_tcb i;
     set_tcb i (set_status CLOSE_WAIT stream);;
     ng_tcp_enqueue_recvbuffer i p tcp (Z.shiftr (data_off tcp) 4);;
     advance i tcp 1;;
     ng_tcp_send_ackpkt i tcp;; ret ()
   else ret ());;
  ret 0.

(** Its conditions guard an empty block. *)
Definition ng_tcp_handle_close_wait (i : nat) (tcp : tcp_hdr) : M store Z := ret 0.

Definition ng_tcp_handle_last_ack (i : nat) (tcp : tcp_hdr) : M store Z :=
  if has_flag tcp RTE_TCP_ACK_FLAG then
    stream ← get_tcb i;
    if decide (st_status stream = LAST_ACK) then
      modify (with_tcbs (delete i));;
      rte_ring_free (st_sndbuf stream);;
      rte_ring_free (st_rcvbuf stream);;
      ret 0
    else ret 0
  else ret 0.

(** The TCP packet with its checksum field cleared. *)
Definition clear_cksum (p : list Z) : list Z := <[16%nat:=0]> (<[17%nat:=0]> (drop 34 p)).

(** The checksum field is cleared in the frame itself, which is freed on every path. *)
Definition ng_tcp_process (p : list Z) : M store Z :=
  ip ← from_opt OutOfBounds (load_ipv4 p);
  tcp ← from_opt OutOfBounds (load_tcp p);
  if negb (u16 (rte_ipv4_udptcp_cksum (take 20 (drop 14 p)) (clear_cksum p)) =? cksum tcp) then ret (-1) else
  stream ← ng_tcp_stream_search (src_addr ip) (dst_addr ip) (src_port tcp) (dst_port tcp);
  match stream with
  | None => ret (-2)
  | Some i =>
      x ← get_tcb i;
      (match st_status x with
       | LISTEN => ng_tcp_handle_listen i tcp ip
       | SYN_RCVD => ng_tcp_handle_syn_rcvd i tcp
       | ESTABLISHED => ng_tcp_handle_established i (take 34 p ++ clear_cksum p) tcp (ntohs (total_length ip) - 20)
       | CLOSE_WAIT => ng_tcp_handle_close_wait i tcp
       | LAST_ACK => ng_tcp_handle_last_ack i tcp
       | CLOSED | SYN_SENT | FIN_WAIT_1 | FIN_WAIT_2 | CLOSING | TIME_WAIT => ret 0
       end);;
      ret 0
  end.

(** ** Datagrams *)

(** ol->length - sizeof(struct rte_udp_hdr) is a size_t. *)
Definition udp_process (p : list Z) : M store Z :=
  ip ← from_opt OutOfBounds (load_ipv4 p);
  udp ← from_opt OutOfBounds (load_udp p);
  host ← get_hostinfo_fromip_port (dst_addr ip) (udp_dst_port udp) (next_proto_id ip);
  match host with
  | None => ret (-3)
  | Some i =>
      ol ← rte_malloc 32;
      if negb ol then ret (-1) else
      let len := ntohs (dgram_len udp) in
      data ← rte_malloc ((len - 8) mod 2 ^ 64);
      if negb data then ret (-2) else
      data ← from_opt OutOfBounds (ld_bytes p 42 (Z.to_nat (len - 8)));
      h ← get_host i;
      set_host i (host_rings (h_sndbuf h)
        (enqueue (mk_offload (src_addr ip) (dst_addr ip) (udp_src_port udp) (udp_dst_port udp) data len) (h_rcvbuf h)) h);;
      ret 0
  end.

(** ** Output *)

(** rte_pktmbuf_alloc; without an mbuf the process ends. *)
Definition new_mbuf : M store unit :=
  ok ← next_alloc;
  if ok : bool then ret () else undef ProcessExit.
(** rte_ring_mp_enqueue_burst of one frame into ring->out; a frame that does not fit
    is lost. *)
Definition out_enqueue (frame : list Z) : M store unit :=
  modify (λ s, with_out (rte_ring_enqueue_burst [frame] (us_out s)).2 s).

Definition ng_send_arp (opcode : Z) (dst_mac : list Z) (sip dip : Z) : M store (list Z) :=
  new_mbuf;; ret (ng_encode_arp_pkt opcode dst_mac sip dip).
Definition ng_tcp_pkt (sip dip : Z) (srcmac dstmac : list Z) (f : ng_tcp_fragment) : M store (list Z) :=
  from_opt IndetRead (fr_optlen f);; new_mbuf;; ng_encode_tcp_apppkt sip dip srcmac dstmac f.
(** total_len is computed as unsigned and passed as uint16_t. *)
Definition ng_udp_pkt (sip dip sport dport : Z) (srcmac dstmac data : list Z) (length : Z) : M store (list Z) :=
  new_mbuf;; ng_encode_udp_apppkt sip dip sport dport srcmac dstmac data (u16 (length + 42)).

(** One stream's turn in ng_tcp_out; a fragment that waits for an ARP reply goes back
    into the ring, behind the others. *)
Definition tcp_out_one (i : nat) : M store unit :=
  stream ← get_tcb i;
  match st_sndbuf stream with
  | None => ret ()
  | Some r =>
      match dequeue r with
      | None => ret ()
      | Some (f, r) =>
          set_tcb i (set_sndbuf (Some r) stream);;
          dstmac ← ng_get_dst_macaddr (st_sip stream);
          match dstmac with
          | None =>
              arpbuf ← ng_send_arp RTE_ARP_OP_REQUEST gDefaultArpMac (st_dip stream) (st_sip stream);
              out_enqueue arpbuf;;
              tcb_send i f
          | Some dstmac =>
              tcpbuf ← ng_tcp_pkt (st_dip stream) (st_sip stream) (st_localmac stream) dstmac f;
              out_enqueue tcpbuf
          end
      end
  end.
Fixpoint out_loop (one : nat → M store unit) (l : list nat) : M store unit :=
  match l with [] => ret () | i :: l => one i;; out_loop one l end.
Definition ng_tcp_out : M store Z :=
  n ← gets (λ s, length (us_tcbs s));
  out_loop tcp_out_one (seq 0 n);;
  ret 0.

Definition udp_out_one (i : nat) : M store unit :=
  host ← get_host i;
  match dequeue (h_sndbuf host) with
  | None => ret ()
  | Some (ol, r) =>
      set_host i (host_rings r (h_rcvbuf host) host);;
      dstmac ← ng_get_dst_macaddr (ol_dip ol);
      match dstmac with
      | None =>
          arpbuf ← ng_send_arp RTE_ARP_OP_REQUEST gDefaultArpMac (ol_sip ol) (ol_dip ol);
          out_enqueue arpbuf;;
          set_host i (host_rings (enqueue ol r) (h_rcvbuf host) host)
      | Some dstmac =>
          udpbuf ← ng_udp_pkt (ol_sip ol) (ol_dip ol) (ol_sport ol) (ol_dport ol) (h_localmac host) dstmac (ol_data ol) (ol_length ol);
          out_enqueue udpbuf
      end
  end.
Definition udp_out : M store Z :=
  n ← gets (λ s, length (us_hosts s));
  out_loop udp_out_one (seq 0 n);;
  ret 0.

(** ** The network loop *)

(** rte_kni_tx_burst of the whole burst: the kernel takes the mbufs over. *)
Fixpoint all_frames (mbufs : list (option (list Z))) : option (list (list Z)) :=
  match mbufs with
  | [] => Some []
  | Some p :: l => cons p <$> all_frames l
  | None :: _ => None
  end.
Definition rte_kni_tx_burst (mbufs : list (option (list Z))) : M store (list (option (list Z))) :=
  frames ← from_opt DanglingDeref (all_frames mbufs);
  modify (with_kni (λ l, l ++ frames));;
  ret (replicate (length mbufs) None).

(** Packet [i] of the burst [mbufs], where [None] is an mbuf that was given back. *)
Definition pkt_one (mbufs : list (option (list Z))) (i : nat) : M store (list (option (list Z))) :=
  p ← from_opt DanglingDeref (mjoin (mbufs !! i));
  ether_type ← from_opt OutOfBounds (ld16 p 12);
  if ether_type =? ntohs RTE_ETHER_TYPE_IPV4 then
    ip ← from_opt OutOfBounds (load_ipv4 p);
    s_addr ← from_opt OutOfBounds (ld_bytes p 6 6);
    ng_arp_entry_insert (src_addr ip) s_addr;;
    if next_proto_id ip =? IPPROTO_UDP then udp_process p;; ret (<[i:=None]> mbufs)
    else if next_proto_id ip =? IPPROTO_TCP then ng_tcp_process p;; ret (<[i:=None]> mbufs)
    else rte_kni_tx_burst mbufs
  else rte_kni_tx_burst mbufs.
Fixpoint pkt_loop (l : list nat) (mbufs : list (option (list Z))) : M store unit :=
  match l with
  | [] => ret ()
  | i :: l => mbufs ← pkt_one mbufs i; pkt_loop l mbufs
  end.

Definition BURST_SIZE : nat := 32.
(** One round of pkt_process. *)
Definition pkt_process_round : M store unit :=
  s ← get;
  let '(mbufs, r) := rte_ring_dequeue_burst BURST_SIZE (us_in s) in
  put (with_in r s);;
  pkt_loop (seq 0 (length mbufs)) (Some <$> mbufs);;
  udp_out;;
  ng_tcp_out;;
  ret ().

(** ** The ARP timer *)

(** MAKE_IPV4_ADDR(192, 168, 0, 119) *)
Definition gLocalIp : Z := 192 + Z.shiftl 168 8 + Z.shiftl 0 16 + Z.shiftl 119 24.
(** gcc defines i << 24 for every int. *)
Definition timer_one (i : Z) : M store unit :=
  let dstip := Z.lor (Z.land gLocalIp 0x00FFFFFF) (Z.land 0xFF000000 (u32 (Z.shiftl i 24))) in
  dstmac ← ng_get_dst_macaddr dstip;
  arpbuf ← (match dstmac with
            | None => ng_send_arp RTE_ARP_OP_REQUEST gDefaultArpMac gLocalIp dstip
            | Some dstmac => ng_send_arp RTE_ARP_OP_REQUEST dstmac gLocalIp dstip
            end);
  out_enqueue arpbuf.
Fixpoint timer_loop (fuel : nat) (i : Z) : M store unit :=
  match fuel with
  | O => no_fuel
  | S fuel => if i <=? 254 then timer_one i;; timer_loop fuel (i + 1) else ret ()
  end.
Definition arp_request_timer_cb : M store unit := timer_loop 255 1.

(** ** main *)

(** The frames rte_eth_rx_burst gave go into the in ring, as many as fit. *)
Definition main_receive (rx : list (list Z)) : M store unit :=
  if (BURST_SIZE <? length rx)%nat then undef ProcessExit else
  modify (λ s, if decide (rx = []) then s else with_in (rte_ring_enqueue_burst rx (us_in s)).2 s).
(** Up to 32 frames of the out ring, which rte_eth_tx_burst is offered. *)
Definition main_transmit : M store (list (list Z)) :=
  s ← get;
  let '(tx, r) := rte_ring_dequeue_burst BURST_SIZE (us_out s) in
  put (with_out r s);;
  ret tx.
(** One round: receiving; transmitting, where the port takes the first [sent] frames over
    and frees them itself; all of them are freed; then the timer, if it is time. *)
Definition main_round (rx : list (list Z)) (sent : nat) (timer : bool) : M store unit :=
  main_receive rx;;
  tx ← main_transmit;
  (if (0 <? Nat.min sent (length tx))%nat then undef DoubleFree else ret ());;
  if timer : bool then arp_request_timer_cb else ret ().

(** ** The servers *)

Definition INADDR_ANY : Z := 0.
Definition TCP_PORT : Z := 9999.
(** tcp_server_entry up to its loop; the descriptor it listens on. *)
Definition tcp_server_start : M store Z :=
  listenfd ← nsocket SOCK_STREAM;
  if listenfd =? -1 then ret (-1) else
  nbind listenfd (ntohl INADDR_ANY) (ntohs TCP_PORT);;
  nlisten listenfd;;
  ret listenfd.
(** What the server does for the ready descriptor [connfd] (readable, as every
    descriptor is registered for EPOLLIN); [None]: it waits inside the call.  The
    result lists what it does to the epoll set: descriptors added, descriptors deleted.
    printf reads the buffer as a string.  After a result of -1 the descriptor is unknown to nsend too, which then looks at
    no other argument. *)
Definition BUFFER_SIZE : nat := 1024.
(** [None]: there is no NUL in the array. *)
Fixpoint strlen (l : list Z) : option nat :=
  match l with [] => None | c :: l => if c =? 0 then Some O else S <$> strlen l end.
Definition fill (buffer out : list Z) : list Z := out ++ drop (length out) buffer.
Definition tcp_server_event (listenfd connfd : Z) : M store (option (list Z * list Z)) :=
  if connfd =? listenfd then
    client ← naccept listenfd;
    match client with
    | None => ret None
    | Some (clientfd, _, _) => ret (Some ([clientfd], []))
    end
  else
    r ← nrecv connfd (Z.of_nat BUFFER_SIZE);
    match r with
    | None => ret None
    | Some (count, out) =>
        if count =? 0 then nclose connfd;; ret (Some ([], [connfd])) else
        let buffer := fill (replicate BUFFER_SIZE 0) out in
        from_opt OutOfBounds (strlen buffer);;
        if count =? -1 then nsend connfd [];; ret (Some ([], [])) else
        buf ← from_opt OutOfBounds (ld_bytes buffer 0 (Z.to_nat count));
        nsend connfd buf;;
        ret (Some ([], []))
    end.

Definition UDP_APP_RECV_BUFFER_SIZE : nat := 128.
Definition udp_server_start : M store Z :=
  connfd ← nsocket SOCK_DGRAM;
  if connfd =? -1 then ret (-1) else
  nbind connfd gLocalIp (ntohs 8889);;
  ret connfd.
(** One round of its loop: the contents of the buffer afterwards. *)
Definition udp_server_round (connfd : Z) (buffer : list Z) : M store (option (list Z)) :=
  r ← nrecvfrom connfd (Z.of_nat UDP_APP_RECV_BUFFER_SIZE);
  match r with
  | None => ret None
  | Some (n, out, port, ip) =>
      if n <? 0 then ret (Some buffer) else
      let buffer := fill buffer out in
      len ← from_opt OutOfBounds (strlen buffer);
      nsendto connfd (take len buffer) ip port;;
      ret (Some buffer)
  end.
End tcp.
