(* ===== verification/UsFrame.v ===== *)
(** The frames of the user-space stack: byte order, and what a receiver loads from
    the frames the encoder builds. *)
From S2P Require Import Prelude UsWire UsSock UsTcp.

(** ** Byte order *)

Lemma ntohs_range v : is_u16 (ntohs v).
Proof. unfold ntohs. word. Qed.
Lemma ntohs_involutive v : is_u16 v → ntohs (ntohs v) = v.
Proof. unfold ntohs. word. Qed.
Lemma ntohl_range v : is_u32 (ntohl v).
Proof. pose proof (ntohs_range (v mod 2 ^ 16)). pose proof (ntohs_range (v / 2 ^ 16 mod 2 ^ 16)). unfold ntohl. word. Qed.
Lemma ntohl_involutive v : is_u32 v → ntohl (ntohl v) = v.
Proof.
  intros Hv. unfold ntohl at 1.
  pose proof (ntohs_range (v mod 2 ^ 16)). pose proof (ntohs_range (v / 2 ^ 16 mod 2 ^ 16)).
  assert (ntohl v mod 2 ^ 16 = ntohs (v / 2 ^ 16 mod 2 ^ 16)) as -> by (unfold ntohl; word).
  assert (ntohl v / 2 ^ 16 mod 2 ^ 16 = ntohs (v mod 2 ^ 16)) as -> by (unfold ntohl; word).
  rewrite !ntohs_involutive by word. word.
Qed.
Lemma le16_value v : is_u16 v → v mod 2 ^ 8 + v / 2 ^ 8 mod 2 ^ 8 * 2 ^ 8 = v.
Proof. word. Qed.
Lemma le32_value v : is_u32 v →
  v mod 2 ^ 8 + v / 2 ^ 8 mod 2 ^ 8 * 2 ^ 8 + (v / 2 ^ 16 mod 2 ^ 8 + v / 2 ^ 16 / 2 ^ 8 mod 2 ^ 8 * 2 ^ 8) * 2 ^ 16 = v.
Proof. word. Qed.

Section frame.
Context {R : Type → Type} `{Dpdk R}.

(** A list of six bytes. *)
Lemma six_bytes (l : list Z) : length l = 6%nat → ∃ a b c d e f, l = [a; b; c; d; e; f].
Proof. destruct l as [|a [|b [|c [|d [|e [|f [|]]]]]]]; intros [=]. by exists a, b, c, d, e, f. Qed.

(** The frame of a fragment without options. *)
Definition tcp_frame (sip dip : Z) (srcmac dstmac : list Z) (f : ng_tcp_fragment) (urp : Z) (payload : list Z) : list Z :=
  let ip := ip_hdr_cksum IPPROTO_TCP (u32 (fr_length f + 14 + 20 + 20 + 0 * 4)) sip dip in
  ether_hdr dstmac srcmac RTE_ETHER_TYPE_IPV4 ++ ip ++
  tcp_header f urp (u16 (rte_ipv4_udptcp_cksum ip (tcp_header f urp 0 ++ payload))) ++ payload.

Lemma encode_tcp {S} (s : S) sip dip srcmac dstmac f urp payload :
  fr_optlen f = Some 0 → fr_tcp_urp f = Some urp → 54 + fr_length f ≤ mbuf_room →
  match fr_data f with
  | Some data => ld_bytes data 0 (Z.to_nat (fr_length f)) = Some payload
  | None => fr_length f = 0 ∧ payload = []
  end →
  ng_encode_tcp_apppkt sip dip srcmac dstmac f s = Ok (tcp_frame sip dip srcmac dstmac f urp payload, s).
Proof.
  intros Hopt Hurp Hroom Hdata. unfold ng_encode_tcp_apppkt. rewrite Hopt, Hurp. unfold bind. cbn [from_opt ret].
  rewrite (proj2 (Z.ltb_ge _ _)) by lia.
  destruct (fr_data f) as [data|].
  - by rewrite Hdata.
  - destruct Hdata as [Hl ->]. by rewrite (proj2 (Z.eqb_eq _ _) Hl).
Qed.

Lemma ld16_le16 v l : is_u16 v → ld16 (le16 v ++ l) 0 = Some v.
Proof. intros. unfold ld16, ld8. cbn. f_equal. word. Qed.
Lemma ld32_le32 v l : is_u32 v → ld32 (le32 v ++ l) 0 = Some v.
Proof. intros. unfold ld32, ld16, ld8. cbn. f_equal. word. Qed.
Lemma ld8_drop p off n : ld8 p (n + off) = ld8 (drop n p) off.
Proof. unfold ld8. by rewrite lookup_drop. Qed.
Lemma ld16_drop p off n : ld16 p (n + off) = ld16 (drop n p) off.
Proof. unfold ld16. by rewrite plus_n_Sm, !ld8_drop. Qed.
Lemma ld32_drop p off n : ld32 p (n + off) = ld32 (drop n p) off.
Proof. unfold ld32. rewrite ld16_drop. replace (2 + (n + off))%nat with (n + (2 + off))%nat by lia. by rewrite ld16_drop. Qed.

(** A fragment whose fields have their widths. *)
Record fragment_ok (f : ng_tcp_fragment) : Prop := {
  ok_sport : is_u16 (fr_sport f); ok_dport : is_u16 (fr_dport f);
  ok_seqnum : is_u32 (fr_seqnum f); ok_acknum : is_u32 (fr_acknum f);
  ok_windows : is_u16 (fr_windows f); ok_length : 0 ≤ fr_length f }.

Section load.
Context (sip dip : Z) (srcmac dstmac payload : list Z) (f : ng_tcp_fragment) (urp : Z).
Context (Hf : fragment_ok f) (Hsip : is_u32 sip) (Hdip : is_u32 dip) (Hurp : is_u16 urp).
Context (Hsrc : length srcmac = 6%nat) (Hdst : length dstmac = 6%nat).
Abbreviation p := (tcp_frame sip dip srcmac dstmac f urp payload).
Abbreviation ip := (ip_hdr_cksum IPPROTO_TCP (u32 (fr_length f + 14 + 20 + 20 + 0 * 4)) sip dip).
Abbreviation ck := (u16 (rte_ipv4_udptcp_cksum ip (tcp_header f urp 0 ++ payload))).

Lemma drop_ether : drop 14 p = ip ++ tcp_header f urp ck ++ payload.
Proof.
  destruct (six_bytes _ Hsrc) as (?&?&?&?&?&?&->), (six_bytes _ Hdst) as (?&?&?&?&?&?&->). done.
Qed.
Lemma drop_tcp : drop 34 p = tcp_header f urp ck ++ payload.
Proof. change 34%nat with (14 + 20)%nat. by rewrite <-drop_drop, drop_ether. Qed.

Lemma load_ipv4_frame : fr_length f ≤ 65495 →
  load_ipv4 p = Some (mk_ipv4 (ntohs (fr_length f + 40)) IPPROTO_TCP sip dip).
Proof.
  intros Hlen. pose proof (ok_length f Hf). unfold load_ipv4.
  rewrite (ld16_drop _ 2 14), (ld8_drop _ 9 14), (ld32_drop _ 12 14), (ld32_drop _ 16 14), drop_ether.
  unfold ip_hdr_cksum, ip_hdr. rewrite (ld16_drop _ 0 2), (ld32_drop _ 0 12), (ld32_drop _ 0 16).
  cbn [drop app le16 le32 ld8 lookup].
  replace (u16 (u32 (fr_length f + 14 + 20 + 20 + 0 * 4) - 14)) with (fr_length f + 40) by word.
  pose proof (ntohs_range (fr_length f + 40)).
  unfold ld32, ld16, ld8. cbn. by rewrite (le16_value (ntohs _)), !le32_value.
Qed.

Lemma load_tcp_frame :
  load_tcp p = Some (mk_tcp (fr_sport f) (fr_dport f) (ntohl (fr_seqnum f)) (ntohl (fr_acknum f))
    (fr_hdrlen_off f) (fr_tcp_flags f) (fr_windows f) ck urp).
Proof.
  destruct Hf as [? ? ? ? ? _]. pose proof (u16_range (rte_ipv4_udptcp_cksum ip (tcp_header f urp 0 ++ payload))).
  pose proof (ntohl_range (fr_seqnum f)). pose proof (ntohl_range (fr_acknum f)). unfold load_tcp.
  rewrite (ld16_drop _ 0 34), (ld16_drop _ 2 34), (ld32_drop _ 4 34), (ld32_drop _ 8 34), (ld8_drop _ 12 34),
    (ld8_drop _ 13 34), (ld16_drop _ 14 34), (ld16_drop _ 16 34), (ld16_drop _ 18 34), drop_tcp.
  set (c := ck) in *. clearbody c. unfold tcp_header.
  cbn [app le16 le32 ld8 lookup]. unfold ld32, ld16, ld8. cbn -[Z.add Z.mul Z.div Z.modulo Z.pow].
  rewrite !le32_value, !le16_value by done. done.
Qed.

Lemma payload_frame : drop 54 p = payload.
Proof. change 54%nat with (34 + 20)%nat. by rewrite <-drop_drop, drop_tcp. Qed.
Lemma take_ip_frame : take 20 (drop 14 p) = ip.
Proof. by rewrite drop_ether. Qed.
Lemma clear_cksum_frame : clear_cksum p = tcp_header f urp 0 ++ payload.
Proof. unfold clear_cksum. by rewrite drop_tcp. Qed.
Lemma length_frame : length p = (54 + length payload)%nat.
Proof.
  rewrite <-(take_drop 54 p), length_app, payload_frame, length_take_le; [done|].
  pose proof (f_equal length drop_tcp) as Hl. rewrite length_drop in Hl. cbn in Hl. lia.
Qed.
End load.
(** C28: What ng_encode_tcp_apppkt writes for a fragment, a receiver reads back: the
    addresses, the ports, the sequence and acknowledgement numbers in network order,
    the flags and the payload; and the checksum ng_tcp_process computes over the
    frame is the one in it, whatever the checksum function. *)
Theorem tcp_frame_roundtrip {S} (s : S) sip dip srcmac dstmac f urp payload rest :
  fragment_ok f → is_u32 sip → is_u32 dip → is_u16 urp → length srcmac = 6%nat → length dstmac = 6%nat →
  fr_optlen f = Some 0 → fr_tcp_urp f = Some urp →
  fr_data f = Some (payload ++ rest) → fr_length f = Z.of_nat (length payload) →
  54 + fr_length f ≤ mbuf_room → mbuf_room ≤ 65535 →
  ∃ p ck, ng_encode_tcp_apppkt sip dip srcmac dstmac f s = Ok (p, s) ∧
    length p = (54 + length payload)%nat ∧
    load_ipv4 p = Some (mk_ipv4 (ntohs (fr_length f + 40)) IPPROTO_TCP sip dip) ∧
    load_tcp p = Some (mk_tcp (fr_sport f) (fr_dport f) (ntohl (fr_seqnum f)) (ntohl (fr_acknum f))
      (fr_hdrlen_off f) (fr_tcp_flags f) (fr_windows f) ck urp) ∧
    u16 (rte_ipv4_udptcp_cksum (take 20 (drop 14 p)) (clear_cksum p)) = ck ∧
    drop 54 p = payload.
Proof.
  intros Hf Hsip Hdip Hu Hsrc Hdst Hopt Hurp Hdata Hlen Hroom Hmax.
  exists (tcp_frame sip dip srcmac dstmac f urp payload). eexists. split.
  { apply encode_tcp; try done. rewrite Hdata, Hlen, Nat2Z.id. unfold ld_bytes.
    rewrite (proj2 (Nat.leb_le _ _)) by (rewrite length_app; lia). by rewrite drop_0, take_app_length. }
  rewrite length_frame, load_ipv4_frame, load_tcp_frame, payload_frame, take_ip_frame, clear_cksum_frame by (done || lia).
  done.
Qed.
End frame.

(** The peer's data segment of five bytes. *)
Definition demo_fragment : ng_tcp_fragment :=
  mk_fragment 1000 2000 7 9 0x50 0x18 TCP_INITIAL_WINDOW (Some 0) (Some 0) (Some [104; 101; 108; 108; 111; 0]) 5.
Lemma demo_fragment_ok : fragment_ok demo_fragment.
Proof. split; cbn; unfold TCP_INITIAL_WINDOW; word_unfold; lia. Qed.
Lemma tcp_frame_roundtrip_witness : ∃ p ck,
  ng_encode_tcp_apppkt (H := list_dpdk) 1 2 [1; 2; 3; 4; 5; 6] [7; 8; 9; 10; 11; 12] demo_fragment () = Ok (p, ()) ∧
  length p = 59%nat ∧ load_ipv4 p = Some (mk_ipv4 (ntohs 45) IPPROTO_TCP 1 2) ∧
  load_tcp p = Some (mk_tcp 1000 2000 (ntohl 7) (ntohl 9) 0x50 0x18 TCP_INITIAL_WINDOW ck 0) ∧
  u16 (sum_bytes (take 20 (drop 14 p)) (clear_cksum p)) = ck ∧ drop 54 p = [104; 101; 108; 108; 111].
Proof.
  apply (tcp_frame_roundtrip (H := list_dpdk) () 1 2 [1; 2; 3; 4; 5; 6] [7; 8; 9; 10; 11; 12] demo_fragment 0
    [104; 101; 108; 108; 111] [0]); try done; apply demo_fragment_ok.
Defined.
