(* ===== verification/UsSpec.v ===== *)
(** Specifications of the primitive steps of the user-space stack, shared by the
    theorems on it: positions in the lists of sockets, the rings of a stream, the
    search, and the handlers of the established state. *)
From S2P Require Import Prelude UsWire UsSock UsTcp.

Section spec.
Context {R : Type → Type} `{DpdkLaws R}.
Implicit Types (s : ustack R) (x : ng_tcp_stream R).

(** Memory does not run out. *)
Definition memory s : Prop := us_plan s = [].

Definition upd_tcb i x s : ustack R := with_tcbs (λ l, <[i:=x]> l) s.

Lemma upd_upd_tcb i x y s : upd_tcb i y (upd_tcb i x s) = upd_tcb i y s.
Proof. unfold upd_tcb, with_tcbs. cbn. by rewrite list_insert_insert_eq. Qed.
Lemma lookup_upd_tcb i x s : is_Some (us_tcbs s !! i) → us_tcbs (upd_tcb i x s) !! i = Some x.
Proof. intros ?. cbn. by apply list_lookup_insert_eq, lookup_lt_is_Some. Qed.

Lemma wp_get_tcb i x s (Q : _ → ustack R → Prop) : us_tcbs s !! i = Some x → Q x s → wp (get_tcb i) Q s.
Proof. intros Hi HQ. unfold get_tcb. wp_step. by rewrite Hi. Qed.
Lemma wp_set_tcb i x s (Q : unit → ustack R → Prop) : wp (set_tcb i x) Q s ↔ Q () (upd_tcb i x s).
Proof. done. Qed.
Lemma wp_malloc size s (Q : bool → ustack R → Prop) :
  memory s → 0 < size < 2 ^ 63 → Q true s → wp (rte_malloc size) Q s.
Proof.
  intros Hm Hs HQ. unfold rte_malloc.
  rewrite (proj2 (Z.eqb_neq _ _)), (proj2 (Z.leb_gt _ _)) by lia. cbn [orb].
  unfold wp, next_alloc. by rewrite Hm.
Qed.
Lemma wp_send i f x r s (Q : unit → ustack R → Prop) :
  us_tcbs s !! i = Some x → st_sndbuf x = Some r →
  Q () (upd_tcb i (set_sndbuf (Some (enqueue f r)) x) s) → wp (tcb_send i f) Q s.
Proof.
  intros Hi Hr HQ. unfold tcb_send. wp_step. eapply wp_get_tcb; [done|]. wp_step. rewrite Hr. done.
Qed.
Lemma wp_receive i f x r s (Q : unit → ustack R → Prop) :
  us_tcbs s !! i = Some x → st_rcvbuf x = Some r →
  Q () (upd_tcb i (set_rcvbuf (Some (enqueue f r)) x) s) → wp (tcb_receive i f) Q s.
Proof.
  intros Hi Hr HQ. unfold tcb_receive. wp_step. eapply wp_get_tcb; [done|]. wp_step. rewrite Hr. done.
Qed.

(** ** Rings of a stream *)

Definition items {A} (r : ring R A) : list A := ring_items (rg_q r).
Lemma items_enqueue {A} (a : A) r : (length (items r) < ring_cap)%nat → items (enqueue a r) = items r ++ [a].
Proof. apply ring_enqueue_room. Qed.
Lemma dequeue_cons {A} (r : ring R A) a l : items r = a :: l → ∃ r', dequeue r = Some (a, r') ∧ items r' = l ∧ rg_name r' = rg_name r.
Proof.
  intros Hi. destruct (ring_dequeue_some (rg_q r) a l Hi) as (q & Hd & Hl). unfold dequeue. rewrite Hd. cbn.
  by exists (mk_ring R A (rg_name r) q).
Qed.
Lemma dequeue_nil {A} (r : ring R A) : items r = [] → dequeue r = None.
Proof. intros Hi. unfold dequeue. by rewrite (ring_dequeue_none (rg_q r) Hi). Qed.

(** ** The search *)

Lemma list_find_insert {A} (f : A → bool) (l : list A) i (x x' : A) :
  l !! i = Some x → f x' = f x →
  fst <$> list_find (λ y, f y = true) (<[i:=x']> l) = fst <$> list_find (λ y, f y = true) l.
Proof.
  revert i. induction l as [|y l IH]; intros [|i]; try done; cbn.
  - intros [= <-] Hf. destruct (decide (f x' = true)), (decide (f y = true)); congruence || done.
  - intros Hi Hf. destruct (decide (f y = true)); [done|]. specialize (IH i Hi Hf).
    destruct (list_find _ (<[i:=x']> l)) as [[]|], (list_find _ l) as [[]|]; cbn in *; congruence.
Qed.
Lemma find_tcb_insert f l i x x' : l !! i = Some x → f x' = f x → find_tcb f (<[i:=x']> l) = find_tcb (R := R) f l.
Proof. apply list_find_insert. Qed.
Lemma find_host_insert f l i h h' : l !! i = Some h → f h' = f h → find_host f (<[i:=h']> l) = find_host (R := R) f l.
Proof. apply list_find_insert. Qed.
Lemma find_tcb_Some f l i : find_tcb f l = Some i → ∃ x, l !! i = Some x ∧ f x = true.
Proof.
  unfold find_tcb. destruct (list_find _ l) as [[j x]|] eqn:E; intros [= <-].
  apply list_find_Some in E as (?&?&_). eauto.
Qed.
Lemma find_tcb_head f x l : f x = true → find_tcb f (x :: l) = Some O.
Proof. intros Hf. unfold find_tcb. cbn. by rewrite decide_True. Qed.
Lemma find_tcb_skip f x l : f x = false → find_tcb f (x :: l) = S <$> find_tcb f l.
Proof. intros Hf. unfold find_tcb. cbn. rewrite decide_False by congruence. by destruct (list_find _ l) as [[]|]. Qed.

(** The frame [p] carries these headers and a valid checksum. *)
Definition arrives (p : list Z) (ip : ipv4_hdr) (tcp : tcp_hdr) : Prop :=
  load_ipv4 p = Some ip ∧ load_tcp p = Some tcp ∧
  u16 (rte_ipv4_udptcp_cksum (take 20 (drop 14 p)) (clear_cksum p)) = cksum tcp.

(** It belongs to the stream [x] at position [i]. *)
Definition addressed ip tcp : ng_tcp_stream R → bool :=
  exact_match (src_addr ip) (dst_addr ip) (src_port tcp) (dst_port tcp).

Lemma process_dispatch p ip tcp i x s (Q : Z → ustack R → Prop) :
  arrives p ip tcp → find_tcb (addressed ip tcp) (us_tcbs s) = Some i → us_tcbs s !! i = Some x →
  wp (match st_status x with
      | LISTEN => ng_tcp_handle_listen i tcp ip
      | SYN_RCVD => ng_tcp_handle_syn_rcvd i tcp
      | ESTABLISHED => ng_tcp_handle_established i (take 34 p ++ clear_cksum p) tcp (ntohs (total_length ip) - 20)
      | CLOSE_WAIT => ng_tcp_handle_close_wait i tcp
      | LAST_ACK => ng_tcp_handle_last_ack i tcp
      | CLOSED | SYN_SENT | FIN_WAIT_1 | FIN_WAIT_2 | CLOSING | TIME_WAIT => ret 0
      end) (λ _ s', Q 0 s') s →
  wp (ng_tcp_process p) Q s.
Proof.
  intros (Hip & Htcp & Hck) Hfind Hi Hh. unfold ng_tcp_process. wp_step. rewrite Hip, Htcp. cbn [from_opt].
  wp_step. rewrite Hck, Z.eqb_refl. cbn [negb]. unfold ng_tcp_stream_search. wp_step.
  unfold addressed in Hfind. rewrite Hfind. wp_step. eapply wp_get_tcb; [done|]. wp_step. apply Hh.
Qed.

(** ** Data on an established stream *)

Definition payload_len (ip : ipv4_hdr) (tcp : tcp_hdr) : Z :=
  ntohs (total_length ip) - 20 - Z.shiftr (data_off tcp) 4 * 4.
Definition data_fragment (tcp : tcp_hdr) (data : option (list Z)) (len : Z) : ng_tcp_fragment :=
  mk_fragment (ntohs (src_port tcp)) (ntohs (dst_port tcp)) 0 0 0 0 0 (Some 0) (Some 0) data len.
Definition ack_fragment (tcp : tcp_hdr) (rcv_nxt : Z) : ng_tcp_fragment :=
  control_fragment (dst_port tcp) (src_port tcp) (ntohl (recv_ack tcp)) rcv_nxt RTE_TCP_ACK_FLAG.

(** The stream after [f] was queued for the application and [n] octets were
    acknowledged. *)
Definition after_data tcp f n (rb sb : ring R ng_tcp_fragment) (ack : Z) x : ng_tcp_stream R :=
  set_sndbuf (Some (enqueue (ack_fragment tcp (u32 (ack + n))) sb))
    (set_nxt (ntohl (recv_ack tcp)) (Some (u32 (ack + n))) (set_rcvbuf (Some (enqueue f rb)) x)).

Lemma receive_payload i p tcp tcplen len data x rb s (Q : Z → ustack R → Prop) :
  memory s → us_tcbs s !! i = Some x → st_rcvbuf x = Some rb →
  tcplen - Z.shiftr (data_off tcp) 4 * 4 = len → 0 < len < 2 ^ 62 →
  ld_bytes p (Z.to_nat (34 + Z.shiftr (data_off tcp) 4 * 4)) (Z.to_nat len) = Some data →
  Q 0 (upd_tcb i (set_rcvbuf (Some (enqueue (data_fragment tcp (Some (data ++ [0])) len) rb)) x) s) →
  wp (ng_tcp_enqueue_recvbuffer i p tcp tcplen) Q s.
Proof.
  intros Hm Hi Hrb Hlen Hpos Hdata HQ. unfold ng_tcp_enqueue_recvbuffer. wp_step.
  apply wp_malloc; [done|lia|]. cbn [negb]. rewrite Hlen, (proj2 (Z.ltb_lt _ _)) by lia. wp_step.
  apply wp_malloc; [done|lia|]. cbn [negb]. wp_step. rewrite Hdata. cbn [from_opt]. wp_step.
  eapply wp_receive; [done..|]. by wp_step.
Qed.
Lemma receive_empty i p tcp tcplen x rb s (Q : Z → ustack R → Prop) :
  memory s → us_tcbs s !! i = Some x → st_rcvbuf x = Some rb →
  tcplen - Z.shiftr (data_off tcp) 4 * 4 ≤ 0 →
  Q 0 (upd_tcb i (set_rcvbuf (Some (enqueue (data_fragment tcp None 0) rb)) x) s) →
  wp (ng_tcp_enqueue_recvbuffer i p tcp tcplen) Q s.
Proof.
  intros Hm Hi Hrb Hlen HQ. unfold ng_tcp_enqueue_recvbuffer. wp_step.
  apply wp_malloc; [done|lia|]. cbn [negb]. rewrite (proj2 (Z.ltb_ge _ _)) by lia. wp_step.
  eapply wp_receive; [done..|]. by wp_step.
Qed.

Lemma acknowledge i tcp n x ack sb s (Q : unit → ustack R → Prop) :
  memory s → us_tcbs s !! i = Some x → st_rcv_nxt x = Some ack → st_sndbuf x = Some sb →
  Q () (upd_tcb i (set_sndbuf (Some (enqueue (ack_fragment tcp (u32 (ack + n))) sb))
    (set_nxt (ntohl (recv_ack tcp)) (Some (u32 (ack + n))) x)) s) →
  wp (advance i tcp n;; ng_tcp_send_ackpkt i tcp;; ret ()) Q s.
Proof.
  intros Hm Hi Hack Hsb HQ. unfold advance, ng_tcp_send_ackpkt. wp_step.
  eapply wp_get_tcb; [done|]. wp_step. rewrite Hack. cbn [from_opt]. wp_step. rewrite wp_set_tcb. wp_step.
  apply wp_malloc; [done|lia|]. cbn [negb]. wp_step.
  eapply wp_get_tcb; [by apply lookup_upd_tcb; rewrite Hi|]. wp_step. cbn [st_rcv_nxt set_nxt from_opt]. wp_step.
  eapply wp_send; [by apply lookup_upd_tcb; rewrite Hi|done|]. wp_step. by rewrite upd_upd_tcb.
Qed.
End spec.
