(* ===== verification/UsFd.v ===== *)
(** The descriptor bitmap of the user-space stack as a set of descriptors. *)
From S2P Require Import Prelude UsWire UsSock.

(** The descriptor's bit is set. *)
Definition fd_used (t : list Z) (fd : Z) : bool := Z.testbit (t !!! Z.to_nat (fd / 8)) (fd mod 8).
Definition fd_wf (t : list Z) : Prop := length t = Z.to_nat MAX_FD_COUNT ∧ Forall is_u8 t.
Definition is_fd (fd : Z) : Prop := 0 ≤ fd < MAX_FD_COUNT.

Definition bit_set (b fd : Z) : Z := u8 (Z.lor b (Z.shiftl 1 (fd mod 8))).
Definition bit_clear (b fd : Z) : Z := u8 (Z.land b (Z.lnot (Z.shiftl 1 (fd mod 8)))).

Lemma shift_bit k j : 0 ≤ k → 0 ≤ j → Z.testbit (Z.shiftl 1 k) j = (j =? k).
Proof.
  intros. rewrite Z.shiftl_spec by done. destruct (Z.eqb_spec j k) as [->|].
  - by rewrite Z.sub_diag.
  - destruct (decide (j < k)).
    + by apply Z.testbit_neg_r; lia.
    + apply Z.bits_above_log2; cbn; lia.
Qed.
Lemma bit_free b k : 0 ≤ k → (Z.land b (Z.shiftl 1 k) =? 0) = negb (Z.testbit b k).
Proof.
  intros. destruct (Z.testbit b k) eqn:E; cbn.
  - apply Z.eqb_neq. intros Hz. apply (f_equal (λ z, Z.testbit z k)) in Hz.
    rewrite Z.land_spec, E, shift_bit, Z.eqb_refl, Z.bits_0 in Hz by done. done.
  - apply Z.eqb_eq, Z.bits_inj'. intros j Hj. rewrite Z.land_spec, shift_bit, Z.bits_0 by done.
    destruct (Z.eqb_spec j k) as [->|]; [by rewrite E|apply andb_false_r].
Qed.
Lemma bit_set_spec b fd j : 0 ≤ j < 8 → Z.testbit (bit_set b fd) j = Z.testbit b j || (j =? fd mod 8).
Proof.
  intros. unfold bit_set, u8. rewrite Z.mod_pow2_bits_low, Z.lor_spec, shift_bit by (try apply Z.mod_pos_bound; lia). done.
Qed.
Lemma bit_clear_spec b fd j : 0 ≤ j < 8 → Z.testbit (bit_clear b fd) j = Z.testbit b j && negb (j =? fd mod 8).
Proof.
  intros. unfold bit_clear, u8.
  rewrite Z.mod_pow2_bits_low, Z.land_spec, Z.lnot_spec, shift_bit by (try apply Z.mod_pos_bound; lia). done.
Qed.

Lemma same_bit fd fd' : (fd' / 8 = fd / 8) → (fd' mod 8 =? fd mod 8) = (fd' =? fd).
Proof.
  intros Hq. pose proof (Z.div_mod fd 8). pose proof (Z.div_mod fd' 8).
  destruct (Z.eqb_spec fd' fd) as [->|]; [apply Z.eqb_refl|apply Z.eqb_neq; lia].
Qed.
Lemma update_byte (op : Z → Z) t fd fd' :
  fd_wf t → is_fd fd → is_fd fd' →
  fd_used (<[Z.to_nat (fd / 8):=op (t !!! Z.to_nat (fd / 8))]> t) fd'
  = if fd' / 8 =? fd / 8 then Z.testbit (op (t !!! Z.to_nat (fd' / 8))) (fd' mod 8) else fd_used t fd'.
Proof.
  intros [Hlen _] Hfd Hfd'. unfold is_fd, fd_used, MAX_FD_COUNT in *.
  pose proof (Z.div_pos fd 8). pose proof (Z.div_pos fd' 8).
  assert (fd / 8 < 128) by (apply Z.div_lt_upper_bound; lia).
  destruct (Z.eqb_spec (fd' / 8) (fd / 8)) as [->|].
  - by rewrite list_lookup_total_insert_eq by lia.
  - by rewrite list_lookup_total_insert_ne by lia.
Qed.

Definition add_fd (fd : Z) (t : list Z) : list Z := <[Z.to_nat (fd / 8):=bit_set (t !!! Z.to_nat (fd / 8)) fd]> t.
Definition remove_fd (fd : Z) (t : list Z) : list Z := <[Z.to_nat (fd / 8):=bit_clear (t !!! Z.to_nat (fd / 8)) fd]> t.

Lemma add_fd_used t fd fd' : fd_wf t → is_fd fd → is_fd fd' → fd_used (add_fd fd t) fd' = fd_used t fd' || (fd' =? fd).
Proof.
  intros Ht Hfd Hfd'. unfold add_fd. rewrite (update_byte (λ b, bit_set b fd)) by done.
  destruct (Z.eqb_spec (fd' / 8) (fd / 8)) as [Heq|Hne].
  - by rewrite bit_set_spec, same_bit by (done || apply Z.mod_pos_bound; lia).
  - rewrite (proj2 (Z.eqb_neq fd' fd)) by (by intros ->). by rewrite orb_false_r.
Qed.
Lemma remove_fd_used t fd fd' : fd_wf t → is_fd fd → is_fd fd' → fd_used (remove_fd fd t) fd' = fd_used t fd' && negb (fd' =? fd).
Proof.
  intros Ht Hfd Hfd'. unfold remove_fd. rewrite (update_byte (λ b, bit_clear b fd)) by done.
  destruct (Z.eqb_spec (fd' / 8) (fd / 8)) as [Heq|Hne].
  - by rewrite bit_clear_spec, same_bit by (done || apply Z.mod_pos_bound; lia).
  - rewrite (proj2 (Z.eqb_neq fd' fd)) by (by intros ->). by rewrite andb_true_r.
Qed.
Lemma insert_wf t i b : fd_wf t → fd_wf (<[i:=u8 b]> t).
Proof.
  intros [Hlen Hall]. split; [by rewrite length_insert|]. apply Forall_insert; auto with word_db.
Qed.

Section fd.
Context {R : Type → Type} `{Dpdk R}.
Implicit Types s : ustack R.

Lemma wp_ld_fd fd s (Q : Z → ustack R → Prop) :
  fd_wf (fd_table s) → is_fd fd → Q (fd_table s !!! Z.to_nat (fd / 8)) s → wp (ld_fd fd) Q s.
Proof.
  intros [Hlen _] Hfd HQ. unfold ld_fd. wp_step. unfold is_fd, MAX_FD_COUNT in *.
  pose proof (Z.div_pos fd 8). assert (fd / 8 < 128) by (apply Z.div_lt_upper_bound; lia).
  destruct (lookup_lt_is_Some_2 (fd_table s) (Z.to_nat (fd / 8))) as [b Hb]; [lia|].
  rewrite Hb. by erewrite list_lookup_total_correct in HQ by done.
Qed.

(** [fd] is the lowest free descriptor from [lo] on. *)
Definition lowest_free (t : list Z) (lo fd : Z) : Prop :=
  lo ≤ fd < MAX_FD_COUNT ∧ fd_used t fd = false ∧ ∀ g, lo ≤ g < fd → fd_used t g = true.
Definition all_used (t : list Z) (lo : Z) : Prop := ∀ g, lo ≤ g < MAX_FD_COUNT → fd_used t g = true.

Lemma fd_loop_spec s fuel fd :
  fd_wf (fd_table s) → 0 ≤ fd → (Z.to_nat (MAX_FD_COUNT - fd) < fuel)%nat →
  wp (fd_loop fuel fd) (λ r s',
    r = -1 ∧ s' = s ∧ all_used (fd_table s) fd ∨
    lowest_free (fd_table s) fd r ∧ s' = with_fds (add_fd r) s) s.
Proof.
  intros Hwf. revert fd. induction fuel as [|fuel IH]; intros fd Hfd Hfuel; [lia|]. cbn [fd_loop].
  destruct (Z.ltb_spec fd MAX_FD_COUNT) as [Hlt|Hge].
  - wp_step. apply wp_ld_fd; [done..|]. rewrite bit_free by (apply Z.mod_pos_bound; lia).
    fold (fd_used (fd_table s) fd). destruct (fd_used (fd_table s) fd) eqn:Hu; cbn [negb].
    + eapply wp_mono; [apply IH; lia|]. intros r s' [(-> & -> & Hall)|((Hr & Hfree & Hall) & ->)]; [left|right].
      * split_and!; [done..|]. intros g Hg. destruct (decide (g = fd)) as [->|]; [done|]. apply Hall. lia.
      * split; [|done]. split_and!; [lia..|done|]. intros g Hg. destruct (decide (g = fd)) as [->|]; [done|]. apply Hall. lia.
    + wp_step. right. split; [|done]. split_and!; [lia..|done|]. intros g Hg. lia.
  - wp_step. left. split_and!; [done..|]. intros g Hg. lia.
Qed.

Lemma set_fd_spec fd s :
  fd_wf (fd_table s) → is_fd fd → wp (set_fd_frombitmap fd) (λ r s', r = 0 ∧ s' = with_fds (remove_fd fd) s) s.
Proof.
  intros Hwf Hfd. unfold set_fd_frombitmap. rewrite (proj2 (Z.leb_gt _ _)), (proj2 (Z.ltb_ge _ _)) by apply Hfd. wp_step.
  apply wp_ld_fd; [done..|]. by wp_step.
Qed.

(** The descriptor bitmap is a set: get_fd_frombitmap adds the lowest descriptor
    from 3 on that is not in it, or returns -1 when all up to 1023 are, and
    set_fd_frombitmap removes the one it is given; no other descriptor changes. *)
Theorem descriptors_form_a_set s fd :
  fd_wf (fd_table s) → is_fd fd →
  wp get_fd_frombitmap (λ r s',
    r = -1 ∧ s' = s ∧ all_used (fd_table s) DEFAULT_FD_NUM ∨
    lowest_free (fd_table s) DEFAULT_FD_NUM r ∧ s' = with_fds (λ _, fd_table s') s ∧ fd_wf (fd_table s') ∧
    ∀ g, is_fd g → fd_used (fd_table s') g = fd_used (fd_table s) g || (g =? r)) s ∧
  wp (set_fd_frombitmap fd) (λ r s', r = 0 ∧ s' = with_fds (λ _, fd_table s') s ∧ fd_wf (fd_table s') ∧
    ∀ g, is_fd g → fd_used (fd_table s') g = fd_used (fd_table s) g && negb (g =? fd)) s.
Proof.
  intros Hwf Hfd. split.
  - eapply wp_mono; [apply fd_loop_spec; [done|done|unfold MAX_FD_COUNT, DEFAULT_FD_NUM; lia]|].
    intros r s' [?|[Hlow ->]]; [by left|right]. split; [done|]. split; [done|]. split; [by apply insert_wf|].
    intros g Hg. apply add_fd_used; [done| |done]. destruct Hlow as [[??] _]. unfold is_fd, DEFAULT_FD_NUM in *. lia.
  - eapply wp_mono; [by apply set_fd_spec|]. intros r s' [-> ->]. split; [done|]. split; [done|].
    split; [by apply insert_wf|]. intros g Hg. by apply remove_fd_used.
Qed.
End fd.

#[local] Existing Instance list_dpdk.
Lemma descriptors_form_a_set_witness :
  let s := mk_us list [] [] (replicate 1024 0) [] 0 [] [] [] [] [] [] in
  fd_wf (fd_table s) ∧
  wp get_fd_frombitmap (λ r s', r = -1 ∨ lowest_free (fd_table s) DEFAULT_FD_NUM r) s ∧
  wp (set_fd_frombitmap 5) (λ r _, r = 0) s.
Proof.
  intros s. assert (fd_wf (fd_table s)) as Hwf.
  { split; [vm_compute; reflexivity|]. apply Forall_replicate. word. }
  assert (is_fd 5) as H5 by (unfold is_fd, MAX_FD_COUNT; lia).
  split; [done|]. destruct (descriptors_form_a_set s 5 Hwf H5) as [Hget Hset]. split.
  - eapply wp_mono; [exact Hget|]. intros r s' [[-> _]|[Hlow _]]; auto.
  - eapply wp_mono; [exact Hset|]. by intros r s' [-> _].
Defined.
