(* ===== verification/UsTransfer.v ===== *)
(** Data on an established stream of the user-space stack: the segments that arrive
    and the calls of nrecv, in any interleaving, behave as a queue. *)
From S2P Require Import Prelude UsWire UsSock UsTcp UsFrame UsSpec.

Section transfer.
Context {R : Type → Type} `{DpdkLaws R}.
Implicit Types (s : ustack R) (x : ng_tcp_stream R).

(** Descriptor [fd] is the stream at position [i]. *)
Definition owns_fd (fd : Z) (i : nat) s : Prop :=
  find_host (λ h, fd =? h_fd h) (us_hosts s) = None ∧ find_tcb (λ y, fd =? st_fd y) (us_tcbs s) = Some i.

Lemma wp_hostinfo fd i s (Q : option hostinfo → ustack R → Prop) :
  owns_fd fd i s → Q (Some (HStream i)) s → wp (get_hostinfo_fromfd fd) Q s.
Proof. intros [Hh Ht] HQ. unfold get_hostinfo_fromfd. wp_step. by rewrite Hh, Ht. Qed.

(** ** nrecv *)

Lemma nrecv_data fd len i x rb q f data rest s :
  owns_fd fd i s → us_tcbs s !! i = Some x → st_protocol x = IPPROTO_TCP → st_rcvbuf x = Some rb →
  items rb = f :: q → 0 < fr_length f ≤ len → fr_length f = Z.of_nat (length data) → fr_data f = Some (data ++ rest) →
  wp (nrecv fd len) (λ r s', r = Some (fr_length f, data) ∧
    ∃ rb', items rb' = q ∧ s' = upd_tcb i (set_rcvbuf (Some rb') x) s) s.
Proof.
  intros Hfd Hi Hp Hrb Hq Hlen Hdl Hdata. destruct (dequeue_cons rb f q Hq) as (rb' & Hd & Hq' & _).
  unfold nrecv. wp_step. eapply wp_hostinfo; [done|]. wp_step. eapply wp_get_tcb; [done|]. wp_step.
  rewrite Hp, Hrb. cbn [negb Z.eqb IPPROTO_TCP Pos.eqb from_opt]. wp_step. rewrite Hd. wp_step. rewrite wp_set_tcb.
  rewrite (proj2 (Z.ltb_ge _ _)), (proj2 (Z.eqb_neq _ _)) by lia. wp_step. rewrite Hdata. cbn [from_opt]. wp_step.
  unfold ld_bytes. rewrite Hdl, Nat2Z.id, (proj2 (Nat.leb_le _ _)) by (rewrite length_app; lia).
  rewrite drop_0, take_app_length. cbn [from_opt]. wp_step. eauto.
Qed.
Lemma nrecv_waits fd len i x rb s :
  owns_fd fd i s → us_tcbs s !! i = Some x → st_protocol x = IPPROTO_TCP → st_rcvbuf x = Some rb →
  items rb = [] → wp (nrecv fd len) (λ r s', r = None ∧ s' = s) s.
Proof.
  intros Hfd Hi Hp Hrb Hq. unfold nrecv. wp_step. eapply wp_hostinfo; [done|]. wp_step.
  eapply wp_get_tcb; [done|]. wp_step. rewrite Hp, Hrb. cbn [negb Z.eqb IPPROTO_TCP Pos.eqb from_opt]. wp_step.
  by rewrite (dequeue_nil rb Hq).
Qed.

(** ** Sessions *)

(** A segment [p] with the headers [ip] and [tcp] and the payload [data], or a call
    of nrecv with a buffer of 1024 bytes. *)
Inductive conn_op : Type :=
| Segment (p : list Z) (ip : ipv4_hdr) (tcp : tcp_hdr) (data : list Z)
| Recv.
Definition conn_do (fd : Z) (op : conn_op) : M (ustack R) (option (option (Z * list Z))) :=
  match op with
  | Segment p _ _ _ => ng_tcp_process p;; ret None
  | Recv => r ← nrecv fd (Z.of_nat BUFFER_SIZE); ret (Some r)
  end.
Fixpoint conn_run (fd : Z) (ops : list conn_op) : M (ustack R) (list (option (Z * list Z))) :=
  match ops with
  | [] => ret []
  | op :: ops =>
      r ← conn_do fd op;
      rs ← conn_run fd ops;
      ret (match r with Some r => r :: rs | None => rs end)
  end.

(** What the calls of nrecv return: a queue of payloads. *)
Fixpoint conn_spec (q : list (list Z)) (ops : list conn_op) : list (option (Z * list Z)) :=
  match ops, q with
  | [], _ => []
  | Segment _ _ _ data :: ops, q => conn_spec (q ++ [data]) ops
  | Recv :: ops, [] => None :: conn_spec [] ops
  | Recv :: ops, data :: q => Some (Z.of_nat (length data), data) :: conn_spec q ops
  end.
(** The octets that arrive and the acknowledgements sent for them. *)
Definition op_octets (op : conn_op) : Z := match op with Segment _ _ _ data => Z.of_nat (length data) | Recv => 0 end.
Fixpoint conn_acks (rcv_nxt : Z) (ops : list conn_op) : list ng_tcp_fragment :=
  match ops with
  | [] => []
  | Segment _ _ tcp data :: ops =>
      let rcv_nxt := u32 (rcv_nxt + Z.of_nat (length data)) in ack_fragment tcp rcv_nxt :: conn_acks rcv_nxt ops
  | Recv :: ops => conn_acks rcv_nxt ops
  end.
Fixpoint octets (ops : list conn_op) : Z :=
  match ops with [] => 0 | op :: ops => op_octets op + octets ops end.
Fixpoint segments (ops : list conn_op) : nat :=
  match ops with [] => O | Segment _ _ _ _ :: ops => S (segments ops) | Recv :: ops => segments ops end.

(** The segment pushes 1 to 1024 octets to the stream at [i], without a FIN. *)
Definition segment_for s (i : nat) p ip tcp (data : list Z) : Prop :=
  arrives p ip tcp ∧ find_tcb (addressed ip tcp) (us_tcbs s) = Some i ∧
  has_flag tcp RTE_TCP_PSH_FLAG = true ∧ has_flag tcp RTE_TCP_FIN_FLAG = false ∧
  payload_len ip tcp = Z.of_nat (length data) ∧ (1 ≤ length data ≤ BUFFER_SIZE)%nat ∧
  ld_bytes (take 34 p ++ clear_cksum p) (Z.to_nat (34 + Z.shiftr (data_off tcp) 4 * 4)) (length data) = Some data.
Definition op_ok s i (op : conn_op) : Prop :=
  match op with Segment p ip tcp data => segment_for s i p ip tcp data | Recv => True end.

(** The stream holds the payloads [q] for the application. *)
Definition queued (f : ng_tcp_fragment) (data : list Z) : Prop :=
  fr_length f = Z.of_nat (length data) ∧ fr_data f = Some (data ++ [0]) ∧ (1 ≤ length data ≤ BUFFER_SIZE)%nat.
Record connected (q : list (list Z)) (ack : Z) (sent : list ng_tcp_fragment) x : Prop := {
  con_protocol : st_protocol x = IPPROTO_TCP;
  con_status : st_status x = ESTABLISHED;
  con_ack : st_rcv_nxt x = Some ack;
  con_rcvbuf : ∃ rb, st_rcvbuf x = Some rb ∧ Forall2 queued (items rb) q;
  con_sndbuf : ∃ sb, st_sndbuf x = Some sb ∧ items sb = sent }.

(** The keys by which streams are found, and the MAC address, do not change. *)
Definition same_key x x' : Prop :=
  st_fd x' = st_fd x ∧ st_sip x' = st_sip x ∧ st_dip x' = st_dip x ∧
  st_sport x' = st_sport x ∧ st_dport x' = st_dport x ∧ st_localmac x' = st_localmac x.
#[export] Instance same_key_refl : Reflexive same_key.
Proof. done. Qed.
#[export] Instance same_key_trans : Transitive same_key.
Proof. unfold same_key. intros ???. intuition congruence. Qed.

Lemma exact_same_key sip dip sport dport x x' : same_key x x' → exact_match sip dip sport dport x' = exact_match sip dip sport dport x.
Proof. intros (_ & H1 & H2 & H3 & H4 & _). unfold exact_match. by rewrite H1, H2, H3, H4. Qed.
Lemma op_ok_upd s i x x' op : us_tcbs s !! i = Some x → same_key x x' → op_ok s i op → op_ok (upd_tcb i x' s) i op.
Proof.
  intros Hi Hk. destruct op as [p ip tcp data|]; [|done]. unfold op_ok, segment_for, upd_tcb, with_tcbs. cbn [us_tcbs].
  by rewrite (find_tcb_insert (addressed ip tcp) _ i x x') by (done || by apply exact_same_key).
Qed.
Lemma owns_fd_upd s fd i x x' : us_tcbs s !! i = Some x → same_key x x' → owns_fd fd i s → owns_fd fd i (upd_tcb i x' s).
Proof.
  intros Hi (Hf & _) [Hh Ht]. split; [done|].
  rewrite <-Ht. apply (find_tcb_insert _ _ i x x'); [done|]. by rewrite Hf.
Qed.

Lemma segment_step i q ack sent x p ip tcp data s :
  memory s → us_tcbs s !! i = Some x → connected q ack sent x → segment_for s i p ip tcp data →
  (length q < ring_cap)%nat → (length sent < ring_cap)%nat →
  wp (ng_tcp_process p) (λ _ s', ∃ x', s' = upd_tcb i x' s ∧ same_key x x' ∧ st_snd_nxt x' = ntohl (recv_ack tcp) ∧
    connected (q ++ [data]) (u32 (ack + Z.of_nat (length data)))
      (sent ++ [ack_fragment tcp (u32 (ack + Z.of_nat (length data)))]) x') s.
Proof.
  intros Hm Hi [Hp Hst Hack (rb & Hrb & Hq) (sb & Hsb & Hsent)] (Harr & Hfind & Hpsh & Hfin & Hlen & Hrange & Hld) Hqr Hsr.
  eapply process_dispatch; [done..|]. rewrite Hst. unfold ng_tcp_handle_established. rewrite Hpsh, Hfin. wp_step.
  unfold BUFFER_SIZE in Hrange. unfold payload_len in Hlen.
  eapply (receive_payload _ _ _ _ (Z.of_nat (length data))); [done..| |by rewrite Nat2Z.id|]; [lia|].
  rewrite Hlen.
  eapply acknowledge; [done|by apply lookup_upd_tcb; rewrite Hi|done|done|]. wp_step.
  eexists. split; [by rewrite upd_upd_tcb|]. split; [done|]. split; [done|].
  split; try done.
  - eexists. split; [done|]. rewrite items_enqueue by (by rewrite (Forall2_length _ _ _ Hq)).
    apply Forall2_app; [done|]. constructor; [done|constructor].
  - eexists. split; [done|]. rewrite items_enqueue by (by rewrite Hsent). by rewrite Hsent.
Qed.

Lemma recv_step i fd q ack sent x s :
  owns_fd fd i s → us_tcbs s !! i = Some x → connected q ack sent x →
  wp (nrecv fd (Z.of_nat BUFFER_SIZE)) (λ r s', ∃ x', s' = upd_tcb i x' s ∧ same_key x x' ∧
    connected (tail q) ack sent x' ∧
    r = match q with [] => None | data :: _ => Some (Z.of_nat (length data), data) end) s.
Proof.
  intros Hfd Hi [Hp Hst Hack (rb & Hrb & Hq) Hsb]. inversion Hq as [Hnil|f data fs q' (Hfl & Hfd' & Hlen) Hq' Hcons]; subst.
  - eapply wp_mono; [eapply nrecv_waits; eauto|]. intros r s' [-> ->]. exists x. split_and!; try done.
    + unfold upd_tcb, with_tcbs. destruct s. cbn in *. by rewrite list_insert_id.
    + split; try done. exists rb. by rewrite <-Hnil.
  - eapply wp_mono; [eapply (nrecv_data fd _ i x rb fs f data [0]); eauto; unfold BUFFER_SIZE in *; lia|].
    intros r s' (-> & rb' & Hrb' & ->). eexists. split_and!; [done|done| |by rewrite Hfl].
    split; try done. exists rb'. by rewrite Hrb'.
Qed.

Lemma u32_sum a b c : u32 (u32 (a + b) + c) = u32 (a + (b + c)).
Proof. unfold u32. by rewrite Zplus_mod_idemp_l, Z.add_assoc. Qed.

Lemma conn_run_spec fd i ops q ack sent x s :
  memory s → owns_fd fd i s → us_tcbs s !! i = Some x → connected q ack sent x → is_u32 ack →
  Forall (op_ok s i) ops →
  (length q + segments ops ≤ ring_cap)%nat → (length sent + segments ops ≤ ring_cap)%nat →
  wp (conn_run fd ops) (λ rs s', rs = conn_spec q ops ∧
    ∃ x' q', s' = upd_tcb i x' s ∧ connected q' (u32 (ack + octets ops)) (sent ++ conn_acks ack ops) x') s.
Proof.
  revert q ack sent x s. induction ops as [|op ops IH]; intros q ack sent x s Hm Hfd Hi Hc Hack Hok Hq Hsent.
  - cbn [conn_run octets conn_acks conn_spec]. wp_step. split; [done|]. exists x, q.
    rewrite app_nil_r, Z.add_0_r, u32_id by done. split; [|done].
    unfold upd_tcb, with_tcbs. destruct s. cbn in *. by rewrite list_insert_id.
  - apply Forall_cons in Hok as [Hop Hok]. cbn [conn_run]. apply wp_bind.
    destruct op as [p ip tcp data|]; cbn [conn_do segments octets op_octets conn_acks conn_spec] in *.
    + wp_step. eapply wp_mono; [eapply segment_step; eauto; lia|].
      intros _ s' (x' & -> & Hk & _ & Hc'). wp_step.
      eapply wp_mono; [eapply (IH (q ++ [data]) _ _ x'); [done|by eapply owns_fd_upd|by apply lookup_upd_tcb; rewrite Hi|done| | | |]|].
      * auto with word_db.
      * eapply Forall_impl; [exact Hok|]. intros op. by eapply op_ok_upd.
      * rewrite length_app. cbn [length]. lia.
      * rewrite length_app. cbn [length]. lia.
      * intros rs s' (-> & x'' & q' & -> & Hc''). wp_step. split; [done|]. exists x'', q'.
        rewrite upd_upd_tcb. split; [done|]. by rewrite u32_sum, <-app_assoc in Hc''.
    + wp_step. eapply wp_mono; [eapply recv_step; eauto|].
      intros r s' (x' & -> & Hk & Hc' & ->). wp_step.
      eapply wp_mono; [eapply (IH (tail q) _ _ x'); [done|by eapply owns_fd_upd|by apply lookup_upd_tcb; rewrite Hi|done..| | |]|].
      * eapply Forall_impl; [exact Hok|]. intros op. by eapply op_ok_upd.
      * destruct q; cbn [tail length] in *; lia.
      * done.
      * intros rs s' (-> & x'' & q' & -> & Hc''). wp_step. split; [by destruct q|]. exists x'', q'.
        by rewrite upd_upd_tcb.
Qed.

(** C3: On an established stream, whatever the interleaving of the segments that
    arrive (each with PSH and 1 to 1024 octets) and the calls of nrecv with a buffer
    of 1024, each call
    returns the first payload that was not yet read, whole and with its length, or
    waits when there is none; rcv_nxt advances by the octets received modulo 2^32,
    and each segment is answered by one acknowledgement of everything before.  (Memory
    is available, and the rings have room for all the segments and their
    acknowledgements.  Longer segments are not returned so.) *)
Theorem tcp_delivers_in_order fd i ops ack sent x s :
  memory s → owns_fd fd i s → us_tcbs s !! i = Some x → connected [] ack sent x → is_u32 ack →
  Forall (op_ok s i) ops → (length sent + segments ops ≤ ring_cap)%nat →
  wp (conn_run fd ops) (λ rs s', rs = conn_spec [] ops ∧
    ∃ x' q', s' = upd_tcb i x' s ∧ connected q' (u32 (ack + octets ops)) (sent ++ conn_acks ack ops) x') s.
Proof. intros. eapply conn_run_spec; eauto. cbn [length]. lia. Qed.
End transfer.

(** A stack with one established stream, and a segment of five octets to it. *)
#[local] Existing Instance list_dpdk.
#[local] Existing Instance list_dpdk_laws.
Definition demo_empty : ustack list :=
  mk_us list [] [] (replicate 1024 0) [] 0 [] [] [] [] [] [].
Definition demo_stream : ng_tcp_stream list :=
  mk_stream list 5 2 [2; 0; 0; 0; 0; 1] 2000 IPPROTO_TCP 1000 1 77 (Some 7) ESTABLISHED
    (Some (mk_ring list ng_tcp_fragment "sndbuf11000" [])) (Some (mk_ring list ng_tcp_fragment "rcvbuf11000" [])).
Definition demo_connected : ustack list := with_tcbs (λ _, [demo_stream]) demo_empty.
Definition demo_segment : list Z :=
  tcp_frame 1 2 [7; 8; 9; 10; 11; 12] [2; 0; 0; 0; 0; 1] demo_fragment 0 [104; 101; 108; 108; 111].
Definition demo_ip : ipv4_hdr := mk_ipv4 (ntohs 45) IPPROTO_TCP 1 2.
Definition demo_tcp : tcp_hdr := mk_tcp 1000 2000 (ntohl 7) (ntohl 9) 0x50 0x18 TCP_INITIAL_WINDOW 1541 0.

Lemma demo_is_connected : connected [] 7 [] demo_stream.
Proof. split; try done; eexists; (split; [done|]); [constructor|done]. Qed.

Lemma tcp_delivers_in_order_witness :
  ∃ s', conn_run 5 [Segment demo_segment demo_ip demo_tcp [104; 101; 108; 108; 111]; Recv; Recv] demo_connected
    = Ok ([Some (5, [104; 101; 108; 108; 111]); None], s').
Proof.
  assert (segment_for demo_connected 0 demo_segment demo_ip demo_tcp [104; 101; 108; 108; 111]) as Hseg.
  { split; [repeat split; vm_compute; reflexivity|]. repeat split; try (vm_compute; reflexivity); cbn; unfold BUFFER_SIZE; lia. }
  destruct (proj1 (wp_run _ _ _) (tcp_delivers_in_order 5 0
    [Segment demo_segment demo_ip demo_tcp [104; 101; 108; 108; 111]; Recv; Recv] 7 [] demo_stream demo_connected
    eq_refl (conj eq_refl eq_refl) eq_refl
    demo_is_connected ltac:(word_unfold; lia)
    ltac:(repeat constructor; exact Hseg) ltac:(cbn; unfold RING_SIZE; lia))) as (rs & s' & Hrun & -> & _).
  exists s'. exact Hrun.
Defined.
