(* ===== verification/UsHandshake.v ===== *)
(** Opening a connection to the user-space stack: the SYN, the SYN/ACK that leaves,
    the ACK, and naccept. *)
From S2P Require Import Prelude UsWire UsSock UsTcp UsFrame UsSpec UsFd UsTransfer.

Section handshake.
Context {R : Type → Type} `{DpdkLaws R}.
Implicit Types (s : ustack R) (x : ng_tcp_stream R).

(** ** The SYN *)

Definition next_rand s : Z := match us_rand s with [] => 0 | r :: _ => r end.
Definition isn s : Z := u32 (Z.rem (next_rand s) TCP_MAX_SEQ).
Definition snd_name ip tcp : string := ring_name "sndbuf" (src_addr ip) (src_port tcp).
Definition rcv_name ip tcp : string := ring_name "rcvbuf" (src_addr ip) (src_port tcp).
Definition syn_ack s tcp : ng_tcp_fragment :=
  control_fragment (dst_port tcp) (src_port tcp) (isn s) (u32 (ntohl (sent_seq tcp) + 1)) (Z.lor RTE_TCP_SYN_FLAG RTE_TCP_ACK_FLAG).
(** The stream of the new connection, with [sb] to send. *)
Definition new_stream s ip tcp status sb : ng_tcp_stream R :=
  mk_stream R (-1) (dst_addr ip) gSrcMac (dst_port tcp) IPPROTO_TCP (src_port tcp) (src_addr ip) (isn s)
    (Some (u32 (ntohl (sent_seq tcp) + 1))) status (Some sb) (Some (mk_ring R _ (rcv_name ip tcp) rte_ring_new)).
Definition empty_ring name : ring R ng_tcp_fragment := mk_ring R _ name rte_ring_new.

Lemma names_differ ip tcp : snd_name ip tcp ≠ rcv_name ip tcp.
Proof. done. Qed.

Lemma wp_ring_create {A} name s (Q : option (ring R A) → ustack R → Prop) :
  memory s → name ∉ us_names s → Q (Some (mk_ring R A name rte_ring_new)) (with_names (cons name) s) →
  wp (rte_ring_create name) Q s.
Proof.
  intros Hm Hn HQ. unfold rte_ring_create. wp_step. rewrite decide_False by done. wp_step.
  unfold wp at 1, next_alloc. by rewrite Hm.
Qed.

(** After the SYN: the names of the two rings, and the random number used up. *)
Definition after_syn s ip tcp : ustack R :=
  with_rand (tail (us_rand s)) (with_names (λ l, rcv_name ip tcp :: snd_name ip tcp :: l)
    (with_tcbs (cons (new_stream s ip tcp SYN_RCVD (enqueue (syn_ack s tcp) (empty_ring (snd_name ip tcp))))) s)).

Lemma stream_create_spec ip tcp s (Q : option (ng_tcp_stream R) → ustack R → Prop) :
  memory s → snd_name ip tcp ∉ us_names s → rcv_name ip tcp ∉ us_names s →
  Q (Some (mk_stream R (-1) (dst_addr ip) gSrcMac (dst_port tcp) IPPROTO_TCP (src_port tcp) (src_addr ip) (isn s) None LISTEN
      (Some (empty_ring (snd_name ip tcp))) (Some (empty_ring (rcv_name ip tcp)))))
    (with_rand (tail (us_rand s)) (with_names (λ l, rcv_name ip tcp :: snd_name ip tcp :: l) s)) →
  wp (ng_tcp_stream_create (src_addr ip) (dst_addr ip) (src_port tcp) (dst_port tcp)) Q s.
Proof.
  intros Hm Hsnd Hrcv HQ. unfold ng_tcp_stream_create. wp_step. apply wp_malloc; [done|lia|]. cbn [negb]. wp_step.
  apply wp_ring_create; [done..|]. wp_step. apply wp_ring_create; [done| |].
  { cbn. rewrite elem_of_cons. intros [Heq|]; [|done]. by apply (names_differ ip tcp). }
  wp_step. unfold wp, rand_r. cbn [us_rand with_names]. unfold isn, next_rand in HQ.
  destruct s as [? ? ? ? ? ? ? ? ? ? [|r rs]]; exact HQ.
Qed.

Lemma handle_listen_spec i x ip tcp s (Q : Z → ustack R → Prop) :
  memory s → us_tcbs s !! i = Some x → st_status x = LISTEN → has_flag tcp RTE_TCP_SYN_FLAG = true →
  snd_name ip tcp ∉ us_names s → rcv_name ip tcp ∉ us_names s →
  Q 0 (after_syn s ip tcp) → wp (ng_tcp_handle_listen i tcp ip) Q s.
Proof.
  intros Hm Hi Hst Hsyn Hsnd Hrcv HQ. unfold ng_tcp_handle_listen. rewrite Hsyn. wp_step.
  eapply wp_get_tcb; [done|]. rewrite decide_True by done. wp_step. apply stream_create_spec; [done..|].
  wp_step. cbn [from_opt]. wp_step. apply wp_malloc; [done|lia|]. cbn [negb]. wp_step. rewrite wp_set_tcb. wp_step.
  eapply wp_send; [done|done|]. exact HQ.
Qed.

(** ** The ACK *)

Lemma find_tcb_is_Some f (l : list (ng_tcp_stream R)) i x : l !! i = Some x → f x = true → is_Some (find_tcb f l).
Proof.
  intros Hi Hf. unfold find_tcb. apply fmap_is_Some.
  destruct (list_find_elem_of (λ y, f y = true) l x) as [? ?]; [by eapply list_elem_of_lookup_2|done|eauto].
Qed.

Lemma handle_syn_rcvd_spec i x tcp s (Q : Z → ustack R → Prop) :
  us_tcbs s !! i = Some x → st_status x = SYN_RCVD → has_flag tcp RTE_TCP_ACK_FLAG = true →
  is_Some (find_tcb (listens_on (st_dport x)) (us_tcbs (upd_tcb i (set_status ESTABLISHED x) s))) →
  Q 0 (upd_tcb i (set_status ESTABLISHED x) s) → wp (ng_tcp_handle_syn_rcvd i tcp) Q s.
Proof.
  intros Hi Hst Hack [j Hj] HQ. unfold ng_tcp_handle_syn_rcvd. rewrite Hack. wp_step.
  eapply wp_get_tcb; [done|]. rewrite decide_True by done. wp_step. rewrite wp_set_tcb.
  unfold ng_tcp_stream_search. wp_step. destruct (find_tcb (exact_match _ _ _ _) _); [done|]. by rewrite Hj.
Qed.

(** ** Output *)

(** The stream has nothing to send. *)
Definition idle x : Prop := match st_sndbuf x with Some sb => items sb = [] | None => True end.
Lemma out_idle i x s : us_tcbs s !! i = Some x → idle x → wp (tcp_out_one i) (λ _ s', s' = s) s.
Proof.
  intros Hi Hidle. unfold tcp_out_one. wp_step. eapply wp_get_tcb; [done|]. unfold idle in Hidle.
  destruct (st_sndbuf x) as [sb|]; [|done]. by rewrite (dequeue_nil sb Hidle).
Qed.
Lemma out_loop_idle l s :
  (∀ i, i ∈ l → ∃ x, us_tcbs s !! i = Some x ∧ idle x) → wp (out_loop tcp_out_one l) (λ _ s', s' = s) s.
Proof.
  induction l as [|i l IH]; intros Hl; cbn [out_loop]; [done|]. wp_step.
  destruct (Hl i) as (x & Hi & Hidle); [left|]. eapply wp_mono; [by eapply out_idle|]. intros _ s' ->.
  apply IH. intros j Hj. apply Hl. by right.
Qed.

Definition out_room s : Prop := (length (ring_items (us_out s)) < ring_cap)%nat.
Lemma wp_out_enqueue frame s (Q : unit → ustack R → Prop) :
  out_room s → (∀ r, ring_items r = ring_items (us_out s) ++ [frame] → Q () (with_out r s)) → wp (out_enqueue frame) Q s.
Proof.
  intros Hroom HQ. unfold out_enqueue. wp_step. apply HQ. rewrite ring_enqueue_burst. unfold out_room in Hroom.
  f_equal. apply take_ge. cbn [length]. lia.
Qed.
Lemma wp_dst_macaddr ip s (Q : option (list Z) → ustack R → Prop) :
  wp (ng_get_dst_macaddr ip) Q s ↔ Q (arp_loop (arp_count s) (arp_entries s) ip) s.
Proof. done. Qed.
Lemma wp_new_mbuf s (Q : unit → ustack R → Prop) : memory s → Q () s → wp new_mbuf Q s.
Proof. intros Hm HQ. unfold new_mbuf. wp_step. unfold wp at 1, next_alloc. by rewrite Hm. Qed.

(** The first fragment of a stream leaves in a frame to the peer's MAC address. *)
Lemma out_fragment i x sb f fs mac urp payload s :
  memory s → us_tcbs s !! i = Some x → st_sndbuf x = Some sb → items sb = f :: fs →
  arp_loop (arp_count s) (arp_entries s) (st_sip x) = Some mac → out_room s →
  fr_optlen f = Some 0 → fr_tcp_urp f = Some urp → 54 + fr_length f ≤ mbuf_room →
  match fr_data f with
  | Some data => ld_bytes data 0 (Z.to_nat (fr_length f)) = Some payload
  | None => fr_length f = 0 ∧ payload = []
  end →
  wp (tcp_out_one i) (λ _ s', ∃ sb' r,
    s' = with_out r (upd_tcb i (set_sndbuf (Some sb') x) s) ∧ items sb' = fs ∧
    ring_items r = ring_items (us_out s) ++ [tcp_frame (st_dip x) (st_sip x) (st_localmac x) mac f urp payload]) s.
Proof.
  intros Hm Hi Hsb Hf Hmac Hroom Hopt Hurp Hlen Hdata. destruct (dequeue_cons sb f fs Hf) as (sb' & Hd & Hfs & _).
  unfold tcp_out_one. wp_step. eapply wp_get_tcb; [done|]. rewrite Hsb, Hd. wp_step. rewrite wp_set_tcb. wp_step.
  rewrite wp_dst_macaddr. cbn [arp_count arp_entries upd_tcb with_tcbs]. rewrite Hmac. wp_step.
  unfold ng_tcp_pkt. wp_step. rewrite Hopt. cbn [from_opt]. wp_step. apply wp_new_mbuf; [done|].
  eapply wp_lift_pure; [by apply encode_tcp|]. apply wp_out_enqueue; [done|]. intros r Hr. eauto.
Qed.

(** Only the first stream has something to send. *)
Lemma tcp_out_head x l sb f fs mac urp payload s :
  memory s → us_tcbs s = x :: l → Forall idle l → st_sndbuf x = Some sb → items sb = f :: fs →
  arp_loop (arp_count s) (arp_entries s) (st_sip x) = Some mac → out_room s →
  fr_optlen f = Some 0 → fr_tcp_urp f = Some urp → 54 + fr_length f ≤ mbuf_room →
  match fr_data f with
  | Some data => ld_bytes data 0 (Z.to_nat (fr_length f)) = Some payload
  | None => fr_length f = 0 ∧ payload = []
  end →
  wp ng_tcp_out (λ _ s', ∃ sb' r,
    s' = with_out r (upd_tcb 0 (set_sndbuf (Some sb') x) s) ∧ items sb' = fs ∧
    ring_items r = ring_items (us_out s) ++ [tcp_frame (st_dip x) (st_sip x) (st_localmac x) mac f urp payload]) s.
Proof.
  intros Hm Hl Hidle Hsb Hf Hmac Hroom Hopt Hurp Hlen Hdata. unfold ng_tcp_out. wp_step. rewrite Hl.
  cbn [length seq out_loop]. wp_step. eapply wp_mono; [eapply out_fragment; eauto; by rewrite Hl|].
  intros _ s' (sb' & r & -> & Hsb' & Hr). eapply wp_mono.
  - apply out_loop_idle. intros i Hi. apply elem_of_seq in Hi as [Hlo Hhi]. cbn. rewrite Hl.
    destruct i as [|i]; [lia|]. cbn. destruct (lookup_lt_is_Some_2 l i) as [y Hy]; [lia|].
    exists y. split; [done|]. by eapply Forall_lookup_1.
  - intros _ s'' ->. wp_step. eauto.
Qed.

(** ** The whole exchange *)

(** The network loop takes the SYN, sends what there is to send, takes the ACK; then
    the application accepts. *)
Definition handshake (syn ack : list Z) (listenfd : Z) : M (ustack R) (option (Z * Z * Z)) :=
  ng_tcp_process syn;; ng_tcp_out;; ng_tcp_process ack;; naccept listenfd.

(** A listener at position [i] waits for the peer of the headers [ip] and [tcp]. *)
Record listening s (i : nat) listenfd ip tcp mac : Prop := {
  lis_memory : memory s;
  lis_new : find_tcb (addressed ip tcp) (us_tcbs s) = None;
  lis_found : find_tcb (listens_on (dst_port tcp)) (us_tcbs s) = Some i;
  lis_fd : owns_fd listenfd i s ∧ listenfd ≠ -1;
  lis_protocol : Forall (λ x, st_protocol x = IPPROTO_TCP) (us_tcbs s);
  lis_names : (snd_name ip tcp ∉ us_names s) ∧ (rcv_name ip tcp ∉ us_names s);
  lis_idle : Forall idle (us_tcbs s);
  lis_mac : arp_loop (arp_count s) (arp_entries s) (src_addr ip) = Some mac;
  lis_room : out_room s ∧ 54 ≤ mbuf_room;
  lis_fds : fd_wf (fd_table s) ∧ (¬ all_used (fd_table s) DEFAULT_FD_NUM) }.

Section exchange.
Context (s : ustack R) (i : nat) (listenfd : Z) (ip : ipv4_hdr) (tcp : tcp_hdr) (mac : list Z).
Context (Hlis : listening s i listenfd ip tcp mac).

Lemma listener_at : ∃ lx, us_tcbs s !! i = Some lx ∧ st_status lx = LISTEN ∧ st_dport lx = dst_port tcp ∧
  listens_on (dst_port tcp) lx = true ∧ st_protocol lx = IPPROTO_TCP.
Proof.
  destruct (find_tcb_Some _ _ _ (lis_found _ _ _ _ _ _ Hlis)) as (lx & Hi & Hl). exists lx.
  pose proof (Forall_lookup_1 _ _ _ _ (lis_protocol _ _ _ _ _ _ Hlis) Hi) as Hp.
  pose proof Hl as Hl'. unfold listens_on in Hl'. apply andb_true_iff in Hl' as [Hd Hs].
  split_and!; [done|by apply bool_decide_eq_true in Hs|by apply Z.eqb_eq|done..].
Qed.

Lemma syn_received p : arrives p ip tcp → has_flag tcp RTE_TCP_SYN_FLAG = true →
  wp (ng_tcp_process p) (λ _ s', s' = after_syn s ip tcp) s.
Proof.
  intros (Hip & Htcp & Hck) Hsyn. destruct listener_at as (lx & Hi & Hst & _). destruct (lis_names _ _ _ _ _ _ Hlis).
  unfold ng_tcp_process. wp_step. rewrite Hip, Htcp. cbn [from_opt]. wp_step. rewrite Hck, Z.eqb_refl. cbn [negb].
  unfold ng_tcp_stream_search. wp_step. pose proof (lis_new _ _ _ _ _ _ Hlis) as Hnew. unfold addressed in Hnew.
  rewrite Hnew, (lis_found _ _ _ _ _ _ Hlis). wp_step. eapply wp_get_tcb; [done|]. rewrite Hst. wp_step.
  eapply handle_listen_spec; try done. apply Hlis.
Qed.

(** The stream of the connection is at the head, in state [status] and with descriptor
    [fd]; [out] has left. *)
Definition opened status fd out s' : Prop :=
  ∃ sb, items sb = [] ∧ us_tcbs s' = set_fd fd (new_stream s ip tcp status sb) :: us_tcbs s ∧
    memory s' ∧ us_hosts s' = us_hosts s ∧ fd_table s' = (if fd =? -1 then fd_table s else add_fd fd (fd_table s)) ∧
    ring_items (us_out s') = ring_items (us_out s) ++ out.

Definition syn_ack_frame : list Z := tcp_frame (dst_addr ip) (src_addr ip) gSrcMac mac (syn_ack s tcp) 0 [].

Lemma syn_ack_leaves : wp ng_tcp_out (λ _ s', opened SYN_RCVD (-1) [syn_ack_frame] s') (after_syn s ip tcp).
Proof.
  destruct (lis_room _ _ _ _ _ _ Hlis) as [Hroom Hmb].
  eapply wp_mono; [eapply (tcp_out_head (new_stream s ip tcp SYN_RCVD (enqueue (syn_ack s tcp) (empty_ring (snd_name ip tcp)))) (us_tcbs s)
    _ (syn_ack s tcp) [] _ 0 []);
    [apply Hlis|done|apply Hlis|done| |apply Hlis|done|done|done|done|done]|].
  - rewrite items_enqueue; unfold items; cbn [rg_q empty_ring]; rewrite ring_items_new; [done|]. unfold RING_SIZE. cbn. lia.
  - intros _ s' (sb' & r & -> & Hsb & Hr). exists sb'. split_and!; try done. apply Hlis.
Qed.

Lemma ack_received p ip' tcp' s' :
  arrives p ip' tcp' → src_addr ip' = src_addr ip → dst_addr ip' = dst_addr ip → src_port tcp' = src_port tcp →
  dst_port tcp' = dst_port tcp → has_flag tcp' RTE_TCP_ACK_FLAG = true → opened SYN_RCVD (-1) [syn_ack_frame] s' →
  wp (ng_tcp_process p) (λ _ s'', opened ESTABLISHED (-1) [syn_ack_frame] s'') s'.
Proof.
  intros Harr H1 H2 H3 H4 Hack (sb & Hsb & Hl & Hm & Hh & Hfd & Hout).
  destruct listener_at as (lx & Hi & Hst & Hd & Hlx & _).
  eapply (process_dispatch p ip' tcp' 0); [done| |by rewrite Hl|].
  { rewrite Hl. apply find_tcb_head. unfold addressed, exact_match. rewrite H1, H2, H3, H4. cbn. by rewrite !Z.eqb_refl. }
  cbn [st_status set_fd new_stream]. eapply handle_syn_rcvd_spec; [by rewrite Hl|done|done| |].
  - apply (find_tcb_is_Some _ _ (S i) lx); [|done]. cbn. by rewrite Hl.
  - exists sb. split_and!; try done. cbn. by rewrite Hl.
Qed.

Lemma accepted s' : opened ESTABLISHED (-1) [syn_ack_frame] s' →
  wp (naccept listenfd) (λ r s'', ∃ fd, r = Some (fd, src_port tcp, src_addr ip) ∧
    lowest_free (fd_table s) DEFAULT_FD_NUM fd ∧ opened ESTABLISHED fd [syn_ack_frame] s'') s'.
Proof.
  intros (sb & Hsb & Hl & Hm & Hh & Hfd & Hout). destruct listener_at as (lx & Hi & Hst & Hd & Hlx & Hp).
  destruct (lis_fd _ _ _ _ _ _ Hlis) as [[Hhost Htcb] Hne]. destruct (lis_fds _ _ _ _ _ _ Hlis) as [Hwf Hfree].
  cbn [Z.eqb Pos.eqb] in Hfd. unfold naccept. wp_step. apply (wp_hostinfo _ (S i)).
  { split; [by rewrite Hh|]. rewrite Hl, find_tcb_skip by (cbn; by apply Z.eqb_neq). by rewrite Htcb. }
  wp_step. eapply wp_get_tcb; [by rewrite Hl|]. rewrite Hp. cbn [Z.eqb IPPROTO_TCP Pos.eqb]. wp_step.
  unfold get_accept_tcb. wp_step. rewrite Hl, find_tcb_head by (cbn; by rewrite Hd, Z.eqb_refl). wp_step.
  eapply wp_mono; [apply fd_loop_spec; [by rewrite Hfd|done|unfold MAX_FD_COUNT, DEFAULT_FD_NUM; lia]|].
  rewrite Hfd. intros fd s'' [(_ & _ & Hall)|[Hlow ->]]; [done|]. wp_step. eapply wp_get_tcb; [by cbn; rewrite Hl|].
  wp_step. rewrite wp_set_tcb. wp_step. exists fd. split_and!; [done..|]. exists sb. split_and!; try done; cbn.
  - by rewrite Hl.
  - rewrite Hfd. destruct Hlow as [[Hlo _] _]. rewrite (proj2 (Z.eqb_neq _ _)); [done|]. unfold DEFAULT_FD_NUM in Hlo. lia.
Qed.

(** C6: A handshake opens a connection: the SYN is answered by one frame with SYN and
    ACK that acknowledges the peer's number plus one, the ACK establishes the stream,
    and naccept returns it with the lowest free descriptor and the peer's port and
    address; the stream is then ready for data, and no other stream changed. *)
Theorem handshake_accepts syn ack ip' tcp' :
  arrives syn ip tcp → has_flag tcp RTE_TCP_SYN_FLAG = true →
  arrives ack ip' tcp' → has_flag tcp' RTE_TCP_ACK_FLAG = true →
  src_addr ip' = src_addr ip → dst_addr ip' = dst_addr ip → src_port tcp' = src_port tcp → dst_port tcp' = dst_port tcp →
  wp (handshake syn ack listenfd) (λ r s', ∃ fd x,
    r = Some (fd, src_port tcp, src_addr ip) ∧ lowest_free (fd_table s) DEFAULT_FD_NUM fd ∧
    us_tcbs s' = x :: us_tcbs s ∧ st_fd x = fd ∧ connected [] (u32 (ntohl (sent_seq tcp) + 1)) [] x ∧
    ring_items (us_out s') = ring_items (us_out s) ++ [syn_ack_frame]) s.
Proof.
  intros Hsyn Hf1 Hack Hf2 H1 H2 H3 H4. unfold handshake. wp_step. eapply wp_mono; [by apply syn_received|].
  intros _ ? ->. wp_step. eapply wp_mono; [apply syn_ack_leaves|]. intros ? s2 Hs2. wp_step.
  eapply wp_mono; [by eapply ack_received|]. intros ? s3 Hs3. eapply wp_mono; [by apply accepted|].
  intros r s4 (fd & -> & Hlow & sb & Hsb & Hl & _ & _ & _ & Hout). exists fd. eexists. split_and!; try done.
  split; try done.
  - eexists. split; [done|]. unfold items. cbn [rg_q]. rewrite ring_items_new. constructor.
  - by exists sb.
Qed.
End exchange.
End handshake.

(** The server has started; a peer with a known MAC address opens a connection. *)
#[local] Existing Instance list_dpdk.
#[local] Existing Instance list_dpdk_laws.
Definition demo_listening : ustack list :=
  match tcp_server_start (with_arp [(1, [7; 8; 9; 10; 11; 12])] 1 demo_empty) with Ok (_, s) => s | _ => demo_empty end.
Definition demo_frame (seq flags : Z) : list Z :=
  tcp_frame 1 2 [7; 8; 9; 10; 11; 12] [2; 0; 0; 0; 0; 1] (control_fragment 1000 (ntohs 9999) seq 0 flags) 0 [].
Definition demo_hdr (seq flags ck : Z) : tcp_hdr :=
  mk_tcp 1000 (ntohs 9999) (ntohl seq) 0 0x50 flags TCP_INITIAL_WINDOW ck 0.
Definition demo_peer : ipv4_hdr := mk_ipv4 (ntohs 40) IPPROTO_TCP 1 2.
Lemma demo_listens : listening demo_listening 0 3 demo_peer (demo_hdr 41 2 841) [7; 8; 9; 10; 11; 12].
Proof.
  split; try (vm_compute; reflexivity).
  - repeat split; vm_compute; congruence.
  - vm_compute. by repeat constructor.
  - split; apply (bool_decide_eq_true_1 _); vm_compute; reflexivity.
  - vm_compute. by repeat constructor.
  - split; [vm_compute; lia|done].
  - split; [split; [done|]|].
    + vm_compute fd_table. repeat (constructor; [word_unfold; lia|]). constructor.
    + intros Hall. specialize (Hall 4 ltac:(unfold DEFAULT_FD_NUM, MAX_FD_COUNT; lia)). by vm_compute in Hall.
Qed.
Lemma demo_arrives seq flags ck : load_tcp (demo_frame seq flags) = Some (demo_hdr seq flags ck) →
  load_ipv4 (demo_frame seq flags) = Some demo_peer → u16 (sum_bytes (take 20 (drop 14 (demo_frame seq flags))) (clear_cksum (demo_frame seq flags))) = ck →
  arrives (demo_frame seq flags) demo_peer (demo_hdr seq flags ck).
Proof. done. Qed.

Lemma handshake_accepts_witness :
  ∃ fd s', handshake (demo_frame 41 2) (demo_frame 42 16) 3 demo_listening = Ok (Some (fd, 1000, 1), s') ∧
    lowest_free (fd_table demo_listening) DEFAULT_FD_NUM fd ∧ length (us_out s') = 1%nat.
Proof.
  destruct (proj1 (wp_run _ _ _) (handshake_accepts demo_listening 0 3 demo_peer (demo_hdr 41 2 841) [7; 8; 9; 10; 11; 12] demo_listens
    (demo_frame 41 2) (demo_frame 42 16) demo_peer (demo_hdr 42 16 856)
    (demo_arrives 41 2 841 ltac:(vm_compute; reflexivity) ltac:(vm_compute; reflexivity) ltac:(vm_compute; reflexivity)) ltac:(done)
    (demo_arrives 42 16 856 ltac:(vm_compute; reflexivity) ltac:(vm_compute; reflexivity) ltac:(vm_compute; reflexivity)) ltac:(done)
    eq_refl eq_refl eq_refl eq_refl)) as (r & s' & Hrun & fd & x & -> & Hlow & _ & _ & _ & Hout).
  exists fd, s'. split_and!; [exact Hrun|exact Hlow|]. cbn in Hout. by rewrite Hout.
Defined.
