(* ===== verification/UsMoves.v ===== *)
(** The state machine of the streams: what one incoming TCP packet can do to the
    states of all of them. *)
From S2P Require Import Prelude UsWire UsSock UsTcp UsFrame UsSpec UsFd UsTransfer UsHandshake.

Create HintDb keeps_db.

(** ** The state machine *)

(** The states of the streams, before and after a packet with these flags. *)
Inductive tcp_moves (flags : Z) : list NG_TCP_STATUS → list NG_TCP_STATUS → Prop :=
| move_none l : tcp_moves flags l l
| move_open l st : LISTEN ∈ l → Z.land flags RTE_TCP_SYN_FLAG ≠ 0 → st = SYN_RCVD ∨ st = LISTEN →
    tcp_moves flags l (st :: l)
| move_establish l i : l !! i = Some SYN_RCVD → Z.land flags RTE_TCP_ACK_FLAG ≠ 0 →
    tcp_moves flags l (<[i:=ESTABLISHED]> l)
| move_peer_closes l i : l !! i = Some ESTABLISHED → Z.land flags RTE_TCP_FIN_FLAG ≠ 0 →
    tcp_moves flags l (<[i:=CLOSE_WAIT]> l)
| move_forget l i : l !! i = Some LAST_ACK → Z.land flags RTE_TCP_ACK_FLAG ≠ 0 →
    tcp_moves flags l (delete i l).

Section moves.
Context {R : Type → Type} `{Dpdk R}.
Implicit Types (s : ustack R) (x : ng_tcp_stream R).

Definition statuses s : list NG_TCP_STATUS := st_status <$> us_tcbs s.
Lemma statuses_lookup s i x : us_tcbs s !! i = Some x → statuses s !! i = Some (st_status x).
Proof. intros Hi. unfold statuses. by rewrite list_lookup_fmap, Hi. Qed.
Lemma statuses_upd s i x x' : us_tcbs s !! i = Some x → st_status x' = st_status x → statuses (upd_tcb i x' s) = statuses s.
Proof.
  intros Hi Hst. unfold statuses. cbn. rewrite list_fmap_insert, Hst. apply list_insert_id.
  by rewrite list_lookup_fmap, Hi.
Qed.
Lemma statuses_insert s i x : statuses (upd_tcb i x s) = <[i:=st_status x]> (statuses s).
Proof. unfold statuses. cbn. by rewrite list_fmap_insert. Qed.

(** The steps that leave every state as it is. *)
Definition keeps {A} (m : M (ustack R) A) : Prop := ∀ s, wlp m (λ _ s', statuses s' = statuses s) s.
Lemma keeps_bind {A B} (m : M (ustack R) A) (k : A → M (ustack R) B) : keeps m → (∀ a, keeps (k a)) → keeps (bind m k).
Proof.
  intros Hm Hk s. apply wlp_bind. eapply wlp_mono; [apply Hm|]. cbn. intros a s' <-. apply Hk.
Qed.
Lemma keeps_wlp {A} (m : M (ustack R) A) (Q : A → ustack R → Prop) s :
  keeps m → (∀ a s', statuses s' = statuses s → Q a s') → wlp m Q s.
Proof. intros Hm HQ. eapply wlp_mono; [apply Hm|]. apply HQ. Qed.
Lemma keeps_ret {A} (a : A) : keeps (ret a).
Proof. done. Qed.
Lemma keeps_undef {A} w : keeps (undef w : M (ustack R) A).
Proof. done. Qed.
Lemma keeps_from_opt {A} w (o : option A) : keeps (from_opt w o).
Proof. destruct o; done. Qed.
Lemma keeps_if {A} (b : bool) (m n : M (ustack R) A) : keeps m → keeps n → keeps (if b then m else n).
Proof. by destruct b. Qed.
Lemma keeps_next_alloc : keeps (next_alloc (R := R)).
Proof. intros s. unfold wlp, next_alloc. by destruct (us_plan s). Qed.
Lemma keeps_malloc size : keeps (rte_malloc (R := R) size).
Proof. apply keeps_if; [apply keeps_ret|apply keeps_next_alloc]. Qed.
Lemma keeps_ring_create {A} name : keeps (rte_ring_create (A := A) name).
Proof.
  intros s. unfold rte_ring_create. wp_step. destruct (decide _); [done|]. wp_step.
  eapply keeps_wlp; [apply keeps_next_alloc|]. intros [] s' Hs'; wp_step; done.
Qed.
Lemma keeps_ring_free {A} (r : option (ring R A)) : keeps (rte_ring_free r).
Proof. by destruct r. Qed.
#[local] Hint Resolve keeps_bind keeps_ret keeps_undef keeps_from_opt keeps_if keeps_malloc keeps_ring_create
  keeps_ring_free : keeps_db.

Lemma wlp_get_tcb i s (Q : _ → ustack R → Prop) : (∀ x, us_tcbs s !! i = Some x → Q x s) → wlp (get_tcb i) Q s.
Proof. intros HQ. unfold get_tcb. wp_step. by apply wlp_from_opt. Qed.
Lemma keeps_send i f : keeps (tcb_send (R := R) i f).
Proof.
  intros s. unfold tcb_send. wp_step. apply wlp_get_tcb. intros x Hi. wp_step. apply wlp_from_opt. intros r Hr.
  by apply (statuses_upd s i x).
Qed.
Lemma keeps_receive i f : keeps (tcb_receive (R := R) i f).
Proof.
  intros s. unfold tcb_receive. wp_step. apply wlp_get_tcb. intros x Hi. wp_step. apply wlp_from_opt. intros r Hr.
  by apply (statuses_upd s i x).
Qed.
Lemma keeps_advance i tcp n : keeps (advance (R := R) i tcp n).
Proof.
  intros s. unfold advance. wp_step. apply wlp_get_tcb. intros x Hi. wp_step. apply wlp_from_opt. intros r Hr.
  by apply (statuses_upd s i x).
Qed.
Lemma keeps_get_tcb i : keeps (get_tcb (R := R) i).
Proof. intros s. by apply wlp_get_tcb. Qed.
#[local] Hint Resolve keeps_send keeps_receive keeps_advance keeps_get_tcb : keeps_db.
Lemma keeps_ackpkt i tcp : keeps (ng_tcp_send_ackpkt (R := R) i tcp).
Proof. unfold ng_tcp_send_ackpkt. auto 12 with keeps_db. Qed.
Lemma keeps_recvbuffer i p tcp n : keeps (ng_tcp_enqueue_recvbuffer (R := R) i p tcp n).
Proof. unfold ng_tcp_enqueue_recvbuffer. auto 20 with keeps_db. Qed.
#[local] Hint Resolve keeps_ackpkt keeps_recvbuffer : keeps_db.
Lemma create_listens sip dip sport dport s :
  wlp (ng_tcp_stream_create (R := R) sip dip sport dport)
    (λ o s', statuses s' = statuses s ∧ ∀ x, o = Some x → st_status x = LISTEN) s.
Proof.
  assert (keeps (rand_r (R := R))) as Hrand by (intros s'; unfold wlp, rand_r; by destruct (us_rand s')).
  unfold ng_tcp_stream_create. wp_step. eapply keeps_wlp; [apply keeps_malloc|]. intros [] s1 Hs1; cbn [negb]; [|done].
  wp_step. eapply keeps_wlp; [apply keeps_ring_create|]. intros r1 s2 Hs2. wp_step.
  eapply keeps_wlp; [apply keeps_ring_create|]. intros r2 s3 Hs3. wp_step.
  eapply keeps_wlp; [apply Hrand|]. intros r3 s4 Hs4. wp_step. cbn in *. split; [congruence|]. by intros x [= <-].
Qed.

Lemma has_flag_land tcp flag : has_flag tcp flag = true → Z.land (tcp_flags tcp) flag ≠ 0.
Proof. unfold has_flag. rewrite negb_true_iff. apply Z.eqb_neq. Qed.

Lemma listen_moves i tcp ip s :
  wlp (ng_tcp_handle_listen i tcp ip) (λ _ s', tcp_moves (tcp_flags tcp) (statuses s) (statuses s')) s.
Proof.
  unfold ng_tcp_handle_listen. destruct (has_flag tcp RTE_TCP_SYN_FLAG) eqn:Hsyn; [|constructor]. wp_step.
  apply wlp_get_tcb. intros x Hi. destruct (decide (st_status x = LISTEN)) as [Hst|]; [|constructor]. wp_step.
  apply has_flag_land in Hsyn.
  assert (LISTEN ∈ statuses s) as Hin.
  { apply (list_elem_of_lookup_2 _ i). by rewrite (statuses_lookup s i x), Hst. }
  eapply wlp_mono; [apply create_listens|]. intros o s1 [Hs1 Hnew]. wp_step. apply wlp_from_opt. intros syn Ho. wp_step.
  specialize (Hnew syn Ho).
  assert (statuses (with_tcbs (cons syn) s1) = LISTEN :: statuses s) as Hs2 by (rewrite <-Hs1, <-Hnew; done).
  eapply keeps_wlp; [apply keeps_malloc|]. intros [] s3 Hs3; cbn [negb]; rewrite Hs2 in Hs3.
  - wp_step. unfold set_tcb. wp_step. eapply keeps_wlp; [apply keeps_send|]. intros _ s4 Hs4. wp_step.
    apply wlp_get_tcb. intros syn' Hi'. wp_step. fold (upd_tcb 0 (set_status SYN_RCVD syn') s4).
    rewrite statuses_insert, Hs4. fold (upd_tcb 0 (set_nxt (st_snd_nxt syn) (Some (u32 (ntohl (sent_seq tcp) + 1))) syn) s3).
    rewrite statuses_insert, Hs3. cbn. apply move_open; auto.
  - wp_step. rewrite Hs3. apply move_open; auto.
Qed.

Lemma established_moves i p tcp n s x :
  us_tcbs s !! i = Some x → st_status x = ESTABLISHED →
  wlp (ng_tcp_handle_established i p tcp n) (λ _ s', tcp_moves (tcp_flags tcp) (statuses s) (statuses s')) s.
Proof.
  intros Hi Hst. apply statuses_lookup in Hi. rewrite Hst in Hi. unfold ng_tcp_handle_established. apply wlp_bind.
  eapply keeps_wlp; [auto 20 with keeps_db|].
  intros _ s1 Hs1. apply wlp_bind. destruct (has_flag tcp RTE_TCP_FIN_FLAG) eqn:Hfin.
  - apply has_flag_land in Hfin. wp_step. apply wlp_get_tcb. intros x1 Hi1. wp_step. unfold set_tcb. wp_step.
    fold (upd_tcb i (set_status CLOSE_WAIT x1) s1).
    eapply keeps_wlp; [apply keeps_recvbuffer|]. intros _ s2 Hs2. wp_step.
    eapply keeps_wlp; [apply keeps_advance|]. intros _ s3 Hs3. wp_step.
    eapply keeps_wlp; [apply keeps_ackpkt|]. intros _ s4 Hs4. wp_step.
    rewrite Hs4, Hs3, Hs2, statuses_insert, Hs1. by apply move_peer_closes.
  - wp_step. rewrite Hs1. constructor.
Qed.

Lemma syn_rcvd_moves i tcp s :
  wlp (ng_tcp_handle_syn_rcvd i tcp) (λ _ s', tcp_moves (tcp_flags tcp) (statuses s) (statuses s')) s.
Proof.
  unfold ng_tcp_handle_syn_rcvd. destruct (has_flag tcp RTE_TCP_ACK_FLAG) eqn:Hack; [|constructor]. wp_step.
  apply has_flag_land in Hack. apply wlp_get_tcb. intros x Hi. destruct (decide _) as [Hst|]; [|constructor]. wp_step.
  unfold set_tcb, ng_tcp_stream_search. wp_step. fold (upd_tcb i (set_status ESTABLISHED x) s).
  assert (tcp_moves (tcp_flags tcp) (statuses s) (statuses (upd_tcb i (set_status ESTABLISHED x) s))).
  { rewrite statuses_insert. apply move_establish; [|done]. by rewrite (statuses_lookup s i x), Hst. }
  by destruct (match find_tcb _ _ with Some _ => _ | None => _ end).
Qed.
Lemma last_ack_moves i tcp s :
  wlp (ng_tcp_handle_last_ack i tcp) (λ _ s', tcp_moves (tcp_flags tcp) (statuses s) (statuses s')) s.
Proof.
  unfold ng_tcp_handle_last_ack. destruct (has_flag tcp RTE_TCP_ACK_FLAG) eqn:Hack; [|constructor]. wp_step.
  apply has_flag_land in Hack. apply wlp_get_tcb. intros x Hi. destruct (decide _) as [Hst|]; [|constructor]. wp_step.
  eapply keeps_wlp; [apply keeps_ring_free|]. intros _ s1 Hs1. wp_step.
  eapply keeps_wlp; [apply keeps_ring_free|]. intros _ s2 Hs2. wp_step. rewrite Hs2, Hs1.
  unfold statuses. cbn. rewrite list_fmap_delete. apply move_forget; [|done]. fold (statuses s).
  by rewrite (statuses_lookup s i x), Hst.
Qed.

(** C20: Whatever packet arrives and whatever the state, ng_tcp_process moves the
    streams along the edges of the state machine only: a listener answers a SYN with
    one new stream, SYN_RCVD is established by an ACK, ESTABLISHED goes to CLOSE_WAIT
    on a FIN, and LAST_ACK is forgotten on an ACK; every other stream and every other
    packet leaves the states as they are. *)
Theorem tcp_process_moves p tcp s :
  load_tcp p = Some tcp →
  wlp (ng_tcp_process p) (λ _ s', tcp_moves (tcp_flags tcp) (statuses s) (statuses s')) s.
Proof.
  intros Htcp. unfold ng_tcp_process. wp_step. apply wlp_from_opt. intros ip Hip. rewrite Htcp. cbn [from_opt]. wp_step.
  destruct (negb _); [constructor|]. unfold ng_tcp_stream_search. wp_step.
  destruct (match find_tcb _ _ with Some _ => _ | None => _ end) as [i|]; [|constructor]. wp_step.
  apply wlp_get_tcb. intros x Hi. apply wlp_bind.
  assert (∀ m : M (ustack R) Z, wlp m (λ _ s', tcp_moves (tcp_flags tcp) (statuses s) (statuses s')) s →
    wlp m (λ _ s', wlp (ret 0) (λ _ s', tcp_moves (tcp_flags tcp) (statuses s) (statuses s')) s') s) as Hret by done.
  apply Hret. destruct (st_status x) eqn:Hst; try constructor.
  - apply listen_moves.
  - apply syn_rcvd_moves.
  - by eapply established_moves.
  - apply last_ack_moves.
Qed.
End moves.

#[local] Existing Instance list_dpdk.
Lemma tcp_process_moves_witness :
  ∃ s', ng_tcp_process (demo_frame 41 2) demo_listening = Ok (0, s') ∧ tcp_moves 2 [LISTEN] (statuses s').
Proof.
  destruct (ng_tcp_process (demo_frame 41 2) demo_listening) as [[r s']|w|] eqn:Hrun;
    [|vm_compute in Hrun; discriminate..].
  assert (r = 0) as -> by (vm_compute in Hrun; congruence).
  exists s'. split; [done|].
  assert (load_tcp (demo_frame 41 2) = Some (demo_hdr 41 2 841)) as Htcp by (vm_compute; reflexivity).
  exact (wlp_run _ _ _ _ _ (tcp_process_moves (demo_frame 41 2) (demo_hdr 41 2 841) demo_listening Htcp) Hrun).
Defined.
