(* ===== verification/UsEcho.v ===== *)
(** The server of the user-space stack echoes what a connection sends; the ARP table
    as a map; the ARP timer. *)
From S2P Require Import Prelude UsWire UsSock UsTcp UsFrame UsSpec UsFd UsTransfer UsHandshake.

Section echo.
Context {R : Type → Type} `{DpdkLaws R}.
Implicit Types (s : ustack R) (x : ng_tcp_stream R).

(** ** nsend *)

(** The fragment nsend queues. *)
Definition push_fragment x ack (buf : list Z) : ng_tcp_fragment :=
  mk_fragment (st_dport x) (st_sport x) (st_snd_nxt x) ack 0x50 (Z.lor RTE_TCP_ACK_FLAG RTE_TCP_PSH_FLAG)
    TCP_INITIAL_WINDOW (Some 0) (Some 0) (Some (buf ++ [0])) (Z.of_nat (length buf)).

Lemma nsend_spec fd i buf x ack sb s (Q : Z → ustack R → Prop) :
  memory s → owns_fd fd i s → us_tcbs s !! i = Some x → st_protocol x = IPPROTO_TCP → st_rcv_nxt x = Some ack →
  st_sndbuf x = Some sb → Z.of_nat (length buf) < 2 ^ 32 →
  Q (Z.of_nat (length buf)) (upd_tcb i (set_sndbuf (Some (enqueue (push_fragment x ack buf) sb)) x) s) →
  wp (nsend fd buf) Q s.
Proof.
  intros Hm Hfd Hi Hp Hack Hsb Hlen HQ. unfold nsend. wp_step. eapply wp_hostinfo; [done|]. wp_step.
  eapply wp_get_tcb; [done|]. rewrite Hp. cbn [negb Z.eqb IPPROTO_TCP Pos.eqb]. wp_step.
  apply wp_malloc; [done|lia|]. cbn [negb]. wp_step. rewrite Hack. cbn [from_opt]. wp_step.
  apply wp_malloc; [done|lia|]. cbn [negb]. wp_step. rewrite u32_id by (unfold is_u32; lia).
  eapply wp_send; [done..|]. by wp_step.
Qed.

Lemma same_key_sndbuf x r : same_key x (set_sndbuf r x).
Proof. done. Qed.

(** ** The echo *)

(** The network loop takes a segment, the server is told its descriptor is readable,
    and the loop sends twice. *)
Definition echo (p : list Z) (listenfd fd : Z) : M (ustack R) Z :=
  ng_tcp_process p;; tcp_server_event listenfd fd;; ng_tcp_out;; ng_tcp_out.

Lemma fill_take (buffer out : list Z) : take (length out) (fill buffer out) = out.
Proof. unfold fill. by rewrite take_app_length. Qed.
Lemma ld_fill (n : nat) out : (length out ≤ n)%nat → ld_bytes (fill (replicate n 0) out) 0 (length out) = Some out.
Proof.
  intros Hn. unfold ld_bytes. rewrite (proj2 (Nat.leb_le _ _)).
  - by rewrite drop_0, fill_take.
  - unfold fill. rewrite length_app, length_drop, length_replicate. lia.
Qed.

Lemma strlen_zeros n : (0 < n)%nat → strlen (replicate n 0) = Some O.
Proof. by destruct n; [lia|]. Qed.
Lemma strlen_app (l k : list Z) n : strlen k = Some n → is_Some (strlen (l ++ k)).
Proof.
  intros Hk. induction l as [|c l IH]; [by exists n|]. cbn. destruct (c =? 0); [done|].
  destruct IH as [m ->]. by eexists.
Qed.
Lemma strlen_fill n out : (length out < n)%nat → is_Some (strlen (fill (replicate n 0) out)).
Proof. intros Hn. unfold fill. eapply strlen_app. rewrite drop_replicate. apply strlen_zeros. lia. Qed.

Lemma server_event_echoes listenfd fd i data x ack sent s :
  memory s → owns_fd fd i s → us_tcbs s !! i = Some x → connected [data] ack sent x → fd ≠ listenfd →
  (length data < BUFFER_SIZE)%nat → (length sent < ring_cap)%nat →
  wp (tcp_server_event listenfd fd) (λ r s', r = Some ([], []) ∧ ∃ x', s' = upd_tcb i x' s ∧ same_key x x' ∧
    connected [] ack (sent ++ [push_fragment x ack data]) x') s.
Proof.
  intros Hm Hfd Hi Hc Hne Hshort Hroom. destruct Hc as [Hp Hst Hack (rb & Hrb & Hq) (sb & Hsb & Hsent)].
  inversion Hq as [|f d fs l (Hfl & Hfd' & Hlen) Hq' Hcons]; subst. inversion Hq'; subst. symmetry in Hcons.
  unfold tcp_server_event. rewrite (proj2 (Z.eqb_neq _ _)) by done. wp_step.
  eapply wp_mono; [eapply (nrecv_data fd _ i x rb [] f data [0]); eauto; unfold BUFFER_SIZE in *; lia|].
  intros r s1 (-> & rb' & Hrb' & ->). wp_step. rewrite Hfl, (proj2 (Z.eqb_neq (Z.of_nat (length data)) 0)) by lia.
  destruct (strlen_fill _ _ Hshort) as [k ->]. wp_step.
  rewrite (proj2 (Z.eqb_neq (Z.of_nat (length data)) (-1))) by lia. wp_step.
  rewrite Nat2Z.id, ld_fill by lia. cbn [from_opt]. wp_step. unfold BUFFER_SIZE in Hlen.
  eapply (nsend_spec fd i data (set_rcvbuf (Some rb') x) ack sb);
    [done|by eapply owns_fd_upd|by apply lookup_upd_tcb; rewrite Hi|done..|lia|].
  wp_step. split; [done|]. eexists. split; [by rewrite upd_upd_tcb|]. split; [done|]. split; try done.
  - exists rb'. by rewrite Hrb'.
  - eexists. split; [done|]. by rewrite items_enqueue.
Qed.

Lemma upd_head x x' l s : us_tcbs s = x :: l → us_tcbs (upd_tcb 0 x' s) = x' :: l.
Proof. intros Hl. cbn. by rewrite Hl. Qed.


(** ** The ARP table *)

Definition arp_wf s : Prop := arp_count s = Z.of_nat (length (arp_entries s)).
Definition arp_map s : gmap Z (list Z) := list_to_map (arp_entries s).
Lemma arp_loop_map (l : list (Z * list Z)) ip :
  arp_loop (Z.of_nat (length l)) l ip = (list_to_map l : gmap Z (list Z)) !! ip.
Proof.
  induction l as [|[ip' mac] l IH]; [done|]. cbn [arp_loop length]. rewrite list_to_map_cons.
  rewrite (proj2 (Z.eqb_neq _ _)) by lia. destruct (Z.eqb_spec ip ip') as [->|Hne].
  - by rewrite lookup_insert_eq.
  - rewrite lookup_insert_ne by done. rewrite <-IH. f_equal. lia.
Qed.

(** The ARP table is a map from addresses to MAC addresses that keeps the first
    MAC address it was given: looking up changes nothing, inserting an unknown
    address adds it and returns 1, inserting a known one changes nothing and
    returns 0, whatever MAC address the packet has. *)
Theorem arp_table_is_map s ip mac :
  memory s → arp_wf s →
  wp (ng_get_dst_macaddr ip) (λ r s', r = arp_map s !! ip ∧ s' = s) s ∧
  wp (ng_arp_entry_insert ip mac) (λ r s', arp_wf s' ∧
    match arp_map s !! ip with
    | Some _ => r = 0 ∧ s' = s
    | None => r = 1 ∧ arp_map s' = <[ip:=mac]> (arp_map s) ∧ s' = with_arp (arp_entries s') (arp_count s') s
    end) s.
Proof.
  intros Hm Hwf. split.
  - rewrite wp_dst_macaddr. by rewrite Hwf, arp_loop_map.
  - unfold ng_arp_entry_insert. wp_step. rewrite wp_dst_macaddr, Hwf, arp_loop_map. fold (arp_map s).
    destruct (arp_map s !! ip); [done|]. wp_step. apply wp_malloc; [done|lia|]. wp_step.
    split_and!; [|done..]. unfold arp_wf. cbn [arp_count arp_entries with_arp length]. rewrite Hwf. lia.
Qed.

(** ** The ARP timer *)

Definition timer_ip (i : Z) : Z := Z.lor (Z.land gLocalIp 0x00FFFFFF) (Z.land 0xFF000000 (u32 (Z.shiftl i 24))).
Definition timer_frame s (i : Z) : list Z :=
  ng_encode_arp_pkt RTE_ARP_OP_REQUEST (default gDefaultArpMac (arp_loop (arp_count s) (arp_entries s) (timer_ip i)))
    gLocalIp (timer_ip i).

Lemma timer_one_spec i s :
  memory s → out_room s →
  wp (timer_one i) (λ _ s', ∃ r, s' = with_out r s ∧ ring_items r = ring_items (us_out s) ++ [timer_frame s i]) s.
Proof.
  intros Hm Hroom. unfold timer_one. wp_step. rewrite wp_dst_macaddr. unfold timer_frame, timer_ip.
  destruct (arp_loop _ _ _) as [mac|]; unfold ng_send_arp; wp_step; (apply wp_new_mbuf; [done|]); wp_step;
    (apply wp_out_enqueue; [done|]); intros r Hr; eauto.
Qed.
Lemma timer_loop_spec n i fuel s :
  memory s → (n < fuel)%nat → i + Z.of_nat n = 255 → (length (ring_items (us_out s)) + n ≤ ring_cap)%nat →
  wp (timer_loop fuel i) (λ _ s', ∃ r, s' = with_out r s ∧
    ring_items r = ring_items (us_out s) ++ map (timer_frame s) (seqZ i (Z.of_nat n))) s.
Proof.
  revert i fuel s. induction n as [|n IH]; intros i [|fuel] s Hm Hfuel Hi Hroom; try lia; cbn [timer_loop].
  - rewrite (proj2 (Z.leb_gt _ _)) by lia. wp_step. exists (us_out s). rewrite app_nil_r. by destruct s.
  - rewrite (proj2 (Z.leb_le _ _)) by lia. wp_step. eapply wp_mono; [apply timer_one_spec; [done|unfold out_room; lia]|].
    intros _ s1 (r1 & -> & Hr1). eapply wp_mono; [apply (IH (i + 1)); [done|lia|lia|]|].
    + cbn [us_out with_out]. rewrite Hr1, length_app. cbn [length]. lia.
    + intros _ s2 (r2 & -> & Hr2). exists r2. split; [done|]. rewrite Hr2. cbn [us_out with_out]. rewrite Hr1, <-app_assoc.
      rewrite (seqZ_cons i) by lia. by rewrite Nat2Z.inj_succ, Z.pred_succ.
Qed.

(** The ARP timer terminates and asks for every host of the network: one request
    each for the addresses 192.168.0.1 to 192.168.0.254, to the broadcast address
    or to the MAC address the table has. *)
Theorem timer_probes_network s :
  memory s → (length (ring_items (us_out s)) + 254 ≤ ring_cap)%nat →
  wp arp_request_timer_cb (λ _ s', ∃ r, s' = with_out r s ∧
    ring_items r = ring_items (us_out s) ++ map (timer_frame s) (seqZ 1 254)) s.
Proof. intros Hm Hroom. apply (timer_loop_spec 254 1 255 s Hm); [lia|done|done]. Qed.
End echo.

(** A connection at the head of the list, whose peer's MAC address is known. *)
#[local] Existing Instance list_dpdk.
#[local] Existing Instance list_dpdk_laws.
Definition demo_open : ustack list := with_arp [(1, [7; 8; 9; 10; 11; 12])] 1 demo_connected.
Lemma arp_table_is_map_witness :
  memory demo_open ∧ arp_map demo_open !! 1 = Some [7; 8; 9; 10; 11; 12] ∧
  wp (ng_arp_entry_insert 1 [0; 0; 0; 0; 0; 0]) (λ r s', r = 0 ∧ s' = demo_open) demo_open.
Proof.
  split_and!; [done..|]. eapply wp_mono; [apply (arp_table_is_map demo_open 1 [0; 0; 0; 0; 0; 0] eq_refl eq_refl)|].
  by intros r s' [_ Hr].
Defined.
Lemma timer_probes_network_witness : ∃ s', arp_request_timer_cb demo_open = Ok ((), s') ∧ length (us_out s') = 254%nat.
Proof.
  destruct (proj1 (wp_run _ _ _) (timer_probes_network demo_open eq_refl ltac:(apply Nat.leb_le; vm_compute; reflexivity))) as ([] & s' & Hrun & r & -> & Hr).
  eexists. split; [exact Hrun|]. cbn [ring_items list_dpdk_laws] in Hr. cbn [us_out with_out]. by rewrite Hr.
Defined.
