(* ===== verification/UsErrors.v ===== *)
(** Where the user-space stack goes wrong: reads of memory without a value, reads
    beyond a block, mbufs used after they were given away, and data that is lost or
    miscounted. *)
From S2P Require Import Prelude UsWire UsSock UsTcp UsFrame UsSpec UsFd UsTransfer UsHandshake UsEcho.

Section errors.
Context {R : Type → Type} `{DpdkLaws R}.
Implicit Types (s : ustack R) (x : ng_tcp_stream R).

(** ** nclose *)

Definition fin_fragment x ack : ng_tcp_fragment :=
  mk_fragment (st_dport x) (st_sport x) (st_snd_nxt x) ack 0x50 (Z.lor RTE_TCP_FIN_FLAG RTE_TCP_ACK_FLAG)
    TCP_INITIAL_WINDOW None None None 0.
Lemma nclose_spec fd i x ack sb s :
  memory s → owns_fd fd i s → us_tcbs s !! i = Some x → st_protocol x = IPPROTO_TCP → st_status x ≠ LISTEN →
  st_rcv_nxt x = Some ack → st_sndbuf x = Some sb → is_fd fd → fd_wf (fd_table s) →
  wp (nclose fd) (λ r s', r = 0 ∧ s' = with_fds (remove_fd fd)
    (upd_tcb i (set_status LAST_ACK (set_sndbuf (Some (enqueue (fin_fragment x ack) sb)) x)) s)) s.
Proof.
  intros Hm Hfd Hi Hp Hst Hack Hsb Hisfd Hwf. unfold nclose. wp_step. eapply wp_hostinfo; [done|]. wp_step.
  eapply wp_get_tcb; [done|]. rewrite Hp. cbn [negb Z.eqb IPPROTO_TCP Pos.eqb]. rewrite decide_False by done. wp_step.
  apply wp_malloc; [done|lia|]. cbn [negb]. wp_step. rewrite Hack. cbn [from_opt]. wp_step.
  eapply wp_send; [done..|]. wp_step. eapply wp_get_tcb; [by apply lookup_upd_tcb; rewrite Hi|]. wp_step.
  rewrite wp_set_tcb, upd_upd_tcb. wp_step. eapply wp_mono; [by apply set_fd_spec|].
  intros r s' [-> ->]. by wp_step.
Qed.

(** Closing a connection does not send its FIN: the fragment nclose queues is not
    cleared, and when the network loop comes to send it, it takes the option length,
    and with it the length of the frame, from memory without a value. *)
Theorem close_sends_indeterminate fd x l ack sb mac s :
  memory s → us_tcbs s = x :: l → owns_fd fd 0 s → st_protocol x = IPPROTO_TCP → st_status x ≠ LISTEN →
  st_rcv_nxt x = Some ack → st_sndbuf x = Some sb → items sb = [] → is_fd fd → fd_wf (fd_table s) →
  arp_loop (arp_count s) (arp_entries s) (st_sip x) = Some mac →
  hits IndetRead (nclose fd;; ng_tcp_out) s.
Proof.
  intros Hm Hl Hfd Hp Hst Hack Hsb Hsent Hisfd Hwf Hmac. apply hits_bind. eapply wp_mono.
  { eapply nclose_spec; eauto. by rewrite Hl. }
  intros _ s1 [_ ->]. unfold ng_tcp_out. apply hits_bind. wp_step.
  cbn [us_tcbs with_fds upd_tcb with_tcbs]. rewrite length_insert, Hl. cbn [length seq out_loop]. apply hits_first, hits_first.
  destruct (dequeue_cons (enqueue (fin_fragment x ack) sb) (fin_fragment x ack) []) as (sb' & Hd & _).
  { rewrite items_enqueue, Hsent; [done|]. rewrite Hsent. cbn. unfold RING_SIZE. lia. }
  unfold tcp_out_one. apply hits_bind. eapply wp_get_tcb; [by cbn; rewrite Hl|]. cbn [st_sndbuf set_status set_sndbuf].
  rewrite Hd. apply hits_bind. rewrite wp_set_tcb. apply hits_bind. rewrite wp_dst_macaddr. cbn [arp_count arp_entries].
  cbn [upd_tcb with_tcbs with_fds arp_count arp_entries st_sip set_status set_sndbuf]. rewrite Hmac.
  by apply hits_first.
Qed.

(** ** nsocket *)

Definition stream_socket_of fd : ng_tcp_stream R :=
  mk_stream R fd 0 [0; 0; 0; 0; 0; 0] 0 IPPROTO_TCP 0 0 0 (Some 0) CLOSED
    (Some (empty_ring "tcp send buffer")) (Some (empty_ring "tcp recv buffer")).
Lemma stream_socket s :
  memory s → fd_wf (fd_table s) → ("tcp recv buffer" ∉ us_names s) → ("tcp send buffer" ∉ us_names s) →
  (¬ all_used (fd_table s) DEFAULT_FD_NUM) →
  wp (nsocket SOCK_STREAM) (λ fd s', lowest_free (fd_table s) DEFAULT_FD_NUM fd ∧
    s' = with_tcbs (cons (stream_socket_of fd))
      (with_names (λ l, "tcp send buffer" :: "tcp recv buffer" :: l) (with_fds (add_fd fd) s))) s.
Proof.
  intros Hm Hwf Hrcv Hsnd Hfree. unfold nsocket. wp_step.
  eapply wp_mono; [apply fd_loop_spec; [done|done|unfold MAX_FD_COUNT, DEFAULT_FD_NUM; lia]|].
  intros fd s1 [(_ & _ & Hall)|[Hlow ->]]; [done|]. cbn [Z.eqb SOCK_STREAM SOCK_DGRAM Pos.eqb]. wp_step.
  apply wp_malloc; [done|lia|]. cbn [negb]. wp_step. apply wp_ring_create; [done..|]. wp_step.
  apply wp_ring_create; [done| |].
  { cbn. rewrite elem_of_cons. by intros [?|?]. }
  wp_step. done.
Qed.
(** A name that is taken makes every TCP socket fail. *)
Lemma no_second_socket s :
  memory s → fd_wf (fd_table s) → ("tcp recv buffer" ∈ us_names s) →
  wp (nsocket SOCK_STREAM) (λ r s', r = -1 ∧ us_tcbs s' = us_tcbs s) s.
Proof.
  intros Hm Hwf Hrcv. unfold nsocket. wp_step.
  eapply wp_mono; [apply fd_loop_spec; [done|done|unfold MAX_FD_COUNT, DEFAULT_FD_NUM; lia]|].
  intros fd s1 Hs1. assert (memory s1 ∧ us_names s1 = us_names s ∧ us_tcbs s1 = us_tcbs s) as (Hm1 & Hn1 & Hl1).
  { by destruct Hs1 as [(_ & -> & _)|[_ ->]]. }
  cbn [Z.eqb SOCK_STREAM SOCK_DGRAM Pos.eqb]. wp_step. apply wp_malloc; [done|lia|]. cbn [negb]. wp_step.
  unfold rte_ring_create. wp_step. by rewrite decide_True by (by rewrite Hn1).
Qed.
Lemma head_fd fd x l s : us_hosts s = [] → us_tcbs s = x :: l → st_fd x = fd → owns_fd fd 0 s.
Proof.
  intros Hh Hl Hfd. split; [by rewrite Hh|]. rewrite Hl. apply find_tcb_head. by rewrite Hfd, Z.eqb_refl.
Qed.
Lemma listen_first fd l s :
  us_hosts s = [] → us_tcbs s = stream_socket_of fd :: l →
  wp (nlisten fd) (λ _ s', s' = upd_tcb 0 (set_status LISTEN (stream_socket_of fd)) s) s.
Proof.
  intros Hh Hl. unfold nlisten. wp_step. eapply wp_hostinfo; [by eapply head_fd|]. wp_step.
  by eapply wp_get_tcb; [by rewrite Hl|].
Qed.
Lemma close_listener fd x l s :
  us_hosts s = [] → us_tcbs s = x :: l → st_fd x = fd → st_protocol x = IPPROTO_TCP → st_status x = LISTEN →
  wp (nclose fd) (λ _ s', s' = with_tcbs (λ _, l) s) s.
Proof.
  intros Hh Hl Hfd Hp Hst. unfold nclose. wp_step. eapply wp_hostinfo; [by eapply head_fd|]. wp_step.
  eapply wp_get_tcb; [by rewrite Hl|]. rewrite Hp. cbn [negb Z.eqb IPPROTO_TCP Pos.eqb].
  rewrite decide_True by done. wp_step. unfold with_tcbs. by rewrite Hl.
Qed.

(** After the listening socket was closed no TCP socket can be created again: its
    rings are not freed, and rte_ring_create refuses their names; each attempt also
    uses up a descriptor. *)
Theorem listener_cannot_be_reopened s :
  memory s → fd_wf (fd_table s) → ("tcp recv buffer" ∉ us_names s) → ("tcp send buffer" ∉ us_names s) →
  us_hosts s = [] → us_tcbs s = [] → (¬ all_used (fd_table s) DEFAULT_FD_NUM) →
  wp (fd ← nsocket SOCK_STREAM; nlisten fd;; nclose fd;; nsocket SOCK_STREAM) (λ r s', r = -1 ∧ us_tcbs s' = []) s.
Proof.
  intros Hm Hwf Hrcv Hsnd Hh Hl Hfree. wp_step. eapply wp_mono; [by apply stream_socket|].
  intros fd s1 (Hlow & ->). wp_step. eapply wp_mono; [by eapply (listen_first fd)|].
  intros _ s2 ->. wp_step. eapply wp_mono; [by eapply (close_listener fd)|].
  intros _ s3 ->. eapply wp_mono; [apply no_second_socket; [done|by apply insert_wf|]|].
  - cbn. right. left.
  - intros r s4 (-> & Hl4). split; [done|]. rewrite Hl4. cbn. by rewrite Hl.
Qed.

(** ** Datagrams *)

(** No datagram can be read: udp_process keeps dgram_len, which counts the 8
    bytes of the header, as the length of the payload, so that nrecvfrom reads 8
    bytes beyond the block, whatever the size of the buffer. *)
Theorem datagram_overreads fd i h p ip udp len s :
  memory s → us_hosts s !! i = Some h → items (h_rcvbuf h) = [] →
  find_host (λ h, fd =? h_fd h) (us_hosts s) = Some i →
  load_ipv4 p = Some ip → load_udp p = Some udp →
  find_host (λ h, (dst_addr ip =? h_localip h) && (udp_dst_port udp =? h_localport h) && (next_proto_id ip =? h_protocol h)) (us_hosts s) = Some i →
  9 ≤ ntohs (dgram_len udp) → 34 + ntohs (dgram_len udp) ≤ Z.of_nat (length p) → 0 ≤ len →
  hits OutOfBounds (udp_process p;; nrecvfrom fd len) s.
Proof.
  intros Hm Hi Hq Hfd Hip Hudp Hfind Hlen Hp Hpos. apply hits_bind. unfold udp_process. wp_step.
  rewrite Hip, Hudp. cbn [from_opt]. wp_step. unfold get_hostinfo_fromip_port. wp_step. rewrite Hfind. wp_step.
  pose proof (ntohs_range (dgram_len udp)) as Hr. set (n := ntohs (dgram_len udp)) in *.
  apply wp_malloc; [done|lia|]. cbn [negb]. wp_step. rewrite Z.mod_small by word.
  apply wp_malloc; [done|word|]. cbn [negb]. wp_step.
  destruct (ld_bytes p 42 (Z.to_nat (n - 8))) as [data|] eqn:Hd.
  2: { unfold ld_bytes in Hd. by rewrite (proj2 (Nat.leb_le _ _)) in Hd by lia. }
  assert (length data = Z.to_nat (n - 8)) as Hdl.
  { unfold ld_bytes in Hd. destruct (_ <=? _)%nat eqn:E; [|done]. apply Nat.leb_le in E. injection Hd as <-.
    rewrite length_take, length_drop. lia. }
  cbn [from_opt]. wp_step. unfold get_host. wp_step. rewrite Hi. cbn [from_opt]. wp_step. unfold set_host. wp_step.
  set (h' := host_rings _ _ h). unfold nrecvfrom. apply hits_bind. unfold get_hostinfo_fromfd. wp_step.
  assert (find_host (λ h, fd =? h_fd h) (<[i:=h']> (us_hosts s)) = Some i) as Hfd'.
  { by rewrite (find_host_insert _ _ i h h'). }
  cbn [us_hosts with_hosts]. rewrite Hfd'. apply hits_bind. unfold get_host. wp_step.
  cbn [us_hosts with_hosts]. rewrite list_lookup_insert_eq by (by eapply lookup_lt_Some). cbn [from_opt]. wp_step.
  destruct (dequeue_cons (h_rcvbuf h') (mk_offload (src_addr ip) (dst_addr ip) (udp_src_port udp) (udp_dst_port udp) data n) [])
    as (rb & Hd' & _).
  { unfold h'. cbn [h_rcvbuf host_rings]. rewrite items_enqueue, Hq; [done|]. rewrite Hq. cbn. unfold RING_SIZE. lia. }
  rewrite Hd'. apply hits_bind. unfold set_host. wp_step. cbn [ol_length ol_data].
  destruct (Z.ltb_spec len n).
  - unfold ld_bytes at 1. destruct (_ <=? _)%nat eqn:E; [|done]. cbn [from_opt]. apply hits_bind. wp_step. apply hits_bind.
    apply wp_malloc; [done|word|]. cbn [negb]. apply hits_first. unfold ld_bytes.
    by rewrite (proj2 (Nat.leb_gt _ _)) by lia.
  - apply hits_first. unfold ld_bytes. by rewrite (proj2 (Nat.leb_gt _ _)) by lia.
Qed.

(** ** Segments *)

(** A segment without PSH and FIN leaves everything as it is: its payload is
    neither delivered nor acknowledged, however often it is sent again. *)
Theorem unpushed_data_ignored p ip tcp i x s :
  arrives p ip tcp → find_tcb (addressed ip tcp) (us_tcbs s) = Some i → us_tcbs s !! i = Some x →
  st_status x = ESTABLISHED → has_flag tcp RTE_TCP_PSH_FLAG = false → has_flag tcp RTE_TCP_FIN_FLAG = false →
  wp (ng_tcp_process p) (λ r s', r = 0 ∧ s' = s) s.
Proof.
  intros Harr Hfind Hi Hst Hpsh Hfin. eapply process_dispatch; [done..|]. rewrite Hst.
  unfold ng_tcp_handle_established. rewrite Hpsh, Hfin. done.
Qed.

(** A read shorter than the next payload returns the octets that are left, not
    those it wrote, and puts them behind the payloads that came after. *)
Theorem short_read_miscounts fd i x rb f q data rest len s :
  owns_fd fd i s → us_tcbs s !! i = Some x → st_protocol x = IPPROTO_TCP → st_rcvbuf x = Some rb →
  items rb = f :: q → fr_data f = Some (data ++ rest) → fr_length f = Z.of_nat (length data) →
  0 ≤ len < fr_length f → (length q < ring_cap)%nat →
  wp (nrecv fd len) (λ r s', r = Some (fr_length f - len, take (Z.to_nat len) data) ∧
    ∃ rb' f' rest', s' = upd_tcb i (set_rcvbuf (Some rb') x) s ∧ items rb' = q ++ [f'] ∧
      fr_length f' = fr_length f - len ∧ fr_data f' = Some (drop (Z.to_nat len) data ++ rest')) s.
Proof.
  intros Hfd Hi Hp Hrb Hq Hdata Hlen Hrange Hroom. destruct (dequeue_cons rb f q Hq) as (rb' & Hd & Hq' & _).
  unfold nrecv. wp_step. eapply wp_hostinfo; [done|]. wp_step. eapply wp_get_tcb; [done|].
  rewrite Hp, Hrb. cbn [negb Z.eqb IPPROTO_TCP Pos.eqb from_opt]. wp_step. rewrite Hd. wp_step. rewrite wp_set_tcb.
  rewrite (proj2 (Z.ltb_lt _ _)) by lia. wp_step. rewrite Hdata. cbn [from_opt]. wp_step.
  unfold ld_bytes. rewrite !(proj2 (Nat.leb_le _ _)) by (rewrite length_app; lia). cbn [from_opt]. wp_step. cbn [from_opt]. wp_step.
  eapply wp_receive; [by apply lookup_upd_tcb; rewrite Hi|done|]. wp_step. split.
  - by rewrite drop_0, take_app_le by lia.
  - do 3 eexists. split; [by rewrite upd_upd_tcb|]. split; [by rewrite items_enqueue, Hq' by (by rewrite Hq')|].
    cbn [fr_length fr_data]. split; [done|]. f_equal. f_equal.
    rewrite drop_app_le by lia. rewrite take_app_le by (rewrite length_drop; lia). apply take_ge. rewrite length_drop. lia.
Qed.

(** ** Bursts *)

(** A burst of two packets or more of which the first is not IPv4 (an ARP packet)
    is handed to the kernel as a whole; the loop then goes on to the second packet,
    which is no longer its own. *)
Theorem burst_reads_given_mbuf p q l s :
  ld16 p 12 ≠ Some (ntohs RTE_ETHER_TYPE_IPV4) → is_Some (ld16 p 12) →
  hits DanglingDeref (pkt_loop (seq 0 (length (p :: q :: l))) (Some <$> p :: q :: l)) s.
Proof.
  intros Hne [t Ht]. cbn [length seq pkt_loop]. apply hits_bind. unfold pkt_one at 1.
  change (mjoin ((Some <$> p :: q :: l) !! 0%nat)) with (Some p). cbn [from_opt]. wp_step. rewrite Ht. cbn [from_opt]. wp_step.
  rewrite (proj2 (Z.eqb_neq _ _)) by congruence. unfold rte_kni_tx_burst. wp_step.
  assert (∀ l : list (list Z), all_frames (Some <$> l) = Some l) as Hall.
  { intros l'. induction l' as [|a l' IH]; [done|]. rewrite fmap_cons. cbn [all_frames]. by rewrite IH. }
  rewrite (Hall (p :: q :: l)). cbn [from_opt]. wp_step. by apply hits_first.
Qed.
End errors.

(** ** Witnesses *)

#[local] Existing Instance list_dpdk.
#[local] Existing Instance list_dpdk_laws.
Lemma demo_fds_wf : fd_wf (replicate 1024 0).
Proof. split; [vm_compute; reflexivity|]. apply Forall_replicate. word. Qed.
Lemma close_sends_indeterminate_witness : (nclose 5;; ng_tcp_out) demo_open = UB IndetRead.
Proof.
  apply (close_sends_indeterminate 5 demo_stream [] 7 (mk_ring list ng_tcp_fragment "sndbuf11000" []) [7; 8; 9; 10; 11; 12] demo_open);
    try done; apply demo_fds_wf.
Defined.
Lemma listener_cannot_be_reopened_witness :
  wp (fd ← nsocket SOCK_STREAM; nlisten fd;; nclose fd;; nsocket SOCK_STREAM) (λ r s', r = -1 ∧ us_tcbs s' = []) demo_empty.
Proof.
  apply (listener_cannot_be_reopened demo_empty); try done; [apply demo_fds_wf|by intros ?%not_elem_of_nil..|].
  intros Hall. specialize (Hall 3 ltac:(unfold DEFAULT_FD_NUM, MAX_FD_COUNT; lia)). by vm_compute in Hall.
Defined.

(** A UDP socket on port 8889, and a datagram of five octets to it. *)
Definition demo_host : localhost list :=
  mk_host list 3 gLocalIp [2; 0; 0; 0; 0; 1] (ntohs 8889) IPPROTO_UDP (mk_ring list offload "send buffer" []) (mk_ring list offload "recv buffer" []).
Definition demo_bound : ustack list := with_hosts (λ _, [demo_host]) demo_empty.
Definition demo_datagram : list Z :=
  ether_hdr [2; 0; 0; 0; 0; 1] [7; 8; 9; 10; 11; 12] RTE_ETHER_TYPE_IPV4 ++ ip_hdr IPPROTO_UDP 47 1 gLocalIp 0 ++
  udp_header (ntohs 4000) (ntohs 8889) 13 0 ++ [104; 101; 108; 108; 111].
Lemma datagram_overreads_witness : (udp_process demo_datagram;; nrecvfrom 3 128) demo_bound = UB OutOfBounds.
Proof.
  apply (datagram_overreads 3 0 demo_host demo_datagram (mk_ipv4 (ntohs 33) IPPROTO_UDP 1 gLocalIp)
    (mk_udp (ntohs 4000) (ntohs 8889) (ntohs 13) 0) 128 demo_bound);
    try done; vm_compute; congruence.
Defined.

(** The segment of five octets without PSH. *)
Definition demo_unpushed : list Z :=
  tcp_frame 1 2 [7; 8; 9; 10; 11; 12] [2; 0; 0; 0; 0; 1]
    (mk_fragment 1000 2000 7 9 0x50 0x10 TCP_INITIAL_WINDOW (Some 0) (Some 0) (Some [104; 101; 108; 108; 111; 0]) 5) 0 [104; 101; 108; 108; 111].
Lemma unpushed_data_ignored_witness : ng_tcp_process demo_unpushed demo_connected = Ok (0, demo_connected).
Proof.
  apply wp_det.
  apply (unpushed_data_ignored demo_unpushed demo_ip (mk_tcp 1000 2000 (ntohl 7) (ntohl 9) 0x50 0x10 TCP_INITIAL_WINDOW 1533 0) 0 demo_stream);
    try done; repeat split; vm_compute; reflexivity.
Defined.

(** The five octets wait to be read, three are asked for. *)
Definition demo_waiting : ustack list :=
  upd_tcb 0 (set_rcvbuf (Some (mk_ring list ng_tcp_fragment "rcvbuf11000" [demo_fragment])) demo_stream) demo_connected.
Lemma short_read_miscounts_witness : ∃ s', nrecv 5 3 demo_waiting = Ok (Some (2, [104; 101; 108]), s').
Proof.
  destruct (proj1 (wp_run _ _ _) (short_read_miscounts (H0 := list_dpdk_laws) 5 0
    (set_rcvbuf (Some (mk_ring list ng_tcp_fragment "rcvbuf11000" [demo_fragment])) demo_stream)
    (mk_ring list ng_tcp_fragment "rcvbuf11000" [demo_fragment]) demo_fragment [] [104; 101; 108; 108; 111] [0] 3 demo_waiting
    (conj eq_refl eq_refl) eq_refl eq_refl eq_refl ltac:(reflexivity) eq_refl eq_refl ltac:(cbn; lia) ltac:(apply Nat.ltb_lt; vm_compute; reflexivity)))
    as (r & s' & Hrun & -> & _).
  exists s'. exact Hrun.
Defined.

Definition demo_arp : list Z := ng_encode_arp_pkt 2 [2; 0; 0; 0; 0; 1] 1 gLocalIp.
Lemma burst_reads_given_mbuf_witness :
  pkt_loop (seq 0 2) (Some <$> [demo_arp; demo_segment]) demo_connected = UB DanglingDeref.
Proof.
  apply (burst_reads_given_mbuf demo_arp demo_segment [] demo_connected); [vm_compute; congruence|by eexists].
Defined.

(** ** Descriptors of closed streams *)

(** A frame of the peer's port [sport]. *)
Definition client_frame (sport seq flags : Z) : list Z :=
  tcp_frame 1 2 [7; 8; 9; 10; 11; 12] [2; 0; 0; 0; 0; 1] (control_fragment sport (ntohs 9999) seq 0 flags) 0 [].
(** The data in the sending rings, with the peer's port of each stream. *)
Definition outgoing (s : ustack list) : list (Z * list (list Z)) :=
  (λ x, (st_sport x, omap fr_data (from_option (rg_q (A := ng_tcp_fragment)) [] (st_sndbuf x)))) <$> us_tcbs s.

(** nclose gives the descriptor back but the closing stream keeps it.  Two clients connect
    (peer ports 1000 and 2000), the second is accepted as 4 and closed, the first is then
    accepted as 4 as well: what the server sends to 4 goes to the client that was closed. *)
Theorem closed_stream_captures_descriptor :
  ∃ s, (ng_tcp_process (client_frame 1000 41 2);; ng_tcp_process (client_frame 1000 42 16);;
        ng_tcp_process (client_frame 2000 41 2);; ng_tcp_process (client_frame 2000 42 16);;
        c1 ← naccept 3; nclose 4;; c2 ← naccept 3; n ← nsend 4 [72; 105]; ret (c1, c2, n))
         demo_listening = Ok ((Some (4, 2000, 1), Some (4, 1000, 1), 2), s) ∧
    outgoing s = [(2000, [[72; 105; 0]]); (1000, []); (0, [])].
Proof. eexists. split; vm_compute; reflexivity. Qed.
