(* ===== verification/UsTyping.v ===== *)
(** What the data of the user-space stack are: every field stays in the width the C type
    gives it, every block of a TCP fragment is longer than its length says, and every frame
    the stack offers to the port is a sequence of bytes.  All calls and all packets keep that. *)
From S2P Require Import Prelude UsWire UsSock UsTcp UsFrame UsSpec UsFd UsHandshake.

Create HintDb ty_db.

(** ** Types *)

Definition bytes_ty (l : list Z) : Prop := Forall is_u8 l.
Definition mac_ty (m : list Z) : Prop := length m = 6%nat ∧ bytes_ty m.
Definition fd_ty (fd : Z) : Prop := fd = -1 ∨ is_fd fd.
Definition opt_ty {A} (P : A → Prop) (o : option A) : Prop := ∀ a, o = Some a → P a.

(** The block behind [fr_data] holds the payload and at least one byte more. *)
Record fragment_ty (f : ng_tcp_fragment) : Prop := {
  fty_ports : is_u16 (fr_sport f) ∧ is_u16 (fr_dport f);
  fty_nums : is_u32 (fr_seqnum f) ∧ is_u32 (fr_acknum f);
  fty_bytes : is_u8 (fr_hdrlen_off f) ∧ is_u8 (fr_tcp_flags f);
  fty_win : is_u16 (fr_windows f) ∧ opt_ty is_u16 (fr_tcp_urp f);
  fty_optlen : opt_ty (λ n, n = 0) (fr_optlen f);
  fty_length : 0 ≤ fr_length f;
  fty_data : match fr_data f with
             | Some d => bytes_ty d ∧ fr_length f < Z.of_nat (length d)
             | None => fr_length f = 0
             end }.
Record offload_ty (o : offload) : Prop := {
  oty_ips : is_u32 (ol_sip o) ∧ is_u32 (ol_dip o);
  oty_ports : is_u16 (ol_sport o) ∧ is_u16 (ol_dport o);
  oty_length : is_u16 (ol_length o);
  oty_data : bytes_ty (ol_data o) }.
(** A frame is at least an ARP packet long. *)
Definition frame_ty (p : list Z) : Prop := bytes_ty p ∧ (42 ≤ length p)%nat.

Section types.
Context {R : Type → Type} `{DpdkLaws R}.

Definition ring_ty {A} (P : A → Prop) (r : ring R A) : Prop := Forall P (items r).
Record stream_ty (x : ng_tcp_stream R) : Prop := {
  sty_fd : fd_ty (st_fd x);
  sty_ips : is_u32 (st_dip x) ∧ is_u32 (st_sip x);
  sty_mac : mac_ty (st_localmac x);
  sty_ports : is_u16 (st_dport x) ∧ is_u16 (st_sport x);
  sty_proto : st_protocol x = IPPROTO_TCP;
  sty_nums : is_u32 (st_snd_nxt x) ∧ opt_ty is_u32 (st_rcv_nxt x);
  sty_rings : opt_ty (ring_ty fragment_ty) (st_sndbuf x) ∧ opt_ty (ring_ty fragment_ty) (st_rcvbuf x) }.
Record host_ty (h : localhost R) : Prop := {
  hty_fd : fd_ty (h_fd h);
  hty_local : is_u32 (h_localip h) ∧ mac_ty (h_localmac h) ∧ is_u16 (h_localport h);
  hty_proto : h_protocol h = IPPROTO_UDP;
  hty_rings : ring_ty offload_ty (h_sndbuf h) ∧ ring_ty offload_ty (h_rcvbuf h) }.
(** arp_count counts the entries, and no address has two. *)
Record stack_ty (s : ustack R) : Prop := {
  ty_hosts : Forall host_ty (us_hosts s);
  ty_tcbs : Forall stream_ty (us_tcbs s);
  ty_fds : fd_wf (fd_table s);
  ty_arp : Forall (λ e, is_u32 e.1 ∧ mac_ty e.2) (arp_entries s);
  ty_arp_keys : NoDup (arp_entries s).*1 ∧ arp_count s = Z.of_nat (length (arp_entries s));
  ty_in : Forall bytes_ty (ring_items (us_in s));
  ty_out : Forall frame_ty (ring_items (us_out s));
  ty_kni : Forall bytes_ty (us_kni s) }.

(** ** Integers and bytes *)

Lemma bytes_app l1 l2 : bytes_ty l1 → bytes_ty l2 → bytes_ty (l1 ++ l2).
Proof. intros. by apply Forall_app. Qed.
Lemma bytes_le16 v : bytes_ty (le16 v).
Proof. unfold le16, bytes_ty. rewrite !Forall_cons. split_and!; [word..|done]. Qed.
Lemma bytes_le32 v : bytes_ty (le32 v).
Proof. apply bytes_app; apply bytes_le16. Qed.
Lemma bytes_cons b l : is_u8 b → bytes_ty l → bytes_ty (b :: l).
Proof. intros. by apply Forall_cons. Qed.
Lemma bytes_nil : bytes_ty [].
Proof. by apply Forall_nil. Qed.
Lemma bytes_drop n l : bytes_ty l → bytes_ty (drop n l).
Proof. intros. by apply Forall_drop. Qed.
Lemma bytes_take n l : bytes_ty l → bytes_ty (take n l).
Proof. intros. by apply Forall_take. Qed.
Lemma bytes_mac m : mac_ty m → bytes_ty m.
Proof. by intros []. Qed.

Lemma ld8_ty p off v : bytes_ty p → ld8 p off = Some v → is_u8 v.
Proof. intros Hp. by apply Forall_lookup_1. Qed.
Lemma ld16_ty p off v : bytes_ty p → ld16 p off = Some v → is_u16 v.
Proof.
  intros Hp. unfold ld16. destruct (ld8 p off) as [a|] eqn:Ha; [|done].
  destruct (ld8 p (S off)) as [b|] eqn:Hb; [|done]. intros [= <-].
  apply ld8_ty in Ha, Hb; [|done..]. word.
Qed.
Lemma ld32_ty p off v : bytes_ty p → ld32 p off = Some v → is_u32 v.
Proof.
  intros Hp. unfold ld32. destruct (ld16 p off) as [a|] eqn:Ha; [|done].
  destruct (ld16 p (2 + off)) as [b|] eqn:Hb; [|done]. intros [= <-].
  apply ld16_ty in Ha, Hb; [|done..]. word.
Qed.
Lemma ld_bytes_ty p off n l : bytes_ty p → ld_bytes p off n = Some l → bytes_ty l ∧ length l = n.
Proof.
  intros Hp. unfold ld_bytes. destruct (Nat.leb_spec (off + n) (length p)); [|done]. intros [= <-].
  split; [by apply bytes_take, bytes_drop|]. rewrite length_take, length_drop. lia.
Qed.

Record ipv4_ty (h : ipv4_hdr) : Prop := {
  ity_proto : is_u8 (next_proto_id h); ity_ips : is_u32 (src_addr h) ∧ is_u32 (dst_addr h) }.
Lemma load_ipv4_ty p h : bytes_ty p → load_ipv4 p = Some h → ipv4_ty h.
Proof.
  intros Hp. unfold load_ipv4. destruct (ld16 p 16); [|done]. destruct (ld8 p 23) eqn:H1; [|done].
  destruct (ld32 p 26) eqn:H2; [|done]. destruct (ld32 p 30) eqn:H3; [|done]. intros [= <-].
  split; [by eapply ld8_ty|split; by eapply ld32_ty].
Qed.
Record tcp_ty (h : tcp_hdr) : Prop := {
  tty_ports : is_u16 (src_port h) ∧ is_u16 (dst_port h); tty_off : is_u8 (data_off h) }.
Lemma load_tcp_ty p h : bytes_ty p → load_tcp p = Some h → tcp_ty h.
Proof.
  intros Hp. unfold load_tcp.
  destruct (ld16 p 34) eqn:H1; [|done]. destruct (ld16 p 36) eqn:H2; [|done].
  destruct (ld32 p 38); [|done]. destruct (ld32 p 42); [|done]. destruct (ld8 p 46) eqn:H3; [|done].
  repeat (case_match; try done). intros [= <-].
  split; [split; by eapply ld16_ty|by eapply ld8_ty].
Qed.
Lemma load_udp_ty p h : bytes_ty p → load_udp p = Some h → is_u16 (udp_src_port h) ∧ is_u16 (udp_dst_port h).
Proof.
  intros Hp. unfold load_udp.
  destruct (ld16 p 34) eqn:H1; [|done]. destruct (ld16 p 36) eqn:H2; [|done].
  repeat (case_match; try done). intros [= <-]. split; by eapply ld16_ty.
Qed.

(** ** Rings *)

Lemma ring_ty_new {A} (P : A → Prop) name : ring_ty P (mk_ring R A name rte_ring_new).
Proof. unfold ring_ty, items. cbn. by rewrite ring_items_new. Qed.
Lemma ring_ty_enqueue {A} (P : A → Prop) a r : P a → ring_ty P r → ring_ty P (enqueue a r).
Proof.
  intros Ha Hr. unfold ring_ty, items, enqueue. cbn.
  destruct (Nat.lt_ge_cases (length (ring_items (rg_q r))) ring_cap).
  - rewrite ring_enqueue_room by done. by apply Forall_app_2; [|apply Forall_singleton].
  - by rewrite ring_enqueue_full by done.
Qed.
Lemma ring_ty_dequeue {A} (P : A → Prop) r a r' :
  ring_ty P r → dequeue r = Some (a, r') → P a ∧ ring_ty P r'.
Proof.
  unfold ring_ty. destruct (items r) as [|x l] eqn:Hi; intros Hr Hd.
  - by rewrite dequeue_nil in Hd.
  - destruct (dequeue_cons r x l Hi) as (r1&Hd1&Hi1&_). rewrite Hd1 in Hd. injection Hd as <- <-.
    rewrite Hi1. by apply Forall_cons in Hr.
Qed.

(** ** Typed computations *)

Definition typed {A} (P : A → Prop) (m : M (ustack R) A) : Prop :=
  ∀ s, stack_ty s → wlp m (λ a s', stack_ty s' ∧ P a) s.

Lemma ty_mono {A} (P Q : A → Prop) (m : M (ustack R) A) : typed P m → (∀ a, P a → Q a) → typed Q m.
Proof. intros Hm HPQ s Hs. eapply wlp_mono; [by apply Hm|]. intros a s' [??]. auto. Qed.
Lemma ty_bind {A B} (P : A → Prop) (Q : B → Prop) (m : M (ustack R) A) k :
  typed P m → (∀ a, P a → typed Q (k a)) → typed Q (bind m k).
Proof.
  intros Hm Hk s Hs. apply wlp_bind. eapply wlp_mono; [by apply Hm|]. intros a s' [Hs' Ha]. by apply Hk.
Qed.
Lemma ty_ret {A} (P : A → Prop) a : P a → typed P (ret a).
Proof. by intros Ha s Hs. Qed.
Lemma ty_undef {A} (P : A → Prop) w : typed P (undef w).
Proof. done. Qed.
Lemma ty_no_fuel {A} (P : A → Prop) : typed P no_fuel.
Proof. done. Qed.
Lemma ty_from_opt {A} w (o : option A) : typed (λ a, o = Some a) (from_opt w o).
Proof. intros s Hs. apply wlp_from_opt. auto. Qed.
Lemma ty_modify f : (∀ s, stack_ty s → stack_ty (f s)) → typed (λ _, True) (modify f).
Proof. intros Hf s Hs. cbn. auto. Qed.
Lemma ty_gets {A} (f : ustack R → A) (P : A → Prop) :
  (∀ s, stack_ty s → P (f s)) → typed P (gets f).
Proof. intros Hf s Hs. cbn. auto. Qed.
Lemma ty_put s : stack_ty s → typed (λ _, True) (put s).
Proof. by intros Hs ? _. Qed.
Lemma ty_get : typed stack_ty get.
Proof. intros s Hs. by cbn. Qed.

(** Memory, rings, random numbers. *)
Lemma ty_next_alloc : typed (λ _, True) next_alloc.
Proof. intros s [? ? ? ? ? ? ? ?]. unfold wlp, next_alloc. by destruct (us_plan s). Qed.
Lemma ty_malloc size : typed (λ _, True) (rte_malloc size).
Proof. unfold rte_malloc. destruct (_ || _); [by apply ty_ret|apply ty_next_alloc]. Qed.
Lemma ty_new_mbuf : typed (λ _, True) new_mbuf.
Proof.
  eapply ty_bind; [apply ty_next_alloc|]. intros [] _; [by apply ty_ret|apply ty_undef].
Qed.
Lemma ty_rand_r : typed (λ _, True) rand_r.
Proof. intros s [? ? ? ? ? ? ? ?]. unfold wlp, rand_r. by destruct (us_rand s). Qed.
Lemma ty_ring_create {A} (P : A → Prop) name : typed (opt_ty (ring_ty P)) (rte_ring_create name).
Proof.
  unfold rte_ring_create. eapply ty_bind; [by apply (ty_gets _ (λ _, True))|]. intros names _.
  destruct (decide _); [by apply ty_ret|]. eapply ty_bind; [apply ty_next_alloc|]. intros [] _; [|by apply ty_ret].
  eapply ty_bind; [apply ty_modify; by intros s []|]. intros _ _. apply ty_ret. intros r [= <-]. apply ring_ty_new.
Qed.
Lemma ty_ring_free {A} (r : option (ring R A)) : typed (λ _, True) (rte_ring_free r).
Proof. destruct r; [apply ty_modify; by intros s []|by apply ty_ret]. Qed.

(** Sockets. *)
Lemma ty_get_tcb i : typed stream_ty (get_tcb i).
Proof.
  eapply ty_bind; [apply ty_get|]. intros s Hs. eapply ty_mono; [apply ty_from_opt|].
  intros x Hx. by apply (Forall_lookup_1 _ _ _ _ (ty_tcbs s Hs) Hx).
Qed.
Lemma ty_set_tcb i x : stream_ty x → typed (λ _, True) (set_tcb i x).
Proof. intros Hx. apply ty_modify. intros s [? ? ? ? ? ? ? ?]. split; try done. by apply Forall_insert. Qed.
Lemma ty_get_host i : typed host_ty (get_host i).
Proof.
  eapply ty_bind; [apply ty_get|]. intros s Hs. eapply ty_mono; [apply ty_from_opt|].
  intros x Hx. by apply (Forall_lookup_1 _ _ _ _ (ty_hosts s Hs) Hx).
Qed.
Lemma ty_set_host i x : host_ty x → typed (λ _, True) (set_host i x).
Proof. intros Hx. apply ty_modify. intros s [? ? ? ? ? ? ? ?]. split; try done. by apply Forall_insert. Qed.
Lemma ty_add_tcb x : stream_ty x → typed (λ _, True) (modify (with_tcbs (cons x))).
Proof. intros Hx. apply ty_modify. intros s [? ? ? ? ? ? ? ?]. split; try done. by apply Forall_cons. Qed.
Lemma ty_add_host x : host_ty x → typed (λ _, True) (modify (with_hosts (cons x))).
Proof. intros Hx. apply ty_modify. intros s [? ? ? ? ? ? ? ?]. split; try done. by apply Forall_cons. Qed.
Lemma ty_del_tcb i : typed (λ _, True) (modify (with_tcbs (delete i))).
Proof. apply ty_modify. intros s [? ? ? ? ? ? ? ?]. split; try done. by apply Forall_delete. Qed.
Lemma ty_del_host i : typed (λ _, True) (modify (with_hosts (delete i))).
Proof. apply ty_modify. intros s [? ? ? ? ? ? ? ?]. split; try done. by apply Forall_delete. Qed.
Lemma ty_hostinfo fd : typed (λ _, True) (get_hostinfo_fromfd fd).
Proof. by apply ty_gets. Qed.
Lemma ty_hostinfo_ip ip port proto : typed (λ _, True) (get_hostinfo_fromip_port ip port proto).
Proof. by apply ty_gets. Qed.
Lemma ty_accept_tcb port : typed (λ _, True) (get_accept_tcb port).
Proof. by apply ty_gets. Qed.
Lemma ty_search sip dip sport dport : typed (λ _, True) (ng_tcp_stream_search sip dip sport dport).
Proof. by apply ty_gets. Qed.
Lemma ty_get_fd : typed fd_ty get_fd_frombitmap.
Proof.
  intros s Hs. apply wp_wlp. eapply wp_mono; [apply fd_loop_spec; [apply Hs|done|unfold MAX_FD_COUNT, DEFAULT_FD_NUM; lia]|].
  intros r s' [(->&->&_)|[[[??] _] ->]]; [by split; [|left]|].
  destruct Hs. split; [split; try done; by apply insert_wf|right].
  unfold is_fd, DEFAULT_FD_NUM in *. lia.
Qed.
Lemma ty_set_fd fd : typed (λ _, True) (set_fd_frombitmap fd).
Proof.
  unfold set_fd_frombitmap. destruct (_ <=? _); [by apply ty_ret|]. destruct (_ <? _); [apply ty_undef|].
  eapply (ty_bind (λ _, True)).
  - eapply ty_bind; [apply ty_get|]. intros s Hs. eapply ty_mono; [apply ty_from_opt|done].
  - intros b _. eapply ty_bind; [|intros _ _; by apply ty_ret]. apply ty_modify.
    intros s [? ? ? ? ? ? ? ?]. split; try done. by apply insert_wf.
Qed.
Lemma ty_macaddr ip : typed (opt_ty mac_ty) (ng_get_dst_macaddr ip).
Proof.
  apply ty_gets. intros s Hs. generalize (ty_arp s Hs). generalize (arp_entries s) (arp_count s).
  induction l as [|[ip' mac] l IH]; intros n Hl; [done|]. cbn [arp_loop]. apply Forall_cons in Hl as [[_ Hm] Hl].
  destruct (n =? 0); [done|]. destruct (ip =? ip'); [by intros m [= <-]|]. by apply IH.
Qed.

(** An address that the table does not have. *)
Lemma arp_loop_None l n ip : n = Z.of_nat (length l) → arp_loop n l ip = None → ip ∉ l.*1.
Proof.
  revert n. induction l as [|[ip' mac] l IH]; intros n Hn; cbn in *; [set_solver|].
  rewrite (proj2 (Z.eqb_neq _ _)) by lia. destruct (Z.eqb_spec ip ip'); [done|].
  intros Hl%IH; [|lia]. set_solver.
Qed.
Lemma ty_arp_insert ip mac : is_u32 ip → mac_ty mac → typed (λ _, True) (ng_arp_entry_insert ip mac).
Proof.
  intros Hip Hmac s Hs. unfold ng_arp_entry_insert, ng_get_dst_macaddr. wp_step.
  destruct (arp_loop _ _ ip) eqn:Ha; [by wp_step|]. wp_step.
  destruct (ty_arp_keys s Hs) as [Hnd Hlen]. apply arp_loop_None in Ha; [|done].
  assert (wlp (rte_malloc 32) (λ _ s', stack_ty s' ∧ arp_entries s' = arp_entries s ∧
    arp_count s' = arp_count s) s) as Hm.
  { change (rte_malloc 32) with (next_alloc (R := R)). unfold wlp, next_alloc. destruct (us_plan s); [by split_and!|].
    split_and!; [destruct Hs; by split|done..]. }
  eapply wlp_mono; [exact Hm|]. intros [] s' (Hs'&He&Hc); [|by wp_step]. wp_step.
  split; [|done]. destruct Hs'. split; try done; cbn; rewrite ?He, ?Hc.
  - apply Forall_cons. split; [done|]. by rewrite <-He.
  - split; [by apply NoDup_cons|]. lia.
Qed.

Lemma ty_tcb_send i f : fragment_ty f → typed (λ _, True) (tcb_send i f).
Proof.
  intros Hf. unfold tcb_send. eapply ty_bind; [apply ty_get_tcb|]. intros x Hx.
  eapply ty_bind; [apply ty_from_opt|]. intros r Hr. apply ty_set_tcb.
  destruct Hx as [? ? ? ? ? ? [Hsb Hrb]]. split; try done. split; [|done].
  intros r' [= <-]. apply ring_ty_enqueue; auto.
Qed.
Lemma ty_tcb_receive i f : fragment_ty f → typed (λ _, True) (tcb_receive i f).
Proof.
  intros Hf. unfold tcb_receive. eapply ty_bind; [apply ty_get_tcb|]. intros x Hx.
  eapply ty_bind; [apply ty_from_opt|]. intros r Hr. apply ty_set_tcb.
  destruct Hx as [? ? ? ? ? ? [Hsb Hrb]]. split; try done. split; [done|].
  intros r' [= <-]. apply ring_ty_enqueue; auto.
Qed.
Lemma ty_out_enqueue p : frame_ty p → typed (λ _, True) (out_enqueue p).
Proof.
  intros Hp. apply ty_modify. intros s [? ? ? ? ? ? Hout ?]. split; try done. cbn.
  rewrite ring_enqueue_burst. apply Forall_app_2; [done|]. by apply Forall_take, Forall_singleton.
Qed.

(** ** Frames *)

Context (gSrcMac_ty : mac_ty gSrcMac).

Lemma ether_hdr_ty dst src t : mac_ty dst → mac_ty src →
  bytes_ty (ether_hdr dst src t) ∧ length (ether_hdr dst src t) = 14%nat.
Proof.
  intros [Hd ?] [Hs ?]. unfold ether_hdr. split.
  - auto using bytes_app, bytes_le16.
  - rewrite !length_app, Hd, Hs. done.
Qed.
Lemma ip_hdr_ty proto n sip dip ck : is_u8 proto →
  bytes_ty (ip_hdr proto n sip dip ck) ∧ length (ip_hdr proto n sip dip ck) = 20%nat.
Proof.
  intros Hp. unfold ip_hdr. split; [|done].
  repeat apply bytes_app; auto using bytes_le16, bytes_le32, bytes_cons, bytes_nil;
    repeat apply bytes_cons; try word; try done; apply bytes_nil.
Qed.
Lemma ip_hdr_cksum_ty proto n sip dip : is_u8 proto →
  bytes_ty (ip_hdr_cksum proto n sip dip) ∧ length (ip_hdr_cksum proto n sip dip) = 20%nat.
Proof. apply ip_hdr_ty. Qed.
Lemma arp_frame_ty opcode mac sip dip : mac_ty mac → frame_ty (ng_encode_arp_pkt opcode mac sip dip).
Proof.
  intros Hm. unfold ng_encode_arp_pkt.
  assert (mac_ty (if decide (mac = gDefaultArpMac) then [0; 0; 0; 0; 0; 0] else mac)) as Hd.
  { destruct (decide _); [|done]. split; [done|]. repeat apply bytes_cons; try word. apply bytes_nil. }
  destruct (ether_hdr_ty _ _ RTE_ETHER_TYPE_ARP Hd gSrcMac_ty) as [He Hl]. split.
  - repeat apply bytes_app; auto using bytes_le16, bytes_le32, bytes_mac.
    repeat apply bytes_cons; try word. apply bytes_nil.
  - rewrite !length_app, Hl. destruct gSrcMac_ty as [-> _], Hm as [-> _]. cbn. lia.
Qed.

Lemma tcp_pkt_ty sip dip srcmac dstmac f :
  mac_ty srcmac → mac_ty dstmac → fragment_ty f → typed frame_ty (ng_tcp_pkt sip dip srcmac dstmac f).
Proof.
  intros Hs Hd Hf. unfold ng_tcp_pkt. eapply ty_bind; [apply ty_from_opt|]. intros o _.
  eapply ty_bind; [apply ty_new_mbuf|]. intros _ _. unfold ng_encode_tcp_apppkt.
  eapply ty_bind; [apply ty_from_opt|]. intros n _. eapply ty_bind; [apply ty_from_opt|]. intros u Hu.
  destruct (_ <? _); [apply ty_undef|]. eapply (ty_bind bytes_ty).
  - pose proof (fty_data f Hf) as Hdata. destruct (fr_data f) as [d|].
    + eapply ty_mono; [apply ty_from_opt|]. intros p Hp. eapply ld_bytes_ty; [apply Hdata|exact Hp].
    + destruct (_ =? 0); [apply ty_ret, bytes_nil|apply ty_undef].
  - intros payload Hp. destruct (negb _); [apply ty_undef|]. apply ty_ret.
    destruct (ether_hdr_ty dstmac srcmac RTE_ETHER_TYPE_IPV4 Hd Hs) as [He Hl].
    assert (is_u8 IPPROTO_TCP) as H6 by done.
    destruct (ip_hdr_cksum_ty IPPROTO_TCP (u32 (fr_length f + 14 + 20 + 20 + n * 4)) sip dip H6) as [Hi Hil].
    set (ip := ip_hdr_cksum _ _ _ _) in *. clearbody ip. unfold tcp_header.
    split.
    + repeat apply bytes_app; auto using bytes_le16, bytes_le32, bytes_mac.
      destruct (fty_bytes f Hf). auto using bytes_cons, bytes_nil.
    + rewrite !length_app, Hl, Hil. cbn. lia.
Qed.
Lemma udp_pkt_ty sip dip sport dport srcmac dstmac data n :
  mac_ty srcmac → mac_ty dstmac → bytes_ty data →
  typed frame_ty (ng_udp_pkt sip dip sport dport srcmac dstmac data n).
Proof.
  intros Hs Hd Hdata. unfold ng_udp_pkt. eapply ty_bind; [apply ty_new_mbuf|]. intros _ _.
  unfold ng_encode_udp_apppkt. destruct (_ <? _); [apply ty_undef|].
  eapply ty_bind; [apply ty_from_opt|]. intros payload Hp%ld_bytes_ty; [|done]. apply ty_ret.
  destruct (ether_hdr_ty dstmac srcmac RTE_ETHER_TYPE_IPV4 Hd Hs) as [He Hl].
  assert (is_u8 IPPROTO_UDP) as H17 by done.
  destruct (ip_hdr_cksum_ty IPPROTO_UDP (u16 (n + 42)) sip dip H17) as [Hi Hil].
  set (ip := ip_hdr_cksum _ _ _ _) in *. clearbody ip. unfold udp_header.
  split.
  - repeat apply bytes_app; auto using bytes_le16, bytes_le32, bytes_mac. apply bytes_take, Hp.
  - rewrite !length_app, Hl, Hil. cbn. lia.
Qed.
Lemma send_arp_ty opcode mac sip dip : mac_ty mac → typed frame_ty (ng_send_arp opcode mac sip dip).
Proof.
  intros Hm. unfold ng_send_arp. eapply ty_bind; [apply ty_new_mbuf|]. intros _ _. by apply ty_ret, arp_frame_ty.
Qed.

(** ** Updates *)

Lemma set_status_ty st x : stream_ty x → stream_ty (set_status st x).
Proof. by intros []; split. Qed.
Lemma set_fd_ty fd x : fd_ty fd → stream_ty x → stream_ty (set_fd fd x).
Proof. by intros ? []; split. Qed.
Lemma set_nxt_ty n m x : is_u32 n → is_u32 m → stream_ty x → stream_ty (set_nxt n (Some m) x).
Proof. intros ?? []; split; try done. split; [done|]. by intros a [= <-]. Qed.
Lemma set_local_ty ip port x : is_u32 ip → is_u16 port → stream_ty x → stream_ty (set_local ip gSrcMac port x).
Proof. intros ?? [? [] ? [] ? ? ?]; by split. Qed.
Lemma set_sndbuf_ty r x : ring_ty fragment_ty r → stream_ty x → stream_ty (set_sndbuf (Some r) x).
Proof. intros ? [? ? ? ? ? ? []]; split; try done. split; [|done]. by intros a [= <-]. Qed.
Lemma set_rcvbuf_ty r x : ring_ty fragment_ty r → stream_ty x → stream_ty (set_rcvbuf (Some r) x).
Proof. intros ? [? ? ? ? ? ? []]; split; try done. split; [done|]. by intros a [= <-]. Qed.
Lemma host_rings_ty sb rb h : ring_ty offload_ty sb → ring_ty offload_ty rb → host_ty h → host_ty (host_rings sb rb h).
Proof. by intros ?? []; split. Qed.
Lemma host_local_ty ip port h : is_u32 ip → is_u16 port → host_ty h → host_ty (host_local ip gSrcMac port h).
Proof. by intros ?? []; split. Qed.

Lemma fragment_intro sport dport seqn ackn off fl win urp opt data len :
  is_u16 sport → is_u16 dport → is_u32 seqn → is_u32 ackn → is_u8 off → is_u8 fl → is_u16 win →
  opt_ty is_u16 urp → opt_ty (λ n, n = 0) opt → 0 ≤ len →
  match data with Some d => bytes_ty d ∧ len < Z.of_nat (length d) | None => len = 0 end →
  fragment_ty (mk_fragment sport dport seqn ackn off fl win urp opt data len).
Proof. by split. Qed.
Lemma opt_ty_zero (P : Z → Prop) : P 0 → opt_ty P (Some 0).
Proof. intros ? a [= <-]. done. Qed.
Lemma opt_ty_none {A} (P : A → Prop) : opt_ty P None.
Proof. done. Qed.
Lemma control_ty sport dport seqn ackn fl :
  is_u16 sport → is_u16 dport → is_u32 seqn → is_u32 ackn → is_u8 fl →
  fragment_ty (control_fragment sport dport seqn ackn fl).
Proof.
  intros. apply fragment_intro; try done; by apply opt_ty_zero.
Qed.
End types.

#[export] Hint Resolve ntohs_range ntohl_range set_status_ty set_fd_ty set_nxt_ty set_local_ty set_sndbuf_ty
  set_rcvbuf_ty host_rings_ty host_local_ty ring_ty_enqueue control_ty opt_ty_none bytes_take bytes_drop bytes_app : ty_db.
#[export] Hint Resolve u32_range u16_range u8_range : ty_db.

(** Runs a typed computation: the specification of each call is in the database. *)
Ltac ty_step :=
  lazymatch goal with
  | |- typed _ (ret _) => apply ty_ret; try done
  | |- typed _ (undef _) => apply ty_undef
  | |- typed _ no_fuel => apply ty_no_fuel
  | |- typed _ (bind _ _) =>
      first [eapply ty_bind; [solve [eauto with ty_db]|let h := fresh "Hty" in intros ? h; cbv beta in h]
            |eapply (ty_bind (λ _, True)); [|intros ? _]]
  | |- typed _ (match ?x with _ => _ end) => destruct x eqn:?
  | |- typed _ _ => first [solve [eauto with ty_db]|eapply ty_mono; [solve [eauto with ty_db]|done]]
  end.

Section calls.
Context {R : Type → Type} `{DpdkLaws R} (gSrcMac_ty : mac_ty gSrcMac).

#[local] Hint Resolve ty_malloc ty_new_mbuf ty_rand_r ty_ring_create ty_ring_free ty_get_tcb ty_set_tcb
  ty_get_host ty_set_host ty_add_tcb ty_add_host ty_del_tcb ty_del_host ty_hostinfo ty_hostinfo_ip
  ty_accept_tcb ty_search ty_get_fd ty_set_fd ty_macaddr ty_arp_insert ty_tcb_send ty_tcb_receive
  ty_out_enqueue ty_from_opt tcp_pkt_ty udp_pkt_ty send_arp_ty : ty_db.

Lemma zero_mac_ty : mac_ty [0; 0; 0; 0; 0; 0].
Proof. split; [done|]. repeat apply bytes_cons; try word. apply bytes_nil. Qed.

(** ** The socket calls *)

Lemma nsocket_typed type : typed (R := R) fd_ty (nsocket type).
Proof.
  unfold nsocket. ty_step. assert (fd_ty (-1)) by by left.
  repeat (ty_step; try done).
  - apply ty_add_host. split; try done; [split; [done|]; split; [apply zero_mac_ty|done]|].
    split; auto.
  - apply ty_add_tcb. split; try done; [apply zero_mac_ty|].
    split; [done|]. by intros q [= <-].
Qed.
Lemma nbind_typed fd ip port : is_u32 ip → is_u16 port → typed (R := R) (λ _, True) (nbind fd ip port).
Proof. intros. unfold nbind. repeat ty_step. Qed.
Lemma nlisten_typed fd : typed (R := R) (λ _, True) (nlisten fd).
Proof. unfold nlisten. repeat ty_step. Qed.
Lemma naccept_typed fd : typed (R := R) (λ _, True) (naccept fd).
Proof. unfold naccept. repeat ty_step. Qed.
Lemma nsend_typed fd buf : bytes_ty buf → typed (R := R) (λ _, True) (nsend fd buf).
Proof.
  intros Hbuf. unfold nsend. repeat ty_step. apply ty_tcb_send.
  match goal with Hx : stream_ty _, Ha : st_rcv_nxt _ = Some _ |- _ =>
    destruct Hx as [? ? ? [] ? [? Hr] ?]; specialize (Hr _ Ha) end.
  pose proof (u32_range (Z.of_nat (length buf))).
  apply fragment_intro; try done; try (by apply opt_ty_zero); [word|].
  split.
  - apply bytes_app; [done|]. apply bytes_cons; [word|apply bytes_nil].
  - rewrite length_app. cbn [length]. word.
Qed.

(** What the rings give out, and what is left. *)
Lemma recv_dequeue x r f r' :
  stream_ty x → st_rcvbuf x = Some r → dequeue (R := R) r = Some (f, r') →
  fragment_ty f ∧ stream_ty (set_rcvbuf (Some r') x).
Proof.
  intros Hx Hr Hd. destruct (ring_ty_dequeue _ _ _ _ (proj2 (sty_rings x Hx) r Hr) Hd).
  split; [done|by apply set_rcvbuf_ty].
Qed.
Lemma send_dequeue x r f r' :
  stream_ty x → st_sndbuf x = Some r → dequeue (R := R) r = Some (f, r') →
  fragment_ty f ∧ stream_ty (set_sndbuf (Some r') x).
Proof.
  intros Hx Hr Hd. destruct (ring_ty_dequeue _ _ _ _ (proj1 (sty_rings x Hx) r Hr) Hd).
  split; [done|by apply set_sndbuf_ty].
Qed.
Lemma fragment_out f d n out :
  fragment_ty f → fr_data f = Some d → ld_bytes d 0 n = Some out → bytes_ty out.
Proof.
  intros Hf Hd Ho. pose proof (fty_data f Hf) as Hdata. rewrite Hd in Hdata.
  eapply ld_bytes_ty; [apply Hdata|exact Ho].
Qed.
(** The rest of a fragment, moved to the front of its block. *)
Lemma fragment_rest f d len moved :
  fragment_ty f → 0 ≤ len < fr_length f → fr_data f = Some d →
  ld_bytes d (Z.to_nat len) (Z.to_nat (fr_length f - len)) = Some moved →
  fragment_ty (mk_fragment (fr_sport f) (fr_dport f) (fr_seqnum f) (fr_acknum f) (fr_hdrlen_off f)
    (fr_tcp_flags f) (fr_windows f) (fr_tcp_urp f) (fr_optlen f)
    (Some (moved ++ drop (Z.to_nat (fr_length f - len)) d)) (fr_length f - len)).
Proof.
  intros Hf Hlen Hd Hm. pose proof (fty_data f Hf) as Hdata. rewrite Hd in Hdata. destruct Hdata as [Hb Hl].
  destruct (ld_bytes_ty _ _ _ _ Hb Hm) as [Hmb Hml].
  destruct Hf as [[] [] [] [] ? ? _]. apply fragment_intro; try done; [lia|].
  split; [by apply bytes_app; [|apply bytes_drop]|]. rewrite length_app, length_drop, Hml. lia.
Qed.

Lemma nrecv_typed fd len : 0 ≤ len →
  typed (R := R) (λ o, ∀ n out, o = Some (n, out) → bytes_ty out) (nrecv fd len).
Proof.
  intros Hlen. unfold nrecv. repeat ty_step.
  all: try (intros ? ? [= <- <-]; apply bytes_nil).
  all: match goal with Hx : stream_ty ?x, Hr : st_rcvbuf ?x = Some ?r, Hd : dequeue ?r = Some (?f, ?r') |- _ =>
    destruct (recv_dequeue x r f r' Hx Hr Hd) as [Hf Hx'] end.
  - by apply ty_set_tcb.
  - apply ty_tcb_receive. eapply fragment_rest; [done|lia|done..].
  - intros ? ? [= <- <-]. by eapply fragment_out.
  - intros ? ? [= <- <-]. by eapply fragment_out.
Qed.

(** The same for datagrams. *)
Lemma host_dequeue h o r' : host_ty h → dequeue (R := R) (h_rcvbuf h) = Some (o, r') →
  offload_ty o ∧ ring_ty offload_ty r'.
Proof. intros Hh Hd. by apply (ring_ty_dequeue _ _ _ _ (proj2 (hty_rings h Hh)) Hd). Qed.
Lemma nrecvfrom_typed fd len : 0 ≤ len →
  typed (R := R) (λ o, ∀ n out port ip, o = Some (n, out, port, ip) → bytes_ty out ∧ is_u16 port ∧ is_u32 ip)
    (nrecvfrom fd len).
Proof.
  intros Hlen. unfold nrecvfrom. repeat ty_step.
  all: try (intros ? ? ? ? [= <- <- <- <-]; split; [apply bytes_nil|done]).
  all: match goal with Hh : host_ty ?h, Hd : dequeue _ = Some (?o, ?r) |- _ =>
    destruct (host_dequeue h o r Hh Hd) as [Ho Hr]; destruct (hty_rings h Hh) as [Hs _];
    destruct Ho as [[Hip Hip'] [Hp Hp'] Hl Hb] end.
  - apply ty_set_host. by apply host_rings_ty.
  - apply ty_set_host. apply host_rings_ty; [done| |done]. apply ring_ty_enqueue; [|done].
    split; try done; cbn; [word|]. by eapply ld_bytes_ty.
  - intros ? ? ? ? [= <- <- <- <-]. split; [|done]. by eapply ld_bytes_ty.
  - intros ? ? ? ? [= <- <- <- <-]. split; [|done]. by eapply ld_bytes_ty.
Qed.
Lemma nsendto_typed fd buf ip port : bytes_ty buf → is_u32 ip → is_u16 port →
  typed (R := R) (λ _, True) (nsendto fd buf ip port).
Proof.
  intros. unfold nsendto. repeat ty_step. apply ty_set_host.
  match goal with Hh : host_ty ?h |- _ => destruct (hty_rings h Hh), (hty_local h Hh) as (?&?&?) end.
  apply host_rings_ty; [|done..]. apply ring_ty_enqueue; [|done]. split; try done. apply u16_range.
Qed.
Lemma nclose_typed fd : typed (R := R) (λ _, True) (nclose fd).
Proof.
  unfold nclose. repeat ty_step. apply ty_tcb_send.
  match goal with Hx : stream_ty _, Ha : st_rcv_nxt _ = Some _ |- _ =>
    destruct Hx as [? ? ? [] ? [? Hr] ?]; specialize (Hr _ Ha) end.
  by apply fragment_intro.
Qed.
#[local] Hint Resolve nsocket_typed nbind_typed nlisten_typed naccept_typed nsend_typed nrecv_typed
  nrecvfrom_typed nsendto_typed nclose_typed : ty_db.

(** ** Packets *)

Lemma stream_create_typed sip dip sport dport :
  is_u32 sip → is_u32 dip → is_u16 sport → is_u16 dport →
  typed (R := R) (opt_ty stream_ty) (ng_tcp_stream_create sip dip sport dport).
Proof.
  intros. unfold ng_tcp_stream_create. repeat ty_step. intros x [= <-].
  split; try done; [by left|]. split; [apply u32_range|done].
Qed.
#[local] Hint Resolve stream_create_typed : ty_db.

Lemma handle_listen_typed i tcp ip : tcp_ty tcp → ipv4_ty ip → typed (R := R) (λ _, True) (ng_tcp_handle_listen i tcp ip).
Proof.
  intros [[Hsp Hdp] _] [_ [Hs Hd]]. unfold ng_tcp_handle_listen. repeat ty_step.
  all: match goal with Hx : opt_ty stream_ty ?o, Ho : ?o = Some ?x |- _ =>
    specialize (Hx x Ho); destruct (sty_nums x Hx) end.
  - apply ty_set_tcb, set_nxt_ty; [done|apply u32_range|done].
  - apply ty_tcb_send, control_ty; [done..|apply u32_range|done].
Qed.
Lemma handle_syn_rcvd_typed i tcp : typed (R := R) (λ _, True) (ng_tcp_handle_syn_rcvd i tcp).
Proof. unfold ng_tcp_handle_syn_rcvd. repeat ty_step. Qed.
Lemma enqueue_recvbuffer_typed i p tcp n : bytes_ty p →
  typed (R := R) (λ _, True) (ng_tcp_enqueue_recvbuffer i p tcp n).
Proof.
  intros Hp. unfold ng_tcp_enqueue_recvbuffer. repeat ty_step; apply ty_tcb_receive, fragment_intro;
    try done; try apply ntohs_range; try (by apply opt_ty_zero); [lia|].
  match goal with Hl : ld_bytes _ _ _ = Some _ |- _ => destruct (ld_bytes_ty _ _ _ _ Hp Hl) as [Hb Hlen] end.
  split; [apply bytes_app; [done|apply bytes_cons; [done|apply bytes_nil]]|].
  rewrite length_app, Hlen. cbn [length]. lia.
Qed.
Lemma send_ackpkt_typed i tcp : tcp_ty tcp → typed (R := R) (λ _, True) (ng_tcp_send_ackpkt i tcp).
Proof.
  intros [[] _]. unfold ng_tcp_send_ackpkt. repeat ty_step.
  match goal with Hx : stream_ty ?x, Ha : st_rcv_nxt ?x = Some _ |- _ =>
    destruct (sty_nums x Hx) as [? Hr]; specialize (Hr _ Ha) end.
  by apply ty_tcb_send, control_ty.
Qed.
Lemma advance_typed i tcp n : typed (R := R) (λ _, True) (advance i tcp n).
Proof. unfold advance. repeat ty_step. Qed.
#[local] Hint Resolve handle_listen_typed handle_syn_rcvd_typed enqueue_recvbuffer_typed send_ackpkt_typed
  advance_typed : ty_db.
Lemma handle_established_typed i p tcp n : bytes_ty p → tcp_ty tcp →
  typed (R := R) (λ _, True) (ng_tcp_handle_established i p tcp n).
Proof. intros. unfold ng_tcp_handle_established. repeat ty_step. Qed.
Lemma handle_last_ack_typed i tcp : typed (R := R) (λ _, True) (ng_tcp_handle_last_ack i tcp).
Proof. unfold ng_tcp_handle_last_ack. repeat ty_step. Qed.
Lemma handle_close_wait_typed i tcp : typed (R := R) (λ _, True) (ng_tcp_handle_close_wait i tcp).
Proof. by apply ty_ret. Qed.
#[local] Hint Resolve handle_close_wait_typed handle_established_typed handle_last_ack_typed : ty_db.

Lemma clear_cksum_ty p : bytes_ty p → bytes_ty (clear_cksum p).
Proof. intros Hp. unfold clear_cksum. apply Forall_insert; [apply Forall_insert; [by apply bytes_drop|done]|done]. Qed.
Lemma tcp_process_typed p : bytes_ty p → typed (R := R) (λ _, True) (ng_tcp_process p).
Proof.
  intros Hp. unfold ng_tcp_process. ty_step. ty_step.
  assert (ipv4_ty a) by by eapply load_ipv4_ty. assert (tcp_ty a0) by by eapply load_tcp_ty.
  assert (bytes_ty (take 34 p ++ clear_cksum p)) by (apply bytes_app; [by apply bytes_take|by apply clear_cksum_ty]).
  repeat ty_step.
Qed.
Lemma udp_process_typed p : bytes_ty p → typed (R := R) (λ _, True) (udp_process p).
Proof.
  intros Hp. unfold udp_process. ty_step. ty_step.
  assert (ipv4_ty a) as [_ []] by by eapply load_ipv4_ty.
  assert (is_u16 (udp_src_port a0) ∧ is_u16 (udp_dst_port a0)) as [] by by eapply load_udp_ty.
  repeat ty_step. apply ty_set_host.
  match goal with Hh : host_ty ?h |- _ => destruct (hty_rings h Hh) end.
  apply host_rings_ty; [done| |done]. apply ring_ty_enqueue; [|done]. split; try done; cbn; [apply ntohs_range|].
  by eapply ld_bytes_ty.
Qed.

(** ** Output *)

Lemma default_mac_ty : mac_ty gDefaultArpMac.
Proof. split; [done|]. repeat apply bytes_cons; try word. apply bytes_nil. Qed.
#[local] Hint Resolve default_mac_ty : ty_db.

Lemma tcp_out_one_typed i : typed (R := R) (λ _, True) (tcp_out_one i).
Proof.
  unfold tcp_out_one. ty_step. destruct (st_sndbuf a) as [r|] eqn:Hr; [|by apply ty_ret].
  destruct (dequeue r) as [[f r']|] eqn:Hd; [|by apply ty_ret].
  destruct (send_dequeue a r f r' Hty Hr Hd) as [Hf Hx']. pose proof (sty_mac a Hty) as Hmac.
  ty_step. ty_step. destruct a1 as [dstmac|].
  - specialize (Hty1 dstmac eq_refl). repeat ty_step.
  - repeat ty_step.
Qed.
Lemma udp_out_one_typed i : typed (R := R) (λ _, True) (udp_out_one i).
Proof.
  unfold udp_out_one. ty_step. destruct (dequeue (h_sndbuf a)) as [[o r]|] eqn:Hd; [|by apply ty_ret].
  destruct (hty_rings a Hty) as [Hs Hr]. destruct (hty_local a Hty) as (_&Hmac&_).
  destruct (ring_ty_dequeue _ _ _ _ Hs Hd) as [Ho Hr']. pose proof (oty_data o Ho) as Hb.
  ty_step. ty_step. destruct a1 as [dstmac|].
  - specialize (Hty1 dstmac eq_refl). repeat ty_step.
  - repeat ty_step.
Qed.
Lemma out_loop_typed one l : (∀ i, typed (R := R) (λ _, True) (one i)) → typed (λ _, True) (out_loop one l).
Proof.
  intros Hone. induction l as [|i l IH]; cbn [out_loop]; [by apply ty_ret|].
  eapply ty_bind; [apply Hone|]. by intros _ _.
Qed.
Lemma tcp_out_typed : typed (R := R) (λ _, True) ng_tcp_out.
Proof.
  unfold ng_tcp_out. eapply (ty_bind (λ _, True)); [by apply ty_gets|]. intros n _.
  eapply ty_bind; [by apply out_loop_typed, tcp_out_one_typed|]. intros. by apply ty_ret.
Qed.
Lemma udp_out_typed : typed (R := R) (λ _, True) udp_out.
Proof.
  unfold udp_out. eapply (ty_bind (λ _, True)); [by apply ty_gets|]. intros n _.
  eapply ty_bind; [by apply out_loop_typed, udp_out_one_typed|]. intros. by apply ty_ret.
Qed.
#[local] Hint Resolve tcp_process_typed udp_process_typed tcp_out_typed udp_out_typed : ty_db.

(** ** The loop *)

Definition mbufs_ty (l : list (option (list Z))) : Prop := Forall (opt_ty bytes_ty) l.
Lemma all_frames_ty l fs : mbufs_ty l → all_frames l = Some fs → Forall bytes_ty fs.
Proof.
  intros Hl. revert fs. induction Hl as [|[p|] l Hp Hl IH]; intros fs; cbn [all_frames]; [by intros [= <-]| |done].
  destruct (all_frames l) as [fs'|]; [|done]. intros [= <-]. apply Forall_cons. auto.
Qed.
Lemma kni_typed mbufs : mbufs_ty mbufs → typed (R := R) mbufs_ty (rte_kni_tx_burst mbufs).
Proof.
  intros Hm. unfold rte_kni_tx_burst. ty_step. apply all_frames_ty in Hty; [|done].
  eapply ty_bind; [apply ty_modify|].
  - intros s [? ? ? ? ? ? ? Hk]. split; try done. cbn. by apply Forall_app_2.
  - intros _ _. apply ty_ret. by apply Forall_replicate.
Qed.
Lemma pkt_one_typed mbufs i : mbufs_ty mbufs → typed (R := R) mbufs_ty (pkt_one mbufs i).
Proof.
  intros Hm. unfold pkt_one. ty_step.
  assert (bytes_ty a) as Ha.
  { destruct (mbufs !! i) as [o|] eqn:Hi; [|done]. cbn in Hty. by apply (Forall_lookup_1 _ _ _ _ Hm Hi). }
  assert (mbufs_ty (<[i:=None]> mbufs)) as Hm' by by apply Forall_insert.
  ty_step. destruct (_ =? _); [|by apply kni_typed]. ty_step.
  assert (ipv4_ty a1) as [_ []] by by eapply load_ipv4_ty. ty_step.
  match goal with Hl : ld_bytes _ _ _ = Some ?l |- _ => assert (mac_ty l) by (split; by eapply ld_bytes_ty in Hl as []) end.
  repeat ty_step. by apply kni_typed.
Qed.
Lemma pkt_loop_typed l mbufs : mbufs_ty mbufs → typed (R := R) (λ _, True) (pkt_loop l mbufs).
Proof.
  revert mbufs. induction l as [|i l IH]; intros mbufs Hm; cbn [pkt_loop]; [by apply ty_ret|].
  eapply ty_bind; [by apply pkt_one_typed|]. intros m Hm'. by apply IH.
Qed.
Lemma some_mbufs_ty l : Forall bytes_ty l → mbufs_ty (Some <$> l).
Proof. intros Hl. apply Forall_fmap. eapply Forall_impl; [exact Hl|]. by intros p Hp q [= <-]. Qed.
Lemma pkt_round_typed : typed (R := R) (λ _, True) pkt_process_round.
Proof.
  unfold pkt_process_round. eapply ty_bind; [apply ty_get|]. intros s Hs.
  destruct (ring_dequeue_burst BURST_SIZE (us_in s)) as (r&Er&Hr). rewrite Er.
  eapply ty_bind; [apply ty_put|].
  - destruct Hs. split; try done. cbn. rewrite Hr. by apply Forall_drop.
  - intros _ _. eapply ty_bind; [|intros _ _; repeat ty_step].
    apply pkt_loop_typed, some_mbufs_ty, Forall_take, Hs.
Qed.

Lemma gLocalIp_ty : is_u32 gLocalIp.
Proof. done. Qed.
Lemma timer_one_typed i : typed (R := R) (λ _, True) (timer_one i).
Proof.
  unfold timer_one. eapply ty_bind; [apply ty_macaddr|]. intros o Ho.
  eapply (ty_bind frame_ty); [|intros p Hp; by apply ty_out_enqueue].
  destruct o as [m|]; apply send_arp_ty; auto. apply default_mac_ty.
Qed.
Lemma timer_loop_typed fuel i : typed (R := R) (λ _, True) (timer_loop fuel i).
Proof.
  revert i. induction fuel as [|fuel IH]; intros i; cbn [timer_loop]; [apply ty_no_fuel|].
  destruct (_ <=? _); [|by apply ty_ret]. eapply ty_bind; [apply timer_one_typed|]. auto.
Qed.
Lemma main_receive_typed rx : Forall bytes_ty rx → typed (R := R) (λ _, True) (main_receive rx).
Proof.
  intros Hrx. unfold main_receive. destruct (_ <? _)%nat; [apply ty_undef|]. apply ty_modify. intros s Hs.
  destruct (decide _); [done|]. destruct Hs. split; try done. cbn.
  rewrite ring_enqueue_burst. apply Forall_app_2; [done|]. by apply Forall_take.
Qed.
Lemma main_transmit_typed : typed (R := R) (Forall frame_ty) main_transmit.
Proof.
  unfold main_transmit. eapply ty_bind; [apply ty_get|]. intros s Hs.
  destruct (ring_dequeue_burst BURST_SIZE (us_out s)) as (r&Er&Hr). rewrite Er.
  eapply ty_bind; [apply ty_put|intros _ _; apply ty_ret, Forall_take, Hs].
  destruct Hs. split; try done. cbn. rewrite Hr. by apply Forall_drop.
Qed.

(** ** The servers *)

Lemma tcp_start_typed : typed (R := R) (λ _, True) tcp_server_start.
Proof.
  unfold tcp_server_start. repeat ty_step.
Qed.
Lemma fill_ty b out : bytes_ty b → bytes_ty out → bytes_ty (fill b out).
Proof. intros. by apply bytes_app; [|apply bytes_drop]. Qed.
Lemma tcp_event_typed lfd fd : typed (R := R) (λ _, True) (tcp_server_event lfd fd).
Proof.
  unfold tcp_server_event. destruct (_ =? _); [repeat ty_step|].
  eapply ty_bind; [apply nrecv_typed; lia|]. intros [[n out]|] Ho; [|by apply ty_ret].
  specialize (Ho n out eq_refl).
  assert (bytes_ty (fill (replicate BUFFER_SIZE 0) out)) as Hb.
  { apply fill_ty; [|done]. by apply Forall_replicate. }
  repeat ty_step; apply nsend_typed; [apply bytes_nil|]. by eapply ld_bytes_ty.
Qed.
Lemma udp_start_typed : typed (R := R) (λ _, True) udp_server_start.
Proof.
  unfold udp_server_start. repeat ty_step. by apply nbind_typed; [apply gLocalIp_ty|apply ntohs_range].
Qed.
Lemma udp_round_typed fd buffer : bytes_ty buffer → typed (R := R) (λ _, True) (udp_server_round fd buffer).
Proof.
  intros Hb. unfold udp_server_round.
  eapply ty_bind; [apply nrecvfrom_typed; lia|]. intros [[[[n out] port] ip]|] Ho; [|by apply ty_ret].
  destruct (Ho n out port ip eq_refl) as (Hout&Hport&Hip). destruct (_ <? _); [by apply ty_ret|].
  repeat ty_step.
Qed.

(** ** Runs *)

(** What the threads of the process do: the socket calls of an application, the turns of the
    network loop, the parts of a round of main, and the two servers. *)
Inductive activity :=
| ASocket (type : Z) | ABind (fd ip port : Z) | AListen (fd : Z) | AAccept (fd : Z)
| ASend (fd : Z) (buf : list Z) | ARecv (fd len : Z) | ARecvfrom (fd len : Z)
| ASendto (fd : Z) (buf : list Z) (ip port : Z) | AClose (fd : Z)
| APackets | AReceive (rx : list (list Z)) | ATransmit | ATimer
| ATcpStart | ATcpEvent (listenfd connfd : Z) | AUdpStart | AUdpRound (fd : Z) (buffer : list Z).
(** The result is the frames that the port is offered. *)
Definition perform (a : activity) : M (ustack R) (list (list Z)) :=
  match a with
  | ASocket type => nsocket type;; ret []
  | ABind fd ip port => nbind fd ip port;; ret []
  | AListen fd => nlisten fd;; ret []
  | AAccept fd => naccept fd;; ret []
  | ASend fd buf => nsend fd buf;; ret []
  | ARecv fd len => nrecv fd len;; ret []
  | ARecvfrom fd len => nrecvfrom fd len;; ret []
  | ASendto fd buf ip port => nsendto fd buf ip port;; ret []
  | AClose fd => nclose fd;; ret []
  | APackets => pkt_process_round;; ret []
  | AReceive rx => main_receive rx;; ret []
  | ATransmit => main_transmit
  | ATimer => arp_request_timer_cb;; ret []
  | ATcpStart => tcp_server_start;; ret []
  | ATcpEvent listenfd connfd => tcp_server_event listenfd connfd;; ret []
  | AUdpStart => udp_server_start;; ret []
  | AUdpRound fd buffer => udp_server_round fd buffer;; ret []
  end.
(** The arguments have the types of the C parameters; a frame is a list of bytes. *)
Definition activity_ty (a : activity) : Prop :=
  match a with
  | ABind _ ip port => is_u32 ip ∧ is_u16 port
  | ASend _ buf => bytes_ty buf
  | ARecv _ len | ARecvfrom _ len => 0 ≤ len
  | ASendto _ buf ip port => bytes_ty buf ∧ is_u32 ip ∧ is_u16 port
  | AReceive rx => Forall bytes_ty rx
  | AUdpRound _ buffer => bytes_ty buffer
  | _ => True
  end.
Fixpoint activities (l : list activity) : M (ustack R) (list (list Z)) :=
  match l with [] => ret [] | a :: l => out ← perform a; outs ← activities l; ret (out ++ outs) end.

(** The state main starts with; allocations and random numbers are arbitrary. *)
Definition boot (plan : list bool) (rand : list Z) : ustack R :=
  mk_us R [] [] (replicate (Z.to_nat MAX_FD_COUNT) 0) [] 0 rte_ring_new rte_ring_new [] [] plan rand.
Lemma boot_ty plan rand : stack_ty (boot plan rand).
Proof.
  split; cbn; try done.
  - split; [apply length_replicate|]. apply Forall_replicate. word.
  - by split; [apply NoDup_nil_2|].
  - by rewrite ring_items_new.
  - by rewrite ring_items_new.
Qed.

Lemma ty_then (m : M (ustack R) unit) : typed (λ _, True) m → typed (Forall frame_ty) (m;; ret []).
Proof. intros Hm. eapply ty_bind; [exact Hm|]. intros _ _. by apply ty_ret. Qed.
Lemma perform_typed a : activity_ty a → typed (Forall frame_ty) (perform a).
Proof.
  destruct a; cbn [activity_ty perform]; intros Ha; try (by apply main_transmit_typed);
    eapply ty_bind; try (intros ? _; by apply ty_ret).
  - apply nsocket_typed.
  - by apply nbind_typed; apply Ha.
  - apply nlisten_typed.
  - apply naccept_typed.
  - by apply nsend_typed.
  - by apply nrecv_typed.
  - by apply nrecvfrom_typed.
  - by apply nsendto_typed; apply Ha.
  - apply nclose_typed.
  - apply pkt_round_typed.
  - by apply main_receive_typed.
  - apply timer_loop_typed.
  - apply tcp_start_typed.
  - apply tcp_event_typed.
  - apply udp_start_typed.
  - by apply udp_round_typed.
Qed.

(** C17: The stack stays well-typed.  From the start, whatever calls applications make, whatever
    frames arrive and whenever frames leave, in any order, as long as nothing undefined
    happens: ports, addresses and sequence numbers keep their widths, the descriptor bitmap
    keeps its size, every queued TCP fragment has no options and a block longer than its
    length says, the queued UDP blocks are bytes, no address has two ARP entries and
    arp_count counts them, and every frame that the port is offered is a sequence of at
    least 42 bytes.  (The port's own address has 6 bytes.)  Of a round of main the steps are its parts: receiving, taking the
    frames to transmit, and the timer; the frees in between, which free a transmitted
    frame again, are not among them. *)
Theorem stack_stays_typed plan rand l :
  Forall activity_ty l → wlp (activities l) (λ frames s, stack_ty s ∧ Forall frame_ty frames) (boot plan rand).
Proof.
  intros Hl. generalize (boot plan rand), (boot_ty plan rand). induction Hl as [|a l Ha Hl IH]; [by intros s Hs|].
  eapply ty_bind; [by apply perform_typed|]. intros out Hout. eapply ty_bind; [exact IH|]. intros outs Houts.
  apply ty_ret. by apply Forall_app_2.
Qed.
End calls.

#[local] Existing Instance list_dpdk.
#[local] Existing Instance list_dpdk_laws.
(** A client connects and sends, the server answers, and the frames leave. *)
Definition demo_run : list activity :=
  [ATcpStart; AReceive [demo_frame 41 2]; ATimer; APackets; ATransmit; AReceive [demo_frame 42 16];
   APackets; ATransmit; ATcpEvent 3 3; ASend 4 [72; 105]; APackets; ATransmit].
Lemma stack_stays_typed_witness :
  ∃ frames s', activities (R := list) demo_run (boot [] []) = Ok (frames, s') ∧ (32 < length frames)%nat ∧
    stack_ty s' ∧ Forall frame_ty frames.
Proof.
  assert (mac_ty (gSrcMac (R := list))) as Hmac.
  { split; [done|]. unfold bytes_ty, is_u8. refine (bool_decide_unpack _ _). by vm_compute. }
  assert (Forall activity_ty demo_run) as Hacts.
  { assert (∀ f, f = demo_frame 41 2 ∨ f = demo_frame 42 16 → bytes_ty f) as Hf.
    { intros f [-> | ->]; unfold bytes_ty, is_u8; refine (bool_decide_unpack _ _); by vm_compute. }
    assert (bytes_ty [72; 105]) by (repeat apply bytes_cons; [word..|apply bytes_nil]).
    unfold demo_run. rewrite !Forall_cons; cbn [activity_ty]; split_and!; try done; apply Forall_singleton; auto. }
  destruct (activities (R := list) demo_run (boot [] [])) as [[frames s']|w|] eqn:Hrun;
    [|vm_compute in Hrun; discriminate..].
  exists frames, s'. split; [done|]. split.
  - assert (match activities (R := list) demo_run (boot [] []) with Ok (fs, _) => (32 <? length fs)%nat | _ => false end = true) as Hlen
      by (vm_compute; reflexivity).
    rewrite Hrun in Hlen. by apply Nat.ltb_lt.
  - exact (wlp_run _ _ _ _ _ (stack_stays_typed Hmac [] [] _ Hacts) Hrun).
Defined.
