(* ===== verification/UsEpoll.v ===== *)
(** The epoll of the user-space stack (senior/2.4_Ustack/tcp_concurrency.c, the variant of
    tcp.c that is built with ENABLE_SINGLE_EPOLL): nepoll_create, nepoll_ctl, nepoll_wait,
    the callback of the network loop, the handlers that call it, and the echo server over
    it.  The red-black tree that nty_tree.h generates is the map from descriptors to items,
    the LIST macros of sys/queue.h work on the list of the addresses of the items. *)
From S2P Require Import Prelude UsWire UsSock UsTcp.

Definition EPOLLIN : Z := 0x0001.
Definition EPOLLERR : Z := 0x0008.
Definition EPOLLHUP : Z := 0x0010.
Definition EPOLL_CTL_ADD : Z := 1.
Definition EPOLL_CTL_DEL : Z := 2.
Definition EPOLL_CTL_MOD : Z := 3.

(** struct epitem and struct eventpoll; an int is [None] before it is written.  The data of
    an event is its fd, [waiting] has no reader. *)
Record epitem := Epitem { rdy : option Z; sockfd : Z; events : Z; data_fd : Z }.
Record eventpoll := Eventpoll {
  ep_fd : Z; rbr : gmap Z nat; rbcnt : Z; rdlist : list nat; rdnum : option Z }.

(** The stack, table->ep, the live items and the next fresh address. *)
Record cstack {R : Type → Type} := Cstack {
  c_us : ustack R; c_ep : option eventpoll; c_items : gmap nat epitem; c_brk : nat }.
Arguments cstack : clear implicits.

Section epoll.
Context {R : Type → Type} `{Dpdk R}.
Abbreviation store := (cstack R).

(** What an int of a block from rte_malloc holds: DPDK promises nothing ([None]). *)
Context (fresh : option Z).

Definition us {A} (m : M (ustack R) A) : M store A := λ s,
  match m (c_us s) with
  | Ok (a, u) => Ok (a, Cstack R u (c_ep s) (c_items s) (c_brk s))
  | UB w => UB w | OutOfFuel => OutOfFuel
  end.
Definition set_ep (ep : eventpoll) : M store unit :=
  modify (λ s, Cstack R (c_us s) (Some ep) (c_items s) (c_brk s)).
Definition item (p : nat) : M store epitem :=
  i ← gets (λ s, c_items s !! p); from_opt DanglingDeref i.
Definition set_item (p : nat) (i : epitem) : M store unit :=
  item p;; modify (λ s, Cstack R (c_us s) (c_ep s) (<[p := i]> (c_items s)) (c_brk s)).
(** The macros write into the neighbour. *)
Definition first_item (l : list nat) : M store unit :=
  match l with [] => ret () | q :: _ => item q;; ret () end.

Definition eventpoll_of : M store eventpoll := ep ← gets c_ep; from_opt NullDeref ep.

(** [None]: after signalling, control reaches the end of the function without a return, so
    that it has no value; none of its callers asks for one. *)
Definition epoll_event_callback (sockid event : Z) : M store (option Z) :=
  ep ← eventpoll_of;
  match rbr ep !! sockid with
  | None => ret (Some (-1))
  | Some p =>
      epi ← item p;
      r ← from_opt IndetRead (rdy epi);
      if negb (r =? 0) then
        set_item p (Epitem (rdy epi) (sockfd epi) (Z.lor (events epi) event) (data_fd epi));;
        ret (Some 1)
      else
        set_item p (Epitem (Some 1) (sockfd epi) (events epi) (data_fd epi));;
        first_item (rdlist ep);;
        n ← from_opt IndetRead (rdnum ep);
        set_ep (Eventpoll (ep_fd ep) (rbr ep) (rbcnt ep) (p :: rdlist ep) (Some (n + 1)));;
        ret None
  end.

(** [inits]: the initialisations of the four locks succeed. *)
Definition nepoll_create (size : Z) (inits : bool) : M store Z :=
  if size <=? 0 then ret (-1) else
  epfd ← us get_fd_frombitmap;
  ep ← us (rte_malloc 176);
  if negb ep then us (set_fd_frombitmap epfd);; ret (-1) else
  set_ep (Eventpoll epfd ∅ 0 [] fresh);;
  if inits : bool then ret epfd else undef InvalidFree.

(** The cast of get_hostinfo_fromfd, which gives sockets as well. *)
Definition eventpoll_fromfd (epfd : Z) : M store (option eventpoll) :=
  info ← us (get_hostinfo_fromfd epfd);
  match info with
  | Some _ => undef TypePun
  | None =>
      ep ← gets c_ep;
      ret (match ep with Some ep => if ep_fd ep =? epfd then Some ep else None | None => None end)
  end.

(** [event] is NULL or the events and the fd. *)
Definition nepoll_ctl (epfd op sockid : Z) (event : option (Z * Z)) : M store Z :=
  ep ← eventpoll_fromfd epfd;
  match ep with
  | None => ret (-1)
  | Some ep =>
      if bool_decide (event = None) && negb (op =? EPOLL_CTL_DEL) then ret (-1) else
      if op =? EPOLL_CTL_ADD then
        if rbr ep !! sockid is Some _ then ret (-1) else
        ok ← us (rte_malloc 72);
        if negb ok then ret (-1) else
        '(ev, dfd) ← from_opt NullDeref event;
        p ← gets c_brk;
        modify (λ s, Cstack R (c_us s) (c_ep s) (<[p := Epitem fresh sockid ev dfd]> (c_items s)) (S p));;
        set_ep (Eventpoll (ep_fd ep) (<[sockid := p]> (rbr ep)) (rbcnt ep + 1) (rdlist ep) (rdnum ep));;
        ret 0
      else if op =? EPOLL_CTL_DEL then
        match rbr ep !! sockid with
        | None => ret (-1)
        | Some p =>
            set_ep (Eventpoll (ep_fd ep) (delete sockid (rbr ep)) (rbcnt ep - 1) (rdlist ep) (rdnum ep));;
            undef InvalidFree
        end
      else if op =? EPOLL_CTL_MOD then
        match rbr ep !! sockid with
        | None => ret (-1)
        | Some p =>
            epi ← item p;
            '(ev, _) ← from_opt NullDeref event;
            set_item p (Epitem (rdy epi) (sockfd epi) (Z.lor ev (Z.lor EPOLLERR EPOLLHUP)) (data_fd epi));;
            ret 0
        end
      else ret 0
  end.

(** ** Waiting *)

(** What happens in one wait on the condition variable: its result, and the callbacks that
    the network loop runs meanwhile. *)
Definition pause : Type := Z * list (Z * Z).
Definition ETIMEDOUT : Z := 110.
Fixpoint callbacks (l : list (Z * Z)) : M store unit :=
  match l with
  | [] => ret ()
  | (sockid, event) :: l => epoll_event_callback sockid event;; callbacks l
  end.
(** The loop on the condition variable.  [None]: it still waits; [Some false]: the wait
    failed.  The deadline is only handed to pthread_cond_timedwait. *)
Fixpoint wait_loop (pauses : list pause) (timeout : Z) : M store (option bool) :=
  ep ← eventpoll_of;
  n ← from_opt IndetRead (rdnum ep);
  if negb (n =? 0) || (timeout =? 0) then ret (Some true) else
  match pauses with
  | [] => ret None
  | (r, cbs) :: pauses =>
      callbacks cbs;;
      if 0 <? timeout then
        if negb (r =? 0) && negb (r =? ETIMEDOUT) then ret (Some false)
        else wait_loop pauses 0
      else if negb (r =? 0) then ret (Some false)
      else wait_loop pauses timeout
  end.
(** The loop over rdlist: the events of the first [num] items.  LIST_REMOVE writes into the
    next item. *)
Fixpoint collect (l : list nat) (num : Z) : M store (list (Z * Z)) :=
  match l with
  | [] => ret []
  | p :: l =>
      if num =? 0 then ret [] else
      epi ← item p;
      first_item l;;
      set_item p (Epitem (Some 0) (sockfd epi) (events epi) (data_fd epi));;
      ep ← eventpoll_of;
      n ← from_opt IndetRead (rdnum ep);
      set_ep (Eventpoll (ep_fd ep) (rbr ep) (rbcnt ep) l (Some (n - 1)));;
      rest ← collect l (num - 1);
      ret ((events epi, data_fd epi) :: rest)
  end.
(** The result and the events written; [None]: it waits. *)
Definition nepoll_wait (epfd maxevents timeout : Z) (pauses : list pause)
    : M store (option (Z * list (Z * Z))) :=
  ep ← eventpoll_fromfd epfd;
  match ep with
  | None => ret (Some (-1, []))
  | Some _ =>
      if maxevents <=? 0 then ret (Some (-1, [])) else
      w ← wait_loop pauses timeout;
      match w with
      | None => ret None
      | Some false => ret (Some (-1, []))
      | Some true =>
          ep ← eventpoll_of;
          n ← from_opt IndetRead (rdnum ep);
          evs ← collect (rdlist ep) (Z.min n maxevents);
          ret (Some (Z.of_nat (length evs), evs))
      end
  end.

(** ** The handlers *)

Definition c_ng_tcp_stream_create (sip dip sport dport : Z) : M (ustack R) (option (ng_tcp_stream R)) :=
  stream ← rte_malloc 160;
  if negb stream then ret None else
  sndbuf ← rte_ring_create (ring_name "sndbuf" sip sport);
  rcvbuf ← rte_ring_create (ring_name "bufname" sip sport);
  next ← rand_r;
  ret (Some (mk_stream R (-1) dip gSrcMac dport IPPROTO_TCP sport sip (u32 (Z.rem next TCP_MAX_SEQ)) None LISTEN sndbuf rcvbuf)).
Definition c_ng_tcp_handle_listen (i : nat) (tcp : tcp_hdr) (ip : ipv4_hdr) : M (ustack R) Z :=
  if has_flag tcp RTE_TCP_SYN_FLAG then
    stream ← get_tcb i;
    if decide (st_status stream = LISTEN) then
      syn ← c_ng_tcp_stream_create (src_addr ip) (dst_addr ip) (src_port tcp) (dst_port tcp);
      syn ← from_opt NullDeref syn;
      modify (with_tcbs (cons syn));;
      fragment ← rte_malloc 80;
      if negb fragment then ret (-1) else
      let acknum := u32 (ntohl (sent_seq tcp) + 1) in
      set_tcb 0 (set_nxt (st_snd_nxt syn) (Some acknum) syn);;
      tcb_send 0 (control_fragment (dst_port tcp) (src_port tcp) (st_snd_nxt syn) acknum
        (Z.lor RTE_TCP_SYN_FLAG RTE_TCP_ACK_FLAG));;
      syn ← get_tcb 0;
      set_tcb 0 (set_status SYN_RCVD syn);;
      ret 0
    else ret 0
  else ret 0.
Definition c_ng_tcp_handle_syn_rcvd (i : nat) (tcp : tcp_hdr) : M store Z :=
  if has_flag tcp RTE_TCP_ACK_FLAG then
    stream ← us (get_tcb i);
    if decide (st_status stream = SYN_RCVD) then
      us (set_tcb i (set_status ESTABLISHED stream));;
      listener ← us (ng_tcp_stream_search 0 0 0 (st_dport stream));
      match listener with
      | None => undef ProcessExit
      | Some j =>
          listener ← us (get_tcb j);
          epoll_event_callback (st_fd listener) EPOLLIN;; ret 0
      end
    else ret 0
  else ret 0.
Definition c_ng_tcp_handle_established (i : nat) (p : list Z) (tcp : tcp_hdr) (tcplen : Z) : M store Z :=
  (if has_flag tcp RTE_TCP_PSH_FLAG then
     us (ng_tcp_enqueue_recvbuffer i p tcp tcplen);;
     stream ← us (get_tcb i);
     epoll_event_callback (st_fd stream) EPOLLIN;;
     us (advance i tcp (tcplen - Z.shiftr (data_off tcp) 4 * 4));;
     us (ng_tcp_send_ackpkt i tcp);; ret ()
   else ret ());;
  (if has_flag tcp RTE_TCP_FIN_FLAG then
     stream ← us (get_tcb i);
     us (set_tcb i (set_status CLOSE_WAIT stream));;
     us (ng_tcp_enqueue_recvbuffer i p tcp (Z.shiftr (data_off tcp) 4));;
     stream ← us (get_tcb i);
     epoll_event_callback (st_fd stream) EPOLLIN;;
     us (advance i tcp 1);;
     us (ng_tcp_send_ackpkt i tcp);; ret ()
   else ret ());;
  ret 0.
Definition c_ng_tcp_process (p : list Z) : M store Z :=
  ip ← from_opt OutOfBounds (load_ipv4 p);
  tcp ← from_opt OutOfBounds (load_tcp p);
  if negb (u16 (rte_ipv4_udptcp_cksum (take 20 (drop 14 p)) (clear_cksum p)) =? cksum tcp) then ret (-1) else
  stream ← us (ng_tcp_stream_search (src_addr ip) (dst_addr ip) (src_port tcp) (dst_port tcp));
  match stream with
  | None => ret (-2)
  | Some i =>
      x ← us (get_tcb i);
      (match st_status x with
       | LISTEN => us (c_ng_tcp_handle_listen i tcp ip)
       | SYN_RCVD => c_ng_tcp_handle_syn_rcvd i tcp
       | ESTABLISHED => c_ng_tcp_handle_established i (take 34 p ++ clear_cksum p) tcp (ntohs (total_length ip) - 20)
       | CLOSE_WAIT => us (ng_tcp_handle_close_wait i tcp)
       | LAST_ACK => us (ng_tcp_handle_last_ack i tcp)
       | CLOSED | SYN_SENT | FIN_WAIT_1 | FIN_WAIT_2 | CLOSING | TIME_WAIT => ret 0
       end);;
      ret 0
  end.

(** ** The server *)

(** A socket call: get_hostinfo_fromfd also finds the eventpoll, which is no socket. *)
Definition socket_call {A} (fd : Z) (m : M (ustack R) A) : M store A :=
  info ← us (get_hostinfo_fromfd fd);
  ep ← gets c_ep;
  match info, ep with
  | None, Some ep => if ep_fd ep =? fd then undef TypePun else us m
  | _, _ => us m
  end.
(** tcp_server_entry up to its loop: the listening descriptor and that of the epoll. *)
Definition c_tcp_server_start : M store (option (Z * Z)) :=
  listenfd ← us (nsocket SOCK_STREAM);
  if listenfd =? -1 then ret None else
  socket_call listenfd (nbind listenfd (ntohl INADDR_ANY) (ntohs TCP_PORT));;
  socket_call listenfd (nlisten listenfd);;
  epfd ← nepoll_create 1 true;
  nepoll_ctl epfd EPOLL_CTL_ADD listenfd (Some (EPOLLIN, listenfd));;
  ret (Some (listenfd, epfd)).
(** One ready event.  [None]: it waits inside the call.  [buff] is the server's array, which
    printf reads as a string. *)
Definition c_tcp_server_event (listenfd epfd : Z) (ev : Z * Z) (buff : list Z) : M store (option (list Z)) :=
  if listenfd =? ev.2 then
    client ← socket_call listenfd (naccept listenfd);
    match client with
    | None => ret None
    | Some (connfd, _, _) => nepoll_ctl epfd EPOLL_CTL_ADD connfd (Some (EPOLLIN, connfd));; ret (Some buff)
    end
  else
    let connfd := ev.2 in
    r ← socket_call connfd (nrecv connfd (Z.of_nat BUFFER_SIZE));
    match r with
    | None => ret None
    | Some (n, out) =>
        let buff := fill buff out in
        if 0 <? n then
          from_opt OutOfBounds (strlen buff);;
          buf ← from_opt OutOfBounds (ld_bytes buff 0 (Z.to_nat n));
          socket_call connfd (nsend connfd buf);;
          ret (Some buff)
        else
          nepoll_ctl epfd EPOLL_CTL_DEL connfd None;;
          socket_call connfd (nclose connfd);;
          ret (Some buff)
    end.
Fixpoint c_server_events (listenfd epfd : Z) (evs : list (Z * Z)) (buff : list Z) : M store (option (list Z)) :=
  match evs with
  | [] => ret (Some buff)
  | ev :: evs =>
      r ← c_tcp_server_event listenfd epfd ev buff;
      match r with None => ret None | Some buff => c_server_events listenfd epfd evs buff end
  end.
(** One round of the loop; its timeout is 5 ms. *)
Definition c_server_round (listenfd epfd : Z) (pauses : list pause) (buff : list Z) : M store (option (list Z)) :=
  r ← nepoll_wait epfd 128 5 pauses;
  match r with
  | None => ret None
  | Some (nready, evs) => if nready <? 0 then ret (Some buff) else c_server_events listenfd epfd evs buff
  end.
End epoll.
