(* ===== verification/UsEpollSpec.v ===== *)
(** What the epoll of the user-space stack promises: a set of registered descriptors with
    their events, and the list of those that are ready, the newest first.  Every sequence of
    registrations, changes, callbacks of the network loop and waits behaves as that
    specification, whatever memory the registrations get. *)
From S2P Require Import Prelude UsWire UsSock UsTcp UsSpec UsFd UsEpoll.

(** ** Specification *)

(** The registered descriptors, each with its events and its data; the ready ones. *)
Record readiness := Readiness { reg : gmap Z (Z * Z); ready : list Z }.

(** A descriptor that becomes ready has no answer: the function ends without a return. *)
Definition sp_callback (sockid event : Z) (a : readiness) : option Z * readiness :=
  match reg a !! sockid with
  | None => (Some (-1), a)
  | Some (ev, d) =>
      if decide (sockid ∈ ready a)
      then (Some 1, Readiness (<[sockid := (Z.lor ev event, d)]> (reg a)) (ready a))
      else (None, Readiness (reg a) (sockid :: ready a))
  end.
Definition sp_mod (sockid ev : Z) (a : readiness) : Z * readiness :=
  match reg a !! sockid with
  | None => (-1, a)
  | Some (_, d) => (0, Readiness (<[sockid := (Z.lor ev (Z.lor EPOLLERR EPOLLHUP), d)]> (reg a)) (ready a))
  end.
Definition sp_callbacks (l : list (Z * Z)) (a : readiness) : readiness :=
  foldl (λ a '(sockid, event), (sp_callback sockid event a).2) a l.
(** A wait ends when something is ready or the time is over, or fails. *)
Fixpoint sp_block (pauses : list pause) (timeout : Z) (a : readiness) : option bool * readiness :=
  if negb (bool_decide (ready a = [])) || (timeout =? 0) then (Some true, a) else
  match pauses with
  | [] => (None, a)
  | (r, cbs) :: pauses =>
      let a := sp_callbacks cbs a in
      if (r =? 0) || ((0 <? timeout) && (r =? ETIMEDOUT))
      then sp_block pauses (if 0 <? timeout then 0 else timeout) a else (Some false, a)
  end.
(** The events of the ready descriptors, at most [n]: these are no longer ready. *)
Definition sp_take (n : nat) (a : readiness) : list (Z * Z) * readiness :=
  (omap (λ fd, reg a !! fd) (take n (ready a)), Readiness (reg a) (drop n (ready a))).
Definition sp_wait (maxevents timeout : Z) (pauses : list pause) (a : readiness)
    : option (Z * list (Z * Z)) * readiness :=
  if maxevents <=? 0 then (Some (-1, []), a) else
  match sp_block pauses timeout a with
  | (None, a) => (None, a)
  | (Some false, a) => (Some (-1, []), a)
  | (Some true, a) =>
      let '(evs, a) := sp_take (Z.to_nat maxevents) a in (Some (Z.of_nat (length evs), evs), a)
  end.

(** The calls and what they answer. *)
Inductive ep_op :=
| OpCallback (sockid event : Z)
| OpAdd (sockid ev d : Z)
| OpMod (sockid ev d : Z)
| OpWait (maxevents timeout : Z) (pauses : list pause).
Inductive answer := ACallback (r : option Z) | ARet (r : Z) | AWait (o : option (Z * list (Z * Z))).

(** One call, where [mem] are the outcomes of the coming requests for memory, of which a
    registration takes one; past its end they succeed. *)
Definition sp_op (op : ep_op) (a : readiness) (mem : list bool) : answer * (readiness * list bool) :=
  match op with
  | OpCallback sockid event => let '(r, a) := sp_callback sockid event a in (ACallback r, (a, mem))
  | OpAdd sockid ev d =>
      match reg a !! sockid with
      | Some _ => (ARet (-1), (a, mem))
      | None =>
          if default true (head mem)
          then (ARet 0, (Readiness (<[sockid := (ev, d)]> (reg a)) (ready a), tail mem))
          else (ARet (-1), (a, tail mem))
      end
  | OpMod sockid ev d => let '(r, a) := sp_mod sockid ev a in (ARet r, (a, mem))
  | OpWait maxevents timeout pauses =>
      let '(r, a) := sp_wait maxevents timeout pauses a in (AWait r, (a, mem))
  end.
Fixpoint sp_ops (ops : list ep_op) (a : readiness) (mem : list bool) : list answer * readiness :=
  match ops with
  | [] => ([], a)
  | op :: ops =>
      let '(r, (a, mem)) := sp_op op a mem in
      let '(rs, a) := sp_ops ops a mem in (r :: rs, a)
  end.

Section spec.
Context {R : Type → Type} `{DpdkLaws R}.
Implicit Types (s : cstack R) (a : readiness).

Definition run_op (fresh : option Z) (epfd : Z) (op : ep_op) : M (cstack R) answer :=
  match op with
  | OpCallback sockid event => r ← epoll_event_callback sockid event; ret (ACallback r)
  | OpAdd sockid ev d => r ← nepoll_ctl fresh epfd EPOLL_CTL_ADD sockid (Some (ev, d)); ret (ARet r)
  | OpMod sockid ev d => r ← nepoll_ctl fresh epfd EPOLL_CTL_MOD sockid (Some (ev, d)); ret (ARet r)
  | OpWait maxevents timeout pauses => r ← nepoll_wait epfd maxevents timeout pauses; ret (AWait r)
  end.
Fixpoint run_ops (fresh : option Z) (epfd : Z) (ops : list ep_op) : M (cstack R) (list answer) :=
  match ops with
  | [] => ret []
  | op :: ops => r ← run_op fresh epfd op; rs ← run_ops fresh epfd ops; ret (r :: rs)
  end.

(** ** Representation *)

Definition rdy_bit (fd : Z) a : Z := if decide (fd ∈ ready a) then 1 else 0.
Record ep_repr (epfd : Z) (ep : eventpoll) (its : gmap nat epitem) (brk : nat) a : Prop := {
  er_fd : ep_fd ep = epfd;
  er_cnt : rbcnt ep = Z.of_nat (size (reg a));
  er_num : rdnum ep = Some (Z.of_nat (length (ready a)));
  er_list : Forall2 (λ p fd, rbr ep !! fd = Some p) (rdlist ep) (ready a);
  er_nodup : NoDup (ready a);
  er_none : ∀ fd, reg a !! fd = None → rbr ep !! fd = None;
  er_item : ∀ fd e d, reg a !! fd = Some (e, d) →
    ∃ p, rbr ep !! fd = Some p ∧ its !! p = Some (Epitem (Some (rdy_bit fd a)) fd e d);
  er_brk : ∀ p, is_Some (its !! p) → (p < brk)%nat }.

Definition no_socket (fd : Z) (u : ustack R) : Prop :=
  find_host (λ h, fd =? h_fd h) (us_hosts u) = None ∧ find_tcb (λ x, fd =? st_fd x) (us_tcbs u) = None.
Definition repr (epfd : Z) s a : Prop :=
  no_socket epfd (c_us s) ∧ ∃ ep, c_ep s = Some ep ∧ ep_repr epfd ep (c_items s) (c_brk s) a.

Lemma wp_us {A} (m : M (ustack R) A) (Q : A → cstack R → Prop) s :
  wp (us m) Q s ↔ wp m (λ r u, Q r (Cstack R u (c_ep s) (c_items s) (c_brk s))) (c_us s).
Proof. unfold wp, us. by destruct (m (c_us s)) as [[]| |]. Qed.
Lemma wp_item p i (Q : epitem → cstack R → Prop) s : c_items s !! p = Some i → Q i s → wp (item p) Q s.
Proof. intros Hi HQ. unfold item. wp_step. by rewrite Hi. Qed.
Lemma wp_set_item p i j (Q : unit → cstack R → Prop) s :
  c_items s !! p = Some i → Q () (Cstack R (c_us s) (c_ep s) (<[p := j]> (c_items s)) (c_brk s)) → wp (set_item p j) Q s.
Proof. intros Hi HQ. unfold set_item. wp_step. by eapply wp_item. Qed.
Lemma wp_first l (Q : unit → cstack R → Prop) s :
  Forall (λ p, is_Some (c_items s !! p)) l → Q () s → wp (first_item l) Q s.
Proof.
  intros Hl HQ. destruct l as [|q l]; [done|]. apply Forall_cons_1 in Hl as [[i Hq] _]. cbn [first_item].
  wp_step. by eapply wp_item.
Qed.
Lemma wp_ep ep (Q : eventpoll → cstack R → Prop) s : c_ep s = Some ep → Q ep s → wp eventpoll_of Q s.
Proof. intros He HQ. unfold eventpoll_of. wp_step. by rewrite He. Qed.

Section repr.
Context (epfd : Z) (ep : eventpoll) (its : gmap nat epitem) (brk : nat) (a : readiness).
Hypothesis Hrep : ep_repr epfd ep its brk a.

(** The item of a registered descriptor. *)
Lemma repr_lookup fd p : rbr ep !! fd = Some p →
  ∃ e d, reg a !! fd = Some (e, d) ∧ its !! p = Some (Epitem (Some (rdy_bit fd a)) fd e d).
Proof.
  intros Hp. destruct (reg a !! fd) as [[e d]|] eqn:Hr.
  - destruct (er_item _ _ _ _ _ Hrep fd e d Hr) as (p' & Hp' & Hi). simplify_eq. eauto.
  - by rewrite (er_none _ _ _ _ _ Hrep fd Hr) in Hp.
Qed.
Lemma repr_inj fd fd' p : rbr ep !! fd = Some p → rbr ep !! fd' = Some p → fd = fd'.
Proof.
  intros (e & d & _ & H1)%repr_lookup (e' & d' & _ & H2)%repr_lookup. congruence.
Qed.
Lemma repr_first l k : rdlist ep = l ++ k → Forall (λ p, is_Some (its !! p)) k.
Proof.
  intros Hl. apply Forall_forall. intros p Hp.
  assert (p ∈ rdlist ep) as Hin by (rewrite Hl; set_solver).
  apply list_elem_of_lookup in Hin as [i Hi].
  destruct (Forall2_lookup_l _ _ _ _ _ (er_list _ _ _ _ _ Hrep) Hi) as (fd & _ & Hfd).
  destruct (repr_lookup fd p Hfd) as (e & d & _ & Hi'). eauto.
Qed.
End repr.

(** One item changes: its event and whether it is ready. *)
Lemma repr_update epfd ep its brk a fd p e d e' rd rdl n :
  ep_repr epfd ep its brk a → reg a !! fd = Some (e, d) → rbr ep !! fd = Some p →
  (∀ fd', fd' ≠ fd → fd' ∈ rd ↔ fd' ∈ ready a) →
  NoDup rd → Forall2 (λ p fd, rbr ep !! fd = Some p) rdl rd → n = Z.of_nat (length rd) →
  ep_repr epfd (Eventpoll (ep_fd ep) (rbr ep) (rbcnt ep) rdl (Some n))
    (<[p := Epitem (Some (rdy_bit fd (Readiness ∅ rd))) fd e' d]> its) brk
    (Readiness (<[fd := (e', d)]> (reg a)) rd).
Proof.
  intros Hrep Hfd Hp Hrd Hnd Hall ->. split; cbn; try done.
  - apply Hrep.
  - rewrite (er_cnt _ _ _ _ _ Hrep). by rewrite map_size_insert_Some by eauto.
  - intros fd' Hn. apply (er_none _ _ _ _ _ Hrep). rewrite lookup_insert_None in Hn. tauto.
  - intros fd' e1 d1 [[-> [= <- <-]]|[Hne Hfd']]%lookup_insert_Some.
    + exists p. split; [done|]. by rewrite lookup_insert_eq.
    + destruct (er_item _ _ _ _ _ Hrep fd' e1 d1 Hfd') as (p' & Hp' & Hi). exists p'. split; [done|].
      rewrite lookup_insert_ne by (intros <-; by eapply Hne, repr_inj).
      rewrite Hi. unfold rdy_bit. cbn. do 3 f_equal.
      apply decide_ext. by rewrite Hrd by done.
  - intros q [<-|[_ Hq]]%lookup_insert_is_Some; [|by apply Hrep].
    destruct (repr_lookup _ _ _ _ _ Hrep fd p Hp) as (?&?&_&Hi). apply Hrep. eauto.
Qed.

(** ** The operations *)

Ltac epoll_wp := repeat (wp_step; first [eapply wp_ep; [done|] | eapply wp_item; [eassumption|]]); wp_step.

Lemma callback_spec epfd sockid event s a :
  repr epfd s a →
  wp (epoll_event_callback sockid event)
    (λ r s', r = (sp_callback sockid event a).1 ∧ repr epfd s' (sp_callback sockid event a).2 ∧ c_us s' = c_us s) s.
Proof.
  intros (Hns & ep & Hep & Hrep). unfold epoll_event_callback, sp_callback. epoll_wp.
  destruct (rbr ep !! sockid) as [p|] eqn:Hp.
  2: { destruct (reg a !! sockid) as [[e d]|] eqn:Hr; [|by split; [done|]; split; [|done]; split; [done|]; eauto].
       destruct (er_item _ _ _ _ _ Hrep sockid e d Hr) as (p & Hp' & _). congruence. }
  destruct (repr_lookup _ _ _ _ _ Hrep _ _ Hp) as (e & d & Hr & Hi). rewrite Hr. epoll_wp. cbn [rdy from_opt]. wp_step.
  unfold rdy_bit in Hi. unfold rdy_bit. destruct (decide (sockid ∈ ready a)) as [Hin|Hin]; cbn [negb Z.eqb]; wp_step.
  - eapply wp_set_item; [done|]. wp_step. split; [done|]. split; [|done]. split; [done|]. exists ep. split; [done|]. cbn.
    destruct ep as [fd t cnt l n]. pose proof (er_num _ _ _ _ _ Hrep) as Hn. cbn in Hn. subst n.
    pose proof (repr_update _ _ _ _ _ sockid p e d (Z.lor e event) (ready a) l
      (Z.of_nat (length (ready a))) Hrep Hr Hp) as Hu.
    unfold rdy_bit in Hu. cbn in Hu. rewrite decide_True in Hu by done. apply Hu; try done; apply Hrep.
  - eapply wp_set_item; [done|]. wp_step.
    apply wp_first.
    { eapply Forall_impl; [by apply (repr_first _ _ _ _ _ Hrep [])|]. intros q Hq. by apply lookup_insert_is_Some'; right. }
    wp_step. rewrite (er_num _ _ _ _ _ Hrep). cbn [from_opt]. wp_step.
    split; [done|]. split; [|done]. split; [done|]. eexists. split; [done|]. cbn.
    pose proof (repr_update _ _ _ _ _ sockid p e d e (sockid :: ready a) (p :: rdlist ep) (Z.of_nat (length (ready a)) + 1)
      Hrep Hr Hp) as Hu. unfold rdy_bit in Hu. cbn in Hu. rewrite decide_True in Hu by set_solver.
    rewrite (insert_id (reg a)) in Hu by done. apply Hu; [set_solver| | |lia].
    + constructor; [done|apply Hrep].
    + constructor; [done|apply Hrep].
Qed.

Lemma fromfd_spec epfd s a (Q : option eventpoll → cstack R → Prop) :
  repr epfd s a → (∀ ep, c_ep s = Some ep → ep_repr epfd ep (c_items s) (c_brk s) a → Q (Some ep) s) →
  wp (eventpoll_fromfd epfd) Q s.
Proof.
  intros ([Hh Ht] & ep & Hep & Hrep) HQ. unfold eventpoll_fromfd. wp_step. rewrite wp_us.
  unfold get_hostinfo_fromfd. wp_step. rewrite Hh, Ht. cbn [fmap option_fmap option_map]. wp_step.
  destruct s as [u oep its brk]. cbn in *. subst oep. rewrite (er_fd _ _ _ _ _ Hrep), Z.eqb_refl. wp_step. by apply HQ.
Qed.
(** A request takes the next outcome. *)
Lemma malloc_plan size (s : ustack R) (Q : bool → ustack R → Prop) :
  0 < size < 2 ^ 63 →
  (∀ u, us_hosts u = us_hosts s → us_tcbs u = us_tcbs s → us_plan u = tail (us_plan s) →
    Q (default true (head (us_plan s))) u) → wp (rte_malloc size) Q s.
Proof.
  intros Hs HQ. unfold rte_malloc. rewrite (proj2 (Z.eqb_neq _ _)), (proj2 (Z.leb_gt _ _)) by lia.
  cbn [orb]. unfold wp, next_alloc. destruct (us_plan s) as [|b pl] eqn:Hp; by apply HQ.
Qed.
Lemma ctl_add_spec epfd sockid ev d s a :
  repr epfd s a →
  wp (nepoll_ctl (Some 0) epfd EPOLL_CTL_ADD sockid (Some (ev, d)))
    (λ r s', ∃ b, sp_op (OpAdd sockid ev d) a (us_plan (c_us s)) = (ARet r, (b, us_plan (c_us s'))) ∧ repr epfd s' b) s.
Proof.
  intros Hr. unfold nepoll_ctl, sp_op. wp_step. eapply fromfd_spec; [done|]. intros ep Hep Hrep.
  rewrite bool_decide_false by done. cbn [andb Z.eqb EPOLL_CTL_ADD Pos.eqb].
  destruct (rbr ep !! sockid) as [p|] eqn:Hp.
  { destruct (repr_lookup _ _ _ _ _ Hrep _ _ Hp) as (e & d' & -> & _). wp_step. by exists a. }
  assert (reg a !! sockid = None) as Hn.
  { destruct (reg a !! sockid) as [[e d']|] eqn:Hr'; [|done].
    destruct (er_item _ _ _ _ _ Hrep _ _ _ Hr') as (p & Hp' & _). congruence. }
  rewrite Hn. wp_step. rewrite wp_us. apply malloc_plan; [lia|]. intros u Hh Ht Hpl. destruct Hr as [[Hh' Ht'] _].
  assert (no_socket epfd u) as Hns by (by unfold no_socket; rewrite Hh, Ht).
  destruct (default true (head _)); cbn [negb]; wp_step; [cbn [from_opt]; unfold set_ep; wp_step|]; cbn [c_us]; rewrite Hpl;
    [|exists a; split; [done|]; split; [done|]; eauto].
  eexists. split; [done|]. split; [done|]. eexists. split; [done|]. cbn.
  assert (sockid ∉ ready a) as Hnr.
  { intros [i Hi]%list_elem_of_lookup. destruct (Forall2_lookup_r _ _ _ _ _ (er_list _ _ _ _ _ Hrep) Hi) as (?&_&?). congruence. }
  assert (c_items s !! c_brk s = None) as Hfree.
  { apply eq_None_not_Some. intros Hs. apply (er_brk _ _ _ _ _ Hrep) in Hs. lia. }
  split; cbn.
  - apply Hrep.
  - rewrite map_size_insert_None by done. rewrite (er_cnt _ _ _ _ _ Hrep). lia.
  - apply Hrep.
  - eapply Forall2_impl; [apply Hrep|]. cbn. intros q fd Hq. rewrite lookup_insert_ne; [done|]. intros <-. congruence.
  - apply Hrep.
  - intros fd [Hfd Hne]%lookup_insert_None. rewrite lookup_insert_ne by done. by apply Hrep.
  - intros fd e1 d1 [[<- [= <- <-]]|[Hne Hfd]]%lookup_insert_Some.
    + exists (c_brk s). rewrite !lookup_insert_eq. split; [done|]. unfold rdy_bit. cbn. by rewrite decide_False.
    + destruct (er_item _ _ _ _ _ Hrep _ _ _ Hfd) as (q & Hq & Hi). exists q.
      rewrite !lookup_insert_ne; [done|congruence|done].
  - intros q [<-|[_ Hq]]%lookup_insert_is_Some; [lia|]. apply (er_brk _ _ _ _ _ Hrep) in Hq. lia.
Qed.
Lemma mod_spec epfd sockid ev d s a :
  repr epfd s a →
  wp (nepoll_ctl (Some 0) epfd EPOLL_CTL_MOD sockid (Some (ev, d)))
    (λ r s', r = (sp_mod sockid ev a).1 ∧ repr epfd s' (sp_mod sockid ev a).2 ∧ c_us s' = c_us s) s.
Proof.
  intros Hr. unfold nepoll_ctl, sp_mod. wp_step. eapply fromfd_spec; [done|]. intros ep Hep Hrep.
  rewrite bool_decide_false by done. cbn [andb Z.eqb EPOLL_CTL_ADD EPOLL_CTL_DEL EPOLL_CTL_MOD Pos.eqb].
  destruct (rbr ep !! sockid) as [p|] eqn:Hp.
  2: { destruct (reg a !! sockid) as [[e d']|] eqn:Hr'; [|by wp_step].
       destruct (er_item _ _ _ _ _ Hrep _ _ _ Hr') as (p & Hp' & _). congruence. }
  destruct (repr_lookup _ _ _ _ _ Hrep _ _ Hp) as (e & d' & Hr' & Hi). rewrite Hr'. epoll_wp. cbn [from_opt]. wp_step.
  eapply wp_set_item; [done|]. wp_step. split; [done|]. split; [|done]. destruct Hr as [Hns _]. split; [done|]. exists ep. split; [done|]. cbn.
  destruct ep as [fd t cnt l n]. pose proof (er_num _ _ _ _ _ Hrep) as Hn. cbn in Hn. subst n.
  apply (repr_update _ _ _ _ _ sockid p e d' _ (ready a) l (Z.of_nat (length (ready a))) Hrep Hr' Hp); try done; apply Hrep.
Qed.

(** ** Waiting *)

Lemma callbacks_spec epfd l s a :
  repr epfd s a → wp (callbacks l) (λ _ s', repr epfd s' (sp_callbacks l a) ∧ c_us s' = c_us s) s.
Proof.
  revert s a. induction l as [|[sockid event] l IH]; intros s a Hr; [done|]. cbn [callbacks]. wp_step.
  eapply wp_mono; [by apply callback_spec|]. intros r s1 (_ & Hr1 & Hu1).
  eapply wp_mono; [by apply IH|]. intros _ s2 [Hr2 Hu2]. split; [done|congruence].
Qed.
Lemma wait_loop_spec epfd pauses timeout s a :
  repr epfd s a →
  wp (wait_loop pauses timeout)
    (λ r s', r = (sp_block pauses timeout a).1 ∧ repr epfd s' (sp_block pauses timeout a).2 ∧ c_us s' = c_us s) s.
Proof.
  revert timeout s a. induction pauses as [|[r cbs] pauses IH]; intros timeout s a Hr;
    destruct Hr as (Hns & ep & Hep & Hrep); cbn [wait_loop sp_block]; epoll_wp;
    rewrite (er_num _ _ _ _ _ Hrep); cbn [from_opt]; wp_step;
    replace (Z.of_nat (length (ready a)) =? 0) with (bool_decide (ready a = [])) by (by destruct (ready a));
    (destruct (_ || _); [by (wp_step; split_and!; [done|split; [done|]; eauto|done])|]).
  { wp_step. split_and!; [done|split; [done|]; eauto|done]. }
  wp_step. eapply wp_mono; [apply (callbacks_spec epfd _ _ a); split; [done|]; eauto|]. intros _ s1 [Hr1 <-].
  destruct (0 <? timeout), (r =? 0), (r =? ETIMEDOUT); cbn [andb orb negb]; wp_step; try done; by apply IH.
Qed.

Lemma collect_spec epfd ep n s a :
  no_socket epfd (c_us s) → c_ep s = Some ep → ep_repr epfd ep (c_items s) (c_brk s) a →
  wp (collect (rdlist ep) (Z.of_nat n)) (λ r s', r = (sp_take n a).1 ∧ repr epfd s' (sp_take n a).2 ∧ c_us s' = c_us s) s.
Proof.
  revert n s a. remember (rdlist ep) as l eqn:Hl. revert ep Hl.
  induction l as [|p l IH]; intros ep Hl n s a Hns Hep Hrep.
  { pose proof (er_list _ _ _ _ _ Hrep) as Hall. rewrite <-Hl in Hall. apply Forall2_nil_inv_l in Hall.
    destruct a as [rg rdy]. cbn in Hall. subst rdy. cbn [collect]. wp_step. unfold sp_take. cbn [fst snd reg ready].
    rewrite take_nil, drop_nil. split_and!; [done|split; [done|]; eauto|done]. }
  pose proof (er_list _ _ _ _ _ Hrep) as Hall. rewrite <-Hl in Hall.
  destruct a as [rg rd0]. apply Forall2_cons_inv_l in Hall as (fd & rd & Hp & Hall' & Hrd). cbn in Hrd. subst rd0. cbn [collect].
  destruct n as [|n]; [cbn; wp_step; split_and!; [done|split; [done|]; eauto|done]|].
  rewrite (proj2 (Z.eqb_neq _ _)) by lia. destruct (repr_lookup _ _ _ _ _ Hrep _ _ Hp) as (e & d & Hr & Hi).
  epoll_wp. apply wp_first.
  { eapply (repr_first _ _ _ _ _ Hrep [p]). by rewrite <-Hl. }
  wp_step. eapply wp_set_item; [done|]. epoll_wp. rewrite (er_num _ _ _ _ _ Hrep). cbn [from_opt ready length]. wp_step.
  replace (Z.of_nat (S n) - 1) with (Z.of_nat n) by lia.
  replace (Z.of_nat (S (length rd)) - 1) with (Z.of_nat (length rd)) by lia.
  pose proof (er_nodup _ _ _ _ _ Hrep) as Hnd. apply NoDup_cons in Hnd as [Hnin Hnd].
  pose proof (repr_update _ _ _ _ _ fd p e d e rd l (Z.of_nat (length rd)) Hrep Hr Hp) as Hu. cbn in Hr. cbn in Hu.
  rewrite (insert_id rg) in Hu by done. unfold rdy_bit in Hu at 1. cbn in Hu. rewrite decide_False in Hu by done.
  unfold set_ep. wp_step. cbn [sockfd events data_fd].
  eapply wp_mono; [eapply (IH (Eventpoll (ep_fd ep) (rbr ep) (rbcnt ep) l (Some (Z.of_nat (length rd)))) eq_refl
    n _ (Readiness rg rd)); cbn; [done|done|apply Hu; try done; set_solver]|].
  intros r s' (-> & Hs' & Hu'). wp_step. unfold sp_take in *. cbn in *. by rewrite Hr.
Qed.
Lemma sp_take_min n a : sp_take (length (ready a) `min` n) a = sp_take n a.
Proof.
  unfold sp_take. destruct (decide (length (ready a) ≤ n)%nat); [|by rewrite Nat.min_r by lia].
  by rewrite Nat.min_l, !take_ge, !drop_ge by lia.
Qed.
Lemma epoll_wait_spec epfd maxevents timeout pauses s a :
  repr epfd s a →
  wp (nepoll_wait epfd maxevents timeout pauses)
    (λ r s', r = (sp_wait maxevents timeout pauses a).1 ∧ repr epfd s' (sp_wait maxevents timeout pauses a).2 ∧ c_us s' = c_us s) s.
Proof.
  intros Hr. unfold nepoll_wait, sp_wait. wp_step. eapply fromfd_spec; [done|]. intros ep Hep Hrep.
  destruct (Z.leb_spec maxevents 0); [by wp_step|]. wp_step.
  eapply wp_mono; [by apply wait_loop_spec|]. intros w s1 (-> & Hr1 & <-). clear Hr Hrep Hep ep.
  destruct (sp_block pauses timeout a) as [[[]|] b]; cbn [fst snd] in *; wp_step; [|done|done].
  destruct Hr1 as (Hns & ep & Hep & Hrep). epoll_wp. rewrite (er_num _ _ _ _ _ Hrep). cbn [from_opt]. wp_step.
  replace (Z.min _ _) with (Z.of_nat (length (ready b) `min` Z.to_nat maxevents)) by lia.
  eapply wp_mono; [by apply (collect_spec epfd)|]. intros r s' (-> & Hs' & Hu'). wp_step.
  by rewrite sp_take_min in Hs' |- *.
Qed.

(** ** The refinement *)

Lemma op_spec epfd op s a :
  repr epfd s a →
  wp (run_op (Some 0) epfd op)
    (λ ans s', ∃ b, sp_op op a (us_plan (c_us s)) = (ans, (b, us_plan (c_us s'))) ∧ repr epfd s' b) s.
Proof.
  intros Hr. destruct op; cbn [run_op]; wp_step; (eapply wp_mono; [by eauto using callback_spec, ctl_add_spec, mod_spec, epoll_wait_spec|]);
    intros r s'; wp_step; [|done|..]; intros (-> & Hr' & ->); unfold sp_op;
    (eexists; split; [|exact Hr']).
  - by destruct (sp_callback _ _ _).
  - by destruct (sp_mod _ _ _).
  - by destruct (sp_wait _ _ _ _).
Qed.
Lemma ops_spec epfd ops s a :
  repr epfd s a →
  wp (run_ops (Some 0) epfd ops)
    (λ anss s', ∃ b, sp_ops ops a (us_plan (c_us s)) = (anss, b) ∧ repr epfd s' b) s.
Proof.
  revert s a. induction ops as [|op ops IH]; intros s a Hr; cbn [run_ops sp_ops]; wp_step; [by exists a|].
  eapply wp_mono; [by apply op_spec|]. intros ans s1 (b & -> & Hr1). wp_step.
  eapply wp_mono; [by apply IH|]. intros anss s2 (c & -> & Hr2). wp_step. by exists c.
Qed.

(** Every descriptor of a socket is marked in the bitmap. *)
Definition fds_marked (u : ustack R) : Prop :=
  ∀ fd, DEFAULT_FD_NUM ≤ fd < MAX_FD_COUNT → fd_used (fd_table u) fd = false → no_socket fd u.
(** The next request for memory succeeds. *)
Definition granted (u : ustack R) : Prop := default true (head (us_plan u)) = true.
Lemma create_spec size s :
  0 < size → granted (c_us s) → fd_wf (fd_table (c_us s)) → fds_marked (c_us s) →
  (¬ all_used (fd_table (c_us s)) DEFAULT_FD_NUM) →
  (∀ p, is_Some (c_items s !! p) → (p < c_brk s)%nat) →
  wp (nepoll_create (Some 0) size true) (λ epfd s', lowest_free (fd_table (c_us s)) DEFAULT_FD_NUM epfd ∧
    repr epfd s' (Readiness ∅ []) ∧ us_plan (c_us s') = tail (us_plan (c_us s))) s.
Proof.
  intros Hsize Hm Hwf Hmark Hfree Hbrk. unfold nepoll_create. rewrite (proj2 (Z.leb_gt _ _)) by done. wp_step.
  rewrite wp_us. eapply wp_mono; [apply fd_loop_spec; [done|done|unfold MAX_FD_COUNT, DEFAULT_FD_NUM; lia]|].
  intros epfd u [(_ & _ & ?)|[Hlow ->]]; [done|]. wp_step. rewrite wp_us. apply malloc_plan; [lia|].
  intros u Hh Ht Hpl. cbn [c_us us_plan with_fds] in *. rewrite Hm. wp_step.
  split; [done|]. split; [|by cbn].
  destruct (Hmark epfd) as [Hh' Ht']; [apply Hlow..|].
  split; [split; cbn; [rewrite Hh|rewrite Ht]; done|]. eexists. split; [done|].
  split; cbn; try done.
  constructor.
Qed.

(** C7: A fresh epoll refines the readiness set: from an nepoll_create that gets its block,
    in a stack whose sockets have marked descriptors, any sequence of registrations
    (EPOLL_CTL_ADD), changes (EPOLL_CTL_MOD), callbacks and waits with callbacks during
    them has no undefined behaviour and gives exactly the answers and the readiness set of
    the specification, a function of the calls and of the outcomes of rte_malloc: a
    registration of a new descriptor fails if and only if its request for memory fails.  A
    callback that makes a descriptor ready has no answer.  The field rdnum, and rdy of every
    item, is never initialised: this is proved where rte_malloc happens to give zeroes. *)
Theorem epoll_refines_readiness size ops s :
  0 < size → granted (c_us s) → fd_wf (fd_table (c_us s)) → fds_marked (c_us s) →
  (¬ all_used (fd_table (c_us s)) DEFAULT_FD_NUM) →
  (∀ p, is_Some (c_items s !! p) → (p < c_brk s)%nat) →
  wp (epfd ← nepoll_create (Some 0) size true; run_ops (Some 0) epfd ops)
    (λ anss s', ∃ a, sp_ops ops (Readiness ∅ []) (tail (us_plan (c_us s))) = (anss, a) ∧
      ∃ epfd, repr epfd s' a) s.
Proof.
  intros. wp_step. eapply wp_mono; [by apply create_spec|]. intros epfd s1 (_ & Hr & <-).
  eapply wp_mono; [by apply ops_spec|]. intros anss s2 (a & Ha & Hr2). eauto.
Qed.
End spec.

#[local] Existing Instance list_dpdk.
Definition demo_cstack : cstack list :=
  Cstack list (mk_us list [] [] (replicate 1024 0) [] 0 [] [] [] [] [true; true; false] []) None ∅ 0.
(** The second registration gets no memory at first.  Two descriptors become ready, one
    wait takes the newer, the next the older. *)
Definition demo_ops : list ep_op :=
  [OpAdd 7 1 7; OpAdd 8 1 8; OpCallback 8 1; OpAdd 8 1 8; OpCallback 7 1; OpCallback 8 1; OpCallback 8 1; OpWait 1 (-1) [];
   OpWait 128 5 []; OpWait 128 5 [(ETIMEDOUT, [])]; OpWait 128 (-1) [(0, [(7, 1)])]].
Lemma epoll_refines_readiness_witness :
  ∃ anss s', (epfd ← nepoll_create (Some 0) 1 true; run_ops (Some 0) epfd demo_ops) demo_cstack = Ok (anss, s') ∧
    anss = [ARet 0; ARet (-1); ACallback (Some (-1)); ARet 0; ACallback None; ACallback None; ACallback (Some 1);
      AWait (Some (1, [(1, 8)])); AWait (Some (1, [(1, 7)])); AWait (Some (0, [])); AWait (Some (1, [(1, 7)]))] ∧
    ∃ a, sp_ops demo_ops (Readiness ∅ []) [true; false] = (anss, a).
Proof.
  assert (fd_wf (fd_table (c_us demo_cstack))) as Hwf.
  { split; [vm_compute; reflexivity|]. apply Forall_replicate. word. }
  destruct (proj1 (wp_run _ _ _) (epoll_refines_readiness 1 demo_ops demo_cstack ltac:(lia) eq_refl Hwf
    ltac:(by intros fd _ _) ltac:(intros Hall; by specialize (Hall 3 ltac:(unfold DEFAULT_FD_NUM, MAX_FD_COUNT; lia)))
    ltac:(by intros p [? ?]))) as (anss & s' & Hrun & a & Hsteps & _).
  exists anss, s'. split; [done|]. split; [|by exists a]. vm_compute in Hrun. by injection Hrun as <- _.
Defined.
