(* ===== verification/UsEpollErrors.v ===== *)
(** Where the epoll of the user-space stack and its server go wrong: blocks of rte_malloc
    given to free, fields that are never initialised, events that are lost. *)
From S2P Require Import Prelude UsWire UsSock UsTcp UsFrame UsSpec UsFd UsTransfer UsHandshake UsErrors UsEpoll UsEpollSpec.

Section errors.
Context {R : Type → Type} `{DpdkLaws R}.
Implicit Types (s : cstack R) (a : readiness).

Lemma hits_us {A} w (m : M (ustack R) A) s : hits w m (c_us s) → hits w (us m) s.
Proof. unfold hits, us. by intros ->. Qed.

(** EPOLL_CTL_DEL of a registered descriptor: the item comes from rte_malloc. *)
Lemma deletion_frees_foreign_block epfd fd ev s a :
  repr epfd s a → is_Some (reg a !! fd) → hits InvalidFree (nepoll_ctl (Some 0) epfd EPOLL_CTL_DEL fd ev) s.
Proof.
  intros Hr [[e d] Hfd]. unfold nepoll_ctl. apply hits_bind. eapply fromfd_spec; [done|]. intros ep Hep Hrep.
  rewrite andb_false_r. cbn [Z.eqb EPOLL_CTL_ADD EPOLL_CTL_DEL Pos.eqb].
  destruct (er_item _ _ _ _ _ Hrep _ _ _ Hfd) as (p & Hp & _). rewrite Hp. apply hits_bind. unfold set_ep. by wp_step.
Qed.
Lemma nrecv_end fd len i (x : ng_tcp_stream R) rb q f (u : ustack R) :
  owns_fd fd i u → us_tcbs u !! i = Some x → st_protocol x = IPPROTO_TCP → st_rcvbuf x = Some rb →
  items rb = f :: q → fr_length f = 0 → 0 ≤ len →
  wp (nrecv fd len) (λ r u', r = Some (0, []) ∧ ∃ rb', u' = upd_tcb i (set_rcvbuf (Some rb') x) u) u.
Proof.
  intros Hfd Hi Hp Hrb Hq Hlen Hpos. destruct (dequeue_cons rb f q Hq) as (rb' & Hd & _).
  unfold nrecv. wp_step. eapply wp_hostinfo; [done|]. wp_step. eapply wp_get_tcb; [done|]. wp_step.
  rewrite Hp, Hrb. cbn [negb Z.eqb IPPROTO_TCP Pos.eqb from_opt]. wp_step. rewrite Hd. wp_step. rewrite wp_set_tcb, Hlen.
  rewrite (proj2 (Z.ltb_ge _ _)) by lia. cbn [Z.eqb]. wp_step. eauto.
Qed.
Lemma socket_call_owned {A} fd i (m : M (ustack R) A) (Q : A → cstack R → Prop) s :
  owns_fd fd i (c_us s) → wp (us m) Q s → wp (socket_call fd m) Q s.
Proof.
  intros Hfd HQ. unfold socket_call. wp_step. rewrite wp_us. eapply wp_hostinfo; [done|]. wp_step. by destruct s.
Qed.

(** C38: The epoll server does not survive the end of a connection: when it reads the end of
    the data of a registered client, it deletes the descriptor, and nepoll_ctl hands the
    item, a block of rte_malloc, to free. *)
Theorem peer_close_crashes_server epfd listenfd fd ev buff i x rb q f s a :
  repr epfd s a → is_Some (reg a !! fd) → fd ≠ listenfd →
  owns_fd fd i (c_us s) → us_tcbs (c_us s) !! i = Some x → st_protocol x = IPPROTO_TCP → st_rcvbuf x = Some rb →
  items rb = f :: q → fr_length f = 0 →
  hits InvalidFree (c_tcp_server_event (Some 0) listenfd epfd (ev, fd) buff) s.
Proof.
  intros Hr Hreg Hne Hfd Hi Hp Hrb Hq Hlen. unfold c_tcp_server_event. cbn [snd]. rewrite (proj2 (Z.eqb_neq _ _)) by done.
  apply hits_bind. eapply socket_call_owned; [done|]. rewrite wp_us.
  eapply wp_mono; [by eapply nrecv_end|]. intros r u (-> & rb' & ->). cbn [Z.ltb Z.compare]. apply hits_first.
  eapply deletion_frees_foreign_block; [|done]. destruct Hr as ([Hh Ht] & Hep). split; [|done]. split; [done|]. cbn [c_us].
  unfold upd_tcb. cbn [us_tcbs with_tcbs]. by rewrite (find_tcb_insert _ _ _ x).
Qed.

(** rdnum of a new eventpoll has no value: the first wait reads it. *)
Lemma first_wait_reads_indeterminate size maxevents timeout pauses s :
  0 < size → 0 < maxevents → memory (c_us s) → fd_wf (fd_table (c_us s)) → fds_marked (c_us s) →
  (¬ all_used (fd_table (c_us s)) DEFAULT_FD_NUM) →
  hits IndetRead (epfd ← nepoll_create None size true; nepoll_wait epfd maxevents timeout pauses) s.
Proof.
  intros Hsize Hmax Hm Hwf Hmark Hfree. apply hits_bind. unfold nepoll_create. rewrite (proj2 (Z.leb_gt _ _)) by done. wp_step.
  rewrite wp_us. eapply wp_mono; [apply fd_loop_spec; [done|done|unfold MAX_FD_COUNT, DEFAULT_FD_NUM; lia]|].
  intros epfd u [(_ & _ & ?)|[Hlow ->]]; [done|]. wp_step. rewrite wp_us. apply wp_malloc; [done|lia|]. wp_step.
  unfold nepoll_wait. apply hits_bind. unfold eventpoll_fromfd. wp_step. rewrite wp_us. unfold get_hostinfo_fromfd. wp_step.
  destruct (Hmark epfd) as [Hh Ht]; [apply Hlow..|]. cbn [c_us us_hosts us_tcbs with_fds]. rewrite Hh, Ht.
  cbn [fmap option_fmap option_map]. wp_step. cbn [c_ep ep_fd]. rewrite Z.eqb_refl. wp_step. rewrite (proj2 (Z.leb_gt _ _)) by done.
  apply hits_first. destruct pauses; done.
Qed.
End errors.

(** ** Sessions of the server *)

#[local] Existing Instance list_dpdk.
#[local] Existing Instance list_dpdk_laws.
Definition demo_start : cstack list := Cstack list (with_arp [(1, [7; 8; 9; 10; 11; 12])] 1 demo_empty) None ∅ 0.
(** A pushed segment of the client with the letters [l]. *)
Definition data_frame (seq : Z) (l : list Z) : list Z :=
  tcp_frame 1 2 [7; 8; 9; 10; 11; 12] [2; 0; 0; 0; 0; 1]
    (mk_fragment 1000 (ntohs 9999) seq 9 0x50 0x18 TCP_INITIAL_WINDOW (Some 0) (Some 0) (Some (l ++ [0])) (Z.of_nat (length l))) 0 l.
Definition arrive (p : list Z) : M (cstack list) Z := c_ng_tcp_process p.
Definition round (buff : list Z) : M (cstack list) (list Z) :=
  r ← c_server_round (Some 0) 3 4 [(ETIMEDOUT, [])] buff; ret (default [] r).
Definition empty_buff : list Z := replicate BUFFER_SIZE 0.
(** The server starts and a client opens a connection. *)
Definition open_client : M (cstack list) unit :=
  c_tcp_server_start (Some 0);; arrive (client_frame 1000 41 2);; arrive (client_frame 1000 42 16);; ret ().

Example server_accepts : ∃ s,
  (open_client;; round empty_buff) demo_start = Ok (empty_buff, s) ∧
  (st_fd <$> us_tcbs (c_us s)) = [5; 3] ∧ outgoing (c_us s) = [(1000, []); (0, [])].
Proof. eexists. split_and!; vm_compute; reflexivity. Qed.

(** Two segments that arrive before the server comes round make one event: the server
    answers the first and the second waits in the stream, with nothing ready, until the
    client sends again; from then on the server answers one segment behind. *)
Theorem burst_is_answered_late :
  ∃ s, (open_client;; b ← round empty_buff;
        arrive (data_frame 42 [97; 98]);; arrive (data_frame 44 [99; 100]);;
        b ← round empty_buff; o1 ← gets (λ s, outgoing (c_us s));
        b ← round b; o2 ← gets (λ s, outgoing (c_us s));
        arrive (data_frame 46 [101; 102]);; round b;; o3 ← gets (λ s, outgoing (c_us s));
        ret (o1, o2, o3)) demo_start
    = Ok (([(1000, [[97; 98; 0]]); (0, [])], [(1000, [[97; 98; 0]]); (0, [])],
           [(1000, [[97; 98; 0]; [99; 100; 0]]); (0, [])]), s).
Proof. eexists. vm_compute. reflexivity. Qed.
(** A segment that arrives before the server accepted its connection is not signalled. *)
Theorem early_segment_not_signalled :
  ∃ s, (open_client;; arrive (data_frame 42 [97; 98]);;
        b ← round empty_buff; round b;; gets (λ s, outgoing (c_us s))) demo_start
    = Ok ([(1000, []); (0, [])], s).
Proof. eexists. vm_compute. reflexivity. Qed.
(** The first client that leaves takes the server with it. *)
Theorem leaving_client_crashes_server :
  (open_client;; b ← round empty_buff; arrive (client_frame 1000 42 17);; round b) demo_start = UB InvalidFree.
Proof. vm_compute. reflexivity. Qed.
(** A connection that completes between nlisten and nepoll_create crashes the network
    loop: its callback is handed table->ep, which is NULL. *)
Theorem early_connection_crashes_loop :
  (fd ← us (nsocket SOCK_STREAM); us (nbind fd (ntohl INADDR_ANY) (ntohs TCP_PORT));; us (nlisten fd);;
   arrive (client_frame 1000 41 2);; arrive (client_frame 1000 42 16)) demo_start = UB NullDeref.
Proof. vm_compute. reflexivity. Qed.

Definition demo_fin : ng_tcp_fragment := mk_fragment 1000 2000 7 9 0x50 0x11 TCP_INITIAL_WINDOW (Some 0) (Some 0) None 0.
Definition demo_left : ng_tcp_stream list :=
  set_rcvbuf (Some (mk_ring list ng_tcp_fragment "rcvbuf11000" [demo_fin])) (set_status CLOSE_WAIT demo_stream).
Definition demo_leaving : cstack list :=
  Cstack list (with_tcbs (λ _, [demo_left]) demo_empty) (Some (Eventpoll 4 {[5 := O]} 1 [] (Some 0)))
    {[O := Epitem (Some 0) 5 1 5]} 1.
Lemma demo_leaving_repr : repr 4 demo_leaving (Readiness {[5 := (1, 5)]} []).
Proof.
  split; [by split|]. eexists. split; [done|]. split; try done.
  - constructor.
  - cbn. intros fd Hfd%lookup_singleton_None. by rewrite lookup_singleton_None.
  - cbn. intros fd e d [<- [= <- <-]]%lookup_singleton_Some. by exists O.
  - cbn. intros p [i [<- _]%lookup_singleton_Some]. lia.
Qed.
Lemma peer_close_crashes_server_witness :
  c_tcp_server_event (Some 0) 3 4 (1, 5) empty_buff demo_leaving = UB InvalidFree.
Proof.
  apply (peer_close_crashes_server 4 3 5 1 empty_buff 0 demo_left (mk_ring list ng_tcp_fragment "rcvbuf11000" [demo_fin])
    [] demo_fin demo_leaving (Readiness {[5 := (1, 5)]} []));
    [exact demo_leaving_repr|by eexists|done|by split|done..].
Defined.
