(* ===== verification/Ustack.v ===== *)
(** The small stack (senior/2.4_Ustack/ustack.c): it answers every UDP datagram with the
    same data and the first TCP connection request with a SYN/ACK.  Its state are global
    variables; a packet buffer is the list of all bytes of its data room, since the code
    never looks at the length that was received. *)
From S2P Require Import Prelude UsWire.

Inductive USTACK_TCP_STATUS : Type :=
| USTACK_TCP_STATUS_CLOSED | USTACK_TCP_STATUS_LISTEN | USTACK_TCP_STATUS_SYN_RCVD | USTACK_TCP_STATUS_SYN_SENT
| USTACK_TCP_STATUS_ESTABLISHED | USTACK_TCP_STATUS_FIN_WAIT_1 | USTACK_TCP_STATUS_FIN_WAIT_2
| USTACK_TCP_STATUS_CLOSING | USTACK_TCP_STATUS_TIMEWAIT | USTACK_TCP_STATUS_CLOSE_WAIT | USTACK_TCP_STATUS_LAST_ACK.
#[export] Instance status_eq_dec : EqDecision USTACK_TCP_STATUS.
Proof. solve_decision. Defined.
Definition TCP_INIT_WINDOWS : Z := 14600.

(** The global variables, the buffers that rte_pktmbuf_alloc gives ([None]: none, also at
    the end of the list), and the frames handed to rte_eth_tx_burst. *)
Record ustack : Type := mk_ustack {
  global_smac : list Z; global_dmac : list Z; global_sip : Z; global_dip : Z; global_sport : Z; global_dport : Z;
  global_flags : Z; global_seqnum : Z; global_acknum : Z; tcp_status : USTACK_TCP_STATUS;
  pool : list (option (list Z)); sent : list (list Z) }.
Definition ustack_zero (pl : list (option (list Z))) : ustack :=
  mk_ustack [0; 0; 0; 0; 0; 0] [0; 0; 0; 0; 0; 0] 0 0 0 0 0 0 0 USTACK_TCP_STATUS_LISTEN pl [].

Section ustack.
Context {R : Type → Type} `{Dpdk R}.

Definition set_endpoints smac dmac sip dip sport dport : M ustack unit := modify (λ s,
  mk_ustack smac dmac sip dip sport dport (global_flags s) (global_seqnum s) (global_acknum s) (tcp_status s) (pool s) (sent s)).
Definition set_tcp flags seqnum acknum : M ustack unit := modify (λ s,
  mk_ustack (global_smac s) (global_dmac s) (global_sip s) (global_dip s) (global_sport s) (global_dport s)
    flags seqnum acknum (tcp_status s) (pool s) (sent s)).
Definition set_status st : M ustack unit := modify (λ s,
  mk_ustack (global_smac s) (global_dmac s) (global_sip s) (global_dip s) (global_sport s) (global_dport s)
    (global_flags s) (global_seqnum s) (global_acknum s) st (pool s) (sent s)).
Definition set_pool pl : M ustack unit := modify (λ s,
  mk_ustack (global_smac s) (global_dmac s) (global_sip s) (global_dip s) (global_sport s) (global_dport s)
    (global_flags s) (global_seqnum s) (global_acknum s) (tcp_status s) pl (sent s)).
Definition rte_eth_tx_burst (f : list Z) : M ustack unit := modify (λ s,
  mk_ustack (global_smac s) (global_dmac s) (global_sip s) (global_dip s) (global_sport s) (global_dport s)
    (global_flags s) (global_seqnum s) (global_acknum s) (tcp_status s) (pool s) (sent s ++ [f])).

(** rte_pktmbuf_alloc: the data room with whatever is in it; without one the program ends. *)
Definition rte_pktmbuf_alloc : M ustack (list Z) :=
  s ← get;
  set_pool (tail (pool s));;
  match head (pool s) with Some (Some b) => ret b | _ => undef ProcessExit end.
(** printf of %s at an offset of a buffer. *)
Definition print_str (buf : list Z) (off : nat) : M ustack unit :=
  if bool_decide (0 ∈ drop off buf) then ret () else undef OutOfBounds.

(** The frame that is sent: total_len bytes of what was written.  The payload is copied
    with udplen bytes, the 8 of the UDP header too many. *)
Definition ustack_encode_udp_pkt (buf : list Z) (total_len : Z) : M ustack (list Z) :=
  s ← get;
  let ip := ip_hdr_cksum IPPROTO_UDP total_len (global_sip s) (global_dip s) in
  let udplen := u16 (total_len - 14 - 20) in
  if mbuf_room <? 14 + 20 + 8 + udplen then undef OutOfBounds else
  data ← from_opt OutOfBounds (ld_bytes buf 42 (Z.to_nat udplen));
  let udp := udp_header (global_sport s) (global_dport s) udplen in
  let covered ck := take (Z.to_nat udplen) (udp ck ++ data) in
  ret (take (Z.to_nat total_len) (ether_hdr (global_dmac s) (global_smac s) RTE_ETHER_TYPE_IPV4 ++ ip ++
    udp (u16 (rte_ipv4_udptcp_cksum ip (covered 0))) ++ data)).
(** The SYN/ACK in the buffer [msg]; the urgent pointer is not written. *)
Definition syn_ack (s : ustack) : ng_tcp_fragment :=
  mk_fragment (global_sport s) (global_dport s) 12345 (u32 (global_seqnum s + 1)) 0x50
    (Z.lor RTE_TCP_SYN_FLAG RTE_TCP_ACK_FLAG) TCP_INIT_WINDOWS (Some 0) None None 0.
Definition ustack_encode_tcp_pkt (msg : list Z) (total_len : Z) : M ustack (list Z) :=
  s ← get;
  let ip := ip_hdr_cksum IPPROTO_TCP total_len (global_sip s) (global_dip s) in
  urp ← from_opt OutOfBounds (ld16 msg 52);
  ret (ether_hdr (global_dmac s) (global_smac s) RTE_ETHER_TYPE_IPV4 ++ ip ++
    tcp_header (syn_ack s) urp (u16 (rte_ipv4_udptcp_cksum ip (tcp_header (syn_ack s) urp 0)))).

(** ** The loop of main *)

(** The addresses of the answer: those of the packet, exchanged. *)
Definition take_endpoints (buf : list Z) (ip : ipv4_hdr) (sport dport : Z) : M ustack unit :=
  dmac ← from_opt OutOfBounds (ld_bytes buf 6 6);
  smac ← from_opt OutOfBounds (ld_bytes buf 0 6);
  set_endpoints smac dmac (dst_addr ip) (src_addr ip) dport sport.
Definition udp_packet (buf : list Z) (ip : ipv4_hdr) : M ustack unit :=
  udp ← from_opt OutOfBounds (load_udp buf);
  take_endpoints buf ip (udp_src_port udp) (udp_dst_port udp);;
  let total_len := u16 (ntohs (dgram_len udp) + 20 + 14) in
  rte_pktmbuf_alloc;;
  f ← ustack_encode_udp_pkt buf total_len;
  rte_eth_tx_burst f;;
  print_str buf 42.
Definition flag (f : Z) : M ustack bool := s ← get; ret (negb (Z.land (global_flags s) f =? 0)).
(** The tests of ACK and PSH. *)
Definition tcp_established (buf : list Z) (tcp : tcp_hdr) : M ustack unit :=
  ack ← flag RTE_TCP_ACK_FLAG;
  s ← get;
  (if ack && bool_decide (tcp_status s = USTACK_TCP_STATUS_SYN_RCVD) then set_status USTACK_TCP_STATUS_ESTABLISHED else ret ());;
  psh ← flag RTE_TCP_PSH_FLAG;
  s ← get;
  if psh && bool_decide (tcp_status s = USTACK_TCP_STATUS_ESTABLISHED) then
    let hdrlen := u8 (Z.shiftr (data_off tcp) 4 * 4) in
    print_str buf (34 + Z.to_nat hdrlen)
  else ret ().
Definition tcp_packet (buf : list Z) (ip : ipv4_hdr) : M ustack unit :=
  tcp ← from_opt OutOfBounds (load_tcp buf);
  take_endpoints buf ip (src_port tcp) (dst_port tcp);;
  set_tcp (tcp_flags tcp) (ntohl (sent_seq tcp)) (ntohl (recv_ack tcp));;
  syn ← flag RTE_TCP_SYN_FLAG;
  s ← get;
  (if syn && bool_decide (tcp_status s = USTACK_TCP_STATUS_LISTEN) then
     msg ← rte_pktmbuf_alloc;
     f ← ustack_encode_tcp_pkt msg (20 + 20 + 14);
     rte_eth_tx_burst f;;
     set_status USTACK_TCP_STATUS_SYN_RCVD
   else ret ());;
  tcp_established buf tcp.
Definition packet (buf : list Z) : M ustack unit :=
  type ← from_opt OutOfBounds (ld16 buf 12);
  if negb (type =? ntohs RTE_ETHER_TYPE_IPV4) then ret () else
  ip ← from_opt OutOfBounds (load_ipv4 buf);
  if next_proto_id ip =? IPPROTO_UDP then udp_packet buf ip
  else if next_proto_id ip =? IPPROTO_TCP then tcp_packet buf ip
  else ret ().
(** A burst, and the bursts of a run: the same loop over the packets received. *)
Fixpoint packets (bufs : list (list Z)) : M ustack unit :=
  match bufs with [] => ret () | b :: bufs => packet b;; packets bufs end.
End ustack.
