(* ===== verification/UstackEcho.v ===== *)
(** The small stack: the UDP echo, the single TCP connection it ever answers, and what a
    packet can make it do. *)
From S2P Require Import Prelude UsWire UsSock UsTcp UsFrame Ustack.

Section ustack_echo.
Context {R : Type → Type} `{HD : Dpdk R}.

(** ** Loads *)

Lemma ld8_range p off v : Forall is_u8 p → ld8 p off = Some v → is_u8 v.
Proof. intros Hp Hv. rewrite Forall_lookup in Hp. by eapply Hp. Qed.
Lemma ld16_range p off v : Forall is_u8 p → ld16 p off = Some v → is_u16 v.
Proof.
  intros Hp. unfold ld16. destruct (ld8 p off) eqn:H1, (ld8 p (S off)) eqn:H2; intros [= <-].
  apply ld8_range in H1, H2; [|done..]. word.
Qed.
Lemma ld32_range p off v : Forall is_u8 p → ld32 p off = Some v → is_u32 v.
Proof.
  intros Hp. unfold ld32. destruct (ld16 p off) eqn:H1, (ld16 p (2 + off)) eqn:H2; intros [= <-].
  apply ld16_range in H1, H2; [|done..]. word.
Qed.
Lemma load_ipv4_range p ip : Forall is_u8 p → load_ipv4 p = Some ip → is_u32 (src_addr ip) ∧ is_u32 (dst_addr ip).
Proof.
  intros Hp. unfold load_ipv4. destruct (ld16 p 16), (ld8 p 23), (ld32 p 26) eqn:H1, (ld32 p 30) eqn:H2; intros [= <-].
  apply ld32_range in H1, H2; done.
Qed.
Lemma load_udp_range p u : Forall is_u8 p → load_udp p = Some u →
  is_u16 (udp_src_port u) ∧ is_u16 (udp_dst_port u) ∧ is_u16 (dgram_len u).
Proof.
  intros Hp. unfold load_udp. destruct (ld16 p 34) eqn:H1, (ld16 p 36) eqn:H2, (ld16 p 38) eqn:H3, (ld16 p 40); intros [= <-].
  apply ld16_range in H1, H2, H3; done.
Qed.
Lemma load_tcp_range p t : Forall is_u8 p → load_tcp p = Some t →
  is_u16 (src_port t) ∧ is_u16 (dst_port t) ∧ is_u32 (sent_seq t).
Proof.
  intros Hp. unfold load_tcp.
  destruct (ld16 p 34) eqn:H1, (ld16 p 36) eqn:H2, (ld32 p 38) eqn:H3, (ld32 p 42), (ld8 p 46), (ld8 p 47), (ld16 p 48),
    (ld16 p 50), (ld16 p 52); intros [= <-]. apply ld16_range in H1, H2; [|done..]. apply ld32_range in H3; done.
Qed.

(** The bytes a load needs. *)
Lemma load_udp_length p u : load_udp p = Some u → (42 ≤ length p)%nat.
Proof.
  unfold load_udp, ld16, ld8. intros Hu. destruct (decide (42 ≤ length p)%nat); [done|].
  rewrite (lookup_ge_None_2 p 41) in Hu by lia. by repeat case_match.
Qed.
Lemma load_tcp_length p t : load_tcp p = Some t → (54 ≤ length p)%nat.
Proof.
  unfold load_tcp, ld16, ld8. intros Hu. destruct (decide (54 ≤ length p)%nat); [done|].
  rewrite (lookup_ge_None_2 p 53) in Hu by lia. by repeat case_match.
Qed.
Lemma ld_bytes_ok p off n : (off + n ≤ length p)%nat → ld_bytes p off n = Some (take n (drop off p)).
Proof. intros. unfold ld_bytes. by rewrite (proj2 (Nat.leb_le _ _)). Qed.
Lemma ld_bytes_length p off n l : ld_bytes p off n = Some l → length l = n.
Proof.
  unfold ld_bytes. destruct (_ <=? _)%nat eqn:Hle; intros [= <-]. apply Nat.leb_le in Hle.
  rewrite length_take_le; [done|]. rewrite length_drop. lia.
Qed.

(** ** The frame of a datagram *)

Definition udp_frame (sip dip sport dport n : Z) (smac dmac data : list Z) : list Z :=
  let ip := ip_hdr_cksum IPPROTO_UDP (42 + n) sip dip in
  ether_hdr dmac smac RTE_ETHER_TYPE_IPV4 ++ ip ++
  udp_header sport dport (8 + n) (u16 (rte_ipv4_udptcp_cksum ip (udp_header sport dport (8 + n) 0 ++ data))) ++ data.

Section load.
Context (sip dip sport dport n : Z) (smac dmac data : list Z).
Context (Hsip : is_u32 sip) (Hdip : is_u32 dip) (Hsp : is_u16 sport) (Hdp : is_u16 dport).
Context (Hn : 0 ≤ n) (Hn' : n ≤ 65507) (Hs : length smac = 6%nat) (Hd : length dmac = 6%nat).
Abbreviation f := (udp_frame sip dip sport dport n smac dmac data).
Abbreviation ip := (ip_hdr_cksum IPPROTO_UDP (42 + n) sip dip).
Abbreviation ck := (u16 (rte_ipv4_udptcp_cksum ip (udp_header sport dport (8 + n) 0 ++ data))).

Lemma udp_drop_ether : drop 14 f = ip ++ udp_header sport dport (8 + n) ck ++ data.
Proof. destruct (six_bytes _ Hs) as (?&?&?&?&?&?&->), (six_bytes _ Hd) as (?&?&?&?&?&?&->). done. Qed.
Lemma udp_drop_ip : drop 34 f = udp_header sport dport (8 + n) ck ++ data.
Proof. change 34%nat with (14 + 20)%nat. by rewrite <-drop_drop, udp_drop_ether. Qed.
Lemma udp_drop_udp : drop 42 f = data.
Proof. change 42%nat with (34 + 8)%nat. by rewrite <-drop_drop, udp_drop_ip. Qed.
Lemma udp_take_ip : take 20 (drop 14 f) = ip.
Proof. by rewrite udp_drop_ether. Qed.
Lemma udp_macs : take 6 f = dmac ∧ take 6 (drop 6 f) = smac.
Proof. destruct (six_bytes _ Hs) as (?&?&?&?&?&?&->), (six_bytes _ Hd) as (?&?&?&?&?&?&->). done. Qed.
Lemma udp_length : length f = (42 + length data)%nat.
Proof. unfold udp_frame, ether_hdr. rewrite !length_app, Hs, Hd. cbn. lia. Qed.
Lemma udp_load_ipv4 : load_ipv4 f = Some (mk_ipv4 (ntohs (28 + n)) IPPROTO_UDP sip dip).
Proof.
  unfold load_ipv4. rewrite (ld16_drop _ 2 14), (ld8_drop _ 9 14), (ld32_drop _ 12 14), (ld32_drop _ 16 14), udp_drop_ether.
  unfold ip_hdr_cksum, ip_hdr. rewrite (ld16_drop _ 0 2), (ld32_drop _ 0 12), (ld32_drop _ 0 16).
  cbn [drop app le16 le32 ld8 lookup]. replace (u16 (42 + n - 14)) with (28 + n) by word.
  pose proof (ntohs_range (28 + n)). unfold ld32, ld16, ld8. cbn. by rewrite (le16_value (ntohs _)), !le32_value.
Qed.
Lemma udp_load_udp : load_udp f = Some (mk_udp sport dport (ntohs (8 + n)) ck).
Proof.
  pose proof (u16_range (rte_ipv4_udptcp_cksum ip (udp_header sport dport (8 + n) 0 ++ data))).
  pose proof (ntohs_range (8 + n)). unfold load_udp.
  rewrite (ld16_drop _ 0 34), (ld16_drop _ 2 34), (ld16_drop _ 4 34), (ld16_drop _ 6 34), udp_drop_ip.
  set (c := ck) in *. clearbody c. unfold udp_header.
  cbn [app le16]. unfold ld16, ld8. cbn -[Z.add Z.mul Z.div Z.modulo Z.pow]. by rewrite !le16_value.
Qed.
Lemma udp_cksum_zero : take 6 (drop 34 f) ++ [0; 0] ++ drop 42 f = udp_header sport dport (8 + n) 0 ++ data.
Proof. by rewrite udp_drop_udp, udp_drop_ip. Qed.
End load.

(** ** The echo *)

Lemma wp_mbuf_alloc s msg pl (Q : list Z → ustack → Prop) :
  pool s = Some msg :: pl →
  Q msg (mk_ustack (global_smac s) (global_dmac s) (global_sip s) (global_dip s) (global_sport s) (global_dport s)
    (global_flags s) (global_seqnum s) (global_acknum s) (tcp_status s) pl (sent s)) →
  wp rte_pktmbuf_alloc Q s.
Proof. intros Hp HQ. unfold rte_pktmbuf_alloc, set_pool. wp_step. rewrite Hp. done. Qed.

(** A UDP packet in a buffer: its headers and the length it claims. *)
Definition is_udp (buf : list Z) (ip : ipv4_hdr) (udp : udp_hdr) (n : Z) : Prop :=
  Forall is_u8 buf ∧ length buf = Z.to_nat mbuf_room ∧ ld16 buf 12 = Some (ntohs RTE_ETHER_TYPE_IPV4) ∧
  load_ipv4 buf = Some ip ∧ next_proto_id ip = IPPROTO_UDP ∧
  load_udp buf = Some udp ∧ ntohs (dgram_len udp) = 8 + n.

Lemma take_endpoints_spec buf ip sp dp s (Q : unit → ustack → Prop) :
  (12 ≤ length buf)%nat →
  Q () (mk_ustack (take 6 buf) (take 6 (drop 6 buf)) (dst_addr ip) (src_addr ip) dp sp (global_flags s) (global_seqnum s)
    (global_acknum s) (tcp_status s) (pool s) (sent s)) →
  wp (take_endpoints buf ip sp dp) Q s.
Proof.
  intros Hlen HQ. unfold take_endpoints, set_endpoints. rewrite !ld_bytes_ok by lia. rewrite drop_0. by wp_step.
Qed.
Lemma encode_udp buf s n :
  0 ≤ n → 50 + n ≤ mbuf_room → mbuf_room ≤ 65535 → length buf = Z.to_nat mbuf_room →
  length (global_smac s) = 6%nat → length (global_dmac s) = 6%nat →
  ustack_encode_udp_pkt buf (42 + n) s
  = Ok (udp_frame (global_sip s) (global_dip s) (global_sport s) (global_dport s) n (global_smac s) (global_dmac s)
      (take (Z.to_nat n) (drop 42 buf)), s).
Proof.
  intros Hn Hroom Hmax Hbuf Hs Hd. unfold ustack_encode_udp_pkt, bind, get. cbn zeta.
  replace (u16 (42 + n - 14 - 20)) with (8 + n) by word. rewrite (proj2 (Z.ltb_ge _ _)) by lia.
  rewrite ld_bytes_ok by lia. cbn [from_opt ret]. unfold udp_frame. set (data := take (Z.to_nat n) (drop 42 buf)).
  replace (Z.to_nat (8 + n)) with (8 + Z.to_nat n)%nat by lia.
  assert (∀ ck, take (8 + Z.to_nat n) (udp_header (global_sport s) (global_dport s) (8 + n) ck ++ take (8 + Z.to_nat n) (drop 42 buf))
    = udp_header (global_sport s) (global_dport s) (8 + n) ck ++ data) as Hcov.
  { intros ck. rewrite take_app_add' by done. unfold data. by rewrite take_take, Nat.min_l by lia. }
  rewrite Hcov. f_equal. f_equal. set (h := udp_header _ _ _ _). set (i := ip_hdr_cksum _ _ _ _).
  replace (Z.to_nat (42 + n)) with (14 + (20 + (8 + Z.to_nat n)))%nat by lia.
  rewrite take_app_add' by (unfold ether_hdr; rewrite !length_app, Hs, Hd; done).
  rewrite take_app_add' by done. rewrite take_app_add' by done. unfold data. by rewrite take_take, Nat.min_l by lia.
Qed.

(** C25: A UDP packet is answered by one frame: addresses, ports and MACs exchanged, the length
    it claims, that many bytes of the buffer behind its header, and a checksum the receiver
    accepts; the TCP side does not change. *)
Theorem udp_is_echoed s buf ip udp n msg pl :
  is_udp buf ip udp n → 0 ≤ n → 50 + n ≤ mbuf_room → mbuf_room ≤ 65535 → pool s = Some msg :: pl → 0 ∈ drop 42 buf →
  wp (packet buf) (λ _ s', ∃ f ck,
    sent s' = sent s ++ [f] ∧ tcp_status s' = tcp_status s ∧ pool s' = pl ∧
    take 6 f = take 6 (drop 6 buf) ∧ take 6 (drop 6 f) = take 6 buf ∧
    load_ipv4 f = Some (mk_ipv4 (ntohs (28 + n)) IPPROTO_UDP (dst_addr ip) (src_addr ip)) ∧
    load_udp f = Some (mk_udp (udp_dst_port udp) (udp_src_port udp) (dgram_len udp) ck) ∧
    drop 42 f = take (Z.to_nat n) (drop 42 buf) ∧
    u16 (rte_ipv4_udptcp_cksum (take 20 (drop 14 f)) (take 6 (drop 34 f) ++ [0; 0] ++ drop 42 f)) = ck) s.
Proof.
  intros (Hb & Hlen & Hty & Hip & Hpr & Hudp & Hdl) Hn Hroom Hmax Hpool Hz.
  destruct (load_ipv4_range _ _ Hb Hip) as [Hsrc Hdst]. destruct (load_udp_range _ _ Hb Hudp) as (Hsp & Hdp & Hdlr).
  pose proof (load_udp_length _ _ Hudp) as H42. unfold packet. rewrite Hty. cbn [from_opt]. wp_step.
  rewrite Z.eqb_refl. cbn [negb]. rewrite Hip. cbn [from_opt]. wp_step. rewrite Hpr. cbn [Z.eqb Pos.eqb]. change (IPPROTO_UDP =? IPPROTO_UDP) with true. cbn [from_opt].
  unfold udp_packet. rewrite Hudp. wp_step. cbn [from_opt]. wp_step. apply take_endpoints_spec; [lia|]. wp_step.
  eapply wp_mbuf_alloc; [done|]. wp_step. rewrite Hdl. replace (u16 (8 + n + 20 + 14)) with (42 + n) by word.
  set (dmac := take 6 (drop 6 buf)). set (smac := take 6 buf).
  assert (length smac = 6%nat) as Hs by (unfold smac; rewrite length_take_le by lia; done).
  assert (length dmac = 6%nat) as Hd by (unfold dmac; rewrite length_take_le by (rewrite length_drop; lia); done).
  eapply wp_lift_pure; [by apply encode_udp|]. unfold rte_eth_tx_burst. wp_step. cbn [global_smac global_dmac global_sip global_dip global_sport global_dport].
  unfold print_str. rewrite bool_decide_eq_true_2 by done. wp_step. eexists _, _. cbn [sent tcp_status pool].
  split; [reflexivity|]. split; [done|]. split; [done|].
  rewrite udp_cksum_zero, udp_load_udp, udp_load_ipv4, udp_drop_udp, udp_take_ip by (done || lia).
  split_and!; [by apply udp_macs..|done| |done|reflexivity]. rewrite <-Hdl, ntohs_involutive by done. done.
Qed.

(** A claim beyond the buffer is followed: the copy runs past it. *)
Theorem long_claim_overruns s buf ip udp n msg pl :
  is_udp buf ip udp n → mbuf_room < 50 + n → mbuf_room ≤ 65535 → pool s = Some msg :: pl →
  packet buf s = UB OutOfBounds.
Proof.
  intros (Hb & Hlen & Hty & Hip & Hpr & Hudp & Hdl) Hroom Hmax Hpool.
  destruct (load_udp_range _ _ Hb Hudp) as (_ & _ & Hdlr). pose proof (load_udp_length _ _ Hudp) as H42.
  unfold packet. rewrite Hty. unfold bind at 1. cbn [from_opt ret]. rewrite Z.eqb_refl. cbn [negb]. rewrite Hip. unfold bind at 1. cbn [from_opt ret].
  rewrite Hpr. change (IPPROTO_UDP =? IPPROTO_UDP) with true. cbn [from_opt]. unfold udp_packet. rewrite Hudp.
  unfold take_endpoints, set_endpoints. rewrite !ld_bytes_ok by lia.
  unfold rte_pktmbuf_alloc, set_pool, ustack_encode_udp_pkt, bind, from_opt, ret, modify, get. cbn [pool]. rewrite Hpool. cbn [head].
  rewrite Hdl. pose proof (ntohs_range (dgram_len udp)). replace (u16 (u16 (8 + n + 20 + 14) - 14 - 20)) with (8 + n) by word.
  by rewrite (proj2 (Z.ltb_lt _ _)) by lia.
Qed.
End ustack_echo.

(** ** On concrete packets *)

#[local] Existing Instance list_dpdk.

Definition in_buffer (f : list Z) : list Z := f ++ replicate (Z.to_nat mbuf_room - length f) 0.
Definition client_mac : list Z := [2; 0; 0; 0; 0; 9].
Definition client_ip : Z := 1.
Definition server_ip : Z := 2.
(** A datagram that claims [n] bytes and has [data]. *)
Definition datagram (n : Z) (data : list Z) : list Z :=
  in_buffer (ether_hdr gSrcMac client_mac RTE_ETHER_TYPE_IPV4 ++ ip_hdr IPPROTO_UDP (42 + n) client_ip server_ip 0 ++
    udp_header 1000 53 (8 + n) 0 ++ data).
Definition fresh : list Z := replicate 2048 0.
Definition demo_ip proto len : ipv4_hdr := mk_ipv4 (ntohs len) proto client_ip server_ip.

Lemma udp_is_echoed_witness :
  wp (packet (datagram 2 [104; 105])) (λ _ s', ∃ f ck, sent s' = [f] ∧
    load_udp f = Some (mk_udp 53 1000 (ntohs 10) ck) ∧ drop 42 f = [104; 105]) (ustack_zero [Some fresh]).
Proof.
  eapply wp_mono.
  - apply (udp_is_echoed (ustack_zero [Some fresh]) (datagram 2 [104; 105]) (demo_ip IPPROTO_UDP 30) (mk_udp 1000 53 (ntohs 10) 0) 2 fresh []);
      [|lia|by vm_compute|by vm_compute|done|apply (bool_decide_unpack _); vm_compute; exact I].
    split_and!; [apply (bool_decide_unpack _); vm_compute; exact I|vm_compute; reflexivity..].
  - intros _ s' (f & ck & Hs & _ & _ & _ & _ & _ & Hu & Hd & _). exists f, ck. split_and!; [done|done|]. rewrite Hd. vm_compute. reflexivity.
Defined.
Lemma long_claim_overruns_witness : packet (datagram 1999 [104; 105]) (ustack_zero [Some fresh]) = UB OutOfBounds.
Proof.
  apply (long_claim_overruns (ustack_zero [Some fresh]) (datagram 1999 [104; 105]) (demo_ip IPPROTO_UDP 2027) (mk_udp 1000 53 (ntohs 2007) 0) 1999 fresh []);
    [|vm_compute; reflexivity|by vm_compute|done].
  split_and!; [apply (bool_decide_unpack _); vm_compute; exact I|vm_compute; reflexivity..].
Defined.
