(* ===== verification/UstackTcp.v ===== *)
(** The small stack: what it does with a TCP segment in every state, that it answers a
    single connection request ever, and what a packet can make it do. *)
From S2P Require Import Prelude UsWire UsSock UsTcp UsFrame Ustack UstackEcho.

Definition has (flags f : Z) : bool := negb (Z.land flags f =? 0).
(** The state after a segment. *)
Definition opened (st : USTACK_TCP_STATUS) (flags : Z) : bool :=
  has flags RTE_TCP_SYN_FLAG && bool_decide (st = USTACK_TCP_STATUS_LISTEN).
Definition next_status (st : USTACK_TCP_STATUS) (flags : Z) : USTACK_TCP_STATUS :=
  let st := if opened st flags then USTACK_TCP_STATUS_SYN_RCVD else st in
  if has flags RTE_TCP_ACK_FLAG && bool_decide (st = USTACK_TCP_STATUS_SYN_RCVD) then USTACK_TCP_STATUS_ESTABLISHED else st.

Section ustack_tcp.
Context {R : Type → Type} `{HD : Dpdk R}.

(** ** One segment *)

Definition is_tcp (buf : list Z) (ip : ipv4_hdr) (tcp : tcp_hdr) : Prop :=
  Forall is_u8 buf ∧ ld16 buf 12 = Some (ntohs RTE_ETHER_TYPE_IPV4) ∧
  load_ipv4 buf = Some ip ∧ next_proto_id ip = IPPROTO_TCP ∧ load_tcp buf = Some tcp.
(** The SYN/ACK that answers it. *)
Definition answers (buf : list Z) (ip : ipv4_hdr) (tcp : tcp_hdr) (f : list Z) : Prop :=
  ∃ ck urp, take 6 f = take 6 (drop 6 buf) ∧ take 6 (drop 6 f) = take 6 buf ∧ length f = 54%nat ∧
  load_ipv4 f = Some (mk_ipv4 (ntohs 40) IPPROTO_TCP (dst_addr ip) (src_addr ip)) ∧
  load_tcp f = Some (mk_tcp (dst_port tcp) (src_port tcp) (ntohl 12345) (ntohl (u32 (ntohl (sent_seq tcp) + 1))) 0x50 0x12
    TCP_INIT_WINDOWS ck urp) ∧
  u16 (rte_ipv4_udptcp_cksum (take 20 (drop 14 f)) (clear_cksum f)) = ck.

Lemma encode_tcp_frame msg urp s :
  ld16 msg 52 = Some urp →
  ustack_encode_tcp_pkt msg 54 s
  = Ok (tcp_frame (global_sip s) (global_dip s) (global_smac s) (global_dmac s) (syn_ack s) urp [], s).
Proof.
  intros Hu. unfold ustack_encode_tcp_pkt, bind, get. cbn zeta. rewrite Hu. cbn [from_opt ret].
  unfold tcp_frame. cbn [fr_length syn_ack]. by rewrite !app_nil_r.
Qed.
Lemma syn_ack_answers buf ip tcp s urp :
  is_tcp buf ip tcp → is_u16 urp → global_seqnum s = ntohl (sent_seq tcp) →
  global_smac s = take 6 buf → global_dmac s = take 6 (drop 6 buf) → global_sip s = dst_addr ip → global_dip s = src_addr ip →
  global_sport s = dst_port tcp → global_dport s = src_port tcp →
  answers buf ip tcp (tcp_frame (global_sip s) (global_dip s) (global_smac s) (global_dmac s) (syn_ack s) urp []).
Proof.
  intros (Hb & _ & Hip & _ & Htcp) Hu Hseq Hsm Hdm Hsi Hdi Hsp Hdp.
  destruct (load_ipv4_range _ _ Hb Hip) as [Hsrc Hdst]. destruct (load_tcp_range _ _ Hb Htcp) as (Hs & Hd & _).
  pose proof (load_tcp_length _ _ Htcp) as Hlen.
  assert (length (global_smac s) = 6%nat) as H6 by (rewrite Hsm, length_take_le by lia; done).
  assert (length (global_dmac s) = 6%nat) as H6' by (rewrite Hdm, length_take_le by (rewrite length_drop; lia); done).
  assert (fragment_ok (syn_ack s)) as Hf.
  { split; cbn; rewrite ?Hsp, ?Hdp; try done; unfold TCP_INIT_WINDOWS; word. }
  eexists _, urp. rewrite length_frame, load_ipv4_frame, load_tcp_frame, take_ip_frame, clear_cksum_frame
    by first [done|congruence|cbn; lia]. rewrite <-Hsi, <-Hdi, <-Hsp, <-Hdp, <-Hseq, <-Hsm, <-Hdm.
  destruct (six_bytes _ H6) as (?&?&?&?&?&?&->), (six_bytes _ H6') as (?&?&?&?&?&?&->). by split_and!.
Qed.

Lemma wp_flag f s (Q : bool → ustack → Prop) : Q (has (global_flags s) f) s → wp (flag f) Q s.
Proof. intros. unfold flag. by wp_step. Qed.
Lemma wp_print buf off s (Q : unit → ustack → Prop) : 0 ∈ drop off buf → Q () s → wp (print_str buf off) Q s.
Proof. intros. unfold print_str. by rewrite bool_decide_eq_true_2. Qed.

Lemma established_spec s buf tcp (Q : unit → ustack → Prop) :
  0 ∈ drop (34 + Z.to_nat (u8 (Z.shiftr (data_off tcp) 4 * 4))) buf →
  (∀ s', tcp_status s' = (if has (global_flags s) RTE_TCP_ACK_FLAG && bool_decide (tcp_status s = USTACK_TCP_STATUS_SYN_RCVD)
     then USTACK_TCP_STATUS_ESTABLISHED else tcp_status s) → pool s' = pool s → sent s' = sent s → Q () s') →
  wp (tcp_established buf tcp) Q s.
Proof.
  intros Hz HQ. unfold tcp_established. wp_step. apply wp_flag. wp_step. case_match; unfold set_status; wp_step; apply wp_flag; wp_step;
    (case_match; [apply wp_print; [done|]|wp_step]; by apply HQ).
Qed.

(** What a TCP segment does, in every state and with any flags: only a SYN to a stack
    that still listens is answered; the state moves to SYN_RCVD with it and to ESTABLISHED
    with an ACK, in one segment if it has both flags. *)
Theorem segment_moves_status s buf ip tcp msg urp pl :
  is_tcp buf ip tcp → pool s = Some msg :: pl → ld16 msg 52 = Some urp → is_u16 urp →
  0 ∈ drop (34 + Z.to_nat (u8 (Z.shiftr (data_off tcp) 4 * 4))) buf →
  wp (packet buf) (λ _ s', tcp_status s' = next_status (tcp_status s) (tcp_flags tcp) ∧
    if opened (tcp_status s) (tcp_flags tcp) then pool s' = pl ∧ ∃ f, sent s' = sent s ++ [f] ∧ answers buf ip tcp f
    else pool s' = pool s ∧ sent s' = sent s) s.
Proof.
  intros Ht Hpool Hurp Hu Hz. pose proof Ht as (Hb & Hty & Hip & Hpr & Htcp). pose proof (load_tcp_length _ _ Htcp) as Hlen.
  unfold packet. rewrite Hty. cbn [from_opt]. wp_step. rewrite Z.eqb_refl. cbn [negb]. rewrite Hip. cbn [from_opt]. wp_step.
  rewrite Hpr. change (IPPROTO_TCP =? IPPROTO_UDP) with false. change (IPPROTO_TCP =? IPPROTO_TCP) with true. cbn [from_opt].
  unfold tcp_packet. rewrite Htcp. cbn [from_opt]. wp_step. apply take_endpoints_spec; [lia|]. unfold set_tcp. wp_step.
  apply wp_flag. wp_step. cbn [global_flags tcp_status]. fold (opened (tcp_status s) (tcp_flags tcp)). unfold next_status.
  set (x := mk_ustack _ _ _ _ _ _ _ _ _ _ _ _).
  destruct (opened (tcp_status s) (tcp_flags tcp)).
  - wp_step. eapply wp_mbuf_alloc; [done|]. wp_step. cbn [global_smac global_dmac global_sip global_dip global_sport global_dport global_flags global_seqnum global_acknum].
    set (y := mk_ustack _ _ _ _ _ _ _ _ _ _ _ _). change (20 + 20 + 14) with 54.
    eapply wp_lift_pure; [by apply (encode_tcp_frame msg urp)|]. unfold rte_eth_tx_burst, set_status. wp_step.
    assert (answers buf ip tcp (tcp_frame (global_sip y) (global_dip y) (global_smac y) (global_dmac y) (syn_ack y) urp [])) as Ha
      by by apply syn_ack_answers.
    set (f := tcp_frame _ _ _ _ _ _ _) in *. clearbody f. apply established_spec; [done|].
    intros s3 Hst Hp Hse. rewrite Hst, Hp, Hse. cbn [tcp_status pool sent]. split; [done|]. split; [done|]. by exists f.
  - wp_step. apply established_spec; [done|]. by intros s3 -> -> ->.
Qed.

(** ** Any packets *)

Definition tcp_frames (s : ustack) : list (list Z) := filter (λ f, ld8 f 23 = Some IPPROTO_TCP) (sent s).
(** One TCP frame was sent if and only if the stack no longer listens. *)
Definition answered_once (s : ustack) : Prop :=
  (tcp_status s = USTACK_TCP_STATUS_LISTEN ∧ tcp_frames s = []) ∨
  ((tcp_status s = USTACK_TCP_STATUS_SYN_RCVD ∨ tcp_status s = USTACK_TCP_STATUS_ESTABLISHED) ∧ length (tcp_frames s) = 1%nat).
Definition same_answers (s s' : ustack) : Prop := tcp_status s' = tcp_status s ∧ sent s' = sent s.
Lemma answered_same s s' : same_answers s s' → answered_once s → answered_once s'.
Proof. unfold answered_once, tcp_frames. by intros [-> ->]. Qed.

Lemma wlp_endpoints buf ip sp dp s :
  wlp (take_endpoints buf ip sp dp) (λ _ s', same_answers s s' ∧ length (global_smac s') = 6%nat ∧ length (global_dmac s') = 6%nat) s.
Proof.
  unfold take_endpoints, set_endpoints. wp_step. apply wlp_from_opt. intros dmac Hd. wp_step. apply wlp_from_opt. intros smac Hs.
  wp_step. split; [done|]. split; [by apply ld_bytes_length in Hs|by apply ld_bytes_length in Hd].
Qed.
Lemma wlp_alloc s : wlp rte_pktmbuf_alloc (λ _ s', same_answers s s' ∧ global_smac s' = global_smac s ∧ global_dmac s' = global_dmac s) s.
Proof. unfold rte_pktmbuf_alloc, set_pool. wp_step. by destruct (head (pool s)) as [[]|]. Qed.
Lemma wlp_print buf off s : wlp (print_str buf off) (λ _ s', s' = s) s.
Proof. unfold print_str. by case_bool_decide. Qed.
Lemma wlp_encode_udp buf total s :
  is_u16 total → mbuf_room ≤ 65535 → length (global_smac s) = 6%nat → length (global_dmac s) = 6%nat →
  wlp (ustack_encode_udp_pkt buf total) (λ f s', s' = s ∧ ld8 f 23 = Some IPPROTO_UDP) s.
Proof.
  intros Ht Hmax Hs Hd. unfold ustack_encode_udp_pkt. wp_step. destruct (Z.ltb_spec mbuf_room (14 + 20 + 8 + u16 (total - 14 - 20))); [done|].
  wp_step. apply wlp_from_opt. intros data _. wp_step. split; [done|]. assert (34 ≤ total) as H34 by word.
  unfold ld8. rewrite lookup_take_lt by lia.
  destruct (six_bytes _ Hs) as (?&?&?&?&?&?&->), (six_bytes _ Hd) as (?&?&?&?&?&?&->). done.
Qed.
Lemma wlp_encode_tcp msg s :
  length (global_smac s) = 6%nat → length (global_dmac s) = 6%nat →
  wlp (ustack_encode_tcp_pkt msg 54) (λ f s', s' = s ∧ ld8 f 23 = Some IPPROTO_TCP) s.
Proof.
  intros Hs Hd. unfold ustack_encode_tcp_pkt. wp_step. apply wlp_from_opt. intros urp _. wp_step. split; [done|].
  destruct (six_bytes _ Hs) as (?&?&?&?&?&?&->), (six_bytes _ Hd) as (?&?&?&?&?&?&->). done.
Qed.

Lemma wlp_flag f s : wlp (flag f) (λ b s', s' = s) s.
Proof. unfold flag. by wp_step. Qed.
Lemma udp_packet_answers buf ip s :
  mbuf_room ≤ 65535 → answered_once s → wlp (udp_packet buf ip) (λ _, answered_once) s.
Proof.
  intros Hmax Hs. unfold udp_packet. wp_step. apply wlp_from_opt. intros udp _. wp_step.
  eapply wlp_mono; [apply wlp_endpoints|]. intros _ s1 (H1 & Hs1 & Hd1). wp_step.
  eapply wlp_mono; [apply wlp_alloc|]. intros _ s2 (H2 & Hs2 & Hd2). wp_step. rewrite <-Hs2 in Hs1. rewrite <-Hd2 in Hd1.
  eapply wlp_mono; [apply wlp_encode_udp; auto with word_db|]. intros f s3 [-> Hf]. unfold rte_eth_tx_burst. wp_step.
  eapply wlp_mono; [apply wlp_print|]. intros _ s4 ->. pose proof (answered_same _ _ H2 (answered_same _ _ H1 Hs)) as Ha.
  unfold answered_once, tcp_frames in *. cbn [tcp_status sent]. rewrite filter_app, filter_cons_False; [by rewrite app_nil_r|]. by rewrite Hf.
Qed.
Lemma tcp_packet_answers buf ip s : answered_once s → wlp (tcp_packet buf ip) (λ _, answered_once) s.
Proof.
  intros Hs. unfold tcp_packet. wp_step. apply wlp_from_opt. intros tcp _. wp_step.
  eapply wlp_mono; [apply wlp_endpoints|]. intros _ s1 (H1 & Hs1 & Hd1). unfold set_tcp. wp_step.
  pose proof (answered_same _ _ H1 Hs) as Ha. eapply wlp_mono; [apply wlp_flag|]. intros syn s2 ->. wp_step. cbn [tcp_status].
  apply (wlp_mono _ (λ _, answered_once)).
  - case_match eqn:Hsyn; [|wp_step; exact Ha]. apply andb_true_iff in Hsyn as [_ Hl%bool_decide_eq_true].
    wp_step. eapply wlp_mono; [apply wlp_alloc|]. intros msg s2 ([Hst Hse] & Hs2 & Hd2). wp_step. cbn in *.
    eapply wlp_mono; [apply wlp_encode_tcp; congruence|]. intros f s3 [-> Hf]. unfold rte_eth_tx_burst, set_status. wp_step.
    unfold answered_once, tcp_frames in *. cbn [tcp_status sent] in *. right. split; [by left|]. rewrite Hse, filter_app.
    destruct Ha as [[_ ->]|[[] _]]; [|congruence..]. rewrite filter_cons_True by done. done.
  - intros _ s2 Ha2. unfold tcp_established. wp_step. eapply wlp_mono; [apply wlp_flag|]. intros ack s3 ->. wp_step.
    apply (wlp_mono _ (λ _, answered_once)).
    + case_match eqn:Hack; [|wp_step; exact Ha2]. apply andb_true_iff in Hack as [_ Hr%bool_decide_eq_true].
      unfold set_status. wp_step. unfold answered_once, tcp_frames in *. cbn [tcp_status sent].
      destruct Ha2 as [[? _]|[_ ?]]; [congruence|]. right. split; [by right|done].
    + intros _ s3 Ha3. wp_step. eapply wlp_mono; [apply wlp_flag|]. intros psh s4 ->. wp_step. case_match; [|by wp_step].
      eapply wlp_mono; [apply wlp_print|]. by intros _ s5 ->.
Qed.

(** C24: Whatever packets arrive, and in whatever order: the stack sends one SYN/ACK in its
    life, to the first segment with a SYN, and never another TCP frame; whoever comes
    later is not answered, not even when the first client has left. *)
Theorem one_connection_ever bufs pl :
  mbuf_room ≤ 65535 →
  wlp (packets bufs) (λ _ s, answered_once s ∧ (length (tcp_frames s) ≤ 1)%nat) (ustack_zero pl).
Proof.
  intros Hmax. apply (wlp_mono _ (λ _, answered_once)).
  - assert (answered_once (ustack_zero pl)) as Hs by by left. revert Hs. generalize (ustack_zero pl).
    induction bufs as [|b bufs IH]; intros s Hs; cbn [packets]; [by wp_step|]. wp_step.
    apply (wlp_mono _ (λ _, answered_once)); [|intros []; exact IH]. unfold packet. wp_step. apply wlp_from_opt. intros ty _. case_match; [by wp_step|].
    wp_step. apply wlp_from_opt. intros ip _. case_match; [by apply udp_packet_answers|].
    case_match; [by apply tcp_packet_answers|by wp_step].
  - intros _ s Ha. split; [exact Ha|]. destruct Ha as [[_ ->]|[_ ->]]; cbn; lia.
Qed.
End ustack_tcp.

(** ** On concrete packets *)

#[local] Existing Instance list_dpdk.

Definition segment (sport flags seq : Z) (data : list Z) : list Z :=
  in_buffer (ether_hdr gSrcMac client_mac RTE_ETHER_TYPE_IPV4 ++
    ip_hdr IPPROTO_TCP (54 + Z.of_nat (length data)) client_ip server_ip 0 ++
    tcp_header (mk_fragment sport 80 seq 0 0x50 flags 100 (Some 0) (Some 0) None 0) 0 0 ++ data).
Lemma segment_moves_status_witness :
  wp (packet (segment 1000 0x02 41 [])) (λ _ s', tcp_status s' = USTACK_TCP_STATUS_SYN_RCVD ∧ ∃ f, sent s' = [f] ∧
    answers (segment 1000 0x02 41 []) (demo_ip IPPROTO_TCP 40) (mk_tcp 1000 80 (ntohl 41) 0 0x50 0x02 100 0 0) f) (ustack_zero [Some fresh]).
Proof.
  eapply wp_mono.
  - apply (segment_moves_status (ustack_zero [Some fresh]) (segment 1000 0x02 41 []) (demo_ip IPPROTO_TCP 40)
      (mk_tcp 1000 80 (ntohl 41) 0 0x50 0x02 100 0 0) fresh 0 []); [|done|vm_compute; reflexivity|word|apply (bool_decide_unpack _); vm_compute; exact I].
    split_and!; [apply (bool_decide_unpack _); vm_compute; exact I|vm_compute; reflexivity..].
  - intros _ s' [Hst [_ Hf]]. split; [rewrite Hst; vm_compute; reflexivity|exact Hf].
Defined.
Lemma one_connection_ever_witness :
  ∃ s, packets [segment 1000 0x02 41 []; segment 1000 0x10 42 []; segment 1000 0x18 42 [104; 105]; segment 2000 0x02 7 []]
      (ustack_zero [Some fresh; Some fresh]) = Ok ((), s) ∧
    tcp_status s = USTACK_TCP_STATUS_ESTABLISHED ∧ (length (tcp_frames s) ≤ 1)%nat.
Proof.
  set (bufs := [_; _; _; _]). destruct (packets bufs (ustack_zero [Some fresh; Some fresh])) as [[[] s]| |] eqn:Hrun; [|vm_compute in Hrun; done..].
  exists s. split; [done|]. split.
  - vm_compute in Hrun. by injection Hrun as <-.
  - apply (wlp_run _ _ _ _ _ (one_connection_ever (HD := list_dpdk) bufs [Some fresh; Some fresh] ltac:(by vm_compute)) Hrun).
Defined.

(** A segment with SYN and ACK opens the connection alone. *)
Theorem one_segment_opens :
  ∃ s, packet (segment 1000 0x12 41 []) (ustack_zero [Some fresh]) = Ok ((), s) ∧ tcp_status s = USTACK_TCP_STATUS_ESTABLISHED.
Proof. eexists. split; [vm_compute; reflexivity|done]. Qed.
(** A datagram that claims more than it carries is answered with what an earlier packet
    left in the buffer. *)
Theorem short_datagram_leaks :
  ∃ s f, packet (datagram 6 ([104; 105] ++ [115; 101; 99; 114])) (ustack_zero [Some fresh]) = Ok ((), s) ∧
    sent s = [f] ∧ drop 42 f = [104; 105; 115; 101; 99; 114].
Proof. eexists _, _. split; [vm_compute; reflexivity|]. split; [reflexivity|]. vm_compute. reflexivity. Qed.
(** Without a buffer the program ends. *)
Theorem no_buffer_ends_program : packet (datagram 2 [104; 105]) (ustack_zero [None]) = UB ProcessExit.
Proof. vm_compute. reflexivity. Qed.
