(* ===== verification/TpList.v ===== *)
(** Thread pool, part 1: the list macros of junior/04_threadpool/Threadpool.c
    (LIST_INSERT_HEAD, LIST_INSERT_TAIL, LIST_REMOVE) on a heap of nodes with [prev]
    and [next], and the lists of addresses they implement. *)
From S2P Require Import Prelude.

(** ** The nodes and the macros *)

(** The two link fields of struct nTask and struct nWorker; [None] is NULL. *)
Record dnode := Dnode { prev : option nat; next : option nat }.

(** A structure with the two link fields: the macros are written for any such type. *)
Class Linked (X : Type) := {
  lk : X → dnode;
  set_lk : dnode → X → X;
  lk_set d n : lk (set_lk d n) = d;
  set_set d d' n : set_lk d (set_lk d' n) = set_lk d n;
}.

(** The live structures of one type, and the variable that heads the list. *)
Record dlist (X : Type) := Dlist { cells : gmap nat X; first : option nat }.
Arguments Dlist {X} cells first.
Arguments cells {X} d.
Arguments first {X} d.

Section macros.
Context {X : Type} `{Linked X}.
Abbreviation L := (dlist X).

Definition cell (p : nat) : M L X := c ← gets (λ s, cells s !! p); from_opt DanglingDeref c.
Definition set_cell (p : nat) (n : X) : M L unit :=
  modify (λ s, Dlist (<[p := n]> (cells s)) (first s)).
Definition set_next (p : nat) (v : option nat) : M L unit :=
  n ← cell p; set_cell p (set_lk (Dnode (prev (lk n)) v) n).
Definition set_prev (p : nat) (v : option nat) : M L unit :=
  n ← cell p; set_cell p (set_lk (Dnode v (next (lk n))) n).
Definition set_first (v : option nat) : M L unit := modify (λ s, Dlist (cells s) v).

Definition LIST_INSERT_HEAD (item : nat) : M L unit :=
  set_prev item None;;
  list ← gets first;
  set_next item list;;
  (match list with Some h => set_prev h (Some item) | None => ret () end);;
  set_first (Some item).

(** [while (tail_->next) tail_ = tail_->next]. *)
Fixpoint find_tail (fuel : nat) (tail_ : nat) : M L nat :=
  match fuel with
  | O => no_fuel
  | S fuel => n ← cell tail_;
      match next (lk n) with Some t => find_tail fuel t | None => ret tail_ end
  end.

Definition LIST_INSERT_TAIL (item : nat) : M L unit :=
  set_next item None;;
  set_prev item None;;
  list ← gets first;
  match list with
  | None => set_first (Some item)
  | Some h =>
      fuel ← gets (λ s, size (cells s));
      tail_ ← find_tail (S fuel) h;
      set_next tail_ (Some item);;
      set_prev item (Some tail_)
  end.

Definition LIST_REMOVE (item : nat) : M L unit :=
  n ← cell item;
  (match prev (lk n) with Some p => set_next p (next (lk n)) | None => ret () end);;
  n ← cell item;
  (match next (lk n) with Some q => set_prev q (prev (lk n)) | None => ret () end);;
  list ← gets first;
  (if decide (list = Some item) then n ← cell item; set_first (next (lk n)) else ret ());;
  set_next item None;;
  set_prev item None.

(** ** The list a heap holds *)

Definition hd_or (nx : option nat) (l : list nat) : option nat :=
  match l with [] => nx | p :: _ => Some p end.
Definition last_or (pv : option nat) (l : list nat) : option nat :=
  match last l with Some p => Some p | None => pv end.

(** The nodes of [l] are linked one to the next, between [pv] and [nx]. *)
Fixpoint dseg (h : gmap nat X) (pv : option nat) (l : list nat) (nx : option nat) : Prop :=
  match l with
  | [] => True
  | p :: l' => (∃ n, h !! p = Some n ∧ lk n = Dnode pv (hd_or nx l')) ∧ dseg h (Some p) l' nx
  end.

Definition lrep (l : list nat) (s : L) : Prop :=
  NoDup l ∧ first s = hd_or None l ∧ dseg (cells s) None l None.

(** A structure without its links: what the macros leave alone. *)
Definition payload (n : X) : X := set_lk (Dnode None None) n.
Definition same_payload (s s' : L) : Prop := payload <$> cells s' = payload <$> cells s.
#[global] Instance same_payload_preorder : PreOrder same_payload.
Proof. split; [done|]. unfold same_payload. intros ???. congruence. Qed.

Lemma payload_set d n : payload (set_lk d n) = payload n.
Proof. unfold payload. apply set_set. Qed.
Lemma payload_insert (h h' : gmap nat X) p n d :
  payload <$> h = payload <$> h' → h !! p = Some n →
  payload <$> <[p := set_lk d n]> h = payload <$> h'.
Proof.
  intros <- Hp. rewrite fmap_insert, payload_set.
  apply map_eq. intros q. destruct (decide (q = p)) as [->|Hq].
  - by rewrite lookup_insert_eq, lookup_fmap, Hp.
  - by rewrite lookup_insert_ne.
Qed.
Lemma same_payload_lookup s s' p n :
  same_payload s s' → cells s !! p = Some n →
  ∃ n', cells s' !! p = Some n' ∧ payload n' = payload n.
Proof.
  intros Hs Hp. apply (f_equal (lookup p)) in Hs. rewrite !lookup_fmap, Hp in Hs. cbn in Hs.
  destruct (cells s' !! p) as [n'|]; [|done]. exists n'. naive_solver.
Qed.
Lemma same_payload_dom s s' : same_payload s s' → dom (cells s') = dom (cells s).
Proof.
  intros Hs. apply (f_equal dom) in Hs. by rewrite !dom_fmap_L in Hs.
Qed.

(** ** Segments *)

Lemma hd_or_app nx l1 l2 : hd_or nx (l1 ++ l2) = hd_or (hd_or nx l2) l1.
Proof. by destruct l1. Qed.
Lemma last_or_snoc pv l p : last_or pv (l ++ [p]) = Some p.
Proof. unfold last_or. by rewrite last_snoc. Qed.
Lemma last_or_cons pv p l : last_or pv (p :: l) = last_or (Some p) l.
Proof. unfold last_or. rewrite last_cons. by destruct (last l). Qed.

Lemma dseg_app h pv l1 l2 nx :
  dseg h pv (l1 ++ l2) nx ↔
  dseg h pv l1 (hd_or nx l2) ∧ dseg h (last_or pv l1) l2 nx.
Proof.
  revert pv. induction l1 as [|p l1 IH]; intros pv; [cbn; tauto|].
  rewrite last_or_cons. cbn. rewrite IH, hd_or_app. tauto.
Qed.

Lemma dseg_frame h p n pv l nx :
  p ∉ l → dseg (<[p := n]> h) pv l nx ↔ dseg h pv l nx.
Proof.
  revert pv. induction l as [|q l IH]; intros pv Hp; [done|].
  apply not_elem_of_cons in Hp as [Hq Hp]. cbn. by rewrite IH, lookup_insert_ne.
Qed.

Lemma dseg_snoc h pv l p nx :
  dseg h pv (l ++ [p]) nx ↔
  dseg h pv l (Some p) ∧ ∃ n, h !! p = Some n ∧ lk n = Dnode (last_or pv l) nx.
Proof. rewrite dseg_app. cbn. naive_solver. Qed.

Lemma dseg_live h pv l nx p : dseg h pv l nx → p ∈ l → p ∈ dom h.
Proof.
  revert pv. induction l as [|q l IH]; intros pv; [by rewrite elem_of_nil|].
  cbn. intros [(n&Hq&_) Hl] [->|Hp]%elem_of_cons; [|eauto].
  by apply elem_of_dom_2 in Hq.
Qed.
Lemma lrep_live l s p : lrep l s → p ∈ l → p ∈ dom (cells s).
Proof. intros (_&_&Hl). by eapply dseg_live. Qed.
Lemma lrep_length l s : lrep l s → (length l ≤ size (cells s))%nat.
Proof.
  intros Hl. rewrite <-size_dom, <-(size_list_to_set (C:=gset nat)) by apply Hl.
  apply subseteq_size. intros p Hp%elem_of_list_to_set. by eapply lrep_live.
Qed.
Lemma dseg_same h h' pv l nx :
  (∀ p, p ∈ l → h' !! p = h !! p) → dseg h pv l nx → dseg h' pv l nx.
Proof.
  revert pv. induction l as [|q l IH]; intros pv Hs; [done|].
  cbn. intros [(n&Hq&E) Hl]. split; [|apply IH; [|done]].
  - exists n. rewrite Hs; [done|by left].
  - intros p Hp. apply Hs. by right.
Qed.
Lemma lrep_same l s s' :
  (∀ p, p ∈ l → cells s' !! p = cells s !! p) → first s' = first s → lrep l s → lrep l s'.
Proof.
  intros Hc Hf (?&E&?). split_and!; [done|congruence|by eapply dseg_same].
Qed.

(** ** What the macros do *)

Lemma cell_spec p n s (Q : X → L → Prop) :
  cells s !! p = Some n → Q n s → wp (cell p) Q s.
Proof. intros Hp HQ. unfold cell. wp_step. rewrite Hp. done. Qed.
Lemma set_next_spec p n v s (Q : unit → L → Prop) :
  cells s !! p = Some n →
  Q () (Dlist (<[p := set_lk (Dnode (prev (lk n)) v) n]> (cells s)) (first s)) →
  wp (set_next p v) Q s.
Proof. intros Hp HQ. unfold set_next. wp_step. eapply cell_spec; [done|]. by wp_step. Qed.
Lemma set_prev_spec p n v s (Q : unit → L → Prop) :
  cells s !! p = Some n →
  Q () (Dlist (<[p := set_lk (Dnode v (next (lk n))) n]> (cells s)) (first s)) →
  wp (set_prev p v) Q s.
Proof. intros Hp HQ. unfold set_prev. wp_step. eapply cell_spec; [done|]. by wp_step. Qed.
Lemma set_both_spec item n s (Q : unit → L → Prop) :
  cells s !! item = Some n →
  Q () (Dlist (<[item := payload n]> (cells s)) (first s)) →
  wp (set_next item None;; set_prev item None) Q s.
Proof.
  intros Hn HQ. wp_step. eapply set_next_spec; [done|].
  eapply set_prev_spec; [apply lookup_insert_eq|]. cbn.
  by rewrite insert_insert_eq, lk_set, set_set.
Qed.

Lemma find_tail_spec fuel h pv l t s :
  dseg (cells s) pv (l ++ [t]) None → hd_or None (l ++ [t]) = Some h →
  (length l < fuel)%nat → find_tail fuel h s = Ok (t, s).
Proof.
  revert h pv l. induction fuel as [|fuel IH]; intros h pv l; [lia|].
  intros Hl Hh Hlen. apply wp_det. cbn [find_tail]. wp_step.
  destruct l as [|p l]; cbn in Hl, Hh; injection Hh as <-; destruct Hl as [(n&Hp&E) Hl];
    (eapply cell_spec; [done|]); rewrite E; cbn [next].
  - by wp_step.
  - rewrite hd_or_app. cbn [hd_or].
    destruct (hd_or (Some t) l) as [h|] eqn:Eh; [|by destruct l].
    eapply wp_lift_pure; [|done]. eapply IH; [done| |cbn in *; lia].
    by rewrite hd_or_app.
Qed.

(** LIST_INSERT_TAIL appends. *)
Lemma insert_tail_spec l item s :
  lrep l s → item ∈ dom (cells s) → item ∉ l →
  wp (LIST_INSERT_TAIL item) (λ _ s', lrep (l ++ [item]) s' ∧ same_payload s s') s.
Proof.
  intros Hrep [n Hn]%elem_of_dom Hni. unfold LIST_INSERT_TAIL.
  pose proof (lrep_length _ _ Hrep) as Hlen. destruct Hrep as (Hnd&Hf&Hl).
  assert (dseg (<[item := payload n]> (cells s)) None l None) as Hl' by by apply dseg_frame.
  assert (same_payload s (Dlist (<[item := payload n]> (cells s)) (first s))) as Hsp
    by (by apply payload_insert).
  assert (size (cells s) = size (<[item := payload n]> (cells s))) as Hsz
    by by rewrite map_size_insert_Some.
  wp_step. eapply set_next_spec; [done|]. wp_step.
  eapply set_prev_spec; [apply lookup_insert_eq|]. wp_step.
  cbn [cells first]. rewrite insert_insert_eq, lk_set, set_set. cbn [prev next].
  change (set_lk _ n) with (payload n).
  destruct s as [h fst0]. cbn [cells first] in *. subst fst0.
  destruct l as [|t l _] using rev_ind; cbn [hd_or].
  - wp_step. split; [|done]. split_and!; [apply NoDup_singleton|done|]. cbn. split; [|done].
    exists (payload n). unfold payload. by rewrite lookup_insert_eq, lk_set.
  - rewrite hd_or_app in *. destruct (hd_or (hd_or None [t]) l) as [f|] eqn:Ef; [|by destruct l].
    wp_step. eapply wp_lift_pure.
    { eapply find_tail_spec; [exact Hl'|by rewrite hd_or_app|].
      rewrite length_app in Hlen. cbn in *. lia. }
    wp_step. apply dseg_snoc in Hl' as [Hl' (nt&Hnt&Ent)].
    apply not_elem_of_app in Hni as [Hni Hnt']. rewrite list_elem_of_singleton in Hnt'.
    apply NoDup_app in Hnd as (Hnd&Htl&_).
    eapply set_next_spec; [done|]. cbn [cells first].
    eapply set_prev_spec; [cbn; by rewrite lookup_insert_ne, lookup_insert_eq|]. cbn [cells first].
    assert (t ∉ l) as Htl' by (intros Hin; by apply (Htl t), list_elem_of_singleton).
    split.
    + split_and!.
      * apply NoDup_snoc; [apply NoDup_app; split_and!; [done..|apply NoDup_singleton]|].
        rewrite elem_of_app, list_elem_of_singleton. naive_solver.
      * cbn. rewrite !hd_or_app. exact (eq_sym Ef).
      * cbn [cells]. apply dseg_snoc. split.
        -- apply dseg_snoc. split; [by do 2 (apply dseg_frame; [done|])|].
           eexists. rewrite lookup_insert_ne, lookup_insert_eq by done. split; [done|].
           by rewrite lk_set, Ent.
        -- eexists. rewrite lookup_insert_eq. split; [done|].
           by rewrite lk_set, last_or_snoc; unfold payload; rewrite lk_set.
    + apply payload_insert; [by apply payload_insert|].
      by rewrite lookup_insert_ne, lookup_insert_eq.
Qed.

(** LIST_INSERT_HEAD prepends. *)
Lemma insert_head_spec l item s :
  lrep l s → item ∈ dom (cells s) → item ∉ l →
  wp (LIST_INSERT_HEAD item) (λ _ s', lrep (item :: l) s' ∧ same_payload s s') s.
Proof.
  intros (Hnd&Hf&Hl) [n Hn]%elem_of_dom Hni. unfold LIST_INSERT_HEAD.
  assert (∀ v, dseg (<[item := v]> (cells s)) None l None) as Hl' by (intros; by apply dseg_frame).
  wp_step. eapply set_prev_spec; [done|]. wp_step. cbn [first].
  eapply set_next_spec; [apply lookup_insert_eq|]. wp_step.
  cbn [cells first]. rewrite insert_insert_eq, lk_set, set_set. cbn [prev next]. rewrite Hf.
  destruct l as [|b l]; cbn [hd_or]; wp_step.
  - unfold set_first. wp_step. split; [|by apply payload_insert].
    split_and!; [apply NoDup_singleton|done|]. cbn. split; [|done].
    eexists. by rewrite lookup_insert_eq, lk_set.
  - apply NoDup_cons in Hnd as [Hb Hnd]. apply not_elem_of_cons in Hni as [Hib Hni].
    destruct (Hl' (set_lk (Dnode None (Some b)) n)) as [(nb&Hnb&Enb) Hl''].
    eapply set_prev_spec; [done|]. unfold set_first. wp_step. cbn [cells]. split.
    + split_and!.
      * apply NoDup_cons. split; [|by apply NoDup_cons].
        apply not_elem_of_cons. done.
      * done.
      * cbn. split; [|split].
        -- eexists. rewrite lookup_insert_ne, lookup_insert_eq by done. by rewrite lk_set.
        -- eexists. rewrite lookup_insert_eq. by rewrite lk_set, Enb.
        -- by rewrite dseg_frame.
    + apply payload_insert; [by apply payload_insert|done].
Qed.

(** [same_off l s s']: only links of nodes of [l] differ. *)
Definition same_off (l : list nat) (s s' : L) : Prop :=
  (∀ q, q ∉ l → cells s' !! q = cells s !! q) ∧ first s' = first s ∧ same_payload s s'.

Lemma link_back_spec l nx v s :
  dseg (cells s) None l nx → NoDup l →
  wp (match last_or None l with Some p => set_next p v | None => ret () end)
     (λ _ s', dseg (cells s') None l v ∧ same_off l s s') s.
Proof.
  intros Hl Hnd. destruct l as [|t l _] using rev_ind; [by wp_step|].
  rewrite last_or_snoc. apply dseg_snoc in Hl as [Hl (n&Hn&En)].
  apply NoDup_app in Hnd as (_&Hdis&_).
  assert (t ∉ l) by (intros Hin; by apply (Hdis t), list_elem_of_singleton).
  eapply set_next_spec; [done|]. cbn [cells]. split; [|split_and!; [|done|by apply payload_insert]].
  - apply dseg_snoc. split; [by apply dseg_frame|]. eexists. rewrite lookup_insert_eq.
    by rewrite lk_set, En.
  - intros q [_ Hq%not_elem_of_cons]%not_elem_of_app. cbn. by rewrite lookup_insert_ne by naive_solver.
Qed.

Lemma link_forth_spec l pv v s :
  dseg (cells s) pv l None → NoDup l →
  wp (match hd_or None l with Some q => set_prev q v | None => ret () end)
     (λ _ s', dseg (cells s') v l None ∧ same_off l s s') s.
Proof.
  intros Hl Hnd. destruct l as [|t l]; [by wp_step|].
  destruct Hl as [(n&Hn&En) Hl]. apply NoDup_cons in Hnd as [Ht _].
  eapply set_prev_spec; [done|]. cbn [cells]. split; [|split_and!; [|done|by apply payload_insert]].
  - cbn. split; [|by apply dseg_frame]. eexists. rewrite lookup_insert_eq. by rewrite lk_set, En.
  - intros q Hq%not_elem_of_cons. cbn. by rewrite lookup_insert_ne by naive_solver.
Qed.

(** LIST_REMOVE takes the item out, wherever it is. *)
Lemma remove_spec l1 item l2 s :
  lrep (l1 ++ item :: l2) s →
  wp (LIST_REMOVE item) (λ _ s', lrep (l1 ++ l2) s' ∧ same_payload s s') s.
Proof.
  intros (Hnd&Hf&Hl). unfold LIST_REMOVE.
  apply dseg_app in Hl as [Hl1 Hl]. cbn in Hl. destruct Hl as [(n&Hn&En) Hl2].
  apply NoDup_app in Hnd as (Hnd1&Hdis&Hnd2). apply NoDup_cons in Hnd2 as [Hi2 Hnd2].
  assert (∀ q, q ∈ l1 → (q ∉ l2) ∧ q ≠ item) as Hdis'
    by (intros q Hq; apply Hdis, not_elem_of_cons in Hq; naive_solver).
  assert (item ∉ l1) as Hi1 by (intros Hin; by apply Hdis' in Hin as [_ []]).
  wp_step. eapply cell_spec; [done|]. wp_step. rewrite En. cbn [prev next].
  eapply wp_mono; [by eapply link_back_spec|]. intros _ s1 (Hs1&Hoff1&Hf1&Hp1). wp_step.
  eapply cell_spec; [by rewrite Hoff1|]. rewrite En. cbn [prev next]. wp_step.
  eapply wp_mono.
  { eapply (link_forth_spec _ (Some item)); [|done].
    eapply dseg_same; [|exact Hl2]. intros q Hq. apply Hoff1. intros Hq1.
    by apply Hdis' in Hq1 as [[] _]. }
  intros _ s2 (Hs2&Hoff2&Hf2&Hp2).
  assert (cells s2 !! item = Some n) as Hn2 by by rewrite Hoff2, Hoff1.
  wp_step. rewrite Hf2, Hf1, Hf.
  apply (wp_mono _ (λ _ s', cells s' = cells s2 ∧ first s' = hd_or None (l1 ++ l2))).
  { rewrite !hd_or_app. destruct l1 as [|p l1]; cbn [hd_or].
    - rewrite decide_True by done. wp_step. eapply cell_spec; [done|]. rewrite En. done.
    - rewrite decide_False; [|intros [= ->]; by apply Hi1; left].
      wp_step. split; [done|]. by rewrite Hf2, Hf1, Hf. }
  intros _ s3 [Hc3 Hf3]. eapply set_both_spec; [by rewrite Hc3|]. rewrite Hc3, Hf3. split.
  - split_and!; [|done|].
    + apply NoDup_app. split_and!; [done| |done]. intros q Hq. by apply Hdis'.
    + cbn. apply dseg_app. split; (apply dseg_frame; [done|]).
      * eapply dseg_same; [|exact Hs1]. intros q Hq. apply Hoff2. by apply Hdis'.
      * exact Hs2.
  - apply payload_insert; [|done]. etrans; [exact Hp2|exact Hp1].
Qed.
End macros.
