(* ===== verification/TpPool.v ===== *)
(** Thread pool, part 2: the pool of junior/04_threadpool/Threadpool.c as a machine of
    interleaved threads.  A thread is a program counter with the locals it still needs;
    one step of it is one statement on shared memory, or one that no other thread can
    observe.  The mutex and the condition variable behave as POSIX says, spurious
    wake-ups included.  Outside nThreadPoolDestroy the threads share memory under the
    mutex only (TpDestroy proves it), so that statements interleave; what
    nThreadPoolDestroy writes without the mutex is a data race with the reads of the
    workers that no unlock and lock order, and undefined. *)
From S2P Require Import Prelude TpList.

(** ** Data *)

(** The two task bodies of the program. *)
Inductive task_fn := TaskEntry | TaskEntry1.

Record nTask := NTask { task_func : task_fn; user_data : nat; t_links : dnode }.
(** [threadid] is never read and [manager] is always the one pool. *)
Record nWorker := NWorker { terminate : Z; w_links : dnode }.

#[export] Instance nTask_linked : Linked nTask.
Proof.
  refine {| lk := t_links; set_lk d n := NTask (task_func n) (user_data n) d |}; done.
Defined.
#[export] Instance nWorker_linked : Linked nWorker.
Proof. refine {| lk := w_links; set_lk d n := NWorker (terminate n) d |}; done. Defined.

(** What the bodies print. *)
Inductive event := EIdx (idx : Z) | ERunning (idx : Z) | EFinished (idx : Z).
#[export] Instance event_eq_dec : EqDecision event.
Proof. solve_decision. Defined.

(** Where a worker is in nThreadPoolCallback; a local that is still needed is an
    argument. *)
Inductive wpc :=
| WLock                      (* pthread_mutex_lock *)
| WTest                      (* while (tasks==NULL) *)
| WTermIn                    (* if (worker->terminate) inside the loop *)
| WCondWait                  (* pthread_cond_wait: gives the mutex back *)
| WWait                      (* asleep in pthread_cond_wait *)
| WRelock                    (* awake, waits for the mutex *)
| WTermOut                   (* if (worker->terminate) after the loop *)
| WQuit                      (* pthread_mutex_unlock; break *)
| WTake                      (* task = tasks *)
| WRemove (task : option nat)
| WUnlock (task : nat)
| WCall (task : nat)         (* task->task_func(task) *)
| WSleep (task : nat) (idx : Z)  (* in task_entry_1, before its second line *)
| WFreeTask (task : nat)     (* the end of either body *)
| WFree                      (* free(worker) *)
| WDone.
#[export] Instance wpc_eq_dec : EqDecision wpc.
Proof. solve_decision. Defined.

(** Where main is; the argument [i] is the index of the loop it is in. *)
Inductive mpc :=
| MCreate (i : nat)          (* the loop of nThreadPoolCreate *)
| MInsertWorker (i w : nat)
| MLoop (i : nat)            (* the loop of main *)
| MPushLock (i task : nat)   (* nThreadPoolPushTask *)
| MPushInsert (i task : nat)
| MSignal (i : nat)
| MPushUnlock (i : nat)
| MGetchar
| MWalk (worker : option nat)  (* nThreadPoolDestroy: worker->terminate=1 *)
| MNext (worker : nat)         (* worker=worker->next *)
| MDestroyLock
| MBroadcast
| MDestroyUnlock
| MTasksNull
| MWorkersNull
| MReturn.

#[export] Instance mpc_eq_dec : EqDecision mpc.
Proof. solve_decision. Defined.

Inductive owner := Main | Wk (w : nat).
#[export] Instance owner_eq_dec : EqDecision owner.
Proof. solve_decision. Defined.

(** What the workers did since main last locked the mutex, so that nothing orders it
    before main's next statements: the flags read, and whether pool->tasks was used. *)
Record hist := Hist { flags_read : gset nat; tasks_used : bool }.
Definition ordered : hist := Hist ∅ false.

(** The memory the threads share: the pool, the live structures, the outcomes that
    malloc and pthread_create will have, and what was printed.  A worker's thread is
    known by the address of its structure. *)
Record pool := Pool {
  tasks : dlist nTask;
  workers : dlist nWorker;
  mutex : option owner;
  ints : gmap nat Z;         (* the blocks behind user_data *)
  threads : gmap nat wpc;
  main_at : mpc;
  brk : nat;                 (* the next fresh address *)
  mallocs : list bool;
  spawns : list bool;
  out : list event;
  since : hist;
}.

Definition set_tasks v s := Pool v (workers s) (mutex s) (ints s) (threads s) (main_at s)
  (brk s) (mallocs s) (spawns s) (out s) (since s).
Definition set_workers v s := Pool (tasks s) v (mutex s) (ints s) (threads s) (main_at s)
  (brk s) (mallocs s) (spawns s) (out s) (since s).
Definition set_mutex v s := Pool (tasks s) (workers s) v (ints s) (threads s) (main_at s)
  (brk s) (mallocs s) (spawns s) (out s) (since s).
Definition set_ints v s := Pool (tasks s) (workers s) (mutex s) v (threads s) (main_at s)
  (brk s) (mallocs s) (spawns s) (out s) (since s).
Definition set_threads v s := Pool (tasks s) (workers s) (mutex s) (ints s) v (main_at s)
  (brk s) (mallocs s) (spawns s) (out s) (since s).
Definition set_main v s := Pool (tasks s) (workers s) (mutex s) (ints s) (threads s) v
  (brk s) (mallocs s) (spawns s) (out s) (since s).
Definition set_alloc b m s := Pool (tasks s) (workers s) (mutex s) (ints s) (threads s)
  (main_at s) b m (spawns s) (out s) (since s).
Definition set_spawns v s := Pool (tasks s) (workers s) (mutex s) (ints s) (threads s)
  (main_at s) (brk s) (mallocs s) v (out s) (since s).
Definition set_out v s := Pool (tasks s) (workers s) (mutex s) (ints s) (threads s)
  (main_at s) (brk s) (mallocs s) (spawns s) v (since s).
Definition set_since v s := Pool (tasks s) (workers s) (mutex s) (ints s) (threads s)
  (main_at s) (brk s) (mallocs s) (spawns s) (out s) v.

Definition on_tasks {A} (m : M (dlist nTask) A) : M pool A := λ s,
  match m (tasks s) with
  | Ok (a, d) => Ok (a, set_tasks d s) | UB w => UB w | OutOfFuel => OutOfFuel
  end.
Definition on_workers {A} (m : M (dlist nWorker) A) : M pool A := λ s,
  match m (workers s) with
  | Ok (a, d) => Ok (a, set_workers d s) | UB w => UB w | OutOfFuel => OutOfFuel
  end.

(** ** The library calls *)

Definition pool_malloc : M pool (option nat) :=
  s ← get;
  match mallocs s with
  | false :: m => modify (set_alloc (brk s) m);; ret None
  | m => modify (set_alloc (S (brk s)) (tail m));; ret (Some (brk s))
  end.

(** What the workers did before main's lock is ordered before what main does after it. *)
Definition lock (o : owner) : M pool bool :=
  m ← gets mutex;
  match m with
  | None =>
      modify (set_mutex (Some o));;
      modify (λ s, if decide (o = Main) then set_since ordered s else s);;
      ret true
  | Some _ => ret false
  end.
Definition unlock : M pool unit := modify (set_mutex None).

Definition wake (w : nat) (s : pool) : pool := set_threads (<[w := WRelock]> (threads s)) s.
Definition asleep (pc : wpc) : bool := match pc with WWait => true | _ => false end.
Definition sleepers (s : pool) : list nat :=
  (filter (λ wp, asleep wp.2 = true) (map_to_list (threads s))).*1.

(** One sleeper wakes, [pick] if it is one of them; none if nobody sleeps.  More may
    wake, which is a spurious wake-up of the others. *)
Definition pthread_cond_signal (pick : nat) : M pool unit :=
  ws ← gets sleepers;
  if decide (pick ∈ ws) then modify (wake pick)
  else match ws with w :: _ => modify (wake w) | [] => ret () end.
Definition pthread_cond_broadcast : M pool unit :=
  modify (λ s, set_threads ((λ pc, if asleep pc then WRelock else pc) <$> threads s) s).

(** ** A worker *)

Definition worker (w : nat) : M pool nWorker := on_workers (cell w).
(** [worker->manager]: the pool is a local variable of main. *)
Definition manager (w : nat) : M pool unit :=
  worker w;;
  m ← gets main_at;
  if decide (m = MReturn) then undef DanglingDeref else ret ().

(** Where main wrote flags, or pool->tasks, and has not unlocked the mutex since. *)
Definition flags_written (m : mpc) : bool :=
  match m with MWalk _ | MNext _ | MDestroyLock | MBroadcast | MDestroyUnlock => true | _ => false end.
Definition tasks_written (m : mpc) : bool :=
  match m with MWorkersNull | MReturn => true | _ => false end.

(** [worker->terminate]. *)
Definition read_flag (w : nat) : M pool Z :=
  n ← worker w;
  m ← gets main_at;
  if negb (terminate n =? 0) && flags_written m then undef DataRace else
  modify (λ s, set_since (Hist ({[w]} ∪ flags_read (since s)) (tasks_used (since s))) s);;
  ret (terminate n).
(** [worker->manager->tasks], under the mutex. *)
Definition read_tasks (w : nat) : M pool (option nat) :=
  manager w;;
  m ← gets main_at;
  if tasks_written m then undef DataRace else
  modify (λ s, set_since (Hist (flags_read (since s)) true) s);;
  gets (λ s, first (tasks s)).
Definition print (e : event) : M pool unit := modify (λ s, set_out (out s ++ [e]) s).

(** [int idx=*(int * )task->user_data]. *)
Definition task_idx (task : nat) : M pool Z :=
  n ← on_tasks (cell task);
  i ← gets (λ s, ints s !! user_data n);
  from_opt DanglingDeref i.
(** [free(task->user_data); free(task)]. *)
Definition task_free (task : nat) : M pool unit :=
  n ← on_tasks (cell task);
  i ← gets (λ s, ints s !! user_data n);
  from_opt DoubleFree i;;
  modify (λ s, set_ints (delete (user_data n) (ints s)) s);;
  modify (λ s, set_tasks (Dlist (delete task (cells (tasks s))) (first (tasks s))) s).

Definition task_entry (task : nat) : M pool wpc :=
  idx ← task_idx task; print (EIdx idx);; ret (WFreeTask task).
Definition task_entry_1 (task : nat) : M pool wpc :=
  idx ← task_idx task; print (ERunning idx);; ret (WSleep task idx).

(** One step of nThreadPoolCallback: [None] when it has to wait. *)
Definition nThreadPoolCallback (w : nat) (pc : wpc) : M pool (option wpc) :=
  match pc with
  | WLock =>
      manager w;; b ← lock (Wk w); ret (if b then Some WTest else None)
  | WTest =>
      t ← read_tasks w;
      ret (Some match t with None => WTermIn | Some _ => WTermOut end)
  | WTermIn =>
      flag ← read_flag w; ret (Some (if flag =? 0 then WCondWait else WTermOut))
  | WCondWait => manager w;; unlock;; ret (Some WWait)
  | WWait => ret None
  | WRelock => manager w;; b ← lock (Wk w); ret (if b then Some WTest else None)
  | WTermOut =>
      flag ← read_flag w; ret (Some (if flag =? 0 then WTake else WQuit))
  | WQuit => manager w;; unlock;; ret (Some WFree)
  | WTake => t ← read_tasks w; ret (Some (WRemove t))
  | WRemove task =>
      t ← from_opt NullDeref task;
      read_tasks w;;
      on_tasks (LIST_REMOVE t);;
      ret (Some (WUnlock t))
  | WUnlock task => manager w;; unlock;; ret (Some (WCall task))
  | WCall task =>
      n ← on_tasks (cell task);
      pc ← match task_func n with
           | TaskEntry => task_entry task
           | TaskEntry1 => task_entry_1 task
           end;
      ret (Some pc)
  | WSleep task idx => print (EFinished idx);; ret (Some (WFreeTask task))
  | WFreeTask task => task_free task;; ret (Some WLock)
  | WFree =>
      worker w;;
      modify (λ s, set_workers (Dlist (delete w (cells (workers s))) (first (workers s))) s);;
      ret (Some WDone)
  | WDone => ret None
  end.

(** ** The main thread *)

Section main.
(** The arguments of the run: [numWorkers] of nThreadPoolCreate, the number of tasks
    [atoi(argv[1])], and the body that main writes into task_func. *)
Context (numWorkers : Z) (num_tasks : nat) (func : task_fn).

Definition pool_size : nat := Z.to_nat (if numWorkers <? 1 then 1 else numWorkers).

(** The body of the loop of nThreadPoolCreate; main ignores its result, and goes on. *)
Definition create_worker (i : nat) : M pool mpc :=
  p ← pool_malloc;
  match p with
  | None => ret (MLoop 0)
  | Some w =>
      modify (λ s, set_workers
        (Dlist (<[w := NWorker 0 (Dnode None None)]> (cells (workers s))) (first (workers s))) s);;
      ok ← gets (λ s, default true (head (spawns s)));
      modify (λ s, set_spawns (tail (spawns s)) s);;
      if ok : bool then
        modify (λ s, set_threads (<[w := WLock]> (threads s)) s);; ret (MInsertWorker i w)
      else
        modify (λ s, set_workers (Dlist (delete w (cells (workers s))) (first (workers s))) s);;
        ret (MLoop 0)
  end.

(** The part of the loop of main before the push. *)
Definition make_task (i : nat) : M pool mpc :=
  p ← pool_malloc;
  match p with
  | None => undef ProcessExit
  | Some task =>
      d ← pool_malloc;
      match d with
      | None => undef NullDeref
      | Some d =>
          modify (λ s, set_ints (<[d := Z.of_nat i]> (ints s)) s);;
          modify (λ s, set_tasks
            (Dlist (<[task := NTask func d (Dnode None None)]> (cells (tasks s)))
               (first (tasks s))) s);;
          ret (MPushLock i task)
      end
  end.

(** nThreadPoolPushTask. *)
Definition push_step (pick : nat) (pc : mpc) : M pool (option mpc) :=
  match pc with
  | MPushLock i task => b ← lock Main; ret (if b then Some (MPushInsert i task) else None)
  | MPushInsert i task => on_tasks (LIST_INSERT_TAIL task);; ret (Some (MSignal i))
  | MSignal i => pthread_cond_signal pick;; ret (Some (MPushUnlock i))
  | MPushUnlock i => unlock;; ret (Some (MLoop (S i)))
  | _ => ret None
  end.

(** nThreadPoolDestroy: its writes to the flags and to pool->tasks are not under the
    mutex. *)
Definition destroy_step (pc : mpc) : M pool (option mpc) :=
  match pc with
  | MWalk None => ret (Some MDestroyLock)
  | MWalk (Some w) =>
      n ← worker w;
      h ← gets since;
      if decide (w ∈ flags_read h) then undef DataRace else
      on_workers (set_cell w (NWorker 1 (w_links n)));;
      ret (Some (MNext w))
  | MNext w => n ← worker w; ret (Some (MWalk (next (w_links n))))
  | MDestroyLock => b ← lock Main; ret (if b then Some MBroadcast else None)
  | MBroadcast => pthread_cond_broadcast;; ret (Some MDestroyUnlock)
  | MDestroyUnlock => unlock;; ret (Some MTasksNull)
  | MTasksNull =>
      h ← gets since;
      if tasks_used h then undef DataRace else
      on_tasks (set_first None);; ret (Some MWorkersNull)
  | MWorkersNull => on_workers (set_first None);; ret (Some MReturn)
  | _ => ret None
  end.

(** One step of main, the calls it makes included. *)
Definition main_step (pick : nat) (pc : mpc) : M pool (option mpc) :=
  match pc with
  | MCreate i =>
      if (i <? pool_size)%nat then pc ← create_worker i; ret (Some pc)
      else ret (Some (MLoop 0))
  | MInsertWorker i w => on_workers (LIST_INSERT_TAIL w);; ret (Some (MCreate (S i)))
  | MLoop i =>
      if (i <? num_tasks)%nat then pc ← make_task i; ret (Some pc)
      else ret (Some MGetchar)
  | MPushLock _ _ | MPushInsert _ _ | MSignal _ | MPushUnlock _ => push_step pick pc
  | MGetchar => w ← gets (λ s, first (workers s)); ret (Some (MWalk w))
  | MReturn => ret None
  | _ => destroy_step pc
  end.

(** ** The machine *)

Definition set_pc (w : nat) (pc : wpc) (s : pool) : pool :=
  set_threads (<[w := pc]> (threads s)) s.

Inductive act := Run (w : nat) | RunMain (pick : nat) | Spurious (w : nat).

Inductive step : act → pool → pool → Prop :=
| step_worker w pc pc' s s' :
    threads s !! w = Some pc →
    nThreadPoolCallback w pc s = Ok (Some pc', s') →
    step (Run w) s (set_pc w pc' s')
| step_main pick pc' s s' :
    main_step pick (main_at s) s = Ok (Some pc', s') →
    step (RunMain pick) s (set_main pc' s')
| step_spurious w s :
    threads s !! w = Some WWait → step (Spurious w) s (wake w s).
Definition any_step (s s' : pool) : Prop := ∃ a, step a s s'.

(** A thread whose next statement has no defined result. *)
Definition faults (u : ub) (s : pool) : Prop :=
  (∃ w pc, threads s !! w = Some pc ∧ nThreadPoolCallback w pc s = UB u) ∨
  (∃ pick, main_step pick (main_at s) s = UB u).

(** main's variable [pool] after the memset and pthread_mutex_init. *)
Definition pool_init (m sp : list bool) : pool :=
  Pool (Dlist ∅ None) (Dlist ∅ None) None ∅ ∅ (MCreate 0) 0 m sp [] ordered.

Definition reachable (m sp : list bool) : pool → Prop := rtc any_step (pool_init m sp).

(** The same steps as a function of a schedule. *)
Definition act_step (a : act) : M pool unit := λ s,
  match a with
  | Run w =>
      match threads s !! w with
      | Some pc =>
          match nThreadPoolCallback w pc s with
          | Ok (Some pc', s') => Ok ((), set_pc w pc' s')
          | Ok (None, _) => OutOfFuel | UB u => UB u | OutOfFuel => OutOfFuel
          end
      | None => OutOfFuel
      end
  | RunMain pick =>
      match main_step pick (main_at s) s with
      | Ok (Some pc', s') => Ok ((), set_main pc' s')
      | Ok (None, _) => OutOfFuel | UB u => UB u | OutOfFuel => OutOfFuel
      end
  | Spurious w =>
      match threads s !! w with Some WWait => Ok ((), wake w s) | _ => OutOfFuel end
  end.
Fixpoint schedule (acts : list act) : M pool unit :=
  match acts with [] => ret () | a :: acts => act_step a;; schedule acts end.
End main.

Lemma act_step_sound nw n f a s u s' : act_step nw n f a s = Ok (u, s') → step nw n f a s s'.
Proof.
  destruct a as [w|pick|w]; cbn.
  - destruct (threads s !! w) as [pc|] eqn:Hw; [|done].
    destruct (nThreadPoolCallback w pc s) as [[[pc'|] s1]| |] eqn:E; try done.
    intros [= <- <-]. by econstructor.
  - destruct (main_step nw n f pick (main_at s) s) as [[[pc'|] s1]| |] eqn:E; try done.
    intros [= <- <-]. by econstructor.
  - destruct (threads s !! w) as [[]|] eqn:Hw; try done. intros [= <- <-]. by constructor.
Qed.

Lemma schedule_sound nw n f acts s u s' :
  schedule nw n f acts s = Ok (u, s') → rtc (any_step nw n f) s s'.
Proof.
  revert s. induction acts as [|a acts IH]; intros s; [by intros [= <- <-]|].
  cbn. unfold bind. destruct (act_step nw n f a s) as [[[] s1]| |] eqn:E; try done.
  intros Hs. eapply rtc_l; [exists a; by eapply act_step_sound|eauto].
Qed.

(** A schedule from the start that ends in a state where a thread faults. *)
Lemma schedule_faults nw n f m sp acts a u s :
  schedule nw n f acts (pool_init m sp) = Ok ((), s) → act_step nw n f a s = UB u →
  ∃ s, reachable nw n f m sp s ∧ faults nw n f u s.
Proof.
  intros Hs Ha. exists s. split; [by eapply schedule_sound|].
  destruct a as [w|pick|w]; cbn in Ha.
  - left. destruct (threads s !! w) as [pc|] eqn:Hw; [|done]. exists w, pc. split; [done|].
    destruct (nThreadPoolCallback w pc s) as [[[pc'|] s1]| |]; congruence.
  - right. exists pick. destruct (main_step nw n f pick (main_at s) s) as [[[pc'|] s1]| |]; congruence.
  - by destruct (threads s !! w) as [[]|].
Qed.
