(* ===== verification/TpInv.v ===== *)
(** Thread pool, part 3: the invariant of the pool, for every interleaving.  A worker's
    step is summarised as a move of its program counter with one effect; the invariant is
    kept by every effect, and gives each step of a worker a defined result. *)
From S2P Require Import Prelude TpList TpPool.

(** ** Counting *)

Section counting.
Context {A : Type}.
Implicit Types (m : gmap nat A) (f : A → nat).

Fixpoint occ `{EqDecision B} (x : B) (l : list B) : nat :=
  match l with [] => 0 | y :: l => (if decide (x = y) then 1 else 0) + occ x l end.
Lemma occ_app `{EqDecision B} (x : B) l1 l2 : occ x (l1 ++ l2) = (occ x l1 + occ x l2)%nat.
Proof. induction l1; cbn; lia. Qed.
Lemma occ_elem `{EqDecision B} (x : B) l : x ∈ l → (0 < occ x l)%nat.
Proof. induction 1; cbn; [rewrite decide_True by done|]; lia. Qed.
Lemma occ_not_elem `{EqDecision B} (x : B) l : occ x l = 0%nat → x ∉ l.
Proof. intros Ho Hx%occ_elem. lia. Qed.
Lemma occ_zero `{EqDecision B} (x : B) l : x ∉ l → occ x l = 0%nat.
Proof.
  induction l as [|y l IH]; [done|]. intros [Hy Hl]%not_elem_of_cons. cbn.
  rewrite decide_False by done. by apply IH.
Qed.
Lemma NoDup_occ `{EqDecision B} (l : list B) : (∀ x, (occ x l ≤ 1)%nat) → NoDup l.
Proof.
  induction l as [|y l IH]; intros Hl; constructor.
  - intros Hy%occ_elem. specialize (Hl y). cbn in Hl. rewrite decide_True in Hl by done. lia.
  - apply IH. intros x. specialize (Hl x). cbn in Hl. lia.
Qed.

(** The sum of the weights of the entries of a map. *)
Definition msum f m : nat := map_fold (λ _ a n, f a + n)%nat 0%nat m.
Lemma msum_empty f : msum f ∅ = 0%nat.
Proof. apply map_fold_empty. Qed.
Lemma msum_insert_new f m i a :
  m !! i = None → msum f (<[i:=a]> m) = (f a + msum f m)%nat.
Proof. intros Hi. unfold msum. rewrite map_fold_insert_L; [done|intros; lia|done]. Qed.
Lemma msum_delete f m i a : m !! i = Some a → msum f m = (f a + msum f (delete i m))%nat.
Proof. intros Hi. unfold msum. rewrite (map_fold_delete_L _ _ i a); [done|intros; lia|done]. Qed.
Lemma msum_insert f m i a b :
  m !! i = Some a → (msum f (<[i:=b]> m) + f a = msum f m + f b)%nat.
Proof.
  intros Hi. rewrite (msum_delete f m i a Hi), <-insert_delete_eq.
  rewrite msum_insert_new by apply lookup_delete_eq. lia.
Qed.
Lemma msum_le f m i a : m !! i = Some a → (f a ≤ msum f m)%nat.
Proof. intros Hi. rewrite (msum_delete f m i a Hi). lia. Qed.
Lemma msum_ext f g m : (∀ i a, m !! i = Some a → f a = g a) → msum f m = msum g m.
Proof.
  induction m as [|i a m Hi IH] using map_ind; [by rewrite !msum_empty|].
  intros Hfg. rewrite !msum_insert_new by done. rewrite (Hfg i a) by apply lookup_insert_eq.
  rewrite IH; [done|]. intros j b Hj. apply (Hfg j). rewrite lookup_insert_ne; [done|].
  intros ->. congruence.
Qed.
Lemma msum_zero f m : (∀ i a, m !! i = Some a → f a = 0%nat) → msum f m = 0%nat.
Proof.
  intros Hf. rewrite (msum_ext f (λ _, 0%nat) m Hf).
  induction m as [|i a m Hi IH] using map_ind; [apply msum_empty|].
  rewrite msum_insert_new, IH; [done| |done]. intros j b Hj. apply (Hf j).
  rewrite lookup_insert_ne; [done|]. intros ->. congruence.
Qed.
Lemma msum_add f g m : msum (λ a, f a + g a)%nat m = (msum f m + msum g m)%nat.
Proof.
  induction m as [|i a m Hi IH] using map_ind; [by rewrite !msum_empty|].
  rewrite !msum_insert_new by done. lia.
Qed.
Lemma msum_mono f g m :
  (∀ i a, m !! i = Some a → (f a ≤ g a)%nat) → (msum f m ≤ msum g m)%nat.
Proof.
  induction m as [|i a m Hi IH] using map_ind; [by rewrite !msum_empty|].
  intros Hfg. rewrite !msum_insert_new by done.
  pose proof (Hfg i a (lookup_insert_eq _ _ _)).
  assert (msum f m ≤ msum g m)%nat; [|lia]. apply IH. intros j b Hj. apply (Hfg j).
  rewrite lookup_insert_ne; [done|]. intros ->. congruence.
Qed.
End counting.
Lemma msum_fmap {A B} (f : B → nat) (g : A → B) m : msum f (g <$> m) = msum (f ∘ g) m.
Proof.
  induction m as [|i a m Hi IH] using map_ind; [by rewrite fmap_empty, !msum_empty|].
  rewrite fmap_insert, !msum_insert_new; [by rewrite IH|done|by rewrite lookup_fmap, Hi].
Qed.

(** ** The invariant *)

(** Before main calls nThreadPoolDestroy. *)
Definition early (m : mpc) : bool :=
  match m with
  | MCreate _ | MInsertWorker _ _ | MLoop _ | MPushLock _ _ | MPushInsert _ _
  | MSignal _ | MPushUnlock _ | MGetchar => true
  | _ => false
  end.

(** Who is between a lock and its unlock. *)
Definition holds (pc : wpc) : bool :=
  match pc with
  | WTest | WTermIn | WCondWait | WTermOut | WQuit | WTake | WRemove _ | WUnlock _ => true
  | _ => false
  end.
Definition mholds (m : mpc) : bool :=
  match m with
  | MPushInsert _ _ | MSignal _ | MPushUnlock _ | MBroadcast | MDestroyUnlock => true
  | _ => false
  end.
Definition mutex_inv (th : gmap nat wpc) (mx : option owner) (m : mpc) : Prop :=
  (∀ w pc, th !! w = Some pc → (holds pc = true ↔ mx = Some (Wk w))) ∧
  (mholds m = true ↔ mx = Some Main) ∧
  (∀ w, mx = Some (Wk w) → is_Some (th !! w)).

(** Who owns a task that is in no list. *)
Definition own (t : nat) (pc : wpc) : nat :=
  match pc with
  | WUnlock t' | WCall t' | WSleep t' _ | WFreeTask t' => if decide (t = t') then 1 else 0
  | _ => 0
  end.
Definition mown (t : nat) (m : mpc) : nat :=
  match m with
  | MPushLock _ t' | MPushInsert _ t' => if decide (t = t') then 1 else 0
  | _ => 0
  end.

(** What a worker has seen under the mutex still holds. *)
Definition pc_ok (q : list nat) (term : Z) (pc : wpc) : Prop :=
  match pc with
  | WTermIn | WCondWait => q = []
  | WTermOut => q ≠ [] ∨ term ≠ 0
  | WTake => q ≠ []
  | WRemove t => ∃ t' q', t = Some t' ∧ q = t' :: q'
  | WQuit | WFree => term ≠ 0
  | _ => True
  end.

(** Every task has a block of its own behind user_data, and every block a task. *)
Definition data_ok (h : gmap nat nTask) (ds : gmap nat Z) : Prop :=
  (∀ t n, h !! t = Some n → is_Some (ds !! user_data n)) ∧
  (∀ t t' n n', h !! t = Some n → h !! t' = Some n' → user_data n = user_data n' → t = t') ∧
  (∀ d, is_Some (ds !! d) → ∃ t n, h !! t = Some n ∧ user_data n = d).

(** [q] is the queue, [lost] the tasks that nThreadPoolDestroy dropped, [wl] the list of
    workers.  Every live task is in exactly one place: in [q], in [lost], with the worker
    that took it or with main, which has not pushed it yet. *)
Record pinv (q lost wl : list nat) (s : pool) : Prop := {
  pi_tasks : lrep q (tasks s);
  pi_workers : early (main_at s) = true → lrep wl (workers s);
  pi_mutex : mutex_inv (threads s) (mutex s) (main_at s);
  pi_own t :
    (occ t q + occ t lost + msum (own t) (threads s) + mown t (main_at s))%nat =
    if decide (t ∈ dom (cells (tasks s))) then 1%nat else 0%nat;
  pi_data : data_ok (cells (tasks s)) (ints s);
  pi_pcs w pc :
    threads s !! w = Some pc → pc ≠ WDone →
    ∃ n, cells (workers s) !! w = Some n ∧
         (early (main_at s) = true → terminate n = 0) ∧ pc_ok q (terminate n) pc;
  pi_early w pc : early (main_at s) = true → threads s !! w = Some pc → pc ≠ WDone;
  pi_listed w :
    early (main_at s) = true →
    (is_Some (threads s !! w) ↔
     w ∈ wl ∨ match main_at s with MInsertWorker _ w' => w' = w | _ => False end);
  pi_unlisted i w : main_at s = MInsertWorker i w → w ∉ wl;
  pi_fresh p :
    (brk s ≤ p)%nat →
    cells (tasks s) !! p = None ∧ cells (workers s) !! p = None ∧ ints s !! p = None ∧
    threads s !! p = None;
}.

(** ** Moves of a worker *)

Inductive effect :=
| Silent | Acquire | Release | Took (t : nat) | Printed (e : event) | Freed (t : nat) | Quit.

Definition tidx (s : pool) (t : nat) : option Z :=
  cells (tasks s) !! t ≫= λ n, ints s !! user_data n.
Definition tfunc (s : pool) (t : nat) : option task_fn := task_func <$> cells (tasks s) !! t.

(** The moves, for a queue [q] and the worker's flag [term]. *)
Inductive wmove (q : list nat) (term : Z) (s : pool) : wpc → effect → wpc → Prop :=
| m_lock : wmove q term s WLock Acquire WTest
| m_relock : wmove q term s WRelock Acquire WTest
| m_empty : q = [] → wmove q term s WTest Silent WTermIn
| m_pending : q ≠ [] → wmove q term s WTest Silent WTermOut
| m_told : term ≠ 0 → wmove q term s WTermIn Silent WTermOut
| m_not_told : term = 0 → wmove q term s WTermIn Silent WCondWait
| m_wait : wmove q term s WCondWait Release WWait
| m_leave : term ≠ 0 → wmove q term s WTermOut Silent WQuit
| m_work : term = 0 → wmove q term s WTermOut Silent WTake
| m_quit : wmove q term s WQuit Release WFree
| m_take t q' : q = t :: q' → wmove q term s WTake Silent (WRemove (Some t))
| m_remove t : wmove q term s (WRemove (Some t)) (Took t) (WUnlock t)
| m_unlock t : wmove q term s (WUnlock t) Release (WCall t)
| m_entry t idx :
    tfunc s t = Some TaskEntry → tidx s t = Some idx →
    wmove q term s (WCall t) (Printed (EIdx idx)) (WFreeTask t)
| m_entry_1 t idx :
    tfunc s t = Some TaskEntry1 → tidx s t = Some idx →
    wmove q term s (WCall t) (Printed (ERunning idx)) (WSleep t idx)
| m_sleep t idx : wmove q term s (WSleep t idx) (Printed (EFinished idx)) (WFreeTask t)
| m_free t : wmove q term s (WFreeTask t) (Freed t) WLock
| m_exit : wmove q term s WFree Quit WDone.

(** What an effect of worker [w] does to the memory. *)
Definition weff (w : nat) (e : effect) (q : list nat) (s : pool) (q' : list nat) (s' : pool) : Prop :=
  match e with
  | Silent => q' = q ∧ ∃ h, s' = set_since h s
  | Acquire => q' = q ∧ mutex s = None ∧ s' = set_mutex (Some (Wk w)) s
  | Release => q' = q ∧ s' = set_mutex None s
  | Took t => q = t :: q' ∧ ∃ d h, lrep q' d ∧ same_payload (tasks s) d ∧
      s' = set_tasks d (set_since h s)
  | Printed e => q' = q ∧ s' = set_out (out s ++ [e]) s
  | Freed t => q' = q ∧ ∃ n, cells (tasks s) !! t = Some n ∧
      s' = set_tasks (Dlist (delete t (cells (tasks s))) (first (tasks s)))
             (set_ints (delete (user_data n) (ints s)) s)
  | Quit => q' = q ∧
      s' = set_workers (Dlist (delete w (cells (workers s))) (first (workers s))) s
  end.

Ltac weff_cases Hm He :=
  destruct Hm; cbn in He;
  repeat match goal with H : ∃ _, _ |- _ => destruct H | H : _ ∧ _ |- _ => destruct H end;
  subst.

Lemma wp_on_tasks {A} (m : M (dlist nTask) A) (Q : A → pool → Prop) s :
  wp (on_tasks m) Q s ↔ wp m (λ a d, Q a (set_tasks d s)) (tasks s).
Proof. unfold wp, on_tasks. by destruct (m (tasks s)) as [[]| |]. Qed.
Lemma wp_on_workers {A} (m : M (dlist nWorker) A) (Q : A → pool → Prop) s :
  wp (on_workers m) Q s ↔ wp m (λ a d, Q a (set_workers d s)) (workers s).
Proof. unfold wp, on_workers. by destruct (m (workers s)) as [[]| |]. Qed.
Lemma set_tasks_same s : set_tasks (tasks s) s = s.
Proof. by destruct s. Qed.
Lemma set_workers_same s : set_workers (workers s) s = s.
Proof. by destruct s. Qed.
#[export] Hint Rewrite @wp_on_tasks @wp_on_workers : wp_db.

(** Running a statement: a defined result satisfies [Q], a fault is explained by [F]. *)
Definition fp {A} (m : M pool A) (F : ub → Prop) (Q : A → pool → Prop) (s : pool) : Prop :=
  match m s with Ok (a, s') => Q a s' | UB u => F u | OutOfFuel => False end.
Lemma wp_fp {A} (m : M pool A) F Q s : wp m Q s → fp m F Q s.
Proof. unfold wp, fp. by destruct (m s) as [[]| |]. Qed.
Lemma fp_bind {A B} (m : M pool A) (k : A → M pool B) F Q s :
  fp (bind m k) F Q s ↔ fp m F (λ a s', fp (k a) F Q s') s.
Proof. unfold fp, bind. by destruct (m s) as [[]| |]. Qed.
Lemma fp_mono {A} (m : M pool A) F (P Q : A → pool → Prop) s :
  fp m F P s → (∀ a s', P a s' → Q a s') → fp m F Q s.
Proof. unfold fp. destruct (m s) as [[]| |]; auto. Qed.

Lemma set_since_same s : set_since (since s) s = s.
Proof. by destruct s. Qed.

Lemma worker_spec w n s (Q : nWorker → pool → Prop) :
  cells (workers s) !! w = Some n → Q n s → wp (worker w) Q s.
Proof.
  intros Hn HQ. unfold worker. wp_step. eapply cell_spec; [done|]. by rewrite set_workers_same.
Qed.
Lemma task_cell_spec t n s (Q : nTask → pool → Prop) :
  cells (tasks s) !! t = Some n → Q n s → wp (on_tasks (cell t)) Q s.
Proof.
  intros Hn HQ. wp_step. eapply cell_spec; [done|]. by rewrite set_tasks_same.
Qed.
Lemma task_idx_spec t idx s (Q : Z → pool → Prop) :
  tidx s t = Some idx → Q idx s → wp (task_idx t) Q s.
Proof.
  unfold tidx. destruct (cells (tasks s) !! t) as [n|] eqn:Hn; [cbn|done]. intros Hi HQ.
  unfold task_idx. apply wp_bind. eapply task_cell_spec; [done|]. wp_step. by rewrite Hi.
Qed.

Section moves.
Context (q lost wl : list nat) (s : pool) (Hinv : pinv q lost wl s).

(** A task with a place is live. *)
Lemma pi_live t :
  (0 < occ t q + occ t lost + msum (own t) (threads s) + mown t (main_at s))%nat →
  ∃ n d, cells (tasks s) !! t = Some n ∧ ints s !! user_data n = Some d ∧ tidx s t = Some d.
Proof.
  rewrite (pi_own _ _ _ _ Hinv). case_decide as Ht; [|lia]. intros _.
  apply elem_of_dom in Ht as [n Hn]. destruct (proj1 (pi_data _ _ _ _ Hinv) _ _ Hn) as [d Hd].
  exists n, d. unfold tidx. rewrite Hn. cbn. by rewrite Hd.
Qed.
Lemma pi_owned w pc t :
  threads s !! w = Some pc → own t pc = 1%nat →
  ∃ n d, cells (tasks s) !! t = Some n ∧ ints s !! user_data n = Some d ∧ tidx s t = Some d.
Proof. intros Hw Ho. apply pi_live. pose proof (msum_le (own t) _ _ _ Hw). lia. Qed.

(** A worker's statement is only undefined once nThreadPoolDestroy has begun: it reads
    what main wrote without the mutex, or main has returned. *)
Definition late_fault (u : ub) : Prop :=
  early (main_at s) = false ∧ (u = DataRace ∨ u = DanglingDeref).

Lemma manager_spec w n Q :
  cells (workers s) !! w = Some n → Q () s → fp (manager w) late_fault Q s.
Proof.
  intros Hn HQ. unfold manager. apply fp_bind, wp_fp. eapply worker_spec; [done|].
  apply fp_bind. cbn. case_decide as Hm; [|done]. split; [by rewrite Hm|auto].
Qed.
Lemma read_flag_spec w n Q :
  cells (workers s) !! w = Some n → (∀ h, Q (terminate n) (set_since h s)) →
  fp (read_flag w) late_fault Q s.
Proof.
  intros Hn HQ. unfold read_flag. apply fp_bind, wp_fp. eapply worker_spec; [done|].
  apply fp_bind. cbn. destruct (negb _ && _) eqn:E; [|apply HQ].
  apply andb_true_iff in E as [_ E]. split; [by destruct (main_at s)|auto].
Qed.
Lemma read_tasks_spec w n Q :
  cells (workers s) !! w = Some n → (∀ h, Q (head q) (set_since h s)) →
  fp (read_tasks w) late_fault Q s.
Proof.
  intros Hn HQ. destruct (pi_tasks _ _ _ _ Hinv) as (_&Hf&_).
  unfold read_tasks. apply fp_bind. eapply manager_spec; [done|].
  apply fp_bind. cbn. destruct (tasks_written _) eqn:E.
  - split; [by destruct (main_at s)|auto].
  - unfold fp, bind. cbn. rewrite Hf. apply HQ.
Qed.

Ltac fp_seq := apply fp_bind; first
  [ eapply manager_spec; [done|] | eapply read_flag_spec; [done|]; intros h
  | eapply read_tasks_spec; [done|]; intros h ].
Ltac plain := apply wp_fp; unfold lock, unlock; wp_step.

(** Every step of a worker has a defined result, but for [late_fault]: the worker waits,
    or makes a move. *)
Lemma worker_moves w pc :
  threads s !! w = Some pc →
  fp (nThreadPoolCallback w pc) late_fault
     (λ o s', match o with
      | None => s' = s ∧ (pc = WWait ∨ pc = WDone ∨ (holds pc = false ∧ is_Some (mutex s)))
      | Some pc' => ∃ n q' e, cells (workers s) !! w = Some n ∧
          wmove q (terminate n) s pc e pc' ∧ weff w e q s q' s'
      end) s.
Proof.
  intros Hw. destruct (decide (pc = WDone)) as [->|Hd]; [cbn; auto|].
  destruct (pi_pcs _ _ _ _ Hinv _ _ Hw Hd) as (n&Hn&_&Hok).
  assert (∀ e q' s' pc', wmove q (terminate n) s pc e pc' → weff w e q s q' s' →
    ∃ n q' e, cells (workers s) !! w = Some n ∧
      wmove q (terminate n) s pc e pc' ∧ weff w e q s q' s') as Hgo by eauto 10.
  destruct pc; cbn [nThreadPoolCallback]; try done;
    try lazymatch goal with |- fp (bind (worker _) _) _ _ _ => fail | |- _ => fp_seq end.
  - plain. destruct (mutex s) eqn:Hm; wp_step; [by eauto|].
    rewrite decide_False by done. eapply Hgo; [constructor|done].
  - plain. eapply (Hgo Silent); [|by split; [|eexists]]. destruct q; by constructor.
  - plain. eapply (Hgo Silent); [|by split; [|eexists]]. case_match; constructor; lia.
  - plain. eapply Hgo; [constructor|done].
  - plain. auto.
  - plain. destruct (mutex s) eqn:Hm; wp_step; [by eauto|].
    rewrite decide_False by done. eapply Hgo; [constructor|done].
  - plain. eapply (Hgo Silent); [|by split; [|eexists]]. case_match; constructor; lia.
  - plain. eapply Hgo; [constructor|done].
  - plain. destruct q as [|t q']; [done|]. eapply (Hgo Silent); [by econstructor|by split; [|eexists]].
  - destruct Hok as (t&q'&->&Hq). pose proof (pi_tasks _ _ _ _ Hinv) as Hl. rewrite Hq in Hl.
    cbn [from_opt]. apply fp_bind. change (fp (ret t) ?F ?Q s) with (Q t s). cbv beta.
    fp_seq. plain. eapply wp_mono; [by apply (remove_spec [] t q')|].
    intros _ d [Hd1 Hd2]. wp_step. eapply Hgo; [constructor|]. cbn. eauto 10.
  - plain. eapply Hgo; [constructor|done].
  - destruct (pi_owned _ _ task Hw) as (nt&d&Ht&Hdt&Hi); [by cbn; rewrite decide_True|]. plain.
    eapply cell_spec; [done|]. rewrite set_tasks_same. wp_step.
    unfold task_entry, task_entry_1, print.
    destruct (task_func nt) eqn:Ef; wp_step; (eapply task_idx_spec; [done|]); wp_step;
      (eapply Hgo; [constructor; [|exact Hi]; unfold tfunc; rewrite Ht; cbn; congruence|done]).
  - plain. unfold print. wp_step. eapply Hgo; [constructor|done].
  - destruct (pi_owned _ _ task Hw) as (nt&d&Ht&Hdt&Hi); [by cbn; rewrite decide_True|]. plain.
    unfold task_free. wp_step. eapply cell_spec; [done|]. rewrite set_tasks_same.
    wp_step. rewrite Hdt. cbn [from_opt]. wp_step. eapply Hgo; [constructor|]. cbn. eauto.
  - plain. eapply worker_spec; [done|]. wp_step. eapply Hgo; [constructor|done].
Qed.
End moves.

(** ** The moves keep the invariant *)

Section mutex.
Implicit Types (th : gmap nat wpc) (mx : option owner) (m : mpc).

Lemma mx_holder th mx m w w' pc pc' :
  mutex_inv th mx m → th !! w = Some pc → th !! w' = Some pc' →
  holds pc = true → holds pc' = true → w = w'.
Proof. intros [H _] Hw Hw' H1%(H _ _ Hw) H2%(H _ _ Hw'). congruence. Qed.
Lemma mx_main_holds th mx m w pc :
  mutex_inv th mx m → th !! w = Some pc → mholds m = true → holds pc = false.
Proof.
  intros (H&Hm&_) Hw H1%Hm. destruct (holds pc) eqn:E; [|done].
  apply (H _ _ Hw) in E. congruence.
Qed.

Lemma mx_update th mx mx' m w pc pc' :
  mutex_inv th mx m → th !! w = Some pc →
  (holds pc' = true ↔ mx' = Some (Wk w)) →
  (∀ o, o ≠ Wk w → (mx' = Some o ↔ mx = Some o)) →
  mutex_inv (<[w:=pc']> th) mx' m.
Proof.
  intros (H&Hm&Hl) Hw Hpc Ho. split_and!.
  - intros w' p'. rewrite lookup_insert. case_decide as E; [subst; by intros [= <-]|].
    intros Hp. rewrite (H _ _ Hp). symmetry. apply Ho. congruence.
  - rewrite Hm. symmetry. by apply Ho.
  - intros w' Hw'. rewrite lookup_insert. case_decide; [done|]. apply Hl, Ho; [congruence|done].
Qed.
Lemma mx_same th mx m w pc pc' :
  mutex_inv th mx m → th !! w = Some pc → holds pc' = holds pc →
  mutex_inv (<[w:=pc']> th) mx m.
Proof. intros Hi Hw E. eapply mx_update; [done..| |done]. rewrite E. by apply Hi. Qed.
Lemma mx_acquire th m w pc pc' :
  mutex_inv th None m → th !! w = Some pc → holds pc' = true →
  mutex_inv (<[w:=pc']> th) (Some (Wk w)) m.
Proof. intros Hi Hw E. eapply mx_update; [done..| |]; [done|]. naive_solver. Qed.
Lemma mx_release th mx m w pc pc' :
  mutex_inv th mx m → th !! w = Some pc → holds pc = true → holds pc' = false →
  mutex_inv (<[w:=pc']> th) None m.
Proof.
  intros Hi Hw E E'. eapply mx_update; [done..| |]; [by rewrite E'|].
  apply (proj1 Hi _ _ Hw) in E as ->. naive_solver.
Qed.
Lemma mx_new th mx m w pc :
  mutex_inv th mx m → th !! w = None → holds pc = false → 
  mutex_inv (<[w:=pc]> th) mx m.
Proof.
  intros (H&Hm&Hl) Hw Hpc. split_and!; [|done|].
  - intros w' p'. rewrite lookup_insert. case_decide as E; [|by apply H].
    subst w'. intros [= <-]. rewrite Hpc. split; [done|]. intros Hx.
    apply Hl in Hx. rewrite Hw in Hx. by destruct Hx.
  - intros w' Hw'. rewrite lookup_insert. case_decide; [done|]. by apply Hl.
Qed.
Lemma mx_main th mx m m' :
  mutex_inv th mx m → mholds m' = mholds m → mutex_inv th mx m'.
Proof. intros (H&Hm&Hl) E. split_and!; [done|by rewrite E|done]. Qed.
Lemma mx_main_acquire th m m' :
  mutex_inv th None m → mholds m' = true → mutex_inv th (Some Main) m'.
Proof.
  intros (H&Hm&Hl) E. split_and!; [|by rewrite E|done].
  intros w pc Hw. rewrite (H _ _ Hw). done.
Qed.
Lemma mx_main_release th mx m m' :
  mutex_inv th mx m → mholds m = true → mholds m' = false → mutex_inv th None m'.
Proof.
  intros (H&Hm&Hl) E%Hm E'. split_and!; [|by rewrite E'|done].
  intros w pc Hw. rewrite (H _ _ Hw), E. done.
Qed.
End mutex.

Lemma payload_task n n' :
  payload n = payload n' → task_func n = task_func n' ∧ user_data n = user_data n'.
Proof. unfold payload. cbn. by intros [= -> ->]. Qed.

Lemma data_ok_payload d d' ds :
  same_payload d d' → data_ok (cells d) ds → data_ok (cells d') ds.
Proof.
  intros Hs (H1&H2&H3).
  assert (∀ d d' t n', same_payload d d' → cells d' !! t = Some n' →
    ∃ n, cells d !! t = Some n ∧ user_data n = user_data n') as Hback.
  { clear. intros d d' t n' Hs Ht. apply (f_equal (lookup t)) in Hs.
    rewrite !lookup_fmap, Ht in Hs.
    destruct (cells d !! t) as [n|]; [|done]. injection Hs as _ Hd. eauto. }
  split_and!.
  - intros t n' (n&Hn&<-)%(Hback d); [|done]. by eapply H1.
  - intros t t' n n' (m&Hm&<-)%(Hback d) (m'&Hm'&<-)%(Hback d); [|done..]. by eapply H2.
  - intros b Hb. destruct (H3 b Hb) as (t&n&Hn&<-). symmetry in Hs.
    destruct (Hback d' _ _ _ Hs Hn) as (n'&?&?). eauto.
Qed.
Lemma data_ok_delete h ds t n :
  h !! t = Some n → data_ok h ds → data_ok (delete t h) (delete (user_data n) ds).
Proof.
  intros Ht (H1&H2&H3). split_and!.
  - intros t' n' Ht'%lookup_delete_Some. destruct Ht' as [Hne Ht'].
    rewrite lookup_delete_ne; [by eapply H1|]. intros E. by apply Hne, (H2 _ _ n n').
  - intros t1 t2 n1 n2 H1'%lookup_delete_Some H2'%lookup_delete_Some. naive_solver.
  - intros b [i Hb]. apply lookup_delete_Some in Hb as [Hne Hb].
    destruct (H3 b) as (t'&n'&Hn'&<-); [by eexists|]. exists t', n'.
    rewrite lookup_delete_ne; [done|]. intros ->. congruence.
Qed.

Section kept.
Context (q lost wl : list nat) (s : pool) (Hinv : pinv q lost wl s).
Context (w : nat) (pc pc' : wpc) (e : effect) (n : nWorker) (q' : list nat) (s' : pool).
Context (Hw : threads s !! w = Some pc) (Hn : cells (workers s) !! w = Some n).
Context (Hmove : wmove q (terminate n) s pc e pc') (Heff : weff w e q s q' s').

Ltac move_cases := weff_cases Hmove Heff.

(** What no move touches. *)
Lemma eff_frame :
  main_at s' = main_at s ∧ brk s' = brk s ∧ threads s' = threads s ∧
  first (workers s') = first (workers s) ∧
  (∀ v, cells (workers s') !! v =
    if decide (v = w ∧ pc' = WDone) then None else cells (workers s) !! v).
Proof.
  move_cases; split_and!; try done; intros v; case_decide; destruct_and?; simplify_eq;
    try done; cbn.
  - apply lookup_delete_eq.
  - rewrite lookup_delete_ne; [done|]. naive_solver.
Qed.

Lemma kept_mutex : mutex_inv (threads (set_pc w pc' s')) (mutex s') (main_at s').
Proof.
  pose proof (pi_mutex _ _ _ _ Hinv) as Hm. destruct eff_frame as (->&_&Et&_).
  cbn. rewrite Et. move_cases; cbn;
    first [by eapply mx_same | by eapply mx_release | idtac];
    match goal with H : mutex s = None |- _ => rewrite H in Hm end; by eapply mx_acquire.
Qed.

Lemma kept_own t :
  (occ t q' + occ t lost + msum (own t) (threads (set_pc w pc' s')) + mown t (main_at s'))%nat =
  if decide (t ∈ dom (cells (tasks s'))) then 1%nat else 0%nat.
Proof.
  pose proof (pi_own _ _ _ _ Hinv t) as Ho. destruct eff_frame as (->&_&Et&_).
  cbn. rewrite Et. pose proof (msum_insert (own t) _ _ _ pc' Hw) as Hs.
  move_cases; cbn [own occ tasks set_tasks set_mutex set_since set_out set_workers cells] in *;
    [lia..| | | | | | | |]; try lia.
  - erewrite same_payload_dom by done. lia.
  - rewrite dom_delete_L. destruct (decide (t = t0)) as [->|Ht].
    + rewrite decide_True in Ho by (eapply elem_of_dom_2; done).
      rewrite decide_False by set_solver. lia.
    + rewrite (decide_ext (t ∈ dom (cells (tasks s)) ∖ {[t0]}) (t ∈ dom (cells (tasks s))))
        by set_solver. lia.
Qed.

Lemma kept_pcs w1 pc1 :
  threads (set_pc w pc' s') !! w1 = Some pc1 → pc1 ≠ WDone →
  ∃ n, cells (workers s') !! w1 = Some n ∧
       (early (main_at s') = true → terminate n = 0) ∧ pc_ok q' (terminate n) pc1.
Proof.
  destruct eff_frame as (->&_&Et&_&Hc). cbn. rewrite Et, lookup_insert. rewrite Hc.
  assert (pc ≠ WDone) as Hpc by (destruct Hmove; done).
  destruct (decide (w = w1)) as [<-|E].
  - intros [= <-] Hd. rewrite decide_False by tauto.
    destruct (pi_pcs _ _ _ _ Hinv _ _ Hw Hpc) as (n1&Hn1&He&Hok). simplify_eq.
    exists n. split_and!; [done|done|]. move_cases; cbn in *; naive_solver.
  - intros Hw1 Hd. rewrite decide_False by naive_solver.
    destruct (pi_pcs _ _ _ _ Hinv _ _ Hw1 Hd) as (n1&Hn1&He&Hok).
    exists n1. split_and!; [done|done|].
    assert (q' = q ∨ holds pc = true) as [->|Hh] by (move_cases; auto); [done|].
    destruct (holds pc1) eqn:Hh1; [|by destruct pc1].
    destruct E. by eapply mx_holder; [apply Hinv| | | |].
Qed.

Lemma kept_tasks : lrep q' (tasks s').
Proof.
  pose proof (pi_tasks _ _ _ _ Hinv) as Hl. move_cases; cbn; try done.
  apply (lrep_same _ (tasks s)); [|done|done]. intros p Hp. cbn.
  rewrite lookup_delete_ne; [done|]. intros <-. apply occ_elem in Hp.
  pose proof (pi_own _ _ _ _ Hinv t) as Ho. pose proof (msum_le (own t) _ _ _ Hw) as Hle.
  cbn in Hle. rewrite decide_True in Hle by done. case_decide; lia.
Qed.

(** Before nThreadPoolDestroy no worker ends. *)
Lemma kept_early : early (main_at s) = true → pc' ≠ WDone.
Proof.
  intros He E.
  destruct (pi_pcs _ _ _ _ Hinv _ _ Hw) as (n1&Hn1&Hz&Hok); [by destruct Hmove|].
  destruct Hmove; try done. destruct (Hok (Hz He)).
Qed.

Lemma kept_workers : early (main_at s') = true → lrep wl (workers s').
Proof.
  destruct eff_frame as (->&_&_&Ef&Hc). intros He.
  apply (lrep_same _ (workers s)); [|exact Ef|by apply (pi_workers _ _ _ _ Hinv)].
  intros p _. rewrite Hc. clear Hc. case_decide as E; [|done]. destruct E as [_ E].
  by destruct kept_early.
Qed.

Lemma kept_data : data_ok (cells (tasks s')) (ints s').
Proof.
  pose proof (pi_data _ _ _ _ Hinv) as Hd. move_cases; cbn; try done.
  - by eapply data_ok_payload.
  - by apply data_ok_delete.
Qed.

Lemma kept_fresh p : (brk s' ≤ p)%nat →
  cells (tasks s') !! p = None ∧ cells (workers s') !! p = None ∧ ints s' !! p = None ∧
  threads (set_pc w pc' s') !! p = None.
Proof.
  destruct eff_frame as (_&->&Et&_&Hc). intros Hp.
  destruct (pi_fresh _ _ _ _ Hinv p Hp) as (Ht&Hwk&Hi&Hth).
  cbn. rewrite Et, Hc, Hwk, lookup_insert_ne by congruence. clear Hc.
  split_and!; [|by case_decide| |done].
  - move_cases; cbn; try done.
    + apply not_elem_of_dom. erewrite same_payload_dom by done. by apply not_elem_of_dom.
    + rewrite lookup_delete. by case_decide.
  - move_cases; cbn; try done. rewrite lookup_delete. by case_decide.
Qed.

Lemma kept_pinv : pinv q' lost wl (set_pc w pc' s').
Proof.
  constructor; [apply kept_tasks|apply kept_workers|apply kept_mutex|apply kept_own
               |apply kept_data|apply kept_pcs| | | |apply kept_fresh];
    destruct eff_frame as (Em&Eb&Et&_); cbn; rewrite Em.
  - intros v p He. rewrite Et, lookup_insert. destruct (decide (w = v)) as [<-|Hne].
    + intros [= <-]. by apply kept_early.
    + by apply (pi_early _ _ _ _ Hinv).
  - intros v He. rewrite Et, lookup_insert_is_Some'. rewrite <-(pi_listed _ _ _ _ Hinv) by done.
    split; [|by auto]. intros [<-|]; [by eexists|done].
  - apply (pi_unlisted _ _ _ _ Hinv).
Qed.
End kept.
