(* ===== verification/TpMain.v ===== *)
(** Thread pool, part 4: the steps of main (nThreadPoolCreate, the pushing loop,
    nThreadPoolDestroy) as moves with one effect each, and the invariant for them. *)
From S2P Require Import Prelude TpList TpPool TpInv.

(** [s'] is [s] after some calls of malloc and pthread_create. *)
Definition alloc_like (s s' : pool) : Prop :=
  ∃ b m sp, (brk s ≤ b)%nat ∧ m `suffix_of` mallocs s ∧ s' = set_spawns sp (set_alloc b m s).

Definition woken (th th' : gmap nat wpc) : Prop :=
  (th' = th ∧ ∀ w, th !! w ≠ Some WWait) ∨
  (∃ w, th !! w = Some WWait ∧ th' = <[w := WRelock]> th).

(** All moves of main, with their effects taken apart. *)
Ltac meff_cases Hm He :=
  destruct Hm; cbn in He; unfold alloc_like in He;
  repeat match goal with H : ∃ _, _ |- _ => destruct H | H : _ ∧ _ |- _ => destruct H end;
  subst.

Section main.
Context (nw : Z) (num : nat) (func : task_fn).

Inductive meffect :=
| MSilent | MHire (w : nat) | MListed (w : nat) | MMade (t : nat) (i : nat) | MAcquire
| MPushed (t : nat) | MSignalled | MRelease | MFlag (w : nat) | MBroad | MDropTasks
| MDropWorkers.

Inductive mmove (s : pool) : mpc → meffect → mpc → Prop :=
| mm_created i : mmove s (MCreate i) MSilent (MLoop 0)
| mm_hire i w : (i < pool_size nw)%nat → mmove s (MCreate i) (MHire w) (MInsertWorker i w)
| mm_listed i w : mmove s (MInsertWorker i w) (MListed w) (MCreate (S i))
| mm_made i t : (i < num)%nat → mmove s (MLoop i) (MMade t i) (MPushLock i t)
| mm_pushed_all i : (num ≤ i)%nat → mmove s (MLoop i) MSilent MGetchar
| mm_lock i t : mmove s (MPushLock i t) MAcquire (MPushInsert i t)
| mm_insert i t : mmove s (MPushInsert i t) (MPushed t) (MSignal i)
| mm_signal i : mmove s (MSignal i) MSignalled (MPushUnlock i)
| mm_unlock i : mmove s (MPushUnlock i) MRelease (MLoop (S i))
| mm_destroy : mmove s MGetchar MSilent (MWalk (first (workers s)))
| mm_flag w : mmove s (MWalk (Some w)) (MFlag w) (MNext w)
| mm_flagged : mmove s (MWalk None) MSilent MDestroyLock
| mm_next w n : cells (workers s) !! w = Some n → mmove s (MNext w) MSilent (MWalk (next (w_links n)))
| mm_dlock : mmove s MDestroyLock MAcquire MBroadcast
| mm_broadcast : mmove s MBroadcast MBroad MDestroyUnlock
| mm_dunlock : mmove s MDestroyUnlock MRelease MTasksNull
| mm_tasks : mmove s MTasksNull MDropTasks MWorkersNull
| mm_workers : mmove s MWorkersNull MDropWorkers MReturn.

Definition meff (e : meffect) (q lost wl : list nat) (s : pool) (q' lost' wl' : list nat)
    (s' : pool) : Prop :=
  match e with
  | MSilent => q' = q ∧ lost' = lost ∧ wl' = wl ∧ alloc_like s s'
  | MHire w => q' = q ∧ lost' = lost ∧ wl' = wl ∧
      ∃ s0, alloc_like s s0 ∧ (brk s ≤ w < brk s0)%nat ∧
      s' = set_threads (<[w := WLock]> (threads s))
             (set_workers (Dlist (<[w := NWorker 0 (Dnode None None)]> (cells (workers s)))
                (first (workers s))) s0)
  | MListed w => q' = q ∧ lost' = lost ∧ wl' = wl ++ [w] ∧
      ∃ d, lrep wl' d ∧ same_payload (workers s) d ∧ s' = set_workers d s
  | MMade t i => q' = q ∧ lost' = lost ∧ wl' = wl ∧
      ∃ s0 d, alloc_like s s0 ∧ (brk s ≤ t < brk s0)%nat ∧ (brk s ≤ d < brk s0)%nat ∧
      s' = set_tasks (Dlist (<[t := NTask func d (Dnode None None)]> (cells (tasks s)))
                        (first (tasks s)))
             (set_ints (<[d := Z.of_nat i]> (ints s)) s0)
  | MAcquire => q' = q ∧ lost' = lost ∧ wl' = wl ∧ mutex s = None ∧
      s' = set_since ordered (set_mutex (Some Main) s)
  | MPushed t => q' = q ++ [t] ∧ lost' = lost ∧ wl' = wl ∧
      ∃ d, lrep q' d ∧ same_payload (tasks s) d ∧ s' = set_tasks d s
  | MSignalled => q' = q ∧ lost' = lost ∧ wl' = wl ∧
      ∃ th, woken (threads s) th ∧ s' = set_threads th s
  | MRelease => q' = q ∧ lost' = lost ∧ wl' = wl ∧ s' = set_mutex None s
  | MFlag w => q' = q ∧ lost' = lost ∧ wl' = wl ∧ ∃ n, cells (workers s) !! w = Some n ∧
      s' = set_workers (Dlist (<[w := NWorker 1 (w_links n)]> (cells (workers s)))
             (first (workers s))) s
  | MBroad => q' = q ∧ lost' = lost ∧ wl' = wl ∧
      s' = set_threads ((λ pc, if asleep pc then WRelock else pc) <$> threads s) s
  | MDropTasks => q' = [] ∧ lost' = lost ++ q ∧ wl' = wl ∧
      s' = set_tasks (Dlist (cells (tasks s)) None) s
  | MDropWorkers => q' = q ∧ lost' = lost ∧ wl' = wl ∧
      s' = set_workers (Dlist (cells (workers s)) None) s
  end.

Lemma set_alloc_same s : set_spawns (spawns s) (set_alloc (brk s) (mallocs s) s) = s.
Proof. by destruct s. Qed.
Lemma alloc_like_refl s : alloc_like s s.
Proof. exists (brk s), (mallocs s), (spawns s). by rewrite set_alloc_same. Qed.
Lemma alloc_like_trans s s1 s2 : alloc_like s s1 → alloc_like s1 s2 → alloc_like s s2.
Proof.
  intros (b&m&sp&Hb&Hm&->) (b'&m'&sp'&Hb'&Hm'&->). cbn in Hb', Hm'. exists b', m', sp'.
  split_and!; [lia|by etrans|by destruct s].
Qed.

Lemma pool_malloc_spec s :
  wp pool_malloc (λ o s', alloc_like s s' ∧
    match o with
    | Some p => p = brk s ∧ brk s' = S (brk s)
    | None => false ∈ mallocs s ∧ brk s' = brk s
    end) s.
Proof.
  unfold pool_malloc. wp_step. destruct (mallocs s) as [|[] m] eqn:Em; wp_step.
  - split; [|done]. exists (S (brk s)), [], (spawns s). split_and!; [lia|apply suffix_nil|by destruct s].
  - split; [|done]. exists (S (brk s)), m, (spawns s).
    split_and!; [lia|rewrite Em; by apply suffix_cons_r|by destruct s].
  - split; [|split; [left|done]]. exists (brk s), m, (spawns s).
    split_and!; [lia|rewrite Em; by apply suffix_cons_r|by destruct s].
Qed.

Lemma sleepers_elem w s : w ∈ sleepers s ↔ threads s !! w = Some WWait.
Proof.
  unfold sleepers. rewrite list_elem_of_fmap. split.
  - intros ([v pc]&->&[Ha Hin]%list_elem_of_filter). apply elem_of_map_to_list in Hin.
    cbn in *. by destruct pc.
  - intros Hw. exists (w, WWait). split; [done|]. apply list_elem_of_filter.
    split; [done|]. by apply elem_of_map_to_list.
Qed.
Lemma signal_spec pick s :
  wp (pthread_cond_signal pick) (λ _ s', ∃ th, woken (threads s) th ∧ s' = set_threads th s) s.
Proof.
  unfold pthread_cond_signal. wp_step. case_decide as Hp.
  - wp_step. eexists. split; [|done]. right. exists pick. by apply sleepers_elem in Hp.
  - destruct (sleepers s) as [|w ws] eqn:Es; wp_step.
    + exists (threads s). split; [|by destruct s]. left. split; [done|]. intros w Hw.
      apply sleepers_elem in Hw. rewrite Es in Hw. by apply elem_of_nil in Hw.
    + eexists. split; [|done]. right. exists w. split; [|done]. apply sleepers_elem.
      rewrite Es. left.
Qed.

(** Why main may fault: malloc failed for a task (exit(1)) or for its data (a write
    through NULL), or nThreadPoolDestroy races with a worker or follows a freed one. *)
Definition main_fault (s : pool) (u : ub) : Prop :=
  ((u = ProcessExit ∨ u = NullDeref) ∧ false ∈ mallocs s ∧ ∃ i, main_at s = MLoop i) ∨
  ((u = DanglingDeref ∨ u = DataRace) ∧ early (main_at s) = false).

Section moves.
Context (q lost wl : list nat) (s : pool) (Hinv : pinv q lost wl s).

Definition moved (pc : mpc) (s' : pool) : Prop :=
  ∃ q' lost' wl' e, mmove s (main_at s) e pc ∧ meff e q lost wl s q' lost' wl' s'.

Lemma fresh_brk : cells (tasks s) !! brk s = None ∧ cells (workers s) !! brk s = None ∧
  ints s !! brk s = None ∧ threads s !! brk s = None.
Proof. by apply (pi_fresh _ _ _ _ Hinv). Qed.

Lemma alloc_like_fields s0 : alloc_like s s0 →
  tasks s0 = tasks s ∧ workers s0 = workers s ∧ ints s0 = ints s ∧ threads s0 = threads s ∧
  mutex s0 = mutex s ∧ main_at s0 = main_at s ∧ out s0 = out s ∧ (brk s ≤ brk s0)%nat.
Proof. by intros (b&m&sp&Hb&Hm&->). Qed.

Lemma create_worker_moves i :
  main_at s = MCreate i → (i < pool_size nw)%nat → wp (create_worker i) moved s.
Proof.
  intros Hm Hi. unfold create_worker. wp_step.
  eapply wp_mono; [apply pool_malloc_spec|]. intros [w|] s1 [Hal Hp].
  2: { wp_step. exists q, lost, wl, MSilent. rewrite Hm. split; [constructor|done]. }
  destruct Hp as [-> Hb]. destruct (alloc_like_fields _ Hal) as (_&Ew&_&Et&_).
  wp_step. destruct (default true (head (spawns _))); wp_step.
  - exists q, lost, wl, (MHire (brk s)). rewrite Hm. split; [by constructor|].
    split_and!; [done..|]. exists (set_spawns (tail (spawns s1)) s1). split_and!; [|done|cbn; lia|].
    + eapply alloc_like_trans; [done|]. exists (brk s1), (mallocs s1), (tail (spawns s1)).
      split_and!; [done..|by destruct s1].
    + cbn. by rewrite Ew, Et; destruct s1.
  - exists q, lost, wl, MSilent. rewrite Hm. split; [by constructor|].
    split_and!; [done..|]. eapply alloc_like_trans; [done|].
    exists (brk s1), (mallocs s1), (tail (spawns s1)). split_and!; [done..|]. cbn.
    rewrite delete_insert_id; [by destruct s1 as [? []]|]. rewrite Ew. by apply fresh_brk.
Qed.

Lemma make_task_moves i :
  main_at s = MLoop i → (i < num)%nat → fp (make_task func i) (main_fault s) moved s.
Proof.
  intros Hm Hi. unfold make_task. apply fp_bind.
  eapply fp_mono; [apply wp_fp, pool_malloc_spec|]. intros [t|] s1 [Hal Hp].
  2: { left. split; [auto|]. split; [by apply Hp|eauto]. }
  destruct Hp as [-> Hb]. apply fp_bind.
  eapply fp_mono; [apply wp_fp, pool_malloc_spec|]. intros [d|] s2 [Hal2 Hp].
  2: { left. split; [auto|]. split; [|eauto]. destruct Hal as (b&m&sp&_&[k ->]&->).
       apply elem_of_app. right. apply Hp. }
  destruct Hp as [-> Hb2].
  destruct (alloc_like_fields _ (alloc_like_trans _ _ _ Hal Hal2)) as (Et&_&Ei&_).
  exists q, lost, wl, (MMade (brk s) i). rewrite Hm. split; [by constructor|].
  split_and!; [done..|]. exists s2, (brk s1).
  split_and!; [by eapply alloc_like_trans|lia..|]. cbn. by rewrite Et, Ei; destruct s2.
Qed.

(** What main is about to link is live and not yet in the list. *)
Lemma new_worker i w : main_at s = MInsertWorker i w →
  lrep wl (workers s) ∧ w ∈ dom (cells (workers s)) ∧ w ∉ wl.
Proof.
  intros Hm. assert (early (main_at s) = true) as He by by rewrite Hm.
  split_and!; [by apply (pi_workers _ _ _ _ Hinv)| |by eapply pi_unlisted].
  destruct (proj2 (pi_listed _ _ _ _ Hinv w He)) as [pc Hpc]; [by rewrite Hm; right|].
  destruct (pi_pcs _ _ _ _ Hinv _ _ Hpc) as (n&Hn&_); [by eapply pi_early|].
  by eapply elem_of_dom_2.
Qed.
Lemma new_task i t : main_at s = MPushInsert i t →
  lrep q (tasks s) ∧ t ∈ dom (cells (tasks s)) ∧ t ∉ q.
Proof.
  intros Hm. pose proof (pi_own _ _ _ _ Hinv t) as Ho. rewrite Hm in Ho. cbn in Ho.
  rewrite (decide_True _ _ (eq_refl t)) in Ho. case_decide; [|lia].
  split_and!; [apply (pi_tasks _ _ _ _ Hinv)|done|]. apply occ_not_elem. lia.
Qed.

Ltac silent := eexists _, _, _, _; split; [by econstructor|];
  cbn; split_and!; eauto using alloc_like_refl.

(** Every step of main waits, makes a move, or faults for one of three reasons. *)
Lemma main_moves pick :
  fp (main_step nw num func pick (main_at s)) (main_fault s)
     (λ o s', match o with
      | None => s' = s ∧ (main_at s = MReturn ∨ is_Some (mutex s))
      | Some pc' => moved pc' s'
      end) s.
Proof.
  assert (∀ w, match main_at s with MNext w' => w' = w | MWalk (Some w') => w' = w | _ => False end →
    fp (worker w) (main_fault s) (λ n s', s' = s ∧ cells (workers s) !! w = Some n) s) as Hwk.
  { intros w Hw. unfold fp, worker, on_workers, cell, gets, bind.
    destruct (cells (workers s) !! w) as [n|] eqn:En; cbn; [by destruct s|].
    right. split; [by left|]. by destruct (main_at s) as [| | | | | | | |[]| | | | | | |]. }
  destruct (main_at s) as [i|i w|i|i t|i t|i|i| |[w|]|w| | | | | |] eqn:Hm;
    cbn [main_step push_step destroy_step]; unfold moved; rewrite ?Hm;
    unfold lock, unlock.
  - destruct (Nat.ltb_spec i (pool_size nw)) as [Hi|Hi]; apply wp_fp; wp_step; [|silent].
    eapply wp_mono; [by apply create_worker_moves|]. intros pc' s' Hmv. wp_step.
    unfold moved in Hmv. by rewrite Hm in Hmv.
  - apply wp_fp. wp_step. eapply wp_mono; [by apply insert_tail_spec; apply (new_worker _ _ Hm)|].
    intros _ d [Hd Hs]. wp_step. exists q, lost, (wl ++ [w]), (MListed w). cbn.
    split; [constructor|eauto 10].
  - destruct (Nat.ltb_spec i num) as [Hi|Hi]; [|apply wp_fp; wp_step; silent].
    apply fp_bind. eapply fp_mono; [by apply make_task_moves|]. intros pc' s' Hmv.
    apply wp_fp. wp_step. unfold moved in Hmv. by rewrite Hm in Hmv.
  - apply wp_fp. wp_step. destruct (mutex s) eqn:Hx; wp_step; [by eauto|silent].
  - apply wp_fp. wp_step. eapply wp_mono; [by apply insert_tail_spec; apply (new_task _ _ Hm)|].
    intros _ d [Hd Hs]. wp_step. exists (q ++ [t]), lost, wl, (MPushed t). cbn.
    split; [constructor|eauto 10].
  - apply wp_fp. wp_step. eapply wp_mono; [apply signal_spec|].
    intros ? s' ?. wp_step. silent.
  - apply wp_fp. wp_step. silent.
  - apply wp_fp. wp_step. silent.
  - apply fp_bind. eapply fp_mono; [by apply Hwk|]. intros n ? [-> Hn].
    apply fp_bind. unfold fp at 1, gets. case_decide; [by right; rewrite Hm; split; [right|]|].
    apply wp_fp. unfold set_cell. wp_step. silent.
  - apply wp_fp. wp_step. silent.
  - apply fp_bind. eapply fp_mono; [by apply Hwk|]. intros n ? [-> Hn].
    apply wp_fp. wp_step. silent.
  - apply wp_fp. wp_step. destruct (mutex s) eqn:Hx; wp_step; [by eauto|silent].
  - apply wp_fp. unfold pthread_cond_broadcast. wp_step. silent.
  - apply wp_fp. wp_step. silent.
  - apply fp_bind. unfold fp at 1, gets.
    destruct (tasks_used _); [by right; rewrite Hm; split; [right|]|].
    apply wp_fp. unfold set_first. wp_step. silent.
  - apply wp_fp. unfold set_first. wp_step. silent.
  - apply wp_fp. wp_step. auto.
Qed.
End moves.

(** ** The moves of main keep the invariant *)

Lemma mx_broadcast th mx m :
  mutex_inv th mx m → mutex_inv ((λ pc, if asleep pc then WRelock else pc) <$> th) mx m.
Proof.
  intros (H&Hm&Hl). split_and!; [|done|].
  - intros w pc. rewrite lookup_fmap. intros (p&Hp&->)%fmap_Some.
    rewrite <-(H _ _ Hp). by destruct p.
  - intros w Hw. rewrite lookup_fmap, fmap_is_Some. by apply Hl.
Qed.
Lemma mx_woken th th' mx m : mutex_inv th mx m → woken th th' → mutex_inv th' mx m.
Proof. intros Hi [[-> _]|(w&Hw&->)]; [done|]. by eapply mx_same. Qed.
Lemma msum_woken f th th' : f WRelock = f WWait → woken th th' → msum f th' = msum f th.
Proof.
  intros E [[-> _]|(w&Hw&->)]; [done|]. pose proof (msum_insert f _ _ _ WRelock Hw). lia.
Qed.

(** The threads after a step of main: a new one, or some of the old ones awake. *)
Lemma woken_lookup th th' w pc :
  woken th th' → th' !! w = Some pc →
  ∃ pc0, th !! w = Some pc0 ∧ (pc = pc0 ∨ (pc0 = WWait ∧ pc = WRelock)).
Proof.
  intros [[-> _]|(v&Hv&->)]; [by eauto|]. rewrite lookup_insert. case_decide as E; [|by eauto].
  subst v. intros [= <-]. eauto.
Qed.

Section kept.
Context (q lost wl : list nat) (s : pool) (Hinv : pinv q lost wl s).
Context (e : meffect) (pc' : mpc) (q' lost' wl' : list nat) (s' : pool).
Context (Hmove : mmove s (main_at s) e pc') (Heff : meff e q lost wl s q' lost' wl' s').
(** When the tasks are dropped no worker is about to take one. *)
Context (Hdrop : e = MDropTasks → ∀ w pc n, threads s !! w = Some pc →
  cells (workers s) !! w = Some n → pc_ok [] (terminate n) pc).

Ltac mcases := remember (main_at s) as m0 eqn:Hm0; meff_cases Hmove Heff; cbn in *.

Lemma main_early : early pc' = true → early (main_at s) = true.
Proof. by destruct Hmove. Qed.

Lemma mkept_tasks : lrep q' (tasks s').
Proof.
  pose proof (pi_tasks _ _ _ _ Hinv) as Hl. mcases; try done.
  - apply (lrep_same _ (tasks s)); [|done|done]. intros p Hp. cbn.
    apply lookup_insert_ne. intros <-. apply (lrep_live _ _ _ Hl), elem_of_dom in Hp as [n Hn].
    destruct (pi_fresh _ _ _ _ Hinv t) as [Ht _]; [lia|]. congruence.
  - split_and!; [apply NoDup_nil_2|done..].
Qed.

Lemma mkept_workers : early pc' = true → lrep wl' (workers s').
Proof.
  intros He. pose proof (pi_workers _ _ _ _ Hinv (main_early He)) as Hl. mcases; try done.
  apply (lrep_same _ (workers s)); [|done|done]. intros p Hp. cbn.
  apply lookup_insert_ne. intros <-. apply (lrep_live _ _ _ Hl), elem_of_dom in Hp as [n Hn].
  destruct (pi_fresh _ _ _ _ Hinv w) as (_&Ht&_); [lia|]. congruence.
Qed.

Lemma mkept_mutex : mutex_inv (threads s') (mutex s') pc'.
Proof.
  pose proof (pi_mutex _ _ _ _ Hinv) as Hi. mcases;
    try (by eapply mx_main); try (by eapply mx_main_release).
  - apply mx_new; [by eapply mx_main| |done]. apply (pi_fresh _ _ _ _ Hinv). lia.
  - match goal with H : mutex s = None |- _ => rewrite H in Hi end. by eapply mx_main_acquire.
  - eapply mx_woken; [|done]. by eapply mx_main.
  - match goal with H : mutex s = None |- _ => rewrite H in Hi end. by eapply mx_main_acquire.
  - apply mx_broadcast. by eapply mx_main.
Qed.

Lemma mkept_own t :
  (occ t q' + occ t lost' + msum (own t) (threads s') + mown t pc')%nat =
  if decide (t ∈ dom (cells (tasks s'))) then 1%nat else 0%nat.
Proof.
  pose proof (pi_own _ _ _ _ Hinv t) as Ho. mcases; try lia.
  - rewrite msum_insert_new; [cbn; lia|]. apply (pi_fresh _ _ _ _ Hinv). lia.
  - destruct (pi_fresh _ _ _ _ Hinv t0) as [Ht _]; [lia|]. apply not_elem_of_dom in Ht.
    rewrite dom_insert_L. destruct (decide (t = t0)) as [->|Hne].
    + rewrite decide_False in Ho by done. rewrite decide_True by set_solver. lia.
    + rewrite (decide_ext (t ∈ {[t0]} ∪ dom (cells (tasks s))) (t ∈ dom (cells (tasks s))))
        by set_solver. lia.
  - rewrite occ_app. cbn. erewrite same_payload_dom by done. lia.
  - erewrite msum_woken by done. lia.
  - rewrite msum_fmap, (msum_ext (own t ∘ _) (own t)); [lia|]. intros _ pc _. by destruct pc.
  - rewrite occ_app. lia.
Qed.

Lemma mkept_data : data_ok (cells (tasks s')) (ints s').
Proof.
  pose proof (pi_data _ _ _ _ Hinv) as (H1&H2&H3). mcases; try done.
  - assert (∀ t' n', cells (tasks s) !! t' = Some n' → user_data n' ≠ x0) as Hx.
    { intros t' n' Ht' Hx. apply H1 in Ht' as [d Hd]. rewrite Hx in Hd.
      destruct (pi_fresh _ _ _ _ Hinv x0) as (_&_&Hi&_); [lia|]. congruence. }
    split_and!.
    + intros t' n'. rewrite !lookup_insert. case_decide; [intros [= <-]; cbn|intros Ht'].
      * by rewrite decide_True.
      * case_decide; [done|]. by eapply H1.
    + intros t1 t2 n1 n2. rewrite !lookup_insert.
      do 2 case_decide; subst; try done; intros; simplify_eq/=; try (by eapply H2);
        exfalso; eapply Hx; naive_solver.
    + intros d Hd. rewrite lookup_insert_is_Some' in Hd. destruct Hd as [<-|Hd].
      * exists t. eexists. by rewrite lookup_insert_eq.
      * destruct (H3 d Hd) as (t'&n'&Ht'&<-). exists t', n'. rewrite lookup_insert_ne; [done|].
        intros <-. destruct (pi_fresh _ _ _ _ Hinv t) as [Ht _]; [lia|]. congruence.
  - by eapply data_ok_payload.
Qed.

(** Each thread was there before, in the same place or asleep; or it is new. *)
Lemma mkept_threads w pc :
  threads s' !! w = Some pc →
  (∃ pc0, threads s !! w = Some pc0 ∧ (pc = pc0 ∨ (pc0 = WWait ∧ pc = WRelock))) ∨
  (e = MHire w ∧ pc = WLock).
Proof.
  mcases; try (by eauto).
  - rewrite lookup_insert. case_decide; [subst; intros [= <-]; auto|by eauto].
  - intros Hpc. left. by eapply woken_lookup.
  - rewrite lookup_fmap. intros (p&Hp&->)%fmap_Some. left. exists p. split; [done|].
    destruct p; cbn; auto.
Qed.

(** A worker's structure is still there; only nThreadPoolDestroy sets its flag. *)
Lemma mkept_flag w n :
  cells (workers s) !! w = Some n →
  ∃ n', cells (workers s') !! w = Some n' ∧
    (terminate n' = terminate n ∨ (e = MFlag w ∧ terminate n' = 1)).
Proof.
  intros Hn. mcases; try (by eauto).
  - exists n. rewrite lookup_insert_ne; [by auto|]. intros ->.
    destruct (pi_fresh _ _ _ _ Hinv w) as (_&Ht&_); [lia|]. congruence.
  - match goal with H : same_payload _ _ |- _ =>
      destruct (same_payload_lookup _ _ _ _ H Hn) as (n'&Hn'&Hp) end. exists n'. split; [done|].
    left. by injection Hp.
  - rewrite lookup_insert. case_decide; [subst|by eauto]. eexists. split; [done|]. by auto.
Qed.

Lemma pc_ok_term q0 x y pc : y = x ∨ y = 1 → pc_ok q0 x pc → pc_ok q0 y pc.
Proof. destruct pc; cbn; try done; intuition (subst; auto; lia). Qed.

Lemma mkept_pcs w pc :
  threads s' !! w = Some pc → pc ≠ WDone →
  ∃ n, cells (workers s') !! w = Some n ∧ (early pc' = true → terminate n = 0) ∧
       pc_ok q' (terminate n) pc.
Proof.
  intros Hw Hd. destruct (mkept_threads _ _ Hw) as [(pc0&Hw0&Hpc)|[-> ->]].
  2: { remember (main_at s) as m0. inversion Hmove; subst. cbn in Heff.
       destruct Heff as (_&_&_&s0&_&_&->). eexists. cbn. by rewrite lookup_insert_eq. }
  destruct (pi_pcs _ _ _ _ Hinv _ _ Hw0) as (n&Hn&Hz&Hok); [naive_solver|].
  destruct (mkept_flag _ _ Hn) as (n'&Hn'&Ht). exists n'. split; [done|]. split.
  - intros He. destruct Ht as [->|[-> _]]; [by apply Hz, main_early|]. by inversion Hmove; subst.
  - destruct Hpc as [->|[_ ->]]; [|done].
    apply (pc_ok_term _ (terminate n)); [naive_solver|].
    assert (q' = q ∨ (mholds (main_at s) = true) ∨ e = MDropTasks) as [->|[Hh| ->]].
    + clear -Heff Hmove. destruct e; cbn in Heff; try (left; apply Heff); [|auto].
      right. left. by inversion Hmove.
    + done.
    + eapply mx_main_holds in Hh; [|apply Hinv|done]. by destruct pc0.
    + destruct Heff as [-> _]. by eapply Hdrop.
Qed.

Lemma mkept_early w pc : early pc' = true → threads s' !! w = Some pc → pc ≠ WDone.
Proof.
  intros He%main_early [(pc0&Hw0&Hpc)|[_ ->]]%mkept_threads; [|done].
  pose proof (pi_early _ _ _ _ Hinv _ _ He Hw0). naive_solver.
Qed.

Lemma mkept_listed w : early pc' = true →
  (is_Some (threads s' !! w) ↔
   w ∈ wl' ∨ match pc' with MInsertWorker _ w' => w' = w | _ => False end).
Proof.
  intros He. pose proof (pi_listed _ _ _ _ Hinv w (main_early He)) as Hl.
  mcases; try done; try (rewrite Hl; clear; tauto).
  - rewrite lookup_insert_is_Some', Hl. clear. naive_solver.
  - rewrite Hl, elem_of_app, list_elem_of_singleton. clear. naive_solver.
  - rewrite <-Hl. clear Hl. match goal with H : woken _ _ |- _ =>
      destruct H as [[-> _]|(v&Hv&->)] end; [tauto|]. rewrite lookup_insert_is_Some'. naive_solver.
Qed.

Lemma mkept_unlisted i w : pc' = MInsertWorker i w → w ∉ wl'.
Proof.
  intros E Hin. remember (main_at s) as m0 eqn:Hm0. destruct Hmove; try done.
  injection E as -> ->. cbn in Heff. destruct Heff as (_&_&->&s0&_&Hb&_).
  assert (early (main_at s) = true) as He by by rewrite <-Hm0.
  destruct (proj2 (pi_listed _ _ _ _ Hinv w He)) as [p Hp]; [by left|].
  destruct (pi_fresh _ _ _ _ Hinv w) as (_&_&_&Ht); [lia|]. congruence.
Qed.

Lemma mkept_fresh p : (brk s' ≤ p)%nat →
  cells (tasks s') !! p = None ∧ cells (workers s') !! p = None ∧ ints s' !! p = None ∧
  threads s' !! p = None.
Proof.
  intros Hp. assert (brk s ≤ p)%nat as Hp0 by (mcases; lia).
  destruct (pi_fresh _ _ _ _ Hinv p Hp0) as (Ht&Hwk&Hi&Hth).
  mcases; try done; split_and!; try done;
    try (rewrite lookup_insert_ne; [done|lia]).
  - by apply not_elem_of_dom; erewrite same_payload_dom by done; apply not_elem_of_dom.
  - by apply not_elem_of_dom; erewrite same_payload_dom by done; apply not_elem_of_dom.
  - match goal with H : woken _ _ |- _ =>
      destruct H as [[-> _]|(v&Hv&->)] end; [done|]. rewrite lookup_insert_ne; [done|congruence].
  - rewrite lookup_insert_ne; [done|congruence].
  - by rewrite lookup_fmap, Hth.
Qed.

Lemma mkept_main : main_at (set_main pc' s') = pc'.
Proof. done. Qed.

Lemma mkept_pinv : pinv q' lost' wl' (set_main pc' s').
Proof.
  constructor; [apply mkept_tasks|apply mkept_workers|apply mkept_mutex|apply mkept_own
    |apply mkept_data|apply mkept_pcs|apply mkept_early|apply mkept_listed
    |apply mkept_unlisted|apply mkept_fresh].
Qed.
End kept.

(** ** Every reachable state *)

Lemma pinv_init m sp : pinv [] [] [] (pool_init m sp).
Proof.
  assert (lrep [] (Dlist (∅ : gmap nat nTask) None)) by (split_and!; [apply NoDup_nil_2|done..]).
  assert (lrep [] (Dlist (∅ : gmap nat nWorker) None)) by (split_and!; [apply NoDup_nil_2|done..]).
  constructor; cbn; try done.
  - split_and!; [done..|]. intros d. rewrite lookup_empty. by intros [].
  - intros w _. rewrite lookup_empty, elem_of_nil. split; [by intros []|tauto].
Qed.

Lemma spurious_pinv q lost wl s w :
  pinv q lost wl s → threads s !! w = Some WWait → pinv q lost wl (wake w s).
Proof.
  intros Hi Hw. constructor; cbn; try apply Hi.
  - eapply mx_same; [apply Hi|done|done].
  - intros t. rewrite <-(pi_own _ _ _ _ Hi t).
    pose proof (msum_insert (own t) _ _ _ WRelock Hw) as E. cbn in E. lia.
  - intros v pc. rewrite lookup_insert. case_decide as E; [subst v|apply Hi].
    intros [= <-] _. destruct (pi_pcs _ _ _ _ Hi _ _ Hw) as (n&?&?&_); [done|]. by exists n.
  - intros v pc He. rewrite lookup_insert. case_decide as E; [by intros [= <-]|].
    by apply (pi_early _ _ _ _ Hi).
  - intros v He. rewrite lookup_insert_is_Some', <-(pi_listed _ _ _ _ Hi v He).
    split; [|by auto]. intros [<-|]; [by eexists|done].
  - intros p Hp. destruct (pi_fresh _ _ _ _ Hi p Hp) as (?&?&?&?). split_and!; try done.
    rewrite lookup_insert_ne; [done|congruence].
Qed.
End main.
