(* ===== verification/TpSpec.v ===== *)
(** Thread pool, part 5: what the pool promises before it is destroyed.  Every
    interleaving refines an executor with a FIFO queue that runs each task once, and no
    thread has an undefined step. *)
From S2P Require Import Prelude TpList TpPool TpInv TpMain.

(** ** The executor *)

(** What a task prints when it runs. *)
Definition body (func : task_fn) (v : Z) : list event :=
  match func with
  | TaskEntry => [EIdx v]
  | TaskEntry1 => [ERunning v; EFinished v]
  end.

(** The tasks waiting, what each worker still has to print for its task, what was printed,
    the number of submissions and the tasks started so far. *)
Record exec := Exec {
  queue : list Z;
  running : gmap nat (list event);
  printed : list event;
  submitted : nat;
  started : list Z;
}.

Section spec.
Context (nw : Z) (num : nat) (func : task_fn).

Inductive exec_step : exec → exec → Prop :=
| x_hire w q r p n st :
    r !! w = None → exec_step (Exec q r p n st) (Exec q (<[w := []]> r) p n st)
| x_submit q r p n st :
    (n < num)%nat → exec_step (Exec q r p n st) (Exec (q ++ [Z.of_nat n]) r p (S n) st)
| x_start w v q r p n st :
    r !! w = Some [] →
    exec_step (Exec (v :: q) r p n st) (Exec q (<[w := body func v]> r) p n (st ++ [v]))
| x_print w e l q r p n st :
    r !! w = Some (e :: l) →
    exec_step (Exec q r p n st) (Exec q (<[w := l]> r) (p ++ [e]) n st).

Definition exec_init : exec := Exec [] ∅ [] 0 [].
Definition exec_reach : exec → Prop := rtc exec_step exec_init.

(** The executor starts the tasks in the order of submission, and prints for each started
    task what its body prints, once. *)
Record exec_inv (σ : exec) : Prop := {
  xi_fifo : started σ ++ queue σ = Z.of_nat <$> seq 0 (submitted σ);
  xi_print e :
    (occ e (printed σ) + msum (occ e) (running σ))%nat = occ e (started σ ≫= body func);
  xi_num : (submitted σ ≤ num)%nat;
}.

Lemma exec_reach_inv σ : exec_reach σ → exec_inv σ.
Proof.
  revert σ. apply (rtc_ind_r _ exec_init); [|intros σ σ' _ Hs [H1 H2 H3]].
  - constructor; [done|intros e; cbn; by rewrite msum_empty|cbn; lia].
  - destruct Hs as [w q r p n st Hw|q r p n st Hn|w v q r p n st Hw|w e l q r p n st Hw];
      constructor; cbn [queue running printed submitted started] in *; try done; try lia.
    + intros e. rewrite msum_insert_new by done. apply H2.
    + by rewrite seq_S, fmap_app, <-H1, app_assoc.
    + by rewrite <-app_assoc.
    + intros e. rewrite bind_app, occ_app, <-H2. cbn. rewrite app_nil_r.
      pose proof (msum_insert (occ e) _ _ _ (body func v) Hw) as E. cbn in E. lia.
    + intros e'. rewrite <-H2, occ_app. cbn.
      pose proof (msum_insert (occ e') _ _ _ l Hw) as E. cbn in E. lia.
Qed.

(** ** Steps as moves *)

Inductive pmove (q lost wl : list nat) (s : pool) :
    list nat → list nat → list nat → pool → Prop :=
| pm_worker w pc pc' n e q' s' :
    threads s !! w = Some pc → cells (workers s) !! w = Some n →
    wmove q (terminate n) s pc e pc' → weff w e q s q' s' →
    pmove q lost wl s q' lost wl (set_pc w pc' s')
| pm_main e pc' q' lost' wl' s' :
    mmove nw num s (main_at s) e pc' → meff func e q lost wl s q' lost' wl' s' →
    pmove q lost wl s q' lost' wl' (set_main pc' s')
| pm_spurious w :
    threads s !! w = Some WWait → pmove q lost wl s q lost wl (wake w s).

Lemma step_pmove a q lost wl s s' :
  pinv q lost wl s → step nw num func a s s' →
  ∃ q' lost' wl', pmove q lost wl s q' lost' wl' s'.
Proof.
  intros Hi Hs. destruct Hs as [w pc pc' s s' Hw Hok|pick pc' s s' Hok|w s Hw].
  - pose proof (worker_moves _ _ _ _ Hi _ _ Hw) as Hm. unfold fp in Hm. rewrite Hok in Hm.
    destruct Hm as (n&q'&e&Hn&Hm&He). exists q', lost, wl. by econstructor.
  - pose proof (main_moves nw num func _ _ _ _ Hi pick) as Hm. unfold fp in Hm.
    rewrite Hok in Hm. destruct Hm as (q'&lost'&wl'&e&Hm&He). exists q', lost', wl'. by econstructor.
  - exists q, lost, wl. by constructor.
Qed.

Lemma weff_main w pc e pc' term q s q' s' :
  wmove q term s pc e pc' → weff w e q s q' s' → main_at s' = main_at s.
Proof.
  intros Hm He. by weff_cases Hm He.
Qed.

Lemma pmove_early q lost wl s q' lost' wl' s' :
  pmove q lost wl s q' lost' wl' s' → early (main_at s') = true → early (main_at s) = true.
Proof.
  intros [w pc pc' n e q1 s1 Hw Hn Hm He|e pc' q1 l1 w1 s1 Hm He|w Hw]; [| |done].
  - cbn. by rewrite (weff_main _ _ _ _ _ _ _ _ _ Hm He).
  - cbn. by destruct Hm.
Qed.

Lemma pmove_pinv q lost wl s q' lost' wl' s' :
  pinv q lost wl s → pmove q lost wl s q' lost' wl' s' → early (main_at s) = true →
  pinv q' lost' wl' s'.
Proof.
  intros Hi [w pc pc' n e q1 s1 Hw Hn Hm He|e pc' q1 l1 w1 s1 Hm He|w Hw] Hearly.
  - by eapply kept_pinv.
  - eapply mkept_pinv; [done..|]. intros ->. inversion Hm as [| | | | | | | | | | | | | | | |E|].
    rewrite <-E in Hearly. done.
  - by apply spurious_pinv.
Qed.

(** ** The refinement *)

Definition pushes (m : mpc) : nat :=
  match m with
  | MCreate _ | MInsertWorker _ _ => 0
  | MLoop i | MPushLock i _ | MPushInsert i _ => i
  | MSignal i | MPushUnlock i => S i
  | _ => num
  end.
Definition unpushed (s : pool) (m : mpc) : Prop :=
  match m with
  | MPushLock i t | MPushInsert i t => (i < num)%nat ∧ tidx s t = Some (Z.of_nat i)
  | _ => True
  end.

(** What a worker at [pc] still prints for the task it has. *)
Definition remaining (s : pool) (pc : wpc) : list event :=
  match pc with
  | WUnlock t | WCall t => default [] (body func <$> tidx s t)
  | WSleep _ v => [EFinished v]
  | _ => []
  end.

(** The pool and the executor agree: same queue, same remaining work, same output. *)
Record pool_rel (q : list nat) (s : pool) (σ : exec) : Prop := {
  pr_queue : Forall2 (λ t v, tidx s t = Some v) q (queue σ);
  pr_running : running σ = remaining s <$> threads s;
  pr_printed : printed σ = out s;
  pr_submitted : submitted σ = pushes (main_at s);
  pr_func t n : cells (tasks s) !! t = Some n → task_func n = func;
  pr_unpushed : unpushed s (main_at s);
  pr_bound : (pushes (main_at s) ≤ num)%nat;
}.

Lemma tidx_payload s d t :
  same_payload (tasks s) d → tidx (set_tasks d s) t = tidx s t.
Proof.
  intros Hs. unfold tidx. cbn. apply (f_equal (lookup t)) in Hs. rewrite !lookup_fmap in Hs.
  destruct (cells d !! t), (cells (tasks s) !! t); try done.
  injection Hs as _ E. cbn. by rewrite E.
Qed.

(** Tasks that are live before and after keep their data. *)
Lemma weff_tidx q lost wl s w pc pc' n e q' s' t :
  pinv q lost wl s → threads s !! w = Some pc → wmove q (terminate n) s pc e pc' →
  weff w e q s q' s' → own t pc = 0%nat ∨ pc' = WCall t ∨ pc = WCall t →
  tidx s' t = tidx s t.
Proof.
  intros Hi Hw Hm He Ho. weff_cases Hm He; try done; [by apply (tidx_payload (set_since _ s))|].
  assert (t ≠ t0) as Hne by (intros ->; cbn in Ho; rewrite decide_True in Ho; naive_solver).
  unfold tidx. cbn. rewrite lookup_delete_ne by done.
  destruct (cells (tasks s) !! t) as [nt|] eqn:Ht; [cbn|done].
  rewrite lookup_delete_ne; [done|]. intros E. apply Hne. symmetry.
  by eapply (proj1 (proj2 (pi_data _ _ _ _ Hi))).
Qed.

Lemma weff_func w e q s q' s' pc pc' term t n' :
  wmove q term s pc e pc' → weff w e q s q' s' → cells (tasks s') !! t = Some n' →
  ∃ n, cells (tasks s) !! t = Some n ∧ task_func n = task_func n'.
Proof.
  intros Hm He Ht. weff_cases Hm He; cbn in Ht; eauto.
  - match goal with H : same_payload _ _ |- _ => symmetry in H;
      destruct (same_payload_lookup _ _ _ _ H Ht) as (n&?&Hp) end.
    exists n. split; [done|]. by injection Hp.
  - apply lookup_delete_Some in Ht as [_ Ht]. eauto.
Qed.

(** ** The simulation *)

Lemma rel_tidx q lost wl s σ t v :
  pinv q lost wl s → pool_rel q s σ → tidx s t = Some v → is_Some (cells (tasks s) !! t).
Proof. intros _ _. unfold tidx. by destruct (cells (tasks s) !! t). Qed.

Lemma queue_same s s' q qs :
  (∀ t, t ∈ q → tidx s' t = tidx s t) →
  Forall2 (λ t v, tidx s t = Some v) q qs → Forall2 (λ t v, tidx s' t = Some v) q qs.
Proof.
  intros Ht Hq. induction Hq as [|t v q qs Hv Hq IH]; constructor.
  - rewrite Ht; [done|by left].
  - apply IH. intros t' Ht'. apply Ht. by right.
Qed.

(** A task that is in the queue, or with another worker, is not with [w]. *)
Lemma own_other q lost wl s w pc t :
  pinv q lost wl s → threads s !! w = Some pc →
  (t ∈ q ∨ (0 < mown t (main_at s))%nat ∨
   ∃ w' pc', w' ≠ w ∧ threads s !! w' = Some pc' ∧ (0 < own t pc')%nat) →
  own t pc = 0%nat.
Proof.
  intros Hi Hw Ho. pose proof (pi_own _ _ _ _ Hi t) as E.
  rewrite (msum_delete (own t) _ _ _ Hw) in E.
  destruct Ho as [Hq%occ_elem|[Hm|(w'&pc'&Hne&Hw'&Ho)]].
  - case_decide; lia.
  - case_decide; lia.
  - pose proof (msum_le (own t) (delete w (threads s)) w' pc') as Hle.
    rewrite lookup_delete_ne in Hle by done. specialize (Hle Hw'). case_decide; lia.
Qed.

Lemma remaining_ext s s' pc :
  (∀ t, (0 < own t pc)%nat → tidx s' t = tidx s t) → remaining s' pc = remaining s pc.
Proof.
  intros Ht. destruct pc; cbn in *; try done; (rewrite Ht; [done|]);
    rewrite decide_True by done; lia.
Qed.

(** What a move means to the executor. *)
Lemma move_kinds w pc e pc' term q s q' s' :
  (∀ t n, cells (tasks s) !! t = Some n → task_func n = func) →
  wmove q term s pc e pc' → weff w e q s q' s' →
  (∃ t, e = Took t ∧ pc = WRemove (Some t) ∧ pc' = WUnlock t ∧ out s' = out s) ∨
  (q' = q ∧ ∃ ev, out s' = out s ++ [ev] ∧ remaining s pc = ev :: remaining s' pc') ∨
  (q' = q ∧ out s' = out s ∧ remaining s' pc' = remaining s pc).
Proof.
  intros Hfunc Hm He.
  assert (∀ t f, tfunc s t = Some f → f = func) as Hf.
  { unfold tfunc. intros t f (nt&Hnt&->)%fmap_Some. by eapply Hfunc. }
  weff_cases Hm He; try (right; right; by eauto); [left; by eauto| | |];
    right; left; (split; [done|]); eexists; (split; [done|]); cbn;
    repeat match goal with
    | H : tfunc s _ = Some _ |- _ => apply Hf in H; rewrite <-H
    | H : tidx s _ = Some _ |- _ => rewrite H
    end; done.
Qed.

Section sim.
Context (q lost wl : list nat) (s : pool) (σ : exec) (w : nat) (pc pc' : wpc).
Context (n : nWorker) (e : effect) (q' : list nat) (s' : pool).
Context (Hi : pinv q lost wl s) (Hr : pool_rel q s σ) (Hw : threads s !! w = Some pc).
Context (Hm : wmove q (terminate n) s pc e pc') (Hf : weff w e q s q' s').

Lemma tidx_others t :
  (t ∈ q ∨ (0 < mown t (main_at s))%nat ∨
   ∃ w' p, w' ≠ w ∧ threads s !! w' = Some p ∧ (0 < own t p)%nat) → tidx s' t = tidx s t.
Proof. intros Ho. eapply weff_tidx; [done..|]. left. by eapply own_other. Qed.

Lemma running_after :
  remaining s' <$> threads (set_pc w pc' s') = <[w := remaining s' pc']> (running σ).
Proof.
  rewrite (pr_running _ _ _ Hr). cbn.
  assert (threads s' = threads s) as -> by by weff_cases Hm Hf.
  apply map_eq. intros v. rewrite lookup_fmap, !lookup_insert. case_decide; [done|].
  rewrite lookup_fmap. destruct (threads s !! v) as [p|] eqn:Hp; cbn; [|done]. f_equal.
  apply remaining_ext. intros t Ho. apply tidx_others. eauto 10.
Qed.

(** The executor's state after the move, once its queue is known. *)
Lemma rel_after qs st :
  Forall2 (λ t v, tidx s t = Some v) q' qs →
  pool_rel q' (set_pc w pc' s')
    (Exec qs (<[w := remaining s' pc']> (running σ)) (out s') (submitted σ) st).
Proof.
  intros Hq. pose proof (weff_main _ _ _ _ _ _ _ _ _ Hm Hf) as Em.
  assert (∀ t, t ∈ q' → t ∈ q) as Hsub by (weff_cases Hm Hf; try done; by right).
  constructor; cbn [queue running printed submitted]; try done.
  - apply (queue_same s); [intros t Ht; apply tidx_others; auto|done].
  - exact (eq_sym running_after).
  - rewrite (pr_submitted _ _ _ Hr). cbn. by rewrite Em.
  - cbn. intros t n' Ht. destruct (weff_func _ _ _ _ _ _ _ _ _ _ _ Hm Hf Ht) as (n0&Hn0&<-).
    by eapply pr_func.
  - pose proof (pr_unpushed _ _ _ Hr) as Hu. change (unpushed s' (main_at s')). rewrite Em.
    assert (∀ t, (0 < mown t (main_at s))%nat → tidx s' t = tidx s t) as Ht
      by (intros t Ho; apply tidx_others; auto).
    destruct (main_at s); try done; cbn in *; (rewrite Ht; [done|]);
      rewrite decide_True by done; lia.
  - cbn. rewrite Em. apply Hr.
Qed.

(** A worker's move, seen by the executor: a start, a line of output, or nothing. *)
Lemma worker_sim :
  ∃ σ', (σ' = σ ∨ exec_step σ σ') ∧ pool_rel q' (set_pc w pc' s') σ'.
Proof.
  assert (Hrun : running σ !! w = Some (remaining s pc))
    by by rewrite (pr_running _ _ _ Hr), lookup_fmap, Hw.
  pose proof (pr_queue _ _ _ Hr) as Hq. pose proof rel_after as Hrel.
  pose proof (pr_printed _ _ _ Hr) as Hp.
  destruct (move_kinds _ _ _ _ _ _ _ _ _ (pr_func _ _ _ Hr) Hm Hf)
    as [(t&->&->&->&Eo)|[(->&ev&Eo&Erem)|(->&Eo&Erem)]].
  - destruct Hf as (->&d&h&Hd&Hs&->). inversion Hq as [|? v ? qs Hv Hq' E1 E2].
    exists (Exec qs (<[w := body func v]> (running σ)) (out s) (submitted σ) (started σ ++ [v])).
    specialize (Hrel qs (started σ ++ [v]) Hq'). cbn [remaining] in Hrel.
    rewrite (tidx_payload (set_since h s) d t Hs : _ = tidx s t), Hv in Hrel. split; [right|exact Hrel].
    destruct σ as [? r p sub st]. cbn in *. subst. by constructor.
  - eexists. split; [right|by apply (Hrel (queue σ) (started σ))].
    rewrite Eo, <-Hp. rewrite Erem in Hrun. destruct σ. by eapply x_print.
  - eexists. split; [left|by apply (Hrel (queue σ) (started σ))].
    rewrite Eo, <-Hp, Erem, insert_id by done. by destruct σ.
Qed.
End sim.

Section main_sim.
Context (q lost wl : list nat) (s : pool) (σ : exec) (Hi : pinv q lost wl s).
Context (Hr : pool_rel q s σ) (e : meffect) (pc' : mpc) (q' lost' wl' : list nat) (s' : pool).
Context (Hm : mmove nw num s (main_at s) e pc') (He : meff func e q lost wl s q' lost' wl' s').

Ltac main_cases := remember (main_at s) as m0 eqn:Hm0; meff_cases Hm He.

Lemma meff_tidx t : is_Some (cells (tasks s) !! t) → tidx s' t = tidx s t.
Proof.
  intros [nt Ht]. clear Hr. main_cases; try done; [|by apply tidx_payload].
  unfold tidx. cbn. rewrite lookup_insert_ne.
  2: { intros ->. destruct (pi_fresh _ _ _ _ Hi t) as [E _]; [lia|]. congruence. }
  rewrite Ht. cbn. rewrite lookup_insert_ne; [done|]. intros E.
  destruct (proj1 (pi_data _ _ _ _ Hi) _ _ Ht) as [d Hd]. rewrite <-E in Hd.
  match goal with H : (brk s <= ?d)%nat, H' : ints s !! ?d = _ |- _ =>
    destruct (pi_fresh _ _ _ _ Hi d H) as (_&_&Ei&_) end. congruence.
Qed.

Lemma meff_func t n' :
  cells (tasks s') !! t = Some n' → task_func n' = func.
Proof.
  pose proof (pr_func _ _ _ Hr) as Hfun. clear Hr. main_cases; cbn; try (by apply Hfun).
  - rewrite lookup_insert. case_decide; [by intros [= <-]|apply Hfun].
  - intros Ht. match goal with H : same_payload _ _ |- _ => symmetry in H;
      destruct (same_payload_lookup _ _ _ _ H Ht) as (n&Hn&Hp) end.
    apply Hfun in Hn as <-. by injection Hp.
Qed.

Lemma main_running :
  running σ = remaining s' <$> threads s' ∨
  ∃ w, running σ !! w = None ∧ e = MHire w ∧
       remaining s' <$> threads s' = <[w := []]> (running σ).
Proof.
  assert (∀ w pc, threads s !! w = Some pc → remaining s' pc = remaining s pc) as Hrem.
  { intros w pc Hw. apply remaining_ext. intros t Ho. apply meff_tidx.
    destruct (pi_live _ _ _ _ Hi t) as (nt&d&Hnt&_); [|by eexists].
    pose proof (msum_le (own t) _ _ _ Hw). lia. }
  assert (remaining s' <$> threads s = remaining s <$> threads s) as Eold.
  { apply map_eq. intros w. rewrite !lookup_fmap.
    destruct (threads s !! w) as [pc|] eqn:Hw; cbn; [|done]. by erewrite Hrem. }
  rewrite (pr_running _ _ _ Hr). clear Hrem Hr. main_cases; try (left; exact (eq_sym Eold)).
  - right. exists w. assert (threads s !! w = None) as Hn by (apply (pi_fresh _ _ _ _ Hi); lia).
    split; [by rewrite lookup_fmap, Hn|]. split; [done|]. cbn. by rewrite fmap_insert, <-Eold.
  - left. match goal with H : woken _ _ |- _ => destruct H as [[-> _]|(w&Hw&->)] end; [done|].
    cbn. rewrite fmap_insert. symmetry. apply insert_id. by rewrite lookup_fmap, Hw.
  - left. cbn. rewrite <-map_fmap_compose. apply map_fmap_ext. by intros _ [] _.
Qed.

(** What main's step means to the executor's queue. *)
Lemma main_kinds :
  early pc' = true →
  (∃ t i, e = MPushed t ∧ main_at s = MPushInsert i t ∧ pc' = MSignal i ∧ q' = q ++ [t]) ∨
  (q' = q ∧ pushes pc' = pushes (main_at s) ∧ unpushed s' pc').
Proof.
  intros Hearly. pose proof (pr_unpushed _ _ _ Hr) as Hu. pose proof (pr_bound _ _ _ Hr) as Hb.
  clear Hr. main_cases; try done; cbn [pushes unpushed] in *;
    try (right; split; [done|]; split; [lia|try done; apply Hu]).
  - right. split_and!; [done..|]. unfold tidx. cbn. rewrite lookup_insert_eq. cbn.
    by rewrite lookup_insert_eq.
  - left. eauto 10.
Qed.

Lemma main_sim :
  early pc' = true →
  ∃ σ', (σ' = σ ∨ exec_step σ σ') ∧ pool_rel q' (set_main pc' s') σ'.
Proof.
  intros Hearly. pose proof meff_func as Hfun. pose proof meff_tidx as Htidx.
  pose proof main_running as Hrun.
  assert (out s' = out s) as Eo by (clear Hr; main_cases; done).
  assert (∀ t, t ∈ q → is_Some (cells (tasks s) !! t)) as Hlive
    by (intros t Ht; apply elem_of_dom; eapply lrep_live; [apply Hi|done]).
  pose proof (queue_same s s' _ _ (λ t Ht, meff_tidx t (Hlive t Ht)) (pr_queue _ _ _ Hr)) as Hq.
  destruct Hr as [_ _ H3 H4 _ H6 H7]. destruct (main_kinds Hearly) as [(t&i&->&Em&->&->)|(->&Ep&Hu)].
  - rewrite Em in *. destruct H6 as [Hlt Hidx].
    exists (Exec (queue σ ++ [Z.of_nat i]) (running σ) (printed σ) (S (submitted σ)) (started σ)).
    cbn in H4. split; [right; destruct σ; cbn in *; subst; by constructor|].
    constructor; cbn; try done; [| |by rewrite H3|by rewrite H4].
    + apply Forall2_app; [done|]. constructor; [|done].
      change (tidx s' t = Some (Z.of_nat i)). rewrite Htidx; [done|].
      unfold tidx in Hidx. by destruct (cells (tasks s) !! t).
    + by destruct Hrun as [Hrun|(w&_&?&_)].
  - assert (∀ r, r = remaining s' <$> threads s' → pool_rel q (set_main pc' s')
      (Exec (queue σ) r (printed σ) (submitted σ) (started σ))) as Hrel.
    { intros r ->. constructor; cbn; try done; [by rewrite H3|by rewrite H4|by rewrite Ep]. }
    eexists. split; [|apply Hrel; done].
    destruct Hrun as [Hrun|(w&Hw&_&Hrun)]; rewrite <-?Hrun; [left; by destruct σ|].
    rewrite Hrun. right. destruct σ. by constructor.
Qed.
End main_sim.

(** ** Every interleaving *)

Definition good (s : pool) : Prop :=
  ∃ q wl σ, pinv q [] wl s ∧ pool_rel q s σ ∧ exec_reach σ.

Lemma pmove_good q lost wl s σ q' lost' wl' s' :
  pinv q lost wl s → pool_rel q s σ → exec_reach σ →
  pmove q lost wl s q' lost' wl' s' → early (main_at s') = true →
  ∃ σ', lost' = lost ∧ pinv q' lost' wl' s' ∧ pool_rel q' s' σ' ∧ exec_reach σ'.
Proof.
  intros Hi Hr Hx Hm He. pose proof (pmove_early _ _ _ _ _ _ _ _ Hm He) as He0.
  pose proof (pmove_pinv _ _ _ _ _ _ _ _ Hi Hm He0) as Hi'.
  assert (∃ σ', (σ' = σ ∨ exec_step σ σ') ∧ pool_rel q' s' σ') as (σ'&Hs&Hr').
  { destruct Hm as [w pc pc' n e q1 s1 Hw Hn Hm Hf|e pc' q1 l1 w1 s1 Hm Hf|w Hw].
    - eapply worker_sim; [exact Hi|exact Hr|exact Hw|exact Hm|exact Hf].
    - eapply main_sim; [exact Hi|exact Hr|exact Hm|exact Hf|exact He].
    - exists σ. split; [by left|]. destruct Hr as [H1 H2 H3 H4 H5 H6 H7].
      constructor; cbn; try done. rewrite H2, fmap_insert. symmetry. apply insert_id.
      by rewrite lookup_fmap, Hw. }
  exists σ'. split_and!; [|done..|].
  { destruct Hm as [| e pc' q1 l1 w1 s1 Hm Hf|]; [done| |done].
    destruct Hm; cbn in Hf, He; try done; by destruct Hf as (_&->&_). }
  destruct Hs as [->|Hs]; [done|]. by eapply rtc_r.
Qed.

Lemma good_init m sp : good (pool_init m sp).
Proof.
  exists [], [], exec_init. split_and!; [apply pinv_init| |apply rtc_refl].
  constructor; cbn; try done. lia.
Qed.

(** Once main has called nThreadPoolDestroy there is no way back. *)
Definition keeps_main {A} (m : M pool A) : Prop :=
  ∀ s, wlp m (λ _ s', main_at s' = main_at s) s.
Lemma km_bind {A B} (m : M pool A) (k : A → M pool B) :
  keeps_main m → (∀ a, keeps_main (k a)) → keeps_main (bind m k).
Proof.
  intros Hm Hk s. eapply wlp_seq; [apply Hm|]. intros a s' <-. apply Hk.
Qed.
Lemma km_tasks {A} (m : M (dlist nTask) A) : keeps_main (on_tasks m).
Proof. intros s. unfold wlp, on_tasks. by destruct (m (tasks s)) as [[]| |]. Qed.
Lemma km_workers {A} (m : M (dlist nWorker) A) : keeps_main (on_workers m).
Proof. intros s. unfold wlp, on_workers. by destruct (m (workers s)) as [[]| |]. Qed.
Lemma km_modify f : (∀ s, main_at (f s) = main_at s) → keeps_main (modify f).
Proof. intros Hf s. apply Hf. Qed.
Lemma km_gets {A} (f : pool → A) : keeps_main (gets f).
Proof. done. Qed.
Lemma km_ret {A} (a : A) : keeps_main (ret a).
Proof. done. Qed.
Lemma km_from_opt {A} w (o : option A) : keeps_main (from_opt w o).
Proof. by destruct o. Qed.

Lemma km_undef {A} w : keeps_main (undef (A := A) w).
Proof. done. Qed.

Ltac km := repeat first
  [apply km_bind; [|intros ?] | apply km_tasks | apply km_workers | apply km_gets | apply km_ret
  |apply km_from_opt | apply km_undef | apply km_modify; intros ?; by repeat case_match
  | progress case_match].
Lemma callback_main w pc : keeps_main (nThreadPoolCallback w pc).
Proof.
  unfold nThreadPoolCallback, read_tasks, read_flag, manager, worker, lock, unlock, task_entry, task_entry_1, task_idx,
    task_free, print. destruct pc; km.
Qed.

Lemma main_late pick pc s pc' s' :
  early pc = false → main_step nw num func pick pc s = Ok (Some pc', s') → early pc' = false.
Proof.
  destruct pc as [| | | | | | | |[w|]|w| | | | | |]; try done; intros _;
    cbn [main_step destroy_step]; unfold lock, unlock, pthread_cond_broadcast, bind, gets,
      modify, ret; cbn; repeat (case_match; cbn); intros; by simplify_eq/=.
Qed.

Lemma step_early a s s' :
  step nw num func a s s' → early (main_at s') = true → early (main_at s) = true.
Proof.
  intros [w pc pc' s1 s1' Hw Hok|pick pc' s1 s1' Hok|w s1 Hw]; cbn; [| |done].
  - by rewrite (wlp_run _ _ _ _ _ (callback_main w pc s1) Hok).
  - intros He. destruct (early (main_at s1)) eqn:He0; [done|].
    by rewrite (main_late _ _ _ _ _ He0 Hok) in He.
Qed.

(** malloc's outcomes are used in order. *)
Lemma pmove_mallocs q lost wl s q' lost' wl' s' :
  pmove q lost wl s q' lost' wl' s' → mallocs s' `suffix_of` mallocs s.
Proof.
  intros [w pc pc' n e q1 s1 Hw Hn Hm He|e pc' q1 l1 w1 s1 Hm He|w Hw]; cbn; [| |done].
  - by weff_cases Hm He.
  - by meff_cases Hm He.
Qed.

Lemma reachable_good m sp s :
  reachable nw num func m sp s → early (main_at s) = true →
  good s ∧ mallocs s `suffix_of` m.
Proof.
  unfold reachable. revert s.
  apply (rtc_ind_r (λ s, early (main_at s) = true → good s ∧ mallocs s `suffix_of` m));
    [intros _; split; [apply good_init|done]|].
  intros s s' _ [a Hs] IH He.
  destruct (IH (step_early _ _ _ Hs He)) as [(q&wl&σ&Hi&Hr&Hx) Hsuf].
  destruct (step_pmove _ _ _ _ _ _ Hi Hs) as (q'&lost'&wl'&Hm).
  destruct (pmove_good _ _ _ _ _ _ _ _ _ Hi Hr Hx Hm He) as (σ'&->&?&?&?).
  split; [by exists q', wl', σ'|]. etrans; [by eapply pmove_mallocs|done].
Qed.
End spec.

(** ** The promises *)

Section promises.
Context (nw : Z) (num : nat) (func : task_fn) (m sp : list bool).

(** C4: Until main calls nThreadPoolDestroy, every interleaving of the workers and main
    refines the executor: the list behind [pool->tasks] is well linked and holds its
    queue, each worker owes what the executor says, the output is the same, and as many
    tasks were submitted as main pushed. *)
Theorem pool_refines_executor s :
  reachable nw num func m sp s → early (main_at s) = true →
  ∃ q σ, exec_reach num func σ ∧ lrep q (tasks s) ∧
    Forall2 (λ t v, tidx s t = Some v) q (queue σ) ∧
    running σ = remaining func s <$> threads s ∧
    printed σ = out s ∧ submitted σ = pushes num (main_at s).
Proof.
  intros Hr He. destruct (reachable_good _ _ _ _ _ _ Hr He) as [(q&wl&σ&Hi&[]&Hx) _].
  exists q, σ. split_and!; try done. apply Hi.
Qed.

Lemma occ_body e vs : NoDup vs → (occ e (vs ≫= body func) ≤ 1)%nat.
Proof.
  induction 1 as [|v vs Hv Hnd IH]; [cbn; lia|]. cbn. rewrite occ_app.
  destruct (decide (e ∈ body func v)) as [He|He].
  - rewrite (occ_zero e (vs ≫= _)).
    + destruct func; cbn in *; repeat case_decide; subst; try done; lia.
    + intros (v'&Hv'&Hin)%list_elem_of_bind. assert (v = v') as ->; [|done].
      clear -He Hv'. destruct func; cbn in *; set_solver.
  - by rewrite (occ_zero e (body func v)).
Qed.

(** Tasks are taken in the order in which main pushed them, 0, 1, 2, ..., none is lost
    and none is run twice: the started ones and the queue are what was pushed; the lines
    printed, with those that the workers still owe, are the lines of the started ones, and
    no line is printed twice. *)
Theorem pool_runs_fifo s :
  reachable nw num func m sp s → early (main_at s) = true →
  ∃ q waiting first_tasks,
    lrep q (tasks s) ∧ Forall2 (λ t v, tidx s t = Some v) q waiting ∧
    first_tasks ++ waiting = Z.of_nat <$> seq 0 (pushes num (main_at s)) ∧
    (∀ e, (occ e (out s) + msum (λ pc, occ e (remaining func s pc)) (threads s))%nat =
          occ e (first_tasks ≫= body func)) ∧
    NoDup (out s).
Proof.
  intros Hr He. destruct (reachable_good _ _ _ _ _ _ Hr He) as [(q&wl&σ&Hi&[]&Hx) _].
  apply exec_reach_inv in Hx as [Hfifo Hprint _].
  rewrite pr_running0, pr_printed0, pr_submitted0 in *.
  exists q, (queue σ), (started σ). split_and!; [apply Hi|done|done| |].
  - intros e. by rewrite <-Hprint, msum_fmap.
  - apply NoDup_occ. intros e. transitivity (occ e (started σ ≫= body func)); [|apply occ_body].
    + rewrite <-Hprint. lia.
    + assert (NoDup (started σ ++ queue σ)) as Hnd; [|by apply NoDup_app in Hnd as [? _]].
      rewrite Hfifo. apply NoDup_fmap_2; [apply _|]. apply NoDup_seq.
Qed.

End promises.

(** ** A run with two workers and two tasks *)

Definition demo_acts : list act :=
  repeat (RunMain 0) 5 ++ repeat (Run 0) 4 ++ repeat (RunMain 0) 5 ++
  repeat (Run 1) 7 ++ repeat (RunMain 0) 5.
Definition run_from (nw : Z) (num : nat) (func : task_fn) (m sp : list bool) (acts : list act) :=
  match schedule nw num func acts (pool_init m sp) with
  | Ok (_, s) => Some s | _ => None
  end.
Lemma run_from_reachable nw num func m sp acts s :
  run_from nw num func m sp acts = Some s → reachable nw num func m sp s.
Proof.
  unfold run_from. destruct (schedule _ _ _ _ _) as [[[] s']| |] eqn:E; [|done..].
  intros [= ->]. by eapply schedule_sound.
Qed.
Definition demo : pool := default (pool_init [] []) (run_from 2 2 TaskEntry1 [] [] demo_acts).
Lemma demo_reachable : reachable 2 2 TaskEntry1 [] [] demo.
Proof. apply (run_from_reachable _ _ _ _ _ demo_acts). by vm_compute. Qed.

Lemma pool_refines_executor_witness :
  ∃ q σ, exec_reach 2 TaskEntry1 σ ∧ lrep q (tasks demo) ∧
    Forall2 (λ t v, tidx demo t = Some v) q (queue σ) ∧
    running σ = remaining TaskEntry1 demo <$> threads demo ∧
    printed σ = out demo ∧ submitted σ = pushes 2 (main_at demo).
Proof. apply (pool_refines_executor 2 2 TaskEntry1 [] []); [apply demo_reachable|done]. Defined.
Lemma pool_runs_fifo_witness :
  out demo = [ERunning 0] ∧ ∃ q waiting first_tasks,
    lrep q (tasks demo) ∧ Forall2 (λ t v, tidx demo t = Some v) q waiting ∧
    first_tasks ++ waiting = Z.of_nat <$> seq 0 (pushes 2 (main_at demo)) ∧
    (∀ e, (occ e (out demo) +
           msum (λ pc, occ e (remaining TaskEntry1 demo pc)) (threads demo))%nat =
          occ e (first_tasks ≫= body TaskEntry1)) ∧
    NoDup (out demo).
Proof.
  split; [by vm_compute|].
  apply (pool_runs_fifo 2 2 TaskEntry1 [] []); [apply demo_reachable|by vm_compute].
Defined.
