(* ===== verification/TpLive.v ===== *)
(** Thread pool, part 6: progress.  No wake-up is lost, every run of the workers ends, and
    it ends with every task run and freed. *)
From S2P Require Import Prelude TpList TpPool TpInv TpMain TpSpec.

(** ** Termination of the workers *)

(** How far a worker is from its next wait; a task in the queue weighs 20. *)
Definition weight (pc : wpc) : nat :=
  match pc with
  | WUnlock _ => 26 | WCall _ => 25 | WSleep _ _ => 24 | WFreeTask _ => 23
  | WLock | WRelock => 12 | WTest => 11 | WTermIn => 10 | WTermOut => 9 | WTake => 8
  | WRemove _ => 7 | WQuit => 2 | WCondWait | WFree => 1 | WWait | WDone => 0
  end.
Definition work (q : list nat) (s : pool) : nat :=
  (20 * length q + msum weight (threads s))%nat.

Section live.
Context (nw : Z) (num : nat) (func : task_fn).

(** The steps of the workers alone. *)
Definition worker_step (s s' : pool) : Prop := ∃ w, step nw num func (Run w) s s'.

Lemma worker_step_inv q lost wl s s' :
  pinv q lost wl s → worker_step s s' →
  ∃ w pc pc' n e q' s1, threads s !! w = Some pc ∧ cells (workers s) !! w = Some n ∧
    wmove q (terminate n) s pc e pc' ∧ weff w e q s q' s1 ∧ s' = set_pc w pc' s1.
Proof.
  intros Hi [w Hs]. inversion Hs as [w' pc pc' s0 s1 Hw Hok| |]; subst.
  pose proof (worker_moves _ _ _ _ Hi _ _ Hw) as Hm. unfold fp in Hm. rewrite Hok in Hm.
  destruct Hm as (n&q'&e&Hn&Hm&He). eauto 15.
Qed.

Lemma wmove_work q s w pc pc' n e q' s' :
  threads s !! w = Some pc → wmove q (terminate n) s pc e pc' → weff w e q s q' s' →
  (work q' (set_pc w pc' s') < work q s)%nat.
Proof.
  intros Hw Hm He. unfold work. pose proof (msum_insert weight _ _ _ pc' Hw) as E.
  weff_cases Hm He; cbn [set_pc threads set_threads set_mutex set_since set_tasks set_out set_ints
    set_workers weight length] in *; lia.
Qed.

Lemma worker_step_work q lost wl s s' :
  pinv q lost wl s → worker_step s s' →
  ∃ q', pinv q' lost wl s' ∧ (work q' s' < work q s)%nat ∧ main_at s' = main_at s.
Proof.
  intros Hi Hs. destruct (worker_step_inv _ _ _ _ _ Hi Hs) as (w&pc&pc'&n&e&q'&s1&Hw&Hn&Hm&He&->).
  exists q'. split_and!; [by eapply kept_pinv|by eapply wmove_work|].
  cbn. by eapply weff_main.
Qed.

(** However the workers are scheduled, they stop. *)
Lemma workers_stop q lost wl s : pinv q lost wl s → Acc (flip worker_step) s.
Proof.
  intros Hi. remember (work q s) as k eqn:Hk. revert q s Hi Hk.
  induction k as [k IH] using lt_wf_ind. intros q s Hi ->. constructor. intros s' Hs.
  destruct (worker_step_work _ _ _ _ _ Hi Hs) as (q'&Hi'&Hlt&_). by eapply IH.
Qed.

Lemma workers_keep q lost wl s s' :
  pinv q lost wl s → rtc worker_step s s' →
  main_at s' = main_at s ∧ ∃ q', pinv q' lost wl s'.
Proof.
  intros Hi Hs. revert q Hi. induction Hs as [s|s s1 s2 Hs _ IH]; intros q Hi; [by eauto|].
  destruct (worker_step_work _ _ _ _ _ Hi Hs) as (q'&Hi'&_&<-). by eapply IH.
Qed.

(** When no worker can step, each is asleep, has ended, or waits for a mutex of main's. *)
Lemma workers_stuck q lost wl s w pc :
  pinv q lost wl s → early (main_at s) = true → (∀ s', ¬ worker_step s s') → threads s !! w = Some pc →
  pc = WWait ∨ pc = WDone ∨ mutex s = Some Main.
Proof.
  intros Hi He Hst Hw.
  assert (∀ v p, threads s !! v = Some p → p = WWait ∨ p = WDone ∨ (holds p = false ∧ is_Some (mutex s)))
    as Hno.
  { intros v p Hv. pose proof (worker_moves _ _ _ _ Hi _ _ Hv) as Hm. unfold fp in Hm.
    destruct (nThreadPoolCallback v p s) as [[[p'|] s']| |] eqn:E; try done; [|tauto|].
    2: { destruct Hm as [Hm _]. congruence. }
    exfalso. eapply Hst. exists v. by econstructor. }
  destruct (Hno _ _ Hw) as [->|[->|[Hh [o Ho]]]]; [by auto..|].
  destruct o as [|v]; [by auto|]. exfalso.
  destruct (pi_mutex _ _ _ _ Hi) as (H1&_&H3). destruct (H3 v Ho) as [p Hp].
  apply (H1 _ _ Hp) in Ho. destruct (Hno _ _ Hp) as [->|[->|[Hf _]]]; [done..|congruence].
Qed.

(** ** No lost wake-up *)

(** A worker that sleeps; one that is awake and has no task. *)
Definition sleeps (pc : wpc) : nat := if asleep pc then 1 else 0.
Definition looking (pc : wpc) : nat :=
  match pc with
  | WWait | WUnlock _ | WCall _ | WSleep _ _ | WFreeTask _ | WQuit | WFree | WDone => 0
  | _ => 1
  end.

(** As many workers look for a task as tasks are queued, or nobody sleeps; between the
    insertion and the signal, main is about to wake one more. *)
Definition no_lost_wakeup (q : list nat) (s : pool) : Prop :=
  let pending := match main_at s with MSignal _ => 1%nat | _ => 0%nat end in
  (length q ≤ msum looking (threads s) + pending)%nat ∨ msum sleeps (threads s) = 0%nat.

Lemma no_lost_step q lost wl s q' lost' wl' s' :
  pinv q lost wl s → early (main_at s') = true → no_lost_wakeup q s →
  pmove nw num func q lost wl s q' lost' wl' s' → no_lost_wakeup q' s'.
Proof.
  unfold no_lost_wakeup. intros Hi He Hn Hm.
  destruct Hm as [w pc pc' n e q' s' Hw Hcell Hm Hf|e pc' q' lost' wl' s' Hm Hf|w Hw].
  - pose proof (msum_insert looking _ _ _ pc' Hw) as El.
    pose proof (msum_insert sleeps _ _ _ pc' Hw) as Es.
    destruct (pi_pcs _ _ _ _ Hi _ _ Hw) as (n1&Hn1&Hz&Hok); [by destruct Hm|].
    assert (early (main_at s) = true) as He0.
    { cbn in He. by rewrite (weff_main _ _ _ _ _ _ _ _ _ Hm Hf) in He. }
    specialize (Hz He0).
    weff_cases Hm Hf; cbn in *; try lia; simplify_eq/=; try done; left; lia.
  - remember (main_at s) as m0. meff_cases Hm Hf; cbn in *; try done; try lia.
    + assert (threads s !! w = None) as Hw by (apply (pi_fresh _ _ _ _ Hi); lia).
      rewrite !msum_insert_new by done. cbn. lia.
    + rewrite length_app. cbn. lia.
    + match goal with H : woken _ _ |- _ => destruct H as [[-> Hnone]|(w&Hw&->)] end.
      * right. apply msum_zero. intros w pc Hw. destruct pc; try done. by destruct (Hnone w).
      * pose proof (msum_insert looking _ _ _ WRelock Hw).
        pose proof (msum_insert sleeps _ _ _ WRelock Hw).
        pose proof (msum_le sleeps _ _ _ Hw). cbn in *. lia.
  - cbn. pose proof (msum_insert looking _ _ _ WRelock Hw).
    pose proof (msum_insert sleeps _ _ _ WRelock Hw).
    pose proof (msum_le sleeps _ _ _ Hw). cbn in *. lia.
Qed.

Lemma reachable_live m sp s :
  reachable nw num func m sp s → early (main_at s) = true →
  ∃ q wl σ, pinv q [] wl s ∧ pool_rel num func q s σ ∧ exec_reach num func σ ∧
            no_lost_wakeup q s.
Proof.
  unfold reachable. revert s.
  apply (rtc_ind_r (λ s, early (main_at s) = true → ∃ q wl σ, pinv q [] wl s ∧
    pool_rel num func q s σ ∧ exec_reach num func σ ∧ no_lost_wakeup q s)).
  { intros _. destruct (good_init num func m sp) as (q&wl&σ&Hi&Hr&Hx).
    exists q, wl, σ. split_and!; [done..|]. by right. }
  intros s s' _ [a Hs] IH He.
  destruct (IH (step_early _ _ _ _ _ _ Hs He)) as (q&wl&σ&Hi&Hr&Hx&Hn).
  destruct (step_pmove _ _ _ _ _ _ _ _ _ Hi Hs) as (q'&lost'&wl'&Hm).
  destruct (pmove_good _ _ _ _ _ _ _ _ _ _ _ _ Hi Hr Hx Hm He) as (σ'&->&?&?&?).
  exists q', wl', σ'. split_and!; [done..|]. eapply no_lost_step; [exact Hi|exact He|exact Hn|exact Hm].
Qed.

Lemma workers_reachable m sp s s' :
  reachable nw num func m sp s → rtc worker_step s s' → reachable nw num func m sp s'.
Proof.
  intros Hr Hs. unfold reachable in *. etrans; [exact Hr|].
  eapply rtc_subrel; [|exact Hs]. intros s1 s2 [w Hw]. by exists (Run w).
Qed.

(** C27: No wake-up is lost: in every interleaving, before nThreadPoolDestroy and outside the
    window between the insertion of a task and its signal, a worker sleeps only when at
    least as many awake workers without a task are on their way to the queue as tasks are
    in it. *)
Theorem no_wakeup_lost m sp s w :
  reachable nw num func m sp s → early (main_at s) = true →
  (∀ i, main_at s ≠ MSignal i) → threads s !! w = Some WWait →
  ∃ q, lrep q (tasks s) ∧ (length q ≤ msum looking (threads s))%nat.
Proof.
  intros Hr He Hns Hw. destruct (reachable_live _ _ _ Hr He) as (q&wl&σ&Hi&_&_&Hn).
  exists q. split; [apply Hi|]. destruct Hn as [Hn|Hn].
  - destruct (main_at s); try lia. by destruct (Hns i).
  - pose proof (msum_le sleeps _ _ _ Hw). cbn in *. lia.
Qed.

(** A state at rest after all tasks were pushed: everything is done and freed. *)
Lemma rest_is_complete m sp s w0 pc0 :
  reachable nw num func m sp s → main_at s = MGetchar → threads s !! w0 = Some pc0 →
  (∀ s', ¬ worker_step s s') →
  (∀ e, occ e (out s) = occ e ((Z.of_nat <$> seq 0 num) ≫= body func)) ∧
  cells (tasks s) = ∅ ∧ ints s = ∅ ∧
  (∀ w pc, threads s !! w = Some pc → pc = WWait).
Proof.
  intros Hr Hm Hw0 Hst. assert (early (main_at s) = true) as He by by rewrite Hm.
  destruct (reachable_live _ _ _ Hr He) as (q&wl&σ&Hi&Hrel&Hx&Hn).
  assert (∀ w pc, threads s !! w = Some pc → pc = WWait) as Hall.
  { intros w pc Hw. destruct (workers_stuck _ _ _ _ _ _ Hi He Hst Hw) as [->|[->|Hmx]]; [done| |].
    - by destruct (pi_early _ _ _ _ Hi _ _ He Hw).
    - apply (proj1 (proj2 (pi_mutex _ _ _ _ Hi))) in Hmx. by rewrite Hm in Hmx. }
  assert (q = []) as ->.
  { destruct Hn as [Hn|Hn].
    - rewrite Hm, (msum_zero looking) in Hn by (by intros w pc ->%Hall).
      destruct q; [done|cbn in Hn; lia].
    - pose proof (msum_le sleeps _ _ _ Hw0) as Hle. rewrite (Hall _ _ Hw0) in Hle. cbn in Hle. lia. }
  assert (cells (tasks s) = ∅) as Hcells.
  { apply dom_empty_iff_L, set_eq. intros t. rewrite elem_of_empty. split; [|done].
    pose proof (pi_own _ _ _ _ Hi t) as Ho. rewrite Hm, msum_zero in Ho.
    - cbn in Ho. by case_decide.
    - by intros w pc ->%Hall. }
  split_and!; [|done| |done].
  - intros e. destruct Hrel as [Hq Hrun Hp Hsub _ _ _]. apply exec_reach_inv in Hx as [Hf Hpr _].
    apply Forall2_nil_inv_l in Hq. rewrite Hq, app_nil_r, Hsub, Hm in Hf. cbn in Hf.
    rewrite <-Hf, <-Hpr, Hp, Hrun, msum_fmap, msum_zero; [lia|]. by intros w pc ->%Hall.
  - apply dom_empty_iff_L, set_eq. intros d. rewrite elem_of_empty. split; [|done].
    intros Hd%elem_of_dom. destruct (pi_data _ _ _ _ Hi) as (_&_&H3).
    destruct (H3 d Hd) as (t&n&Ht&_). rewrite Hcells in Ht. by rewrite lookup_empty in Ht.
Qed.

(** C15: Once main has pushed its tasks, however the workers are scheduled (and unless one is
    woken for nothing) they come to rest, if there is at least one; then every task was
    run exactly once, its memory is freed, and all workers sleep. *)
Theorem pool_completes m sp s :
  reachable nw num func m sp s → main_at s = MGetchar → threads s ≠ ∅ →
  Acc (flip worker_step) s ∧
  ∀ s', rtc worker_step s s' → (∀ s'', ¬ worker_step s' s'') →
    (∀ e, occ e (out s') = occ e ((Z.of_nat <$> seq 0 num) ≫= body func)) ∧
    cells (tasks s') = ∅ ∧ ints s' = ∅ ∧
    (∀ w pc, threads s' !! w = Some pc → pc = WWait).
Proof.
  intros Hr Hm Hne. assert (early (main_at s) = true) as He by by rewrite Hm.
  destruct (reachable_live _ _ _ Hr He) as (q&wl&σ&Hi&_).
  split; [by eapply workers_stop|]. intros s' Hs Hst.
  destruct (workers_keep _ _ _ _ _ Hi Hs) as (Hm'&q'&Hi').
  destruct (map_choose _ Hne) as (w&pc&Hw).
  assert (w ∈ wl) as Hwl.
  { destruct (proj1 (pi_listed _ _ _ _ Hi w He)) as [|Hf]; [by eexists|done|]. by rewrite Hm in Hf. }
  destruct (proj2 (pi_listed _ _ _ _ Hi' w (eq_trans (f_equal early Hm') He))) as [pc' Hw'];
    [by left|].
  eapply rest_is_complete; [by eapply workers_reachable|congruence|exact Hw'|exact Hst].
Qed.
End live.

(** The run of TpSpec, then the workers to the end. *)
Definition rest_acts : list act :=
  demo_acts ++ [RunMain 0] ++ repeat (Run 1) 2 ++ repeat (Run 0) 13 ++ repeat (Run 1) 4.
Definition pushed_all : pool :=
  default (pool_init [] []) (run_from 2 2 TaskEntry1 [] [] (demo_acts ++ [RunMain 0])).
Lemma pushed_all_reachable : reachable 2 2 TaskEntry1 [] [] pushed_all.
Proof. apply (run_from_reachable _ _ _ _ _ (demo_acts ++ [RunMain 0])). by vm_compute. Qed.
Lemma pool_completes_witness :
  threads pushed_all ≠ ∅ ∧
  Acc (flip (worker_step 2 2 TaskEntry1)) pushed_all ∧
  ∀ s', rtc (worker_step 2 2 TaskEntry1) pushed_all s' →
    (∀ s'', ¬ worker_step 2 2 TaskEntry1 s' s'') →
    (∀ e, occ e (out s') = occ e ((Z.of_nat <$> seq 0 2) ≫= body TaskEntry1)) ∧
    cells (tasks s') = ∅ ∧ ints s' = ∅ ∧
    (∀ w pc, threads s' !! w = Some pc → pc = WWait).
Proof.
  assert (threads pushed_all ≠ ∅) as Hne by (intros E; apply (f_equal size) in E; by vm_compute in E).
  assert (main_at pushed_all = MGetchar) as Hm by (by vm_compute).
  split; [exact Hne|].
  exact (pool_completes 2 2 TaskEntry1 [] [] pushed_all pushed_all_reachable Hm Hne).
Defined.

(** Worker 0 sleeps while worker 1 looks for the task that was pushed. *)
Definition woken_acts : list act :=
  repeat (RunMain 0) 5 ++ repeat (Run 0) 4 ++ repeat (Run 1) 4 ++ repeat (RunMain 1) 5.
Definition woken_one : pool :=
  default (pool_init [] []) (run_from 2 2 TaskEntry1 [] [] woken_acts).
Lemma woken_one_reachable : reachable 2 2 TaskEntry1 [] [] woken_one.
Proof. apply (run_from_reachable _ _ _ _ _ woken_acts). by vm_compute. Qed.
Lemma no_wakeup_lost_witness :
  ∃ q, lrep q (tasks woken_one) ∧ (length q ≤ msum looking (threads woken_one))%nat.
Proof.
  assert (early (main_at woken_one) = true) as He by by vm_compute.
  assert (main_at woken_one = MLoop 1) as Hm by by vm_compute.
  assert (∀ i, main_at woken_one ≠ MSignal i) as Hns by by rewrite Hm.
  assert (threads woken_one !! 0%nat = Some WWait) as Hw by by vm_compute.
  exact (no_wakeup_lost 2 2 TaskEntry1 [] [] woken_one 0 woken_one_reachable He Hns Hw).
Defined.
Example all_done :
  option_map (λ s, (out s, threads s)) (run_from 2 2 TaskEntry1 [] [] rest_acts) =
  Some ([ERunning 0; EFinished 0; ERunning 1; EFinished 1], {[ 0%nat := WWait; 1%nat := WWait ]}).
Proof. vm_compute. reflexivity. Qed.
