(* ===== verification/TpDestroy.v ===== *)
(** Thread pool, part 7: what is safe, and nThreadPoolDestroy.  Before main calls it there is
    no data race and no other undefined behaviour but the ones of a failed malloc in main;
    nThreadPoolDestroy itself races with the workers, main returns while they use its
    variable [pool], and the tasks that wait are dropped. *)
From S2P Require Import Prelude TpList TpPool TpInv TpMain TpSpec TpLive.

(** ** Data races *)

(** The memory that more than one thread may reach: pool->tasks with the links of the tasks
    in the list; pool->workers with the links of the workers; worker->terminate; a task that
    is in no list, or about to leave or enter it, with the block behind its user_data.  The
    mutex and the condition variable synchronise, the other fields are only read, printf
    and malloc lock for themselves, and a block fresh from malloc is its thread's own. *)
Inductive place := PQueue | PWorkers | PFlag (w : nat) | PTask (t : nat).

(** What the next statement of a thread reads ([false]) and writes or frees ([true]). *)
Definition w_accesses (w : nat) (pc : wpc) : list (place * bool) :=
  match pc with
  | WTest | WTake => [(PQueue, false)]
  | WTermIn | WTermOut => [(PFlag w, false)]
  | WRemove (Some t) => [(PQueue, true); (PTask t, true)]
  | WCall t => [(PTask t, false)]
  | WFreeTask t => [(PTask t, true)]
  | WFree => [(PFlag w, true); (PWorkers, true)]
  | _ => []
  end.
Definition m_accesses (m : mpc) : list (place * bool) :=
  match m with
  | MInsertWorker _ _ | MWorkersNull => [(PWorkers, true)]
  | MPushInsert _ t => [(PQueue, true); (PTask t, true)]
  | MGetchar | MNext _ => [(PWorkers, false)]
  | MWalk (Some w) => [(PFlag w, true)]
  | MTasksNull => [(PQueue, true)]
  | _ => []
  end.
Definition accesses (o : owner) (s : pool) : list (place * bool) :=
  match o with
  | Main => m_accesses (main_at s)
  | Wk w => match threads s !! w with Some pc => w_accesses w pc | None => [] end
  end.

(** Two threads are about to use the same memory, one of them to write it. *)
Definition race (s : pool) : Prop :=
  ∃ o o' p b b', o ≠ o' ∧ (p, b) ∈ accesses o s ∧ (p, b') ∈ accesses o' s ∧ b || b' = true.

Lemma msum_two {A} (f : A → nat) (m : gmap nat A) i j a b :
  i ≠ j → m !! i = Some a → m !! j = Some b → (f a + f b ≤ msum f m)%nat.
Proof.
  intros Hij Hi Hj. rewrite (msum_delete f m i a Hi).
  assert (f b ≤ msum f (delete i m))%nat; [|lia]. apply (msum_le _ _ j).
  by rewrite lookup_delete_ne.
Qed.

Section races.
Context (q wl : list nat) (s : pool) (Hinv : pinv q [] wl s) (He : early (main_at s) = true).

(** No worker is about to end. *)
Lemma no_exit w pc : threads s !! w = Some pc → pc ≠ WFree ∧ pc ≠ WQuit.
Proof.
  intros Hw. pose proof (pi_early _ _ _ _ Hinv _ _ He Hw) as Hd.
  destruct (pi_pcs _ _ _ _ Hinv _ _ Hw Hd) as (n&_&Hz&Hok). specialize (Hz He).
  by split; intros ->.
Qed.

(** Each kind of memory has one user at a time. *)
Lemma queue_user o b : (PQueue, b) ∈ accesses o s → mutex s = Some o.
Proof.
  destruct (pi_mutex _ _ _ _ Hinv) as (H1&H2&_). destruct o as [|w]; cbn.
  - intros Hin. apply H2. destruct (main_at s) as [| | | | | | | |[]| | | | | | |]; try done; set_solver.
  - destruct (threads s !! w) as [pc|] eqn:Hw; [|set_solver].
    intros Hin. apply (H1 _ _ Hw). destruct (no_exit _ _ Hw).
    destruct pc as [| | | | | | | | |[]| | | | | |]; cbn in *; try done; set_solver.
Qed.
Lemma flag_user o w b : (PFlag w, b) ∈ accesses o s → o = Wk w.
Proof.
  destruct o as [|v]; cbn.
  - destruct (main_at s) as [| | | | | | | |[]| | | | | | |]; try done; set_solver.
  - destruct (threads s !! v) as [pc|] eqn:Hv; [|set_solver].
    destruct pc as [| | | | | | | | |[]| | | | | |]; cbn; set_solver.
Qed.
Lemma workers_user o b : (PWorkers, b) ∈ accesses o s → o = Main.
Proof.
  destruct o as [|w]; [done|]. cbn. destruct (threads s !! w) as [pc|] eqn:Hw; [|set_solver].
  destruct (no_exit _ _ Hw).
  destruct pc as [| | | | | | | | |[]| | | | | |]; cbn; try done; set_solver.
Qed.
(** A task is used by its owner, or by the thread that takes it out of the queue. *)
Lemma task_user o t b :
  (PTask t, b) ∈ accesses o s →
  match o with
  | Main => mown t (main_at s) = 1%nat
  | Wk w => ∃ pc, threads s !! w = Some pc ∧
      (own t pc = 1%nat ∨ mutex s = Some (Wk w) ∧ t ∈ q)
  end.
Proof.
  destruct o as [|w]; cbn.
  - destruct (main_at s) as [| | | | | | | |[]| | | | | | |]; cbn; try set_solver.
    intros Hin. rewrite decide_True; [done|]. set_solver.
  - destruct (threads s !! w) as [pc|] eqn:Hw; [|set_solver]. intros Hin. exists pc. split; [done|].
    pose proof (pi_early _ _ _ _ Hinv _ _ He Hw) as Hd.
    destruct (pi_pcs _ _ _ _ Hinv _ _ Hw Hd) as (n&_&_&Hok).
    destruct pc as [| | | | | | | | |[t'|]| |t'|t' ?|t'| |]; cbn in *; try (exfalso; set_solver).
    + right. assert (t' = t) as -> by set_solver. destruct Hok as (?&?&[= <-]&->). split; [|by left].
      by apply (proj1 (pi_mutex _ _ _ _ Hinv) _ _ Hw).
    + left. assert (t' = t) as -> by set_solver. by rewrite decide_True.
    + left. assert (t' = t) as -> by set_solver. by rewrite decide_True.
Qed.
Lemma task_one_user o o' t b b' :
  (PTask t, b) ∈ accesses o s → (PTask t, b') ∈ accesses o' s → o = o'.
Proof.
  intros Ho%task_user Ho'%task_user. pose proof (pi_own _ _ _ _ Hinv t) as Hsum.
  assert ((occ t q + msum (own t) (threads s) + mown t (main_at s) ≤ 1)%nat) as Hle.
  { cbn in Hsum. case_decide; lia. }
  destruct (decide (o = o')) as [|Hne]; [done|exfalso]. clear Hsum.
  destruct o as [|w], o' as [|w']; [done| | |].
  - destruct Ho' as (pc&Hw&[Hown|[_ Hq%occ_elem]]); [|lia].
    pose proof (msum_le (own t) _ _ _ Hw). lia.
  - destruct Ho as (pc&Hw&[Hown|[_ Hq%occ_elem]]); [|lia].
    pose proof (msum_le (own t) _ _ _ Hw). lia.
  - destruct Ho as (pc&Hw&[Hown|[Hm Hq%occ_elem]]), Ho' as (pc'&Hw'&[Hown'|[Hm' Hq'%occ_elem]]).
    + pose proof (msum_two (own t) _ w w' _ _ ltac:(congruence) Hw Hw'). lia.
    + pose proof (msum_le (own t) _ _ _ Hw). lia.
    + pose proof (msum_le (own t) _ _ _ Hw'). lia.
    + congruence.
Qed.
Lemma race_free : ¬ race s.
Proof.
  intros (o&o'&p&b&b'&Hne&Ho&Ho'&_). apply Hne. destruct p as [| |w|t].
  - apply queue_user in Ho, Ho'. congruence.
  - apply workers_user in Ho, Ho'. congruence.
  - apply flag_user in Ho, Ho'. congruence.
  - by eapply task_one_user.
Qed.
End races.

Section safe.
Context (nw : Z) (num : nat) (func : task_fn).

(** C14: Before main calls nThreadPoolDestroy, in every interleaving: no two threads are about
    to use the same memory with one of them writing it (no data race); the next statement
    of every worker has a result (no worker reads freed memory, frees twice, follows NULL
    or loops in a list); and main's next statement has one too, unless malloc has failed
    for a task in its loop, where main ends the process, or for the task's data, where it
    writes through NULL. *)
Theorem pool_safe m sp s :
  reachable nw num func m sp s → early (main_at s) = true →
  ¬ race s ∧
  (∀ w pc, threads s !! w = Some pc → is_Ok (nThreadPoolCallback w pc s)) ∧
  (∀ pick, is_Ok (main_step nw num func pick (main_at s) s) ∨
     ∃ u, main_step nw num func pick (main_at s) s = UB u ∧
       (u = ProcessExit ∨ u = NullDeref) ∧ false ∈ m ∧ ∃ i, main_at s = MLoop i).
Proof.
  intros Hr He. destruct (reachable_good _ _ _ _ _ _ Hr He) as [(q&wl&σ&Hi&_) [k Hm]].
  split_and!; [by eapply race_free|..].
  - intros w pc Hw. pose proof (worker_moves _ _ _ _ Hi _ _ Hw) as Hwp. unfold fp in Hwp.
    unfold is_Ok. destruct (nThreadPoolCallback w pc s) as [|u|]; [done| |done].
    destruct Hwp as [Hf _]. congruence.
  - intros pick. pose proof (main_moves nw num func _ _ _ _ Hi pick) as Hfp. unfold fp in Hfp.
    destruct (main_step _ _ _ _ _ _) as [[]|u|]; [by left| |done]. right. exists u.
    split; [done|]. destruct Hfp as [(Hu&Hin&Hl)|[_ Hl]]; [|congruence].
    split_and!; [done|rewrite Hm, elem_of_app; auto|done].
Qed.
End safe.

(** ** What nThreadPoolDestroy gets wrong *)

(** One worker, no task: the worker has read its flag under the mutex and sleeps. *)
Definition asleep_acts : list act := repeat (RunMain 0) 5 ++ repeat (Run 0) 4.

(** The loop of nThreadPoolDestroy writes worker->terminate without the mutex: a worker that
    went to sleep since main's last push has read it, and nothing orders the two. *)
Theorem destroy_races_with_sleeper :
  ∃ s, reachable 1 0 TaskEntry1 [] [] s ∧ threads s = {[0%nat := WWait]} ∧
    main_at s = MWalk (Some 0%nat) ∧ faults 1 0 TaskEntry1 DataRace s.
Proof.
  destruct (run_from 1 0 TaskEntry1 [] [] asleep_acts) as [s|] eqn:E; [|by vm_compute in E].
  exists s. split; [by eapply run_from_reachable|]. vm_compute in E. injection E as <-.
  split_and!; [done..|]. right. exists 0%nat. by vm_compute.
Qed.
(** The same statement and the reading of the flag can also meet. *)
Theorem destroy_races_with_reader :
  ∃ s, reachable 1 0 TaskEntry1 [] [] s ∧ main_at s = MWalk (Some 0%nat) ∧ race s.
Proof.
  destruct (run_from 1 0 TaskEntry1 [] [] (repeat (RunMain 0) 5 ++ repeat (Run 0) 2)) as [s|] eqn:E;
    [|by vm_compute in E].
  exists s. split; [by eapply run_from_reachable|]. vm_compute in E. injection E as <-.
  split; [done|]. exists Main, (Wk 0), (PFlag 0), true, false.
  split_and!; [done|by left|by left|done].
Qed.

(** Two tasks are pushed and the pool is destroyed before the only worker runs. *)
Definition drop_acts : list act := repeat (RunMain 0) 23.

(** nThreadPoolDestroy drops what still waits: in a run in which main pushes two tasks and
    destroys the pool before the worker starts, both tasks and their data are still
    allocated at its end, in no list. *)
Theorem destroy_drops_tasks :
  ∃ s, reachable 1 2 TaskEntry1 [] [] s ∧ main_at s = MReturn ∧ out s = [] ∧
    first (tasks s) = None ∧ size (cells (tasks s)) = 2%nat ∧ size (ints s) = 2%nat.
Proof.
  destruct (run_from 1 2 TaskEntry1 [] [] drop_acts) as [s|] eqn:E; [|by vm_compute in E].
  exists s. split; [by eapply run_from_reachable|]. vm_compute in E. by injection E as <-.
Qed.
(** nThreadPoolDestroy does not join the workers: main returns, and a worker that goes on uses
    the variable [pool] of main after its end. *)
Theorem workers_outlive_pool :
  ∃ s, reachable 1 2 TaskEntry1 [] [] s ∧ main_at s = MReturn ∧
    nThreadPoolCallback 0 WLock s = UB DanglingDeref ∧ faults 1 2 TaskEntry1 DanglingDeref s.
Proof.
  destruct (run_from 1 2 TaskEntry1 [] [] drop_acts) as [s|] eqn:E; [|by vm_compute in E].
  exists s. split; [by eapply run_from_reachable|]. vm_compute in E. injection E as <-.
  split_and!; [done|by vm_compute|]. left. exists 0%nat, WLock. by split; vm_compute.
Qed.

(** The run of TpSpec: a worker prints, another waits for the mutex, main is done pushing. *)
Lemma pool_safe_witness :
  out demo = [ERunning 0] ∧ ¬ race demo ∧
  (∀ w pc, threads demo !! w = Some pc → is_Ok (nThreadPoolCallback w pc demo)) ∧
  (∀ pick, is_Ok (main_step 2 2 TaskEntry1 pick (main_at demo) demo) ∨
     ∃ u, main_step 2 2 TaskEntry1 pick (main_at demo) demo = UB u ∧
       (u = ProcessExit ∨ u = NullDeref) ∧ false ∈ @nil bool ∧ ∃ i, main_at demo = MLoop i).
Proof.
  split; [by vm_compute|]. assert (early (main_at demo) = true) as He by by vm_compute.
  exact (pool_safe 2 2 TaskEntry1 [] [] demo demo_reachable He).
Defined.
