(* ===== verification/DnsQuery.v ===== *)
(** DNS client, part 1: building a query (junior/06_dns/dns.c: dns_create_header,
    dns_create_question, dns_build_request).  A byte of memory that malloc gave and
    nothing wrote is [None]. *)
From S2P Require Import Prelude.

(** ** Memory *)

Abbreviation bytes := (list (option Z)).

(** Writing [bs] at [off]; the block has a fixed size. *)
Definition store (off : nat) (bs : bytes) : M bytes unit :=
  m ← get;
  if (off + length bs <=? length m)%nat
  then put (take off m ++ bs ++ drop (off + length bs) m) else undef OutOfBounds.

(** A short in memory, low byte first, and htons. *)
Definition short_le (v : Z) : list Z := [u8 v; u8 (v / 2 ^ 8)].
Definition htons (v : Z) : Z := u8 v * 2 ^ 8 + u8 (v / 2 ^ 8).

(** malloc takes its outcome from a list; no outcome left means success. *)
Definition malloc : M (list bool) bool :=
  o ← get; match o with [] => ret true | b :: o => put o;; ret b end.

(** ** The header *)

Record dns_header := DnsHeader {
  id : Z; flags : Z; questions : Z; answer : Z; authority : Z; additional : Z }.

(** [random_] is the value random() returns. *)
Definition dns_create_header (random_ : Z) : dns_header :=
  DnsHeader (u16 random_) (htons 0x0100) (htons 1) 0 0 0.
Definition header_bytes (h : dns_header) : list Z :=
  short_le (id h) ++ short_le (flags h) ++ short_le (questions h) ++ short_le (answer h) ++
  short_le (authority h) ++ short_le (additional h).

(** ** strtok with the delimiter "." *)

Definition dot : Z := 46.
Fixpoint skip_dots (s : list Z) : list Z :=
  match s with c :: s' => if c =? dot then skip_dots s' else s | [] => [] end.
Fixpoint cut_label (s : list Z) : list Z * list Z :=
  match s with
  | [] => ([], [])
  | c :: s' => if c =? dot then ([], s') else let '(t, r) := cut_label s' in (c :: t, r)
  end.
(** The next token and the unread rest. *)
Definition strtok_dot (s : list Z) : option (list Z * list Z) :=
  match skip_dots s with [] => None | s' => Some (cut_label s') end.

(** ** The question *)

(** [name] is [None] when the pointer is NULL. *)
Record dns_question := DnsQuestion { q_length : Z; name : option bytes; qtype : Z; qclass : Z }.

(** [*qname = (char)len; qname++; strncpy(qname, token, len+1); qname += len] for each
    token; [qname] is an offset in the block. *)
Fixpoint name_loop (fuel : nat) (tok : option (list Z * list Z)) (qname : nat) : M bytes unit :=
  match tok with
  | None => ret ()
  | Some (token, rest) =>
      match fuel with
      | O => no_fuel
      | S fuel =>
          store qname [Some (u8 (Z.of_nat (length token)))];;
          store (S qname) (Some <$> token ++ [0]);;
          name_loop fuel (strtok_dot rest) (S qname + length token)
      end
  end.

(** [hostname] is the string without its NUL.  strdup's result is not tested. *)
Definition dns_create_question (hostname : list Z) : M (list bool) (Z * dns_question) :=
  let len := i32 (Z.of_nat (length hostname) + 2) in
  ok ← malloc;
  if negb ok then ret (-2, DnsQuestion len None 0 0) else
  dup ← malloc;
  if negb dup then undef NullDeref else λ s,
  match name_loop (S (length hostname)) (strtok_dot hostname) 0 (replicate (Z.to_nat len) None) with
  | Ok (_, nm) => Ok ((0, DnsQuestion len (Some nm) (htons 1) (htons 1)), s)
  | UB w => UB w
  | OutOfFuel => OutOfFuel
  end.

(** ** The request *)

Definition dns_build_request (header : dns_header) (question : dns_question) (rlen : nat) : M bytes Z :=
  store 0 (replicate rlen (Some 0));;
  store 0 (Some <$> header_bytes header);;
  let offset := length (header_bytes header) in
  nm ← from_opt NullDeref (name question);
  store offset (take (Z.to_nat (q_length question)) nm);;
  let offset := (offset + Z.to_nat (q_length question))%nat in
  store offset (Some <$> short_le (qtype question));;
  store (offset + 2) (Some <$> short_le (qclass question));;
  ret (Z.of_nat (offset + 2 + 2)).

(** ** Names *)

(** What a label may be: not empty, no dot, no NUL, at most 63 bytes. *)
Definition label_ok (l : list Z) : Prop :=
  (0 < length l < 64)%nat ∧ Forall (λ c, 0 < c < 256 ∧ c ≠ dot) l.
#[export] Instance label_ok_dec l : Decision (label_ok l).
Proof. unfold label_ok. apply _. Defined.
Fixpoint join (ls : list (list Z)) : list Z :=
  match ls with
  | [] => []
  | [l] => l
  | l :: ls => l ++ dot :: join ls
  end.
Definition encode (ls : list (list Z)) : list Z :=
  concat ((λ l, Z.of_nat (length l) :: l) <$> ls) ++ [0].

Lemma join_cons l l' ls : join (l :: l' :: ls) = l ++ dot :: join (l' :: ls).
Proof. done. Qed.
Lemma encode_cons l ls : encode (l :: ls) = Z.of_nat (length l) :: l ++ encode ls.
Proof. unfold encode. cbn. by rewrite <-app_assoc. Qed.
Lemma encode_length ls : ls ≠ [] → length (encode ls) = (length (join ls) + 2)%nat.
Proof.
  intros Hne. destruct ls as [|l ls]; [done|]. clear Hne. revert l.
  induction ls as [|l' ls IH]; intros l; rewrite encode_cons.
  - cbn. rewrite length_app. cbn. lia.
  - rewrite join_cons. cbn [length]. rewrite !length_app. cbn [length].
    specialize (IH l'). lia.
Qed.

Lemma cut_label_dot l s : Forall (λ c, 0 < c < 256 ∧ c ≠ dot) l → cut_label (l ++ dot :: s) = (l, s).
Proof.
  induction 1 as [|c l [_ Hc] _ IH]; [done|]. cbn.
  rewrite (proj2 (Z.eqb_neq _ _) Hc). by rewrite IH.
Qed.
Lemma cut_label_end l : Forall (λ c, 0 < c < 256 ∧ c ≠ dot) l → cut_label l = (l, []).
Proof.
  induction 1 as [|c l [_ Hc] _ IH]; [done|]. cbn.
  rewrite (proj2 (Z.eqb_neq _ _) Hc). by rewrite IH.
Qed.
(** strtok gives the labels back. *)
Lemma strtok_join l ls :
  label_ok l → strtok_dot (join (l :: ls)) = Some (l, join ls).
Proof.
  intros [Hlen Hl]. destruct l as [|c l]; [cbn in Hlen; lia|].
  assert (∀ s, skip_dots ((c :: l) ++ s) = (c :: l) ++ s) as Hskip.
  { intros s. cbn. apply Forall_cons in Hl as [[_ Hc] _]. by rewrite (proj2 (Z.eqb_neq _ _) Hc). }
  unfold strtok_dot. destruct ls as [|l' ls].
  - cbn [join]. rewrite <-(app_nil_r (c :: l)) at 1. rewrite Hskip, app_nil_r.
    pose proof (cut_label_end _ Hl) as E. by rewrite E.
  - rewrite join_cons, Hskip. pose proof (cut_label_dot _ (join (l' :: ls)) Hl) as E.
    cbn [app] in *. by rewrite E.
Qed.

Lemma store_spec off bs m (Q : unit → bytes → Prop) :
  (off + length bs ≤ length m)%nat →
  Q () (take off m ++ bs ++ drop (off + length bs) m) → wp (store off bs) Q m.
Proof. intros Hlen HQ. unfold store. wp_step. by rewrite (proj2 (Nat.leb_le _ _) Hlen). Qed.
Lemma store_length off bs m m' u :
  store off bs m = Ok (u, m') → length m' = length m.
Proof.
  unfold store, bind, get, put. destruct (Nat.leb_spec (off + length bs) (length m)); [|done].
  intros [= <- <-]. rewrite !length_app, length_take, length_drop. lia.
Qed.
(** Writing over the start of what follows a known part. *)
Lemma store_middle a b c bs (Q : unit → bytes → Prop) :
  length b = length bs → Q () (a ++ bs ++ c) → wp (store (length a) bs) Q (a ++ b ++ c).
Proof.
  intros Hlen HQ. apply store_spec; [rewrite !length_app; lia|].
  rewrite take_app_length. rewrite (app_assoc a b c).
  rewrite drop_app_length' by (rewrite length_app; lia). done.
Qed.

(** ** The name of a well-formed host *)

Lemma name_loop_labels ls fuel done_ (rest : bytes) :
  Forall label_ok ls → (length ls < fuel)%nat → length rest = length (encode ls) →
  (ls = [] → rest = [Some 0]) →
  wp (name_loop fuel (strtok_dot (join ls)) (length done_))
     (λ _ m, m = Some <$> done_ ++ encode ls) ((Some <$> done_) ++ rest).
Proof.
  revert fuel done_ rest. induction ls as [|l ls IH]; intros [|fuel] done_ rest Hls Hf Hlen He;
    try (cbn in Hf; lia).
  - cbn. rewrite (He eq_refl). unfold wp. cbn. by rewrite fmap_app.
  - apply Forall_cons in Hls as [Hl Hls]. rewrite strtok_join by done. cbn [name_loop].
    rewrite encode_cons in Hlen. cbn [length] in Hlen. rewrite length_app in Hlen.
    destruct rest as [|r0 rest]; [done|]. injection Hlen as Hlen.
    assert (0 < length (encode ls))%nat by (unfold encode; rewrite length_app; cbn; lia).
    rewrite <-(take_drop (S (length l)) rest).
    set (b := take _ rest). set (c := drop _ rest).
    assert (length b = S (length l)) as Hb by (unfold b; rewrite length_take; lia).
    assert (S (length c) = length (encode ls)) as Hc by (unfold c; rewrite length_drop; lia).
    wp_step. rewrite <-(length_fmap (Some (A:=Z)) done_) at 1.
    apply (store_middle _ [r0]); [done|]. wp_step.
    rewrite app_assoc.
    replace (S (length done_)) with (length ((Some <$> done_) ++ [Some (u8 (Z.of_nat (length l)))]))
      by (rewrite length_app, length_fmap; cbn; lia).
    apply store_middle; [rewrite length_fmap, length_app; cbn; lia|].
    rewrite u8_id by (destruct Hl; word).
    specialize (IH fuel (done_ ++ Z.of_nat (length l) :: l) (Some 0 :: c) Hls).
    rewrite !length_app in IH |- *. cbn [length] in IH |- *. rewrite length_fmap.
    replace (length done_ + 1 + length l)%nat with (length done_ + S (length l))%nat by lia.
    replace (((Some <$> done_) ++ [Some (Z.of_nat (length l))]) ++ (Some <$> l ++ [0]) ++ c)
      with ((Some <$> done_ ++ Z.of_nat (length l) :: l) ++ Some 0 :: c)
      by (rewrite !fmap_app; cbn; by rewrite <-!app_assoc).
    rewrite encode_cons.
    replace (done_ ++ Z.of_nat (length l) :: l ++ encode ls)
      with ((done_ ++ Z.of_nat (length l) :: l) ++ encode ls) by by rewrite <-app_assoc.
    apply IH; [cbn in Hf; lia|done|]. intros ->. cbn in Hc. by destruct c.
Qed.

Lemma length_join_ge ls : Forall label_ok ls → (length ls ≤ length (join ls))%nat.
Proof.
  induction 1 as [|l ls [Hl _] _ IH]; [done|]. destruct ls as [|l' ls]; [cbn; lia|].
  rewrite join_cons, length_app. cbn [length] in *. lia.
Qed.

(** The name of the question is the encoding of the labels. *)
Lemma question_name ls :
  ls ≠ [] → Forall label_ok ls → Z.of_nat (length (join ls)) < 65536 →
  dns_create_question (join ls) [] =
  Ok ((0, DnsQuestion (Z.of_nat (length (encode ls))) (Some (Some <$> encode ls)) 256 256), []).
Proof.
  intros Hne Hls Hlen. unfold dns_create_question, bind, malloc, get, ret. cbn [negb].
  replace (i32 _) with (Z.of_nat (length (encode ls)))
    by (rewrite encode_length by done; rewrite i32_id by word; lia).
  rewrite Nat2Z.id.
  pose proof (length_join_ge ls Hls).
  assert (wp (name_loop (S (length (join ls))) (strtok_dot (join ls)) (length (@nil Z)))
    (λ _ m, m = Some <$> [] ++ encode ls) ((Some <$> []) ++ replicate (length (encode ls)) None)) as Hloop.
  { apply name_loop_labels; [done|lia|by rewrite length_replicate|done]. }
  apply wp_run in Hloop as (u&m&E&->). cbn [fmap list_fmap app length] in E. by rewrite E.
Qed.

(** ** The datagram *)

Definition query_bytes (random_ : Z) (ls : list (list Z)) : list Z :=
  header_bytes (dns_create_header random_) ++ encode ls ++ [0; 1; 0; 1].

Lemma store_append off a bs k (Q : unit → bytes → Prop) :
  off = length a → (length bs ≤ k)%nat →
  Q () ((a ++ bs) ++ replicate (k - length bs) (Some 0)) →
  wp (store off bs) Q (a ++ replicate k (Some 0)).
Proof.
  intros -> Hlen HQ. rewrite <-(take_drop (length bs) (replicate k (Some 0))).
  apply store_middle; [rewrite length_take, length_replicate; lia|].
  by rewrite drop_replicate, app_assoc.
Qed.

Lemma build_request_bytes random_ ls rlen :
  (length (encode ls) + 16 ≤ rlen)%nat →
  wp (dns_build_request (dns_create_header random_)
        (DnsQuestion (Z.of_nat (length (encode ls))) (Some (Some <$> encode ls)) 256 256) rlen)
     (λ n m, n = Z.of_nat (length (query_bytes random_ ls)) ∧
             take (Z.to_nat n) m = Some <$> query_bytes random_ ls)
     (replicate rlen (Some 0)).
Proof.
  intros Hlen. unfold dns_build_request. cbn [q_length name qtype qclass].
  rewrite Nat2Z.id. cbn [from_opt].
  set (h := header_bytes (dns_create_header random_)).
  assert (length h = 12%nat) as Hh by done. rewrite Hh.
  wp_step. apply store_spec; [rewrite !length_replicate; lia|].
  rewrite take_0, !length_replicate, drop_ge, app_nil_r by (rewrite length_replicate; lia).
  wp_step. apply store_append; [done|rewrite length_fmap; lia|]. rewrite length_fmap, Hh.
  wp_step. rewrite take_ge by by rewrite length_fmap.
  apply store_append; [by rewrite app_nil_l, length_fmap|rewrite length_fmap; lia|].
  rewrite length_fmap.
  wp_step. apply store_append; [rewrite app_nil_l, length_app, !length_fmap; lia|cbn; lia|].
  wp_step. apply store_append;
    [rewrite app_nil_l, !length_app, !length_fmap; cbn; lia|cbn; lia|].
  wp_step. rewrite Nat2Z.id. unfold query_bytes. fold h.
  split; [rewrite !length_app, Hh; cbn; lia|].
  rewrite take_app_length' by (rewrite app_nil_l, !length_app, !length_fmap; cbn; lia).
  rewrite app_nil_l, !fmap_app, <-!app_assoc. done.
Qed.

(** ** Any host name *)

Lemma skip_dots_length s : (length (skip_dots s) ≤ length s)%nat.
Proof. induction s as [|c s IH]; [done|]. cbn. case_match; cbn; lia. Qed.
Lemma cut_label_length s t r :
  cut_label s = (t, r) → (length t ≤ length s)%nat ∧ (r = [] ∨ length t + length r < length s)%nat.
Proof.
  revert t r. induction s as [|c s IH]; intros t r; cbn; [intros [= <- <-]; cbn; auto|].
  case_match; [intros [= <- <-]; cbn; split; [|right]; lia|]. destruct (cut_label s) as [t' r'].
  destruct (IH _ _ eq_refl) as [H1 [->|H2]]; intros [= <- <-]; cbn;
    (split; [lia|]); [by left|right; lia].
Qed.
Lemma strtok_dot_length s t r :
  strtok_dot s = Some (t, r) →
  s ≠ [] ∧ (length t ≤ length s)%nat ∧ (r = [] ∨ length t + length r < length s)%nat.
Proof.
  unfold strtok_dot. pose proof (skip_dots_length s) as Hs.
  destruct (skip_dots s) as [|c s'] eqn:E; [done|]. intros [= Hc].
  apply (cut_label_length (c :: s')) in Hc as [H1 [->|H2]]; (split; [by intros ->|]); (split; [lia|]);
    [by left|right; lia].
Qed.

Lemma store_in_bounds off bs m :
  (off + length bs ≤ length m)%nat → wp (store off bs) (λ _ m', length m' = length m) m.
Proof.
  intros Hlen. apply store_spec; [done|].
  rewrite !length_app, length_take, length_drop. lia.
Qed.
Lemma name_loop_in_bounds fuel s qname m :
  (length s < fuel)%nat → (s = [] ∨ qname + length s + 2 ≤ length m)%nat →
  wp (name_loop fuel (strtok_dot s) qname) (λ _ m', length m' = length m) m.
Proof.
  revert s qname m. induction fuel as [|fuel IH]; intros s qname m Hf Hb; [lia|].
  destruct (strtok_dot s) as [[t r]|] eqn:E; [|done].
  apply strtok_dot_length in E as (Hne&Ht&Hr). destruct Hb as [|Hb]; [done|]. cbn [name_loop].
  assert (length s ≠ 0%nat) by by destruct s.
  wp_step. eapply wp_mono; [apply store_in_bounds; cbn; lia|]. intros [] m1 H1. wp_step.
  eapply wp_mono; [apply store_in_bounds; rewrite length_fmap, length_app; cbn; lia|].
  intros [] m2 H2. eapply wp_mono; [apply IH|].
  - destruct Hr as [->|]; cbn; lia.
  - destruct Hr as [->|Hr]; [by left|right; lia].
  - intros [] m3 ->. lia.
Qed.

(** C35: Whatever the host name, dns_create_question writes inside the strlen + 2 bytes it
    allocates, and its strtok loop ends. *)
Theorem question_stays_in_block hostname :
  Z.of_nat (length hostname) < 2 ^ 31 - 2 →
  wp (dns_create_question hostname)
     (λ '(r, q) _, r = 0 ∧ q_length q = Z.of_nat (length hostname) + 2 ∧
                   length <$> name q = Some (length hostname + 2)%nat) [].
Proof.
  intros Hlen. unfold dns_create_question, wp, bind, malloc, get, ret. cbn [negb].
  rewrite i32_id by word.
  replace (Z.to_nat (Z.of_nat (length hostname) + 2)) with (length hostname + 2)%nat by lia.
  pose proof (name_loop_in_bounds (S (length hostname)) hostname 0
    (replicate (length hostname + 2) None)) as Hw.
  rewrite length_replicate in Hw. unfold wp in Hw.
  destruct (name_loop _ _ _ _) as [[[] m]| |]; [|by apply Hw; lia..].
  split_and!; [done..|]. cbn. f_equal. apply Hw; lia.
Qed.
Lemma question_stays_in_block_witness :
  wp (dns_create_question [97; 46; 46; 98])
     (λ '(r, q) _, r = 0 ∧ q_length q = 6 ∧ length <$> name q = Some 6%nat) [].
Proof. apply (question_stays_in_block [97; 46; 46; 98]). by vm_compute. Defined.

(** A host name with an empty label leaves a byte of the block unwritten, and the byte is
    sent: for "a..b" the question has two labels but six bytes, the last of which malloc
    gave. *)
Theorem empty_label_sends_garbage :
  match dns_create_question [97; 46; 46; 98] [] with
  | Ok ((_, q), _) =>
      name q = Some [Some 1; Some 97; Some 1; Some 98; Some 0; None] ∧
      match dns_build_request (dns_create_header 7) q 1024 (replicate 1024 (Some 0)) with
      | Ok (n, request) => n = 22 ∧ request !! 17%nat = Some None
      | _ => False
      end
  | _ => False
  end.
Proof. by vm_compute. Qed.
