(* ===== verification/DnsParse.v ===== *)
(** DNS client, part 2: reading a reply, and the client as a whole (junior/06_dns/dns.c:
    is_pointer, dns_parse_name, dns_parse_response, dns_client_commit, main).  A pointer
    into the reply is an offset in its 1024 bytes. *)
From S2P Require Import Prelude DnsQuery.

(** ** Names *)

Definition is_pointer (in_ : Z) : bool := Z.land in_ 0xC0 =? 0xC0.

Definition byte {St} (chunk : list Z) (ptr : nat) : M St Z := from_opt OutOfBounds (chunk !! ptr).
(** [n] bytes from [ptr]. *)
Definition block {St} (chunk : list Z) (ptr n : nat) : M St (list Z) :=
  if (ptr + n <=? length chunk)%nat then ret (take n (drop ptr chunk)) else undef OutOfBounds.
(** memcpy to [pos] in the array [out]. *)
Definition put_at (pos : nat) (bs : list Z) : M (list Z) unit :=
  out ← get;
  if (pos + length bs <=? length out)%nat
  then put (take pos out ++ bs ++ drop (pos + length bs) out) else undef OutOfBounds.

(** The loop of dns_parse_name; the recursive call starts again at [out + *len], and the
    loop ends after it.  The result is [*len]. *)
Fixpoint parse_loop (fuel : nat) (chunk : list Z) (ptr pos len : nat) : M (list Z) nat :=
  match fuel with
  | O => no_fuel
  | S fuel =>
      flag ← byte chunk ptr;
      if flag =? 0 then ret len else
      if is_pointer flag then
        n ← byte chunk (S ptr);
        parse_loop fuel chunk (Z.to_nat n) len len
      else
        let n := Z.to_nat flag in
        bs ← block chunk (S ptr) n;
        put_at pos bs;;
        let pos := (pos + n)%nat in
        let ptr := (S ptr + n)%nat in
        let len := (len + n)%nat in
        c ← byte chunk ptr;
        if c =? 0 then parse_loop fuel chunk ptr pos len
        else put_at pos [dot];; parse_loop fuel chunk ptr (S pos) (S len)
  end.
Definition dns_parse_name (fuel : nat) (chunk : list Z) (ptr len : nat) : M (list Z) nat :=
  parse_loop fuel chunk ptr len len.

(** ** The reply *)

Record dns_item := DnsItem { domain : list Z; ip : string }.

(** What a run of the client changes: the outcomes left for calloc, the items of the reply
    being read, and the lines printed (name, address, minutes, seconds). *)
Record dns_st := DnsSt {
  callocs : list bool;
  items : list dns_item;
  lines : list (list Z * string * Z * Z);
}.
Definition calloc : M dns_st bool :=
  s ← get;
  match callocs s with
  | [] => ret true
  | b :: o => put (DnsSt o (items s) (lines s));; ret b
  end.

Definition DNS_HOST : Z := 0x01.
Definition DNS_CNAME : Z := 0x05.

(** ntohs of the short at [ptr]; htons is the same function. *)
Definition short_at {St} (chunk : list Z) (ptr : nat) : M St Z :=
  a ← byte chunk ptr; b ← byte chunk (S ptr); ret (a * 2 ^ 8 + b).

(** The bytes of an array before its first NUL. *)
Fixpoint cstring (a : list Z) : option (list Z) :=
  match a with
  | [] => None
  | c :: a => if c =? 0 then Some [] else cons c <$> cstring a
  end.

(** inet_ntop for AF_INET. *)
Definition inet_ntop (netip : list Z) : string :=
  match netip with
  | [a; b; c; d] => pretty a ++ "." ++ pretty b ++ "." ++ pretty c ++ "." ++ pretty d
  | _ => ""
  end.

(** dns_parse_name on a cleared array of 128 bytes. *)
Definition name_at_ptr (fuel : nat) (chunk : list Z) (ptr : nat) : M dns_st (list Z) := λ s,
  match dns_parse_name fuel chunk ptr 0 (replicate 128 0) with
  | Ok (_, out) => Ok (out, s)
  | UB w => UB w
  | OutOfFuel => OutOfFuel
  end.

(** The questions: [while (1) { flag = ptr[0]; ptr += flag + 1; if (flag == 0) break; }]
    and [ptr += 4]. *)
Fixpoint skip_name (fuel : nat) (chunk : list Z) (ptr : nat) : M dns_st nat :=
  match fuel with
  | O => no_fuel
  | S fuel =>
      flag ← byte chunk ptr;
      let ptr := (ptr + Z.to_nat flag + 1)%nat in
      if flag =? 0 then ret ptr else skip_name fuel chunk ptr
  end.
Fixpoint skip_questions (querys : nat) (chunk : list Z) (ptr : nat) : M dns_st nat :=
  match querys with
  | O => ret ptr
  | S querys =>
      ptr ← skip_name (S (length chunk)) chunk ptr; skip_questions querys chunk (ptr + 4)
  end.

(** The body for an address of four bytes; [cnt] counts the items, [answers] is the size of
    the array. *)
Definition add_item (answers cnt : nat) (aname netip : list Z) (ttl : Z) : M dns_st unit :=
  nm ← from_opt OutOfBounds (cstring aname);
  let addr := inet_ntop netip in
  modify (λ s, DnsSt (callocs s) (items s) (lines s ++ [(nm, addr, ttl / 60, ttl mod 60)]));;
  ok ← calloc;
  (if ok || bool_decide (nm = []) then ret () else undef NullDeref);;
  ok ← calloc;
  (if ok : bool then ret () else undef NullDeref);;
  if (cnt <? answers)%nat
  then modify (λ s, DnsSt (callocs s) (items s ++ [DnsItem nm addr]) (lines s))
  else undef OutOfBounds.

(** The loop over the answers; [todo] of them are still to come. *)
Fixpoint answer_loop (fuel : nat) (chunk : list Z) (answers todo ptr cnt : nat) : M dns_st Z :=
  match todo with
  | O => ret (Z.of_nat cnt)
  | S todo =>
      aname ← name_at_ptr fuel chunk ptr;
      let ptr := (ptr + 2)%nat in
      type ← short_at chunk ptr;
      let ptr := (ptr + 4)%nat in
      ttl ← short_at chunk ptr;
      let ptr := (ptr + 4)%nat in
      datalen ← short_at chunk ptr;
      let ptr := (ptr + 2)%nat in
      if type =? DNS_CNAME then
        name_at_ptr fuel chunk ptr;;
        answer_loop fuel chunk answers todo (ptr + Z.to_nat datalen) cnt
      else if type =? DNS_HOST then
        if datalen =? 4 then
          netip ← block chunk ptr 4;
          add_item answers cnt aname netip ttl;;
          answer_loop fuel chunk answers todo (ptr + Z.to_nat datalen) (S cnt)
        else answer_loop fuel chunk answers todo (ptr + Z.to_nat datalen) cnt
      else answer_loop fuel chunk answers todo ptr cnt
  end.

Definition dns_parse_response (fuel : nat) (buffer : list Z) : M dns_st Z :=
  querys ← short_at buffer 4;
  answers ← short_at buffer 6;
  ptr ← skip_questions (Z.to_nat querys) buffer 12;
  ok ← calloc;
  if negb ok then ret (-1) else
  modify (λ s, DnsSt (callocs s) [] (lines s));;
  answer_loop fuel buffer (Z.to_nat answers) (Z.to_nat answers) ptr 0.

(** ** The client *)

(** What the network does for one request: socket() and connect() may fail, random() has
    a value, and recvfrom gives a datagram or fails. *)
Record net := Net { sock_ok : bool; connect_ok : bool; random_ : Z; reply : option (list Z) }.

(** The response buffer: 1024 zero bytes under the datagram. *)
Definition response (r : option (list Z)) : list Z :=
  let d := take 1024 (default [] r) in d ++ replicate (1024 - length d) 0.

Definition lift {S T A} (m : M T A) (t : T) : M S (A * T) := λ s,
  match m t with Ok (a, t') => Ok ((a, t'), s) | UB w => UB w | OutOfFuel => OutOfFuel end.

(** The datagram sent and the result of dns_client_commit. *)
Definition dns_client_commit (fuel : nat) (mallocs : list bool) (n : net) (host : list Z)
    : M dns_st (bytes * Z) :=
  if negb (sock_ok n) then ret ([], -1) else
  if negb (connect_ok n) then undef ProcessExit else
  let header := dns_create_header (random_ n) in
  ' ((_, question), _) ← lift (dns_create_question host) mallocs;
  ' (len, request) ← lift (dns_build_request header question 1024) (replicate 1024 (Some 0));
  dns_parse_response fuel (response (reply n));;
  modify (λ s, DnsSt (callocs s) [] (lines s));;
  ret (take (Z.to_nat len) request,
       match reply n with Some d => Z.of_nat (length (take 1024 d)) | None => -1 end).

(** The table of main, which has no NULL at its end. *)
Definition codes (s : string) : list Z := (λ c, Z.of_N (Ascii.N_of_ascii c)) <$> String.list_ascii_of_string s.
Definition domains : list (list Z) := codes <$>
  ["www.baidu.com"; "www.ntytcp.com"; "bojing.wang"; "tieba.baidu.com"; "news.baidu.com";
   "zhidao.baidu.com"; "music.baidu.com"; "image.baidu.com"; "v.baidu.com"; "map.baidu.com";
   "baijiahao.baidu.com"; "xueshu.baidu.com"; "cloud.baidu.com"; "www.163.com"; "open.163.com";
   "auto.163.com"; "gov.163.com"; "money.163.com"; "sports.163.com"; "tech.163.com";
   "edu.163.com"; "www.taobao.com"; "q.taobao.com"; "sf.taobao.com"; "yun.taobao.com";
   "baoxian.taobao.com"; "www.tmall.com"; "suning.tmall.com"; "www.tencent.com"; "www.qq.com";
   "www.aliyun.com"; "www.ctrip.com"; "hotels.ctrip.com"; "hotels.ctrip.com"; "vacations.ctrip.com";
   "flights.ctrip.com"; "trains.ctrip.com"; "bus.ctrip.com"; "car.ctrip.com"; "piao.ctrip.com";
   "tuan.ctrip.com"; "you.ctrip.com"; "g.ctrip.com"; "lipin.ctrip.com"; "www.songzihao.top"]%string.

(** [while (domain[i]) { dns_client_commit(domain[i]); i++; }]; [nets i] is what the network
    does for request [i]. *)
Fixpoint main_loop (pf fuel : nat) (nets : nat → net) (i : nat) : M dns_st unit :=
  match fuel with
  | O => no_fuel
  | S fuel =>
      host ← from_opt OutOfBounds (domains !! i);
      dns_client_commit pf [] (nets i) host;;
      main_loop pf fuel nets (S i)
  end.

(** ** What a reply says *)

(** The labels [ls] start at [p], within [k] labels and pointers; a pointer has the two
    bytes C0 and an offset below 256, and does not point to the empty name. *)
Inductive name_at (chunk : list Z) : nat → nat → list (list Z) → Prop :=
| na_end p : chunk !! p = Some 0 → name_at chunk 1 p []
| na_label k p l ls :
    label_ok l → chunk !! p = Some (Z.of_nat (length l)) →
    take (length l) (drop (S p) chunk) = l →
    name_at chunk k (S p + length l) ls → name_at chunk (S k) p (l :: ls)
| na_pointer k p n ls :
    chunk !! p = Some 0xC0 → chunk !! S p = Some (Z.of_nat n) → ls ≠ [] →
    name_at chunk k n ls → name_at chunk (S k) p ls.

Lemma label_flag l :
  label_ok l →
  (Z.of_nat (length l) =? 0) = false ∧ is_pointer (Z.of_nat (length l)) = false ∧
  Z.to_nat (Z.of_nat (length l)) = length l.
Proof.
  intros [Hl _]. split_and!; [lia| |lia].
  assert (forallb (λ n, negb (is_pointer (Z.of_nat n))) (seq 0 64) = true) as H by by vm_compute.
  rewrite forallb_forall in H. apply negb_true_iff, H, in_seq. lia.
Qed.

Lemma byte_spec {St} chunk p c (Q : Z → St → Prop) s :
  chunk !! p = Some c → Q c s → wp (byte chunk p) Q s.
Proof. intros Hc. unfold byte. by rewrite Hc. Qed.
Lemma block_spec {St} chunk p n bs (Q : list Z → St → Prop) s :
  take n (drop p chunk) = bs → length bs = n → (0 < n)%nat → Q bs s → wp (block chunk p n) Q s.
Proof.
  intros Hb Hn Hpos HQ. unfold block. rewrite Hb.
  rewrite <-Hb, length_take, length_drop in Hn.
  by rewrite (proj2 (Nat.leb_le _ _)) by lia.
Qed.
Lemma put_at_append pos bs pre k (Q : unit → list Z → Prop) :
  pos = length pre → (length bs ≤ k)%nat →
  Q () ((pre ++ bs) ++ replicate (k - length bs) 0) →
  wp (put_at pos bs) Q (pre ++ replicate k 0).
Proof.
  intros -> Hk HQ. unfold put_at. wp_step.
  rewrite (proj2 (Nat.leb_le _ _)) by (rewrite length_app, length_replicate; lia).
  wp_step. rewrite take_app_length, <-drop_drop, drop_app_length, drop_replicate.
  by rewrite app_assoc.
Qed.

(** A name that is not empty starts with a byte that is not NUL. *)
Lemma name_at_head chunk k p ls :
  name_at chunk k p ls → ls ≠ [] → ∃ c, chunk !! p = Some c ∧ (c =? 0) = false.
Proof.
  intros [p' Hp|k' p' l ls' Hl Hp _ _|k' p' n ls' Hp _ _ _] Hne; [done| |by eauto].
  eexists. split; [done|]. by apply label_flag.
Qed.
Lemma name_at_nil chunk k p : name_at chunk k p [] → chunk !! p = Some 0 ∧ (1 ≤ k)%nat.
Proof. inversion 1; subst; [auto|done]. Qed.
Lemma join_length_cons l ls :
  ls ≠ [] → length (join (l :: ls)) = (length l + S (length (join ls)))%nat.
Proof. destruct ls as [|l' ls]; [done|]. intros _. rewrite join_cons, length_app. done. Qed.

(** dns_parse_name appends the labels, joined by dots. *)
Lemma parse_loop_spec chunk k p ls fuel pre room :
  name_at chunk k p ls → (k ≤ fuel)%nat → (length (join ls) ≤ room)%nat →
  wp (parse_loop fuel chunk p (length pre) (length pre))
     (λ len out, len = (length pre + length (join ls))%nat ∧
                 out = (pre ++ join ls) ++ replicate (room - length (join ls)) 0)
     (pre ++ replicate room 0).
Proof.
  intros Hn. revert fuel pre room.
  induction Hn as [p Hp|k p l ls Hl Hp Hb Hn IH|k p n ls Hp Hp1 Hne Hn IH];
    intros [|fuel] pre room Hf Hroom; try lia; cbn [parse_loop].
  - wp_step. eapply byte_spec; [done|]. cbn [Z.eqb]. wp_step. cbn.
    rewrite Nat.add_0_r, app_nil_r, Nat.sub_0_r. done.
  - destruct (label_flag l Hl) as (Ez&Eptr&En). assert (0 < length l)%nat by apply Hl.
    wp_step. eapply byte_spec; [done|]. rewrite Ez, Eptr, En. cbn zeta. wp_step.
    eapply block_spec; [done..|]. wp_step.
    assert (length l ≤ room)%nat as Hl1.
    { destruct ls; [done|]. rewrite join_length_cons in Hroom by done. lia. }
    apply put_at_append; [done..|]. wp_step.
    destruct (decide (ls = [])) as [->|Hne].
    + destruct (name_at_nil _ _ _ Hn) as [Hp' _]. eapply byte_spec; [done|].
      change (0 =? 0) with true. cbn match.
      specialize (IH fuel (pre ++ l) (room - length l)%nat). rewrite length_app in IH.
      eapply wp_mono; [apply IH; [lia|cbn; lia]|]. intros len out [-> ->].
      cbn [join length]. rewrite !app_nil_r, !Nat.add_0_r, !Nat.sub_0_r. done.
    + destruct (name_at_head _ _ _ _ Hn Hne) as (c&Hc&Ec). eapply byte_spec; [done|].
      rewrite Ec. rewrite join_length_cons in Hroom |- * by done. wp_step.
      apply put_at_append; [by rewrite length_app|cbn; lia|].
      specialize (IH fuel ((pre ++ l) ++ [dot]) (room - length l - 1)%nat).
      rewrite !length_app in IH. cbn [length] in IH |- *.
      replace (S (length pre + length l)) with (length pre + length l + 1)%nat by lia.
      eapply wp_mono; [apply IH; lia|]. intros len out [-> ->]. split; [lia|].
      destruct ls as [|l' ls]; [done|]. rewrite join_cons, <-!app_assoc. cbn [app].
      do 4 f_equal. f_equal. lia.
  - wp_step. eapply byte_spec; [done|]. cbn [Z.eqb]. change (is_pointer 0xC0) with true. cbn match.
    wp_step. eapply byte_spec; [done|]. rewrite Nat2Z.id. apply IH; [lia|done].
Qed.

Lemma name_at_encode pre ls post :
  Forall label_ok ls → name_at (pre ++ encode ls ++ post) (S (length ls)) (length pre) ls.
Proof.
  intros Hls. revert pre. induction Hls as [|l ls Hl Hls IH]; intros pre.
  - constructor. by rewrite lookup_app_r, Nat.sub_diag by lia.
  - rewrite encode_cons. cbn [length]. constructor; [done| | |].
    + by rewrite lookup_app_r, Nat.sub_diag by lia.
    + cbn [app]. rewrite cons_middle, app_assoc. rewrite drop_app_length' by (rewrite length_app; cbn; lia).
      by rewrite <-app_assoc, take_app_length.
    + specialize (IH (pre ++ Z.of_nat (length l) :: l)).
      rewrite length_app in IH. cbn [length] in IH.
      replace (S (length pre) + length l)%nat with (length pre + S (length l))%nat by lia.
      replace (pre ++ (Z.of_nat (length l) :: l ++ encode ls) ++ post)
        with ((pre ++ Z.of_nat (length l) :: l) ++ encode ls ++ post);
        [done|by rewrite <-!app_assoc; cbn; rewrite <-!app_assoc].
Qed.

Lemma cstring_zero bs k :
  Forall (λ c, 0 < c) bs → (0 < k)%nat → cstring (bs ++ replicate k 0) = Some bs.
Proof.
  induction 1 as [|c bs Hc _ IH]; intros Hk; [by destruct k; [lia|]|].
  cbn. rewrite (proj2 (Z.eqb_neq _ _)) by lia. by rewrite IH.
Qed.
Lemma join_positive ls : Forall label_ok ls → Forall (λ c, 0 < c) (join ls).
Proof.
  induction 1 as [|l ls [_ Hl] _ IH]; [by constructor|].
  assert (Forall (λ c, 0 < c) l) by (eapply Forall_impl; [exact Hl|]; cbn; lia).
  destruct ls as [|l' ls]; [done|]. rewrite join_cons.
  apply Forall_app. split; [done|]. by constructor.
Qed.
Lemma name_at_ok chunk k p ls : name_at chunk k p ls → Forall label_ok ls.
Proof. induction 1; [constructor|by constructor|done]. Qed.

(** A name of at most 128 bytes is read; below 128 it ends in NUL. *)
Lemma name_at_ptr_spec chunk k p ls fuel s :
  name_at chunk k p ls → (k ≤ fuel)%nat → (length (join ls) ≤ 128)%nat →
  wp (name_at_ptr fuel chunk p)
     (λ out s', s' = s ∧ ((length (join ls) < 128)%nat → cstring out = Some (join ls))) s.
Proof.
  intros Hn Hk Hl. pose proof (parse_loop_spec chunk k p ls fuel [] 128 Hn Hk Hl) as Hw.
  unfold name_at_ptr, dns_parse_name, wp in *. cbn [length app] in Hw.
  destruct (parse_loop _ _ _ _ _ _) as [[len out]| |]; [|done..].
  destruct Hw as [_ ->]. split; [done|]. intros Hlt.
  apply cstring_zero; [by eapply join_positive, name_at_ok|lia].
Qed.

(** C30: The name that dns_create_question writes for a host (labels of 1 to 63 bytes, fewer
    than 128 bytes in all) is read back by dns_parse_name as that host, wherever it stands
    in a reply. *)
Theorem host_name_roundtrip ls pre post fuel s :
  ls ≠ [] → Forall label_ok ls → (length (join ls) < 128)%nat → (length ls < fuel)%nat →
  ∃ q nm out, dns_create_question (join ls) [] = Ok ((0, q), []) ∧
    name q = Some (Some <$> nm) ∧
    name_at_ptr fuel (pre ++ nm ++ post) (length pre) s = Ok (out, s) ∧
    cstring out = Some (join ls).
Proof.
  intros Hne Hls Hlen Hf. rewrite question_name by (done || lia).
  eexists _, (encode ls).
  pose proof (name_at_ptr_spec _ _ _ _ fuel s (name_at_encode pre ls post Hls)) as Hw.
  apply wp_run in Hw as (out&s'&E&->&Hc); [|lia..]. exists out. auto.
Qed.
Lemma host_name_roundtrip_witness :
  ∃ q nm out, dns_create_question (codes "v.baidu.com") [] = Ok ((0, q), []) ∧
    name q = Some (Some <$> nm) ∧
    name_at_ptr 4 ([1; 2] ++ nm ++ [9]) 2 (DnsSt [] [] []) = Ok (out, DnsSt [] [] []) ∧
    cstring out = Some (codes "v.baidu.com").
Proof.
  apply (host_name_roundtrip [codes "v"; codes "baidu"; codes "com"] [1; 2] [9]); [done| |cbn; lia..].
  refine (bool_decide_unpack _ _). by vm_compute.
Defined.

(** The datagram for a host is a DNS query: the header with one question and recursion
    desired, the encoded name, type A, class IN; every byte of it was written. *)
Theorem query_is_wellformed random_ ls :
  ls ≠ [] → Forall label_ok ls → (length (join ls) ≤ 253)%nat →
  ∃ q, dns_create_question (join ls) [] = Ok ((0, q), []) ∧
    wp (dns_build_request (dns_create_header random_) q 1024)
       (λ n m, n = Z.of_nat (length (query_bytes random_ ls)) ∧
               take (Z.to_nat n) m = Some <$> query_bytes random_ ls)
       (replicate 1024 (Some 0)).
Proof.
  intros Hne Hls Hlen. rewrite question_name by (done || lia). eexists. split; [done|].
  apply build_request_bytes. rewrite encode_length by done. lia.
Qed.
Lemma query_is_wellformed_witness :
  ∃ q, dns_create_question (codes "www.163.com") [] = Ok ((0, q), []) ∧
    wp (dns_build_request (dns_create_header 0x1234) q 1024)
       (λ n m, n = 29 ∧ take (Z.to_nat n) m = Some <$>
          [0x34; 0x12; 1; 0; 0; 1; 0; 0; 0; 0; 0; 0] ++
          [3; 119; 119; 119; 3; 49; 54; 51; 3; 99; 111; 109; 0] ++ [0; 1; 0; 1])
       (replicate 1024 (Some 0)).
Proof.
  apply (query_is_wellformed 0x1234 [codes "www"; codes "163"; codes "com"]); [done| |cbn; lia].
  refine (bool_decide_unpack _ _). by vm_compute.
Defined.
