(* ===== verification/DnsReply.v ===== *)
(** DNS client, part 3: which replies dns_parse_response reads as RFC 1035 means them, and
    which it does not. *)
From S2P Require Import Prelude DnsQuery DnsParse.

(** ** A reply of address and alias records *)

Definition short_is (chunk : list Z) (p : nat) (v : Z) : Prop :=
  ∃ a b, chunk !! p = Some a ∧ chunk !! S p = Some b ∧ v = a * 2 ^ 8 + b.
Definition long_is (chunk : list Z) (p : nat) (v : Z) : Prop :=
  ∃ hi lo, short_is chunk p hi ∧ short_is chunk (p + 2) lo ∧ 0 ≤ lo < 2 ^ 16 ∧ v = hi * 2 ^ 16 + lo.

(** [qs] are the names asked for, from [p] to [p']. *)
Fixpoint questions_at (chunk : list Z) (p : nat) (qs : list (list (list Z))) (p' : nat) : Prop :=
  match qs with
  | [] => p' = p
  | q :: qs => Forall label_ok q ∧ take (length (encode q)) (drop p chunk) = encode q ∧
      questions_at chunk (p + length (encode q) + 4) qs p'
  end.

(** [n] records from [p]: the owner of each is compressed to a pointer, its names take at
    most [k] labels and pointers and 127 bytes; the addresses are [its], each with its
    owner and its time to live in seconds. *)
Inductive answers_at (chunk : list Z) (k : nat) : nat → nat → list (list Z * list Z * Z) → Prop :=
| aa_end p : answers_at chunk k p 0 []
| aa_host p n k' ls ip4 ttl its :
    chunk !! p = Some 0xC0 → name_at chunk k' p ls → (k' ≤ k)%nat → (length (join ls) < 128)%nat →
    short_is chunk (p + 2) DNS_HOST → long_is chunk (p + 6) ttl → short_is chunk (p + 10) 4 →
    length ip4 = 4%nat → take 4 (drop (p + 12) chunk) = ip4 →
    answers_at chunk k (p + 16) n its →
    answers_at chunk k p (S n) ((join ls, ip4, ttl) :: its)
| aa_alias p n k' ls k2 ls2 ttl len its :
    chunk !! p = Some 0xC0 → name_at chunk k' p ls → (k' ≤ k)%nat → (length (join ls) < 128)%nat →
    short_is chunk (p + 2) DNS_CNAME → long_is chunk (p + 6) ttl →
    short_is chunk (p + 10) (Z.of_nat len) →
    name_at chunk k2 (p + 12) ls2 → (k2 ≤ k)%nat → (length (join ls2) < 128)%nat →
    answers_at chunk k (p + 12 + len) n its →
    answers_at chunk k p (S n) its.

Definition item_of (x : list Z * list Z * Z) : dns_item := DnsItem x.1.1 (inet_ntop x.1.2).
(** The minutes and seconds that are printed are those of the upper 16 bits of the time to
    live: 0 and 0 below 65536 seconds. *)
Definition line_of (x : list Z * list Z * Z) : list Z * string * Z * Z :=
  (x.1.1, inet_ntop x.1.2, x.2 / 2 ^ 16 / 60, (x.2 / 2 ^ 16) mod 60).

Lemma short_at_spec chunk p v (Q : Z → dns_st → Prop) s :
  short_is chunk p v → Q v s → wp (short_at chunk p) Q s.
Proof.
  intros (a&b&Ha&Hb&->) HQ. unfold short_at. wp_step. eapply byte_spec; [done|]. wp_step.
  eapply byte_spec; [done|]. by wp_step.
Qed.

Lemma long_at_spec chunk p v (Q : Z → dns_st → Prop) s :
  long_is chunk p v → Q (v / 2 ^ 16) s → wp (short_at chunk p) Q s.
Proof.
  intros (hi & lo & Hhi & _ & Hlo & ->) HQ. eapply short_at_spec; [exact Hhi|].
  rewrite Z.div_add_l, Z.div_small, Z.add_0_r in HQ by lia. exact HQ.
Qed.
Lemma add_item_spec answers cnt aname netip ttl nm s :
  cstring aname = Some nm → callocs s = [] → (cnt < answers)%nat →
  wp (add_item answers cnt aname netip (ttl / 2 ^ 16))
     (λ _ s', s' = DnsSt [] (items s ++ [item_of (nm, netip, ttl)])
                     (lines s ++ [line_of (nm, netip, ttl)])) s.
Proof.
  intros Hn Hc Hlt. unfold add_item. rewrite Hn, (proj2 (Nat.ltb_lt _ _) Hlt). unfold wp, bind, from_opt, calloc, modify, get, ret.
  cbn. by rewrite !Hc.
Qed.

Lemma answer_loop_spec chunk k fuel answers n p its cnt s :
  answers_at chunk k p n its → (k ≤ fuel)%nat → callocs s = [] → (cnt + n ≤ answers)%nat →
  wp (answer_loop fuel chunk answers n p cnt)
     (λ r s', r = Z.of_nat (cnt + length its) ∧
        s' = DnsSt [] (items s ++ (item_of <$> its)) (lines s ++ (line_of <$> its))) s.
Proof.
  intros Ha Hf. revert cnt s.
  induction Ha as [p|p n k' ls ip4 ttl its Hc0 Hn Hk Hlen Ht Httl Hdl Hip Hb Ha IH
                  |p n k' ls k2 ls2 ttl len its Hc0 Hn Hk Hlen Ht Httl Hdl Hn2 Hk2 Hlen2 Ha IH];
    intros cnt s Hs Hcnt; cbn [answer_loop].
  - wp_step. cbn. rewrite Nat.add_0_r, !app_nil_r. split; [done|]. destruct s; cbn in *; by subst.
  - wp_step. eapply wp_mono; [eapply name_at_ptr_spec; [done|lia|lia]|].
    intros out ? [-> Hout]. specialize (Hout Hlen). wp_step.
    eapply short_at_spec; [done|]. wp_step.
    eapply long_at_spec; [by replace (p + 2 + 4)%nat with (p + 6)%nat by lia|]. wp_step.
    eapply short_at_spec; [by replace (p + 2 + 4 + 4)%nat with (p + 10)%nat by lia|]. wp_step.
    change (DNS_HOST =? DNS_CNAME) with false. change (DNS_HOST =? DNS_HOST) with true.
    change (4 =? 4) with true. cbn match.
    replace (p + 2 + 4 + 4 + 2)%nat with (p + 12)%nat by lia.
    wp_step. eapply block_spec; [done|done|lia|]. wp_step.
    eapply wp_mono; [eapply add_item_spec; [done|done|lia]|]. intros _ ? ->.
    change (Z.to_nat 4) with 4%nat. replace (p + 12 + 4)%nat with (p + 16)%nat by lia.
    eapply wp_mono; [apply IH; [done|lia]|]. intros r s' [-> ->]. cbn [items lines callocs].
    rewrite <-!app_assoc. split; [cbn; f_equal; lia|done].
  - wp_step. eapply wp_mono; [eapply name_at_ptr_spec; [done|lia|lia]|].
    intros out ? [-> _]. wp_step.
    eapply short_at_spec; [done|]. wp_step.
    eapply long_at_spec; [by replace (p + 2 + 4)%nat with (p + 6)%nat by lia|]. wp_step.
    eapply short_at_spec; [by replace (p + 2 + 4 + 4)%nat with (p + 10)%nat by lia|]. wp_step.
    change (DNS_CNAME =? DNS_CNAME) with true. cbn match.
    replace (p + 2 + 4 + 4 + 2)%nat with (p + 12)%nat by lia. wp_step.
    eapply wp_mono; [eapply name_at_ptr_spec; [done|lia|lia]|]. intros out2 ? [-> _].
    rewrite Nat2Z.id. apply IH; [done|lia].
Qed.

Lemma encode_head q : encode q ≠ [].
Proof. unfold encode. by destruct (concat _). Qed.
Lemma skip_name_spec chunk p q fuel s (Q : nat → dns_st → Prop) :
  Forall label_ok q → take (length (encode q)) (drop p chunk) = encode q →
  (length q < fuel)%nat → Q (p + length (encode q))%nat s → wp (skip_name fuel chunk p) Q s.
Proof.
  intros Hq. revert p fuel. induction Hq as [|l q Hl Hq IH]; intros p [|fuel] Htake Hf HQ;
    try (cbn in Hf; lia); cbn [skip_name].
  - assert (chunk !! p = Some 0) as Hp.
    { apply (f_equal (lookup 0%nat)) in Htake. rewrite lookup_take_lt, lookup_drop in Htake by (cbn; lia).
      by rewrite Nat.add_0_r in Htake. }
    wp_step. eapply byte_spec; [done|]. cbn. by rewrite Nat.add_0_r.
  - rewrite encode_cons in Htake, HQ. cbn [length] in Htake, HQ. rewrite length_app in Htake, HQ.
    assert (chunk !! p = Some (Z.of_nat (length l))) as Hp.
    { apply (f_equal (lookup 0%nat)) in Htake. rewrite lookup_take_lt, lookup_drop in Htake by lia.
      by rewrite Nat.add_0_r in Htake. }
    destruct (label_flag l Hl) as (Ez&_&En).
    wp_step. eapply byte_spec; [done|]. rewrite Ez, En. apply IH.
    + apply (f_equal (drop (S (length l)))) in Htake.
      rewrite skipn_firstn_comm, drop_drop in Htake.
      replace (S (length l + length (encode q)) - S (length l))%nat with (length (encode q)) in Htake by lia.
      replace (p + length l + 1)%nat with (p + S (length l))%nat by lia. rewrite Htake.
      cbn [drop]. by rewrite drop_app_length.
    + cbn in Hf. lia.
    + by replace (p + length l + 1 + length (encode q))%nat with (p + S (length l + length (encode q)))%nat by lia.
Qed.

Lemma length_encode_gt q : (length q < length (encode q))%nat.
Proof.
  induction q as [|l q IH]; [by cbn; lia|]. rewrite encode_cons. cbn [length].
  rewrite length_app. lia.
Qed.
Lemma skip_questions_spec chunk p qs p' s (Q : nat → dns_st → Prop) :
  questions_at chunk p qs p' → Q p' s → wp (skip_questions (length qs) chunk p) Q s.
Proof.
  revert p. induction qs as [|q qs IH]; intros p;
    cbn [length questions_at skip_questions]; [by intros ->|].
  intros (Hq&Htake&Hrest) HQ. apply wp_bind.
  eapply skip_name_spec; [done|done| |by eapply IH].
  apply (f_equal length) in Htake. rewrite length_take, length_drop in Htake.
  pose proof (length_encode_gt q). lia.
Qed.

(** A reply whose answers are [its]. *)
Definition reply_says (chunk : list Z) (k : nat) (its : list (list Z * list Z * Z)) : Prop :=
  ∃ qs p n, short_is chunk 4 (Z.of_nat (length qs)) ∧ short_is chunk 6 (Z.of_nat n) ∧
    questions_at chunk 12 qs p ∧ answers_at chunk k p n its.

Lemma reply_read chunk k its fuel ls :
  reply_says chunk k its → (k ≤ fuel)%nat →
  dns_parse_response fuel chunk (DnsSt [] [] ls) =
  Ok (Z.of_nat (length its), DnsSt [] (item_of <$> its) (ls ++ (line_of <$> its))).
Proof.
  intros (qs&p&n&Hqn&Hn&Hqs&Hans) Hk. apply wp_det. unfold dns_parse_response, calloc. wp_step.
  eapply short_at_spec; [done|]. wp_step. eapply short_at_spec; [done|]. wp_step.
  rewrite !Nat2Z.id. eapply skip_questions_spec; [done|].
  wp_step. cbn [callocs]. wp_step. cbn [negb]. wp_step.
  eapply wp_mono; [eapply answer_loop_spec; [done|done|done|lia]|]. by intros r s' [-> ->].
Qed.

(** A reply whose answers are address and alias records with compressed owners is read
    as RFC 1035 says but for the time to live, whatever the number of questions and records:
    the result is the number of addresses, and every address is listed, and printed, with
    the name that owns it, in order.  (Names have fewer than 128 bytes; calloc succeeds.) *)
Theorem reply_is_read chunk k its fuel ls :
  reply_says chunk k its → (k ≤ fuel)%nat →
  dns_parse_response fuel chunk (DnsSt [] [] ls) =
  Ok (Z.of_nat (length its), DnsSt [] (item_of <$> its) (ls ++ (line_of <$> its))).
Proof. apply reply_read. Qed.

(** ** A request and its reply *)


(** An alias and an address: v.cn is w.cn, whose address is 10.0.0.7. *)
Definition demo_datagram : list Z :=
  [0; 7; 0x81; 0x80; 0; 1; 0; 2; 0; 0; 0; 0] ++
  [1; 118; 2; 99; 110; 0; 0; 1; 0; 1] ++
  [0xC0; 12; 0; 5; 0; 1; 0; 0; 0; 60; 0; 4; 1; 119; 0xC0; 14] ++
  [0xC0; 34; 0; 1; 0; 1; 0; 1; 0; 60; 0; 4; 10; 0; 0; 7].
Definition demo_reply : list Z := response (Some demo_datagram).

Ltac decided := refine (bool_decide_unpack _ _); by vm_compute.
Ltac short := eexists _, _; split_and!; by vm_compute.
Ltac long := eexists _, _; split_and!; [short|short|first [lia|by vm_compute]..].
Lemma demo_says : reply_says demo_reply 5 [(codes "w.cn", [10; 0; 0; 7], 65596)].
Proof.
  assert (name_at demo_reply 2 14 [codes "cn"]) as Hcn.
  { apply na_label; [decided|by vm_compute..|]. by apply na_end. }
  assert (name_at demo_reply 4 34 [codes "w"; codes "cn"]) as Hw.
  { apply na_label; [decided|by vm_compute..|]. by apply (na_pointer _ _ _ 14). }
  exists [[codes "v"; codes "cn"]], 22%nat, 2%nat. split_and!; [short|short| |].
  - cbn [questions_at]. split; [decided|]. split; [by vm_compute|done].
  - apply (aa_alias _ _ _ _ 4 [codes "v"; codes "cn"] 4 [codes "w"; codes "cn"] 60 4);
      [done| |lia|cbn; lia|short|long|short|done|lia|cbn; lia|].
    + apply (na_pointer _ _ _ 12); [done..|].
      apply na_label; [decided|by vm_compute..|]. exact Hcn.
    + change (codes "w.cn") with (join [codes "w"; codes "cn"]).
      apply (aa_host _ _ _ _ 5 [codes "w"; codes "cn"]);
        [done| |lia|cbn; lia|short|long|short|done|by vm_compute|constructor].
      by apply (na_pointer _ _ _ 34).
Qed.
Lemma reply_is_read_witness :
  dns_parse_response 5 demo_reply (DnsSt [] [] []) =
  Ok (1, DnsSt [] [DnsItem (codes "w.cn") "10.0.0.7"] [(codes "w.cn", "10.0.0.7"%string, 0, 1)]).
Proof. apply (reply_is_read demo_reply 5 _ 5 [] demo_says). lia. Defined.

(** ** Replies that are not read *)

Lemma self_pointer chunk p pos len fuel out :
  chunk !! p = Some 0xC0 → chunk !! S p = Some (Z.of_nat p) →
  parse_loop fuel chunk p pos len out = OutOfFuel.
Proof.
  intros H0 H1. revert pos len out. induction fuel as [|fuel IH]; intros pos len out; [done|].
  cbn [parse_loop]. unfold byte, bind. rewrite H0. cbn [from_opt ret].
  change (0xC0 =? 0) with false. change (is_pointer 0xC0) with true. cbn match.
  rewrite H1. cbn [from_opt ret]. rewrite Nat2Z.id. apply IH.
Qed.

Lemma answer_loop_stuck fuel chunk answers n ptr cnt s :
  name_at_ptr fuel chunk ptr s = OutOfFuel →
  answer_loop fuel chunk answers (S n) ptr cnt s = OutOfFuel.
Proof. intros E. cbn [answer_loop]. unfold bind at 1. by rewrite E. Qed.

(** C40: A name that is a pointer to itself makes dns_parse_name call itself for ever: the
    client does not return from the reply of 14 bytes below, whatever the number of calls
    one grants it. *)
Theorem pointer_loop_never_returns :
  let reply := response (Some [0; 7; 0x81; 0x80; 0; 0; 0; 1; 0; 0; 0; 0; 0xC0; 12]) in
  ∀ fuel ls, dns_parse_response fuel reply (DnsSt [] [] ls) = OutOfFuel.
Proof.
  intros reply fuel ls. change (dns_parse_response fuel reply (DnsSt [] [] ls)) with
    (answer_loop fuel reply 1 1 12 0 (DnsSt [] [] ls)).
  apply answer_loop_stuck. unfold name_at_ptr, dns_parse_name.
  by rewrite (self_pointer reply 12 0 0 fuel (replicate 128 0) eq_refl eq_refl).
Qed.

(** A name of three labels of 63 bytes, which DNS allows, overruns the array of 128
    bytes. *)
Theorem long_name_overflows :
  let label := 63 :: replicate 63 97 in
  let reply := response (Some ([0; 7; 0x81; 0x80; 0; 0; 0; 1; 0; 0; 0; 0] ++
    label ++ label ++ label ++ [0])) in
  Forall label_ok (replicate 3 (replicate 63 97)) ∧
  dns_parse_response 10 reply (DnsSt [] [] []) = UB OutOfBounds.
Proof. cbn zeta. split; [decided|by vm_compute]. Qed.

(** The data of a record that is neither an address nor an alias is not skipped: behind an
    AAAA record (type 28, here for "::"), an address of the host is not found. *)
Theorem other_record_hides_address :
  let question := [1; 118; 2; 99; 110; 0; 0; 1; 0; 1] in
  let aaaa := [0xC0; 12; 0; 28; 0; 1; 0; 0; 0; 60; 0; 16] ++ replicate 16 0 in
  let a := [0xC0; 12; 0; 1; 0; 1; 0; 0; 0; 60; 0; 4; 10; 0; 0; 7] in
  let header n := [0; 7; 0x81; 0x80; 0; 1; 0; n; 0; 0; 0; 0] in
  dns_parse_response 10 (response (Some (header 1 ++ question ++ a))) (DnsSt [] [] []) =
    Ok (1, DnsSt [] [DnsItem (codes "v.cn") "10.0.0.7"] [(codes "v.cn", "10.0.0.7"%string, 0, 0)]) ∧
  dns_parse_response 10 (response (Some (header 2 ++ question ++ aaaa ++ a))) (DnsSt [] [] []) =
    Ok (0, DnsSt [] [] []).
Proof. by vm_compute. Qed.

(** main walks past the end of its table of host names: unless a request stops the
    process, it reads the entry after the last one. *)
Theorem main_reads_past_table pf nets s :
  (∀ i host s, is_Ok (dns_client_commit pf [] (nets i) host s)) →
  main_loop pf 46 nets 0 s = UB OutOfBounds.
Proof.
  intros Hok.
  assert (∀ k i s, (i + k = 45)%nat → main_loop pf (S k) nets i s = UB OutOfBounds) as H.
  { induction k as [|k IH]; intros i st Hi; cbn [main_loop]; unfold bind at 1, from_opt.
    - rewrite (lookup_ge_None_2 domains i); [done|]. cbn. lia.
    - destruct (lookup_lt_is_Some_2 domains i) as [host ->]; [cbn; lia|]. cbn [ret].
      unfold bind at 1. specialize (Hok i host st). unfold is_Ok in Hok.
      destruct (dns_client_commit _ _ _ _ _) as [[r st']| |]; [|done..]. apply IH. lia. }
  by apply H.
Qed.
Lemma main_reads_past_table_witness :
  main_loop 10 46 (λ _, Net false true 0 None) 0 (DnsSt [] [] []) = UB OutOfBounds.
Proof. apply (main_reads_past_table 10 (λ _, Net false true 0 None)). done. Defined.
