(* ===== verification/WsFrame.v ===== *)
(** WebSocket server, part 1: frames and the opening handshake
    (senior/2.1_network_io/04_Websocket/Websocket.c).  A buffer is its list of bytes; SHA1
    and the BIO chain of OpenSSL are a class. *)
From S2P Require Import Prelude.
From Stdlib Require Import Ascii.

Definition BUFFER_LENGTH : nat := 4096.

(** SHA1 of a string, and what BIO_f_base64 writes for it, with the newline it ends in. *)
Class Openssl := {
  SHA1 : list Z → list Z;
  bio_base64 : list Z → list Z;
}.

Section ws.
Context {St : Type}.

(** ** Buffers *)

Definition rd (buf : list Z) (i : nat) : M St Z := from_opt OutOfBounds (buf !! i).
(** [buf] with [bs] written at [i]. *)
Definition wr (buf : list Z) (i : nat) (bs : list Z) : M St (list Z) :=
  if (i + length bs <=? length buf)%nat
  then ret (take i buf ++ bs ++ drop (i + length bs) buf) else undef OutOfBounds.
(** The bytes before the first NUL from [i] on; strlen, "%s" and strcat need one. *)
Fixpoint until_nul (l : list Z) : option (list Z) :=
  match l with
  | [] => None
  | c :: l => if c =? 0 then Some [] else cons c <$> until_nul l
  end.
Definition str_at (buf : list Z) (i : nat) : M St (list Z) :=
  from_opt OutOfBounds (until_nul (drop i buf)).

(** ** Frames *)

(** The two bytes of struct _nty_ophdr. *)
Record nty_ophdr := Ophdr {
  opcode : Z; rsv3 : Z; rsv2 : Z; rsv1 : Z; fin : Z; payload_length : Z; mask : Z }.
Definition ophdr_of (b0 b1 : Z) : nty_ophdr :=
  Ophdr (Z.land b0 15) (Z.land (Z.shiftr b0 4) 1) (Z.land (Z.shiftr b0 5) 1)
    (Z.land (Z.shiftr b0 6) 1) (Z.land (Z.shiftr b0 7) 1) (Z.land b1 127)
    (Z.land (Z.shiftr b1 7) 1).
Definition ophdr_bytes (h : nty_ophdr) : list Z :=
  [opcode h + 16 * rsv3 h + 32 * rsv2 h + 64 * rsv1 h + 128 * fin h;
   payload_length h + 128 * mask h].

Fixpoint demask_loop (i : nat) (data mask : list Z) : list Z :=
  match data with
  | [] => []
  | c :: data => Z.lxor c (nth (i mod 4) mask 0) :: demask_loop (S i) data mask
  end.
(** demask on [len] bytes of the buffer from [start]. *)
Definition demask (buf : list Z) (start len : nat) (mask : list Z) : M St (list Z) :=
  if (start + len <=? length buf)%nat
  then wr buf start (demask_loop 0 (take len (drop start buf)) mask) else undef OutOfBounds.

(** A little-endian integer of [n] bytes at [i]. *)
Fixpoint le_at (buf : list Z) (i n : nat) : M St Z :=
  match n with
  | O => ret 0
  | S n => b ← rd buf i; v ← le_at buf (S i) n; ret (b + 256 * v)
  end.
Definition rd4 (buf : list Z) (i : nat) : M St (list Z) :=
  a ← rd buf i; b ← rd buf (i + 1); c ← rd buf (i + 2); d ← rd buf (i + 3); ret [a; b; c; d].

(** The buffer after demask, the mask, [*ret], and where the data starts. *)
Definition decode_packet (stream : list Z) : M St (list Z * list Z * Z * nat) :=
  b0 ← rd stream 0; b1 ← rd stream 1;
  let hdr := ophdr_of b0 b1 in
  ' (size, mask, start) ←
    (if Z.land (mask hdr) 0x7F =? 126 then
       size ← le_at stream 2 2; mask ← rd4 stream 4; ret (size, mask, 8%nat)
     else if Z.land (mask hdr) 0x7F =? 127 then
       size ← le_at stream 2 8; mask ← rd4 stream 10; ret (i32 size, mask, 14%nat)
     else mask ← rd4 stream 2; ret (payload_length hdr, mask, 6%nat));
  stream ← demask stream start (Z.to_nat size) mask;
  ret (stream, mask, size, start).

(** [stream] is the data, of [length] bytes. *)
Definition encode_packet (buffer mask stream : list Z) (length_ : Z) : M St (list Z * Z) :=
  let head := Ophdr 1 0 0 0 1 0 0 in
  buffer ←
    (if length_ <? 126 then
       wr buffer 0 (ophdr_bytes (Ophdr 1 0 0 0 1 (Z.land length_ 127) 0))
     else if length_ <? 0xffff then
       buffer ← wr buffer 0 (ophdr_bytes head);
       wr buffer 2 ([length_ mod 256; length_ / 256 mod 256] ++ mask ++ replicate 8 0)
     else
       buffer ← wr buffer 0 (ophdr_bytes head);
       wr buffer 2 (((λ i, length_ / 2 ^ (8 * Z.of_nat i) mod 256) <$> seq 0 8) ++
                    mask ++ replicate 8 0));
  buffer ← wr buffer 2 stream;
  ret (buffer, length_ + 2).

(** ** The handshake *)

Definition text (s : string) : list Z :=
  (λ c, Z.of_N (N_of_ascii c)) <$> String.list_ascii_of_string s.
Definition GUID : list Z := text "258EAFA5-E914-47DA-95CA-C5AB0DC85B11".
Definition WEBSOCK_KEY_LENGTH : nat := 19.
Definition CR : Z := 13.
Definition LF : Z := 10.

(** The loop of readline from [level]; [len] is strlen(allbuf), [linebuf] an array of which
    [k] bytes are written.  The result is the index behind the line, or -1. *)
Fixpoint read_loop (fuel : nat) (allbuf : list Z) (len level : nat) (linebuf : list Z) (k : nat)
    : M St (Z * list Z) :=
  if (level <? len)%nat then
    match fuel with
    | O => no_fuel
    | S fuel =>
        c ← rd allbuf level;
        d ← (if c =? CR then rd allbuf (S level) else ret 0);
        if (c =? CR) && (d =? LF) then ret (Z.of_nat level + 2, linebuf)
        else linebuf ← wr linebuf k [c];
             read_loop fuel allbuf len (S level) linebuf (S k)
    end
  else ret (-1, linebuf).
Definition readline (allbuf : list Z) (level : nat) (linebuf : list Z) : M St (Z * list Z) :=
  s ← str_at allbuf 0;
  read_loop (length allbuf) allbuf (length s) level linebuf 0.

(** strstr(line, needle) != NULL. *)
Fixpoint contains (needle line : list Z) : bool :=
  bool_decide (needle = take (length needle) line) ||
  match line with [] => false | _ :: line => contains needle line end.

Context {OSSL : Openssl}.

(** The result string: what BIO wrote, its last byte replaced by NUL. *)
Definition base64_encode (in_str : list Z) (out_str : list Z) : M St (list Z) :=
  let out := bio_base64 in_str in
  out_str ← wr out_str 0 out;
  if (length out =? 0)%nat then undef OutOfBounds else wr out_str (length out - 1) [0].

Definition answer_head : list Z :=
  text "HTTP/1.1 101 Switching Protocols" ++ [CR; LF] ++
  text "Upgrade: websocket" ++ [CR; LF] ++ text "Connection: Upgrade" ++ [CR; LF] ++
  text "Sec-WebSocket-Accept: ".

(** The answer to the line in [linebuf]: the write buffer and its length. *)
Definition accept_key (linebuf : list Z) : M St (list Z * Z) :=
  line ← str_at linebuf 0;
  linebuf ← wr linebuf (length line) (GUID ++ [0]);
  key ← str_at linebuf WEBSOCK_KEY_LENGTH;
  sec_data ← wr (replicate 128 0) 0 (SHA1 key);
  digest ← str_at sec_data 0;
  sec_accept ← base64_encode digest (replicate 32 0);
  acc ← str_at sec_accept 0;
  let answer := answer_head ++ acc ++ [CR; LF; CR; LF] in
  wbuffer ← wr (replicate BUFFER_LENGTH 0) 0 (answer ++ [0]);
  ret (wbuffer, Z.of_nat (length answer)).

(** The loop of handshake from [idx]; [None] when it ends without an answer.  The condition
    of the loop reads rbuffer[idx] before it tests idx. *)
Fixpoint handshake_loop (fuel : nat) (rbuffer : list Z) (idx : nat)
    : M St (option (list Z * Z)) :=
  match fuel with
  | O => no_fuel
  | S fuel =>
      ' (idx, linebuf) ← readline rbuffer idx (replicate 1024 0);
      line ← str_at linebuf 0;
      if contains (text "Sec-WebSocket-Key") line then
        a ← accept_key linebuf; ret (Some a)
      else if idx <? 0 then undef OutOfBounds
      else
        let idx := Z.to_nat idx in
        c ← rd rbuffer idx;
        d ← (if c =? CR then rd rbuffer (S idx) else ret 0);
        if (c =? CR) && (d =? LF) then ret None else handshake_loop fuel rbuffer idx
  end.
Definition handshake (rbuffer : list Z) : M St (option (list Z * Z)) :=
  handshake_loop (S (length rbuffer)) rbuffer 0.
End ws.
