(* ===== verification/WsServer.v ===== *)
(** WebSocket server, part 2: the connection table, the callbacks and the event loop
    (senior/2.1_network_io/04_Websocket/reactor.c, server.h; ws_request of Websocket.c).
    What the kernel reports is input. *)
From S2P Require Import Prelude WsFrame.

Definition CONNECTION_SIZE : Z := 1048576.

Inductive callback := CbNull | CbAccept | CbRecv | CbSend.
(** [payload] and [mask] of struct conn are never used. *)
Record conn := Conn {
  rbuffer : list Z; rlength : Z; wbuffer : list Z; wlength : Z;
  send_callback : callback; r_action : callback; status : Z }.
Definition zeros : list Z := replicate BUFFER_LENGTH 0.
Definition conn_zero : conn := Conn zeros 0 zeros 0 CbNull CbNull 0.

(** [conn_list] has the entries that were written, the others are zero; [epoll] is the
    interest set, [wire] what was handed to send. *)
Record server := Server {
  conn_list : gmap Z conn; epoll : gmap Z Z; wire : list (Z * list Z) }.

Definition get_conn (fd : Z) : M server conn :=
  if (0 <=? fd) && (fd <? CONNECTION_SIZE)
  then gets (λ s, default conn_zero (conn_list s !! fd)) else undef OutOfBounds.
Definition set_conn (fd : Z) (c : conn) : M server unit :=
  get_conn fd;; modify (λ s, Server (<[fd := c]> (conn_list s)) (epoll s) (wire s)).

Definition EPOLLIN : Z := 1.
Definition EPOLLOUT : Z := 4.
(** epoll_ctl ADD (flag 1) and MOD (flag 0); a call that fails changes nothing, and its
    result is not tested. *)
Definition set_event (fd event flag : Z) : M server unit :=
  modify (λ s,
    match epoll s !! fd with
    | None => if flag =? 0 then s else Server (conn_list s) (<[fd := event]> (epoll s)) (wire s)
    | Some _ => if flag =? 0 then Server (conn_list s) (<[fd := event]> (epoll s)) (wire s) else s
    end).
(** close(fd) takes it out of the interest set; the EPOLL_CTL_DEL behind it fails. *)
Definition close_fd (fd : Z) : M server unit :=
  modify (λ s, Server (conn_list s) (delete fd (epoll s)) (wire s)).

(** The fields it sets; status keeps its value. *)
Definition event_register (fd event : Z) : M server unit :=
  if fd <? 0 then ret () else
  c ← get_conn fd;
  set_conn fd (Conn zeros 0 zeros 0 CbSend CbRecv (status c));;
  set_event fd event 1.

(** [clientfd] is the result of accept. *)
Definition accept_cb (fd clientfd : Z) : M server Z :=
  if clientfd <? 0 then ret (-1) else event_register clientfd EPOLLIN;; ret 0.

Section server.
Context {OSSL : Openssl}.

Definition ws_request (fd : Z) : M server unit :=
  c ← get_conn fd;
  if status c =? 0 then
    a ← handshake (rbuffer c);
    match a with
    | Some (wb, wl) => set_conn fd (Conn (rbuffer c) (rlength c) wb wl
        (send_callback c) (r_action c) 1)
    | None => set_conn fd (Conn (rbuffer c) (rlength c) (wbuffer c) (wlength c)
        (send_callback c) (r_action c) 1)
    end
  else if status c =? 1 then
    ' (rb, mask, size, start) ← decode_packet (rbuffer c);
    str_at rb start;;
    ' (wb, wl) ← encode_packet (wbuffer c) mask (take (Z.to_nat size) (drop start rb)) size;
    set_conn fd (Conn rb (rlength c) wb wl (send_callback c) (r_action c) (status c))
  else ret ().
Definition ws_response (fd : Z) : M server unit := ret ().

(** [data] is what the peer has sent, [None] when recv fails. *)
Definition recv_cb (fd : Z) (data : option (list Z)) : M server Z :=
  c ← get_conn fd;
  match data with
  | None =>
      set_conn fd (Conn zeros (rlength c) (wbuffer c) (wlength c) (send_callback c) (r_action c) (status c));;
      close_fd fd;; ret 0
  | Some data =>
      let got := take BUFFER_LENGTH data in
      let rb := got ++ replicate (BUFFER_LENGTH - length got) 0 in
      if (length got =? 0)%nat then
        set_conn fd (Conn rb (rlength c) (wbuffer c) (wlength c) (send_callback c) (r_action c) (status c));;
        close_fd fd;; ret 0
      else
        set_conn fd (Conn rb (Z.of_nat (length got)) (wbuffer c) (wlength c)
          (send_callback c) (r_action c) (status c));;
        ws_request fd;;
        set_event fd EPOLLOUT 0;;
        ret (Z.of_nat (length got))
  end.

(** send takes all the bytes. *)
Definition send_cb (fd : Z) : M server Z :=
  ws_response fd;;
  c ← get_conn fd;
  n ← (if wlength c =? 0 then ret 0 else
       if (wlength c <? 0) || (Z.of_nat (length (wbuffer c)) <? wlength c) then undef OutOfBounds else
       modify (λ s, Server (conn_list s) (epoll s)
         (wire s ++ [(fd, take (Z.to_nat (wlength c)) (wbuffer c))]));;
       ret (wlength c));
  set_event fd EPOLLIN 0;;
  ret n.

(** A ready descriptor, with the result of the system call of its callback. *)
Record event := Event { ev_fd : Z; ev_events : Z; ev_accept : Z; ev_recv : option (list Z) }.
Definition call (cb : callback) (e : event) : M server Z :=
  match cb with
  | CbNull => undef NullDeref
  | CbAccept => accept_cb (ev_fd e) (ev_accept e)
  | CbRecv => recv_cb (ev_fd e) (ev_recv e)
  | CbSend => send_cb (ev_fd e)
  end.
Definition dispatch (e : event) : M server unit :=
  (if Z.land (ev_events e) EPOLLIN =? 0 then ret () else
   c ← get_conn (ev_fd e); call (r_action c) e;; ret ());;
  (if Z.land (ev_events e) EPOLLOUT =? 0 then ret () else
   c ← get_conn (ev_fd e); call (send_callback c) e;; ret ()).
Fixpoint event_loop (es : list event) : M server unit :=
  match es with [] => ret () | e :: es => dispatch e;; event_loop es end.

(** main, with the descriptor that init_server returns. *)
Definition server_start (sockfd : Z) (es : list event) : M server unit :=
  c ← get_conn sockfd;
  set_conn sockfd (Conn (rbuffer c) (rlength c) (wbuffer c) (wlength c) (send_callback c)
    CbAccept (status c));;
  set_event sockfd EPOLLIN 1;;
  event_loop es.
Definition server_zero : server := Server ∅ ∅ [].
End server.

(** ** Frames of a client *)

Definition is_byte (c : Z) : Prop := 0 ≤ c < 256.
(** A masked text frame with a payload of less than 126 bytes, as RFC 6455 has it. *)
Definition client_frame (mask payload : list Z) : list Z :=
  [0x81; 128 + Z.of_nat (length payload)] ++ mask ++ demask_loop 0 payload mask.
Definition server_frame (payload : list Z) : list Z :=
  [0x81; Z.of_nat (length payload)] ++ payload.

Lemma demask_loop_length i d m : length (demask_loop i d m) = length d.
Proof. revert i. induction d as [|c d IH]; intros i; cbn; [done|]. by rewrite IH. Qed.
(** Masking twice gives the payload back. *)
Lemma demask_involutive i d m : demask_loop i (demask_loop i d m) m = d.
Proof.
  revert i. induction d as [|c d IH]; intros i; cbn [demask_loop]; [done|].
  by rewrite IH, Z.lxor_assoc, Z.lxor_nilpotent, Z.lxor_0_r.
Qed.

Lemma wp_rd {St} buf i c (Q : Z → St → Prop) s :
  buf !! i = Some c → Q c s → wp (rd buf i) Q s.
Proof. intros Hc. unfold rd. by rewrite Hc. Qed.
Lemma wp_wr {St} buf i bs (Q : list Z → St → Prop) s :
  (i + length bs ≤ length buf)%nat → Q (take i buf ++ bs ++ drop (i + length bs) buf) s →
  wp (wr buf i bs) Q s.
Proof. intros Hl HQ. unfold wr. by rewrite (proj2 (Nat.leb_le _ _) Hl). Qed.
Lemma wp_wr_middle {St} a b c bs (Q : list Z → St → Prop) s :
  length b = length bs → Q (a ++ bs ++ c) s → wp (wr (a ++ b ++ c) (length a) bs) Q s.
Proof.
  intros Hl HQ. apply wp_wr; [rewrite !length_app; lia|].
  rewrite take_app_length. rewrite (app_assoc a b c), drop_app_length'; [done|].
  rewrite length_app. lia.
Qed.

(** The test of the mask bit for 126 and 127 always fails: whatever the frame is, its length
    is the 7-bit field and its mask the four bytes behind the header. *)
Lemma decode_frame {St} b0 b1 m d rest (s : St) :
  length m = 4%nat → Z.land b1 127 = Z.of_nat (length d) →
  decode_packet (b0 :: b1 :: m ++ d ++ rest) s =
  Ok ((b0 :: b1 :: m ++ demask_loop 0 d m ++ rest, m, Z.of_nat (length d), 6%nat), s).
Proof.
  intros Hm Hd.
  assert (∀ k, 1 < k → (Z.land (Z.land (Z.shiftr b1 7) 1) 127 =? k) = false) as Hk.
  { intros k Hk. apply Z.eqb_neq. rewrite <-Z.land_assoc. change (Z.land 1 127) with (Z.ones 1).
    rewrite Z.land_ones by lia. pose proof (Z.mod_pos_bound (Z.shiftr b1 7) (2 ^ 1)). lia. }
  destruct m as [|m0 [|m1 [|m2 [|m3 [|]]]]]; try done.
  unfold decode_packet. apply wp_det. wp_step. eapply wp_rd; [done|]. wp_step.
  eapply wp_rd; [done|]. cbn [mask ophdr_of payload_length].
  rewrite (Hk 126), (Hk 127) by lia. unfold rd4. wp_step.
  do 4 (eapply wp_rd; [done|]; wp_step). rewrite Hd, Nat2Z.id. cbn [app].
  set (m := [m0; m1; m2; m3]).
  change (b0 :: b1 :: m0 :: m1 :: m2 :: m3 :: ?x) with ((b0 :: b1 :: m) ++ x).
  unfold demask. rewrite (proj2 (Nat.leb_le _ _)) by (rewrite !length_app; cbn; lia).
  change 6%nat with (length (b0 :: b1 :: m)) at 1 2.
  rewrite drop_app_length, take_app_length.
  apply wp_wr_middle; [by rewrite demask_loop_length|]. by wp_step.
Qed.

Lemma mask_bit n : (n < 128)%nat → Z.land (128 + Z.of_nat n) 127 = Z.of_nat n.
Proof.
  intros Hn. change 127 with (Z.ones 7). rewrite Z.land_ones by lia.
  change (2 ^ 7) with 128. rewrite <-(Z.mul_1_l 128) at 1. rewrite Z.add_comm, Z_mod_plus by lia.
  apply Z.mod_small. lia.
Qed.

(** decode_packet gives the payload of a short frame, and unmasks it in place. *)
Lemma decode_short {St} m payload rest (s : St) :
  length m = 4%nat → (length payload < 128)%nat →
  decode_packet (client_frame m payload ++ rest) s =
  Ok ((([0x81; 128 + Z.of_nat (length payload)] ++ m) ++ payload ++ rest, m,
       Z.of_nat (length payload), 6%nat), s).
Proof.
  intros Hm Hlen. unfold client_frame. cbn [app]. rewrite <-app_assoc.
  rewrite decode_frame; [|done|by rewrite demask_loop_length, mask_bit].
  by rewrite demask_loop_length, demask_involutive.
Qed.

(** encode_packet writes a frame without mask. *)
Lemma encode_short {St} buffer m payload (s : St) :
  (length payload < 126)%nat → length buffer = BUFFER_LENGTH →
  ∃ rest, encode_packet buffer m payload (Z.of_nat (length payload)) s =
    Ok ((server_frame payload ++ rest, Z.of_nat (length payload) + 2), s) ∧
    length (server_frame payload ++ rest) = BUFFER_LENGTH.
Proof.
  intros Hlen Hbuf. unfold BUFFER_LENGTH in *.
  assert (Z.land (Z.of_nat (length payload)) 127 = Z.of_nat (length payload)) as El.
  { change 127 with (Z.ones 7). rewrite Z.land_ones by lia. apply Z.mod_small. lia. }
  exists (drop (2 + length payload) buffer). split.
  - apply wp_det. unfold encode_packet. rewrite (proj2 (Z.ltb_lt _ _)) by lia. rewrite El.
    wp_step. apply wp_wr; [cbn; lia|]. rewrite take_0. cbn [app].
    unfold ophdr_bytes. cbn [opcode rsv3 rsv2 rsv1 fin payload_length mask length plus app].
    wp_step. apply wp_wr; [cbn [length]; rewrite length_drop; lia|]. wp_step.
    cbn [take drop app plus]. rewrite drop_drop.
    change (1 + 16 * 0 + 32 * 0 + 64 * 0 + 128 * 1) with 0x81.
    rewrite Z.mul_0_r, Z.add_0_r. done.
  - unfold server_frame. rewrite !length_app, length_drop. cbn [length]. lia.
Qed.
