(* ===== verification/WsSession.v ===== *)
(** WebSocket server, part 3: what a client sees.  The opening handshake, the echo of short
    text frames over whole connections, and what the server gets wrong. *)
From S2P Require Import Prelude WsFrame WsServer.

(** What OpenSSL documents: a SHA1 digest has 20 bytes; base64 of [n] bytes, for at most 48
    of them, is one line of 4 * ceil(n / 3) characters, none of them NUL, and a newline. *)
Class OpensslLaws `{Openssl} := {
  sha1_length x : length (SHA1 x) = 20%nat;
  sha1_bytes x : Forall is_byte (SHA1 x);
  base64_line x : (0 < length x ≤ 48)%nat →
    ∃ b, bio_base64 x = b ++ [LF] ∧ length b = (4 * ((length x + 2) / 3))%nat ∧
         Forall (λ c, 0 < c) b;
}.

(** ** Strings in buffers *)

Lemma until_nul_app l r : Forall (λ c, 0 < c) l → until_nul (l ++ 0 :: r) = Some l.
Proof.
  induction 1 as [|c l Hc _ IH]; [done|]. cbn.
  rewrite (proj2 (Z.eqb_neq _ _)) by lia. by rewrite IH.
Qed.
Lemma until_nul_zeros l k : Forall (λ c, 0 < c) l → (0 < k)%nat → until_nul (l ++ replicate k 0) = Some l.
Proof. intros Hl Hk. destruct k as [|k]; [lia|]. by apply until_nul_app. Qed.
Lemma until_nul_total l k : (0 < k)%nat → ∃ r, until_nul (l ++ replicate k 0) = Some r.
Proof.
  intros Hk. induction l as [|c l [r IH]]; cbn; [destruct k; [lia|by eexists]|].
  destruct (c =? 0); [by eexists|]. rewrite IH. by eexists.
Qed.
Lemma until_nul_length l k d : until_nul (l ++ replicate k 0) = Some d → (length d ≤ length l)%nat.
Proof.
  revert d. induction l as [|c l IH]; intros d; cbn.
  - destruct k; cbn; [done|]. by intros [= <-].
  - case_match; [intros [= <-]; cbn; lia|]. destruct (until_nul _) as [d'|]; [|done].
    intros [= <-]. cbn. specialize (IH _ eq_refl). lia.
Qed.
Lemma str_at_spec {St} buf i l (Q : list Z → St → Prop) s :
  until_nul (drop i buf) = Some l → Q l s → wp (str_at buf i) Q s.
Proof. intros Hu. unfold str_at. by rewrite Hu. Qed.
Lemma wr_append {St} off a bs k (Q : list Z → St → Prop) s :
  off = length a → (length bs ≤ k)%nat →
  Q ((a ++ bs) ++ replicate (k - length bs) 0) s → wp (wr (a ++ replicate k 0) off bs) Q s.
Proof.
  intros -> Hl HQ. rewrite <-(take_drop (length bs) (replicate k 0)).
  apply wp_wr_middle; [rewrite length_take, length_replicate; lia|].
  by rewrite drop_replicate, app_assoc.
Qed.

Section session.
Context {St : Type}.

(** readline copies a line without CR. *)
Lemma read_loop_spec (line : list Z) fuel pre post done_ r len (s : St) :
  Forall (λ c, c ≠ CR) line → (length line < fuel)%nat → (length line ≤ r)%nat →
  (length pre + length line + 2 ≤ len)%nat →
  read_loop fuel (pre ++ line ++ CR :: LF :: post) len (length pre)
    (done_ ++ replicate r 0) (length done_) s =
  Ok ((Z.of_nat (length pre + length line + 2),
       (done_ ++ line) ++ replicate (r - length line) 0), s).
Proof.
  intros Hl. revert fuel pre done_ r. induction Hl as [|c line Hc Hl IH];
    intros [|fuel] pre done_ r Hf Hr Hlen; try (cbn in Hf; lia); cbn [read_loop];
    rewrite (proj2 (Nat.ltb_lt _ _)) by lia; apply wp_det; wp_step.
  - apply wp_rd with CR; [by rewrite lookup_app_r, Nat.sub_diag by lia|].
    rewrite (Z.eqb_refl CR). wp_step. apply wp_rd with LF.
    { rewrite lookup_app_r by lia. by replace (S (length pre) - length pre)%nat with 1%nat by lia. }
    rewrite (Z.eqb_refl LF). cbn [andb]. wp_step. cbn [length]. rewrite app_nil_r, Nat.sub_0_r.
    split; [|done]. f_equal. lia.
  - apply wp_rd with c; [by rewrite lookup_app_r, Nat.sub_diag by lia|].
    rewrite (proj2 (Z.eqb_neq _ _) Hc). wp_step. cbn [andb]. wp_step.
    cbn [length] in Hf, Hr, Hlen.
    apply wr_append; [done|cbn; lia|].
    specialize (IH fuel (pre ++ [c]) (done_ ++ [c]) (r - 1)%nat).
    rewrite !length_app in IH. cbn [length] in IH |- *.
    eapply wp_lift_pure.
    + replace (pre ++ (c :: line) ++ CR :: LF :: post)
        with ((pre ++ [c]) ++ line ++ CR :: LF :: post) by by rewrite <-app_assoc.
      replace (S (length pre)) with (length pre + 1)%nat by lia.
      replace (S (length done_)) with (length done_ + 1)%nat by lia. apply IH; lia.
    + split; [|done]. rewrite <-app_assoc.
      replace (r - S (length line))%nat with (r - 1 - length line)%nat by lia.
      f_equal; [f_equal; lia|by rewrite <-!app_assoc].
Qed.

(** A header line: not empty, no NUL, no CR, short. *)
Definition line_ok (l : list Z) : Prop :=
  (0 < length l ≤ 900)%nat ∧ Forall (λ c, 0 < c ∧ c ≠ CR) l.
Definition lines (ls : list (list Z)) : list Z := concat ((λ l, l ++ [CR; LF]) <$> ls).
Definition key_name : list Z := text "Sec-WebSocket-Key".
Definition key_line (key : list Z) : list Z := text "Sec-WebSocket-Key: " ++ key.

#[global] Instance line_ok_dec l : Decision (line_ok l).
Proof. unfold line_ok. apply _. Defined.

Lemma line_ok_pos l : line_ok l → Forall (λ c, 0 < c) l ∧ Forall (λ c, c ≠ CR) l.
Proof. intros [_ Hl]. split; (eapply Forall_impl; [exact Hl|]; cbn; tauto). Qed.

Lemma readline_spec pre l post k (s : St) :
  line_ok l → Forall (λ c, 0 < c) pre → Forall (λ c, 0 < c) post → (0 < k)%nat →
  readline (pre ++ (l ++ CR :: LF :: post) ++ replicate k 0) (length pre) (replicate 1024 0) s =
  Ok ((Z.of_nat (length pre + length l + 2), l ++ replicate (1024 - length l) 0), s).
Proof.
  intros Hl Hpre Hpost Hk. destruct (line_ok_pos _ Hl) as [Hpos Hcr].
  unfold readline. apply wp_det. wp_step.
  apply str_at_spec with (pre ++ l ++ CR :: LF :: post).
  { cbn [drop]. rewrite app_assoc. apply until_nul_zeros; [|done].
    rewrite !Forall_app, !Forall_cons. by repeat split. }
  destruct Hl as [Hlen _].
  pose proof (read_loop_spec l (length (pre ++ (l ++ CR :: LF :: post) ++ replicate k 0)) pre
    (post ++ replicate k 0) [] 1024 (length (pre ++ l ++ CR :: LF :: post)) s Hcr) as Hr.
  rewrite <-app_assoc. cbn [app]. rewrite <-app_assoc in Hr. cbn [app length] in Hr.
  eapply wp_lift_pure; [apply Hr|done];
    rewrite ?length_app; cbn [length]; rewrite ?length_app, ?length_replicate; cbn [length]; lia.
Qed.

(** The answer for a base64 text. *)
Definition answer_with (b : list Z) : list Z := answer_head ++ b ++ [CR; LF; CR; LF].

Lemma text_pos : Forall (λ c, 0 < c) GUID ∧ Forall (λ c, 0 < c) answer_head.
Proof. split; refine (bool_decide_unpack _ _); by vm_compute. Qed.

Context {OSSL : Openssl} {OL : OpensslLaws}.

Lemma base64_spec d (s : St) :
  (0 < length d ≤ 20)%nat →
  ∃ b, bio_base64 d = b ++ [LF] ∧ (length b ≤ 28)%nat ∧ Forall (λ c, 0 < c) b ∧
    base64_encode d (replicate 32 0) s = Ok (b ++ 0 :: replicate (31 - length b) 0, s).
Proof.
  intros Hd. destruct (base64_line d) as (b&Eb&Hlen&Hpos); [lia|].
  assert (length b ≤ 28)%nat as Hb.
  { rewrite Hlen. assert ((length d + 2) / 3 ≤ 7)%nat; [|lia].
    apply Nat.lt_succ_r, Nat.Div0.div_lt_upper_bound. lia. }
  exists b. split_and!; [done..|]. apply wp_det. unfold base64_encode. rewrite Eb, length_app. cbn [length].
  wp_step. apply (wr_append 0 [] _ 32); [done|rewrite length_app; cbn; lia|].
  replace (length b + 1 =? 0)%nat with false by (symmetry; apply Nat.eqb_neq; lia).
  cbn [app]. rewrite <-app_assoc. replace (length b + 1 - 1)%nat with (length b) by lia.
  apply (wp_wr_middle b [LF]); [done|]. split; [|done]. rewrite length_app. cbn [app length].
  do 3 f_equal. lia.
Qed.

(** The key line with digest prefix [d]: strlen stops at the first zero byte. *)
Lemma accept_key_spec key d (s : St) :
  line_ok (key_line key) → until_nul (SHA1 (key ++ GUID) ++ replicate 108 0) = Some d → d ≠ [] →
  ∃ b z, bio_base64 d = b ++ [LF] ∧
    accept_key (key_line key ++ replicate (1024 - length (key_line key)) 0) s =
    Ok ((answer_with b ++ replicate (S z) 0, Z.of_nat (length (answer_with b))), s) ∧
    length (answer_with b ++ replicate (S z) 0) = BUFFER_LENGTH.
Proof.
  intros Hl Hd Hne. destruct (line_ok_pos _ Hl) as [Hpos _]. destruct Hl as [Hlen _].
  assert (0 < length d ≤ 20)%nat as Hdl.
  { split; [by destruct d; [|cbn; lia]|].
    apply until_nul_length in Hd. by rewrite sha1_length in Hd. }
  destruct (base64_spec d s Hdl) as (b&Eb&Hb&Hbpos&E64). exists b, (4095 - length (answer_with b))%nat.
  assert (length (answer_with b) ≤ 133)%nat as Ha.
  { unfold answer_with. rewrite !length_app. change (length answer_head) with 97%nat. cbn [length]. lia. }
  split_and!; [done| |rewrite length_app, length_replicate; unfold BUFFER_LENGTH; lia].
  pose proof (proj1 text_pos) as Hg. pose proof (proj2 text_pos) as Hh.
  apply wp_det. unfold accept_key. wp_step. apply str_at_spec with (key_line key).
  { rewrite drop_0. apply until_nul_zeros; [done|lia]. }
  wp_step. apply wr_append; [done|change (length (GUID ++ [0])) with 37%nat; lia|].
  wp_step. apply str_at_spec with (key ++ GUID).
  { unfold key_line, key_name. change WEBSOCK_KEY_LENGTH with (length (text "Sec-WebSocket-Key: ")).
    rewrite <-!app_assoc, drop_app_length, app_assoc. apply until_nul_app.
    apply Forall_app; split; [|done]. unfold key_line in Hpos. by apply Forall_app in Hpos as [_ ?]. }
  wp_step. apply (wr_append 0 [] _ 128); [done|rewrite sha1_length; lia|].
  rewrite sha1_length. cbn [app]. wp_step. apply str_at_spec with d; [done|].
  wp_step. eapply wp_lift_pure; [exact E64|].
  wp_step. apply str_at_spec with b; [by apply until_nul_app|].
  wp_step. fold (answer_with b).
  apply (wr_append 0 [] _ BUFFER_LENGTH); [done|rewrite length_app; change (length [0]) with 1%nat; unfold BUFFER_LENGTH; lia|].
  split; [|done]. cbn [app]. rewrite <-app_assoc, length_app. cbn [length app replicate].
  do 4 f_equal. unfold BUFFER_LENGTH. lia.
Qed.

(** The lines of a request up to the key. *)
Definition upgrade_request (ls : list (list Z)) (key rest : list Z) : list Z :=
  lines ls ++ key_line key ++ CR :: LF :: rest.
Definition request_ok (ls : list (list Z)) (key rest : list Z) : Prop :=
  Forall (λ l, line_ok l ∧ contains key_name l = false) ls ∧ line_ok (key_line key) ∧
  Forall (λ c, 0 < c) rest.

#[global] Instance request_ok_dec ls key rest : Decision (request_ok ls key rest).
Proof. unfold request_ok. apply _. Defined.

Lemma request_ok_pos ls key rest :
  request_ok ls key rest → Forall (λ c, 0 < c) (upgrade_request ls key rest).
Proof.
  intros (Hls&Hk&Hr). unfold upgrade_request. rewrite !Forall_app, !Forall_cons.
  split_and!; try done; [|by apply line_ok_pos]. unfold lines. apply Forall_concat, Forall_fmap.
  eapply Forall_impl; [exact Hls|]. intros l [Hl _]. cbn. rewrite Forall_app, !Forall_cons.
  split_and!; [by apply line_ok_pos|done..].
Qed.
(** A line starts with something else than CR. *)
Lemma request_first ls key rest :
  request_ok ls key rest → ∃ c r, upgrade_request ls key rest = c :: r ∧ c ≠ CR.
Proof.
  intros (Hls&_&_). destruct Hls as [|[|c l] ls [[Hl Hc] _] _].
  - by eexists _, _.
  - cbn in Hl. lia.
  - apply Forall_cons in Hc as [[_ Hc] _]. by eexists _, _.
Qed.

(** The loop skips a line that is not the key's. *)
Lemma handshake_skip fuel pre l more k (s : St) c :
  line_ok l → contains key_name l = false → Forall (λ c, 0 < c) pre →
  Forall (λ c, 0 < c) more → (0 < k)%nat → (more ++ replicate k 0) !! 0%nat = Some c → c ≠ CR →
  handshake_loop (S fuel) (pre ++ (l ++ CR :: LF :: more) ++ replicate k 0) (length pre) s =
  handshake_loop fuel ((pre ++ l ++ [CR; LF]) ++ more ++ replicate k 0)
    (length (pre ++ l ++ [CR; LF])) s.
Proof.
  intros Hl Hno Hpre Hmore Hk Hc Hcr. cbn [handshake_loop]. unfold bind at 1.
  rewrite readline_spec by done. unfold str_at. rewrite drop_0, until_nul_zeros;
    [|by apply line_ok_pos|destruct Hl as [? _]; lia].
  unfold bind at 1. cbn [from_opt ret]. unfold key_name in Hno. rewrite Hno.
  rewrite (proj2 (Z.ltb_ge _ 0)) by lia. rewrite Nat2Z.id.
  assert (pre ++ (l ++ CR :: LF :: more) ++ replicate k 0 =
    (pre ++ l ++ [CR; LF]) ++ more ++ replicate k 0) as -> by by rewrite <-!app_assoc.
  assert (length pre + length l + 2 = length (pre ++ l ++ [CR; LF]))%nat as ->
    by (rewrite !length_app; cbn; lia).
  unfold rd at 1. rewrite lookup_app_r, Nat.sub_diag, Hc by done.
  unfold bind. cbn [from_opt ret]. by rewrite (proj2 (Z.eqb_neq _ _) Hcr).
Qed.

(** The loop skips the lines before the key and answers it. *)
Lemma handshake_loop_spec ls key rest d pre k fuel (s : St) :
  request_ok ls key rest → Forall (λ c, 0 < c) pre → (0 < k)%nat → (length ls < fuel)%nat →
  until_nul (SHA1 (key ++ GUID) ++ replicate 108 0) = Some d → d ≠ [] →
  ∃ b z, bio_base64 d = b ++ [LF] ∧
    handshake_loop fuel (pre ++ upgrade_request ls key rest ++ replicate k 0) (length pre) s =
    Ok (Some (answer_with b ++ replicate (S z) 0, Z.of_nat (length (answer_with b))), s) ∧
    length (answer_with b ++ replicate (S z) 0) = BUFFER_LENGTH.
Proof.
  intros Hok Hpre Hk Hf Hd Hne. pose proof Hok as (Hls&Hkl&Hr).
  destruct (accept_key_spec key d s Hkl Hd Hne) as (b&z&Eb&Eacc&Hlen).
  exists b, z. split_and!; [done| |done]. clear Hd Hne Hlen.
  revert pre fuel Hok Hpre Hf. induction Hls as [|l ls [Hl Hno] Hls IH];
    intros pre [|fuel] Hok Hpre Hf; try (cbn in Hf; lia).
  - cbn [handshake_loop]. apply wp_det. wp_step. unfold upgrade_request. cbn [lines fmap list_fmap concat app].
    eapply wp_lift_pure; [by apply readline_spec|].
    wp_step. apply str_at_spec with (key_line key).
    { rewrite drop_0. apply until_nul_zeros; [by apply line_ok_pos|]. destruct Hkl as [? _]. lia. }
    wp_step. replace (contains (text "Sec-WebSocket-Key") (key_line key)) with true by done.
    wp_step. eapply wp_lift_pure; [exact Eacc|]. by wp_step.
  - pose proof (request_ok_pos ls key rest) as Hp. pose proof (request_first ls key rest) as Hc.
    assert (request_ok ls key rest) as Hok' by done. specialize (Hp Hok').
    destruct (Hc Hok') as (c&r&Er&Hcr).
    assert (upgrade_request (l :: ls) key rest = l ++ CR :: LF :: upgrade_request ls key rest) as Eu.
    { unfold upgrade_request, lines. cbn [fmap list_fmap concat]. by rewrite <-!app_assoc. }
    rewrite Eu, handshake_skip with (c := c); try done; [|by rewrite Er].
    apply IH; [done| |cbn in Hf; lia].
    rewrite !Forall_app, !Forall_cons. split_and!; try done. by apply line_ok_pos.
Qed.

(** handshake on a request that fits the buffer. *)
Lemma handshake_spec ls key rest d k (s : St) :
  request_ok ls key rest → (0 < k)%nat →
  until_nul (SHA1 (key ++ GUID) ++ replicate 108 0) = Some d → d ≠ [] →
  ∃ b z, bio_base64 d = b ++ [LF] ∧
    handshake (upgrade_request ls key rest ++ replicate k 0) s =
    Ok (Some (answer_with b ++ replicate (S z) 0, Z.of_nat (length (answer_with b))), s) ∧
    length (answer_with b ++ replicate (S z) 0) = BUFFER_LENGTH.
Proof.
  intros Hok Hk. apply (handshake_loop_spec ls key rest d []); [done..|].
  unfold upgrade_request, lines. rewrite !length_app. destruct Hok as [Hls _].
  assert (length ls ≤ length (concat ((λ l, l ++ [CR; LF]) <$> ls)))%nat; [|lia].
  clear. induction ls as [|l ls IH]; cbn; [lia|]. rewrite !length_app. cbn. lia.
Qed.
End session.
