(* ===== verification/WsEcho.v ===== *)
(** WebSocket server, part 4: the server is an echo service.  For descriptors that are used
    once, every interleaving of the connections' events does what the protocol asks for. *)
From S2P Require Import Prelude WsFrame WsServer WsSession.

(** ** The service *)

(** A connection: before the handshake, with bytes to send, between frames, or closed. *)
Inductive phase := Hello | Reply (out : list Z) | Open | Gone.

Section echo.
Context {OSSL : Openssl} {OL : OpensslLaws}.

(** The answer with a digest, and the one RFC 6455 asks for. *)
Definition answer_for (digest : list Z) : list Z := answer_with (removelast (bio_base64 digest)).
Definition accept_answer (key : list Z) : list Z := answer_for (SHA1 (key ++ GUID)).

(** One event of the service that listens on [lfd], and the bytes it hands to send.  The
    answer to an upgrade is the one of RFC 6455 where the digest has no zero byte; where it
    has one, the answer is that of the bytes before it. *)
Inductive echo_step (lfd : Z) :
    gmap Z phase → event → gmap Z phase → list (Z * list Z) → Prop :=
  | accepted A fd r : A !! fd = None → fd ≠ lfd → 0 ≤ fd < CONNECTION_SIZE →
      echo_step lfd A (Event lfd EPOLLIN fd r) (<[fd := Hello]> A) []
  | refused A fd r : fd < 0 → echo_step lfd A (Event lfd EPOLLIN fd r) A []
  | upgraded A fd a ls key rest : A !! fd = Some Hello → request_ok ls key rest →
      (length (upgrade_request ls key rest) < BUFFER_LENGTH)%nat →
      Forall (λ c, 0 < c) (SHA1 (key ++ GUID)) →
      echo_step lfd A (Event fd EPOLLIN a (Some (upgrade_request ls key rest)))
        (<[fd := Reply (accept_answer key)]> A) []
  | upgraded_cut A fd a ls key rest d r : A !! fd = Some Hello → request_ok ls key rest →
      (length (upgrade_request ls key rest) < BUFFER_LENGTH)%nat →
      SHA1 (key ++ GUID) = d ++ 0 :: r → Forall (λ c, 0 < c) d → d ≠ [] →
      echo_step lfd A (Event fd EPOLLIN a (Some (upgrade_request ls key rest)))
        (<[fd := Reply (answer_for d)]> A) []
  | framed A fd a m payload : A !! fd = Some Open → length m = 4%nat →
      (length payload < 126)%nat →
      echo_step lfd A (Event fd EPOLLIN a (Some (client_frame m payload)))
        (<[fd := Reply (server_frame payload)]> A) []
  | flushed A fd a r out : A !! fd = Some (Reply out) →
      echo_step lfd A (Event fd EPOLLOUT a r) (<[fd := Open]> A) [(fd, out)]
  | left A fd a r : A !! fd = Some Hello ∨ A !! fd = Some Open → r = None ∨ r = Some [] →
      echo_step lfd A (Event fd EPOLLIN a r) (<[fd := Gone]> A) [].
Inductive echo_steps (lfd : Z) :
    gmap Z phase → list event → gmap Z phase → list (Z * list Z) → Prop :=
  | echo_nil A : echo_steps lfd A [] A []
  | echo_cons A e A1 out es A2 outs : echo_step lfd A e A1 out →
      echo_steps lfd A1 es A2 outs → echo_steps lfd A (e :: es) A2 (out ++ outs).

(** ** The server implements it *)

Definition conn_rel (p : phase) (c : conn) (w : option Z) : Prop :=
  match p with
  | Hello => status c = 0 ∧ w = Some EPOLLIN
  | Reply out => status c = 1 ∧ w = Some EPOLLOUT ∧ wlength c = Z.of_nat (length out) ∧
      (0 < length out ≤ BUFFER_LENGTH)%nat ∧ ∃ rest, wbuffer c = out ++ rest
  | Open => status c = 1 ∧ w = Some EPOLLIN
  | Gone => w = None
  end.
Definition conn_ok (fd : Z) (p : phase) (s : server) : Prop :=
  0 ≤ fd < CONNECTION_SIZE ∧ ∃ c, conn_list s !! fd = Some c ∧ r_action c = CbRecv ∧
    send_callback c = CbSend ∧ length (wbuffer c) = BUFFER_LENGTH ∧
    conn_rel p c (epoll s !! fd).
Record echo_rel (lfd : Z) (A : gmap Z phase) (s : server) : Prop := {
  er_lfd : 0 ≤ lfd < CONNECTION_SIZE;
  er_listen : ∃ c, conn_list s !! lfd = Some c ∧ r_action c = CbAccept;
  er_none : A !! lfd = None;
  er_conn : ∀ fd p, A !! fd = Some p → conn_ok fd p s;
  er_new : ∀ fd, A !! fd = None → fd ≠ lfd → conn_list s !! fd = None ∧ epoll s !! fd = None }.

(** What a step that touches one connection leaves of the relation. *)
Lemma echo_rel_update lfd A s s' fd p :
  echo_rel lfd A s → fd ≠ lfd → conn_ok fd p s' →
  (∀ x, x ≠ fd → conn_list s' !! x = conn_list s !! x ∧ epoll s' !! x = epoll s !! x) →
  echo_rel lfd (<[fd := p]> A) s'.
Proof.
  intros [Hb [cl [Hl Ha]] Hn Hc Hnew] Hne Hok Hsame. split; [done| | | |].
  - exists cl. destruct (Hsame lfd) as [-> _]; done.
  - by rewrite lookup_insert_ne.
  - intros x q Hx. destruct (decide (x = fd)) as [->|Hxf].
    + rewrite lookup_insert_eq in Hx. by injection Hx as <-.
    + rewrite lookup_insert_ne in Hx by done. destruct (Hc x q Hx) as [? H].
      split; [done|]. by destruct (Hsame x Hxf) as [-> ->].
  - intros x Hx Hxl. destruct (decide (x = fd)) as [->|Hxf]; [by rewrite lookup_insert_eq in Hx|].
    rewrite lookup_insert_ne in Hx by done. destruct (Hsame x Hxf) as [-> ->]. by apply Hnew.
Qed.

Lemma wp_ws_conn fd (Q : conn → server → Prop) s :
  0 ≤ fd < CONNECTION_SIZE → Q (default conn_zero (conn_list s !! fd)) s →
  wp (get_conn fd) Q s.
Proof.
  intros Hb HQ. unfold get_conn.
  by rewrite (proj2 (Z.leb_le _ _)), (proj2 (Z.ltb_lt _ _)) by lia.
Qed.
Lemma wp_set_ws_conn fd c (Q : unit → server → Prop) s :
  0 ≤ fd < CONNECTION_SIZE → Q tt (Server (<[fd := c]> (conn_list s)) (epoll s) (wire s)) →
  wp (set_conn fd c) Q s.
Proof. intros Hb HQ. unfold set_conn. wp_step. by apply wp_ws_conn. Qed.

Definition step_done (lfd : Z) (A : gmap Z phase) (out : list (Z * list Z)) (s : server)
    (s' : server) : Prop := echo_rel lfd A s' ∧ wire s' = wire s ++ out.

(** The end of a step at [fd]: a connection in phase [p]. *)
Lemma step_done_intro lfd A s fd p c w out wire' :
  echo_rel lfd A s → fd ≠ lfd → 0 ≤ fd < CONNECTION_SIZE →
  r_action c = CbRecv → send_callback c = CbSend → length (wbuffer c) = BUFFER_LENGTH →
  conn_rel p c w → wire' = wire s ++ out →
  step_done lfd (<[fd := p]> A) out s
    (Server (<[fd := c]> (conn_list s)) (partial_alter (λ _, w) fd (epoll s)) wire').
Proof.
  intros Hr Hne Hb Ha Hs Hl Hc Hw. split; [|done].
  eapply echo_rel_update; [done..| |].
  - split; [done|]. exists c. cbn. rewrite lookup_insert_eq, lookup_partial_alter_eq. by split_and!.
  - intros x Hx. cbn. by rewrite lookup_insert_ne, lookup_partial_alter_ne by done.
Qed.

(** [recv_cb] puts the data in front of zeros. *)
Lemma recv_cb_wp fd data c s (Q : Z → server → Prop) :
  0 ≤ fd < CONNECTION_SIZE → conn_list s !! fd = Some c → data ≠ [] →
  (length data ≤ BUFFER_LENGTH)%nat →
  wp (ws_request fd) (λ _ s1, wp (set_event fd EPOLLOUT 0) (λ _, Q (Z.of_nat (length data))) s1)
    (Server (<[fd := Conn (data ++ replicate (BUFFER_LENGTH - length data) 0)
       (Z.of_nat (length data)) (wbuffer c) (wlength c) (send_callback c) (r_action c)
       (status c)]> (conn_list s)) (epoll s) (wire s)) →
  wp (recv_cb fd (Some data)) Q s.
Proof.
  intros Hb Hc Hne Hl HQ. unfold recv_cb. wp_step. apply wp_ws_conn; [done|].
  rewrite Hc. cbn [default from_option id]. rewrite take_ge by done.
  replace (length data =? 0)%nat with false by (destruct data; done).
  wp_step. apply wp_set_ws_conn; [done|]. wp_step. eapply wp_mono; [exact HQ|].
  intros [] s1 H1. wp_step. eapply wp_mono; [exact H1|]. intros [] s2 H2. by wp_step.
Qed.

(** [ws_request] on the two kinds of request. *)
Lemma ws_request_upgrade fd c ls key rest d k s (Q : unit → server → Prop) :
  0 ≤ fd < CONNECTION_SIZE → conn_list s !! fd = Some c → status c = 0 →
  rbuffer c = upgrade_request ls key rest ++ replicate k 0 → (0 < k)%nat →
  request_ok ls key rest →
  until_nul (SHA1 (key ++ GUID) ++ replicate 108 0) = Some d → d ≠ [] →
  (∀ b z, bio_base64 d = b ++ [LF] →
     length (answer_with b ++ replicate (S z) 0) = BUFFER_LENGTH →
     Q tt (Server (<[fd := Conn (rbuffer c) (rlength c) (answer_with b ++ replicate (S z) 0)
       (Z.of_nat (length (answer_with b))) (send_callback c) (r_action c) 1]> (conn_list s))
       (epoll s) (wire s))) →
  wp (ws_request fd) Q s.
Proof.
  intros Hb Hc Hst Hrb Hk Hok Hd Hne HQ.
  destruct (handshake_spec ls key rest d k s Hok Hk Hd Hne) as (b&z&Eb&Eh&Hl).
  unfold ws_request. wp_step. apply wp_ws_conn; [done|].
  rewrite Hc. cbn [default from_option id]. rewrite Hst, Hrb. cbn [Z.eqb]. wp_step.
  eapply wp_lift_pure; [exact Eh|]. apply wp_set_ws_conn; [done|]. rewrite <-Hrb. by apply HQ.
Qed.

Lemma ws_request_frame fd c b0 b1 m d more k s (Q : unit → server → Prop) :
  0 ≤ fd < CONNECTION_SIZE → conn_list s !! fd = Some c → status c = 1 →
  rbuffer c = (b0 :: b1 :: m ++ d ++ more) ++ replicate k 0 → (0 < k)%nat → length m = 4%nat →
  Z.land b1 127 = Z.of_nat (length d) → (length d < 126)%nat →
  length (wbuffer c) = BUFFER_LENGTH →
  (∀ rb rest, length (server_frame (demask_loop 0 d m) ++ rest) = BUFFER_LENGTH →
     Q tt (Server (<[fd := Conn rb (rlength c) (server_frame (demask_loop 0 d m) ++ rest)
       (Z.of_nat (length d) + 2) (send_callback c) (r_action c) 1]> (conn_list s))
       (epoll s) (wire s))) →
  wp (ws_request fd) Q s.
Proof.
  intros Hb Hc Hst Hrb Hk Hm Hb1 Hd Hw HQ. pose proof (demask_loop_length 0 d m) as El.
  destruct (encode_short (wbuffer c) m (demask_loop 0 d m) s) as (rest&Ee&Hl); [by rewrite El|done|].
  destruct (until_nul_total (demask_loop 0 d m ++ more) k Hk) as [r Hr].
  unfold ws_request. wp_step. apply wp_ws_conn; [done|].
  rewrite Hc. cbn [default from_option id]. rewrite Hst, Hrb. cbn [Z.eqb Pos.eqb app]. wp_step.
  rewrite <-!app_assoc. eapply wp_lift_pure; [by apply decode_frame|].
  assert (drop 6 (b0 :: b1 :: m ++ demask_loop 0 d m ++ more ++ replicate k 0) =
    demask_loop 0 d m ++ more ++ replicate k 0) as Ed.
  { cbn [drop]. by rewrite drop_app_length' by done. }
  wp_step. apply str_at_spec with r; [by rewrite Ed, app_assoc|].
  wp_step. rewrite Ed, Nat2Z.id, take_app_length' by done.
  rewrite El in Ee. eapply wp_lift_pure; [exact Ee|]. wp_step. apply wp_set_ws_conn; [done|].
  by apply HQ.
Qed.

(** [set_event] as one update of the interest set. *)
Lemma wp_set_event_mod fd ev w (Q : unit → server → Prop) s :
  epoll s !! fd = Some w →
  Q tt (Server (conn_list s) (partial_alter (λ _, Some ev) fd (epoll s)) (wire s)) →
  wp (set_event fd ev 0) Q s.
Proof. intros Hw HQ. unfold set_event. wp_step. by rewrite Hw. Qed.
Lemma wp_set_event_add fd ev (Q : unit → server → Prop) s :
  epoll s !! fd = None →
  Q tt (Server (conn_list s) (partial_alter (λ _, Some ev) fd (epoll s)) (wire s)) →
  wp (set_event fd ev 1) Q s.
Proof. intros Hw HQ. unfold set_event. wp_step. by rewrite Hw. Qed.

(** A readable event runs [r_action], a writable one [send_callback]. *)
Lemma dispatch_in fd a r c s (Q : unit → server → Prop) :
  0 ≤ fd < CONNECTION_SIZE → conn_list s !! fd = Some c →
  wp (call (r_action c) (Event fd EPOLLIN a r)) (λ _, Q tt) s →
  wp (dispatch (Event fd EPOLLIN a r)) Q s.
Proof.
  intros Hb Hc HQ. unfold dispatch. cbn [ev_events ev_fd].
  change (Z.land EPOLLIN EPOLLIN =? 0) with false.
  change (Z.land EPOLLIN EPOLLOUT =? 0) with true. wp_step.
  apply wp_ws_conn; [done|]. rewrite Hc. cbn [default from_option id]. wp_step.
  eapply wp_mono; [exact HQ|]. intros v s1 H1. by wp_step.
Qed.
Lemma dispatch_out fd a r c s (Q : unit → server → Prop) :
  0 ≤ fd < CONNECTION_SIZE → conn_list s !! fd = Some c →
  wp (call (send_callback c) (Event fd EPOLLOUT a r)) (λ _, Q tt) s →
  wp (dispatch (Event fd EPOLLOUT a r)) Q s.
Proof.
  intros Hb Hc HQ. unfold dispatch. cbn [ev_events ev_fd].
  change (Z.land EPOLLOUT EPOLLIN =? 0) with true.
  change (Z.land EPOLLOUT EPOLLOUT =? 0) with false. wp_step.
  apply wp_ws_conn; [done|]. rewrite Hc. cbn [default from_option id]. wp_step.
  eapply wp_mono; [exact HQ|]. intros v s1 H1. by wp_step.
Qed.

(** accept_cb registers a new descriptor. *)
Lemma accept_cb_wp lfd A fd s (Q : Z → server → Prop) :
  echo_rel lfd A s → A !! fd = None → fd ≠ lfd → 0 ≤ fd < CONNECTION_SIZE →
  (∀ s', step_done lfd (<[fd := Hello]> A) [] s s' → Q 0 s') →
  wp (accept_cb lfd fd) Q s.
Proof.
  intros Hr HA Hne Hb HQ. destruct (er_new _ _ _ Hr fd HA Hne) as [Hc Hw].
  unfold accept_cb, event_register. rewrite (proj2 (Z.ltb_ge fd 0)) by lia. wp_step.
  apply wp_ws_conn; [done|]. rewrite Hc. cbn [default from_option id]. wp_step.
  apply wp_set_ws_conn; [done|]. wp_step. apply wp_set_event_add; [done|]. wp_step. apply HQ.
  cbn [conn_list epoll wire]. apply step_done_intro; try done. by rewrite app_nil_r.
Qed.

(** A closed connection. *)
Lemma recv_cb_closed lfd A fd r s (Q : Z → server → Prop) p :
  echo_rel lfd A s → A !! fd = Some p → r = None ∨ r = Some [] →
  (∀ s', step_done lfd (<[fd := Gone]> A) [] s s' → Q 0 s') →
  wp (recv_cb fd r) Q s.
Proof.
  intros Hr HA Hz HQ. destruct (er_conn _ _ _ Hr fd p HA) as (Hb&c&Hc&Ha&Hs&Hl&_).
  assert (fd ≠ lfd) as Hne by (intros ->; by rewrite (er_none _ _ _ Hr) in HA).
  unfold recv_cb. wp_step. apply wp_ws_conn; [done|]. rewrite Hc. cbn [default from_option id].
  destruct Hz as [-> | ->]; rewrite ?take_nil; cbn [length Nat.eqb]; wp_step;
    (apply wp_set_ws_conn; [done|]; wp_step; unfold close_fd; wp_step; apply HQ;
     cbn [conn_list epoll wire]; unfold delete, map_delete;
     apply step_done_intro; try done; by rewrite app_nil_r).
Qed.

(** send_cb hands over the reply. *)
Lemma send_cb_wp lfd A fd out s (Q : Z → server → Prop) :
  echo_rel lfd A s → A !! fd = Some (Reply out) →
  (∀ s' n, step_done lfd (<[fd := Open]> A) [(fd, out)] s s' → Q n s') →
  wp (send_cb fd) Q s.
Proof.
  intros Hr HA HQ.
  destruct (er_conn _ _ _ Hr fd _ HA) as (Hb&c&Hc&Ha&Hs&Hl&Hst&Hw&Hwl&Hlen&rest&Hwb).
  assert (fd ≠ lfd) as Hne by (intros ->; by rewrite (er_none _ _ _ Hr) in HA).
  unfold send_cb, ws_response. wp_step. apply wp_ws_conn; [done|]. rewrite Hc.
  cbn [default from_option id]. rewrite Hwl, Hl. wp_step.
  rewrite (proj2 (Z.eqb_neq _ 0)) by lia. rewrite (proj2 (Z.ltb_ge _ 0)) by lia.
  rewrite (proj2 (Z.ltb_ge _ (Z.of_nat _))) by lia. cbn [orb]. wp_step.
  eapply wp_set_event_mod; [exact Hw|]. wp_step. apply HQ. cbn [conn_list epoll wire].
  rewrite Nat2Z.id, Hwb, take_app_length.
  rewrite <-(insert_id (conn_list s) fd c Hc). by apply step_done_intro.
Qed.

Lemma fair_answer key :
  Forall (λ c, 0 < c) (SHA1 (key ++ GUID)) →
  until_nul (SHA1 (key ++ GUID) ++ replicate 108 0) = Some (SHA1 (key ++ GUID)) ∧
  SHA1 (key ++ GUID) ≠ [].
Proof.
  intros Hp. split; [by apply until_nul_zeros; [|lia]|]. intros E.
  pose proof (sha1_length (key ++ GUID)) as Hl. by rewrite E in Hl.
Qed.

(** The request of a connection before the handshake, and a frame after it. *)
Lemma cut_answer key d r :
  SHA1 (key ++ GUID) = d ++ 0 :: r → Forall (λ c, 0 < c) d →
  until_nul (SHA1 (key ++ GUID) ++ replicate 108 0) = Some d.
Proof. intros -> Hd. rewrite <-app_assoc. by apply until_nul_app. Qed.
Lemma recv_cb_upgrade lfd A fd ls key rest d s (Q : Z → server → Prop) :
  echo_rel lfd A s → A !! fd = Some Hello → request_ok ls key rest →
  (length (upgrade_request ls key rest) < BUFFER_LENGTH)%nat →
  until_nul (SHA1 (key ++ GUID) ++ replicate 108 0) = Some d → d ≠ [] →
  (∀ s' n, step_done lfd (<[fd := Reply (answer_for d)]> A) [] s s' → Q n s') →
  wp (recv_cb fd (Some (upgrade_request ls key rest))) Q s.
Proof.
  intros Hr HA Hok Hlen Hd Hne0 HQ.
  destruct (er_conn _ _ _ Hr fd _ HA) as (Hb&c&Hc&Ha&Hs&Hl&Hst&Hw).
  assert (fd ≠ lfd) as Hne by (intros ->; by rewrite (er_none _ _ _ Hr) in HA).
  destruct (request_first ls key rest Hok) as (c0&r0&Eu&_).
  eapply recv_cb_wp; [done|exact Hc|by rewrite Eu|lia|].
  eapply (ws_request_upgrade fd _ ls key rest);
    [done|apply lookup_insert_eq|done|done|lia|done|exact Hd|done|].
  intros b z Eb Hb'. cbn [conn_list epoll wire rlength send_callback r_action].
  eapply wp_set_event_mod; [exact Hw|]. apply HQ. cbn [conn_list epoll wire].
  rewrite insert_insert_eq.
  apply step_done_intro; try done; [|by rewrite app_nil_r].
  assert (answer_for d = answer_with b) as ->.
  { unfold answer_for. by rewrite Eb, removelast_last. }
  split_and!; try done; [|rewrite length_app in Hb'; cbn [length] in Hb'; lia|by eexists].
  unfold answer_with. rewrite length_app. change (length answer_head) with 97%nat. lia.
Qed.

Lemma recv_cb_frame lfd A fd m payload s (Q : Z → server → Prop) :
  echo_rel lfd A s → A !! fd = Some Open → length m = 4%nat → (length payload < 126)%nat →
  (∀ s' n, step_done lfd (<[fd := Reply (server_frame payload)]> A) [] s s' → Q n s') →
  wp (recv_cb fd (Some (client_frame m payload))) Q s.
Proof.
  intros Hr HA Hm Hp HQ.
  destruct (er_conn _ _ _ Hr fd _ HA) as (Hb&c&Hc&Ha&Hs&Hl&Hst&Hw).
  assert (fd ≠ lfd) as Hne by (intros ->; by rewrite (er_none _ _ _ Hr) in HA).
  assert (length (client_frame m payload) < BUFFER_LENGTH)%nat as Hlen.
  { unfold client_frame, BUFFER_LENGTH. rewrite !length_app, demask_loop_length. cbn. lia. }
  eapply recv_cb_wp; [done|exact Hc|done|lia|].
  pose proof (demask_loop_length 0 payload m) as El.
  eapply (ws_request_frame fd _ 0x81 (128 + Z.of_nat (length payload)) m (demask_loop 0 payload m) []
    (BUFFER_LENGTH - length (client_frame m payload)));
    [done|apply lookup_insert_eq|done| |lia|done|by rewrite El, mask_bit by lia|by rewrite El|done|].
  { cbn [rbuffer]. by rewrite app_nil_r. }
  rewrite demask_involutive, El.
  intros rb rest Hb'. cbn [conn_list epoll wire rlength send_callback r_action].
  eapply wp_set_event_mod; [exact Hw|]. apply HQ. cbn [conn_list epoll wire].
  rewrite insert_insert_eq.
  apply step_done_intro; try done; [|by rewrite app_nil_r].
  rewrite length_app in Hb'. split_and!; try done; [..|by eexists];
    unfold server_frame in *; rewrite ?length_app; cbn [length wlength]; unfold BUFFER_LENGTH; lia.
Qed.

(** One event of the service is one turn of the loop. *)
Lemma dispatch_refines lfd A e A' out s :
  echo_rel lfd A s → echo_step lfd A e A' out →
  wp (dispatch e) (λ _, step_done lfd A' out s) s.
Proof.
  intros Hr Hstep. destruct Hstep as [A fd r HA Hne Hb|A fd r Hneg|A fd a ls key rest HA Hok Hlen Hfair
    |A fd a ls key rest d r HA Hok Hlen Hsha Hd Hne|A fd a m payload HA Hm Hp|A fd a r out HA|A fd a r HA Hz].
  1, 2: destruct (er_listen _ _ _ Hr) as (cl&Hcl&Hacc);
    eapply dispatch_in; [apply (er_lfd _ _ _ Hr)|exact Hcl|]; rewrite Hacc; cbn [call ev_fd ev_accept].
  - by eapply accept_cb_wp.
  - unfold accept_cb. rewrite (proj2 (Z.ltb_lt fd 0)) by lia. wp_step. split; [done|].
    by rewrite app_nil_r.
  - destruct (er_conn _ _ _ Hr fd _ HA) as (Hb&c&Hc&Ha&_).
    eapply dispatch_in; [done|exact Hc|]. rewrite Ha. destruct (fair_answer key Hfair). by eapply recv_cb_upgrade.
  - destruct (er_conn _ _ _ Hr fd _ HA) as (Hb&c&Hc&Ha&_).
    eapply dispatch_in; [done|exact Hc|]. rewrite Ha. pose proof (cut_answer _ _ _ Hsha Hd). by eapply recv_cb_upgrade.
  - destruct (er_conn _ _ _ Hr fd _ HA) as (Hb&c&Hc&Ha&_).
    eapply dispatch_in; [done|exact Hc|]. rewrite Ha. by eapply recv_cb_frame.
  - destruct (er_conn _ _ _ Hr fd _ HA) as (Hb&c&Hc&Ha&Hs&_).
    eapply dispatch_out; [done|exact Hc|]. rewrite Hs. by eapply send_cb_wp.
  - assert (∃ p, A !! fd = Some p) as [p Hp] by (destruct HA; by eexists).
    destruct (er_conn _ _ _ Hr fd _ Hp) as (Hb&c&Hc&Ha&_).
    eapply dispatch_in; [done|exact Hc|]. rewrite Ha. by eapply recv_cb_closed.
Qed.

Lemma event_loop_refines lfd A es A' out s :
  echo_rel lfd A s → echo_steps lfd A es A' out →
  wp (event_loop es) (λ _, step_done lfd A' out s) s.
Proof.
  intros Hr Hsteps. revert s Hr.
  induction Hsteps as [A|A e A1 out es A2 outs Hstep _ IH]; intros s Hr; cbn [event_loop]; wp_step.
  - split; [done|]. by rewrite app_nil_r.
  - eapply wp_mono; [by eapply dispatch_refines|]. intros _ s1 [Hr1 Hw1].
    eapply wp_mono; [by apply IH|]. intros _ s2 [Hr2 Hw2]. split; [done|].
    by rewrite Hw2, Hw1, app_assoc.
Qed.

Lemma event_loop_app es es' :
  ∀ s, event_loop (es ++ es') s = bind (event_loop es) (λ _, event_loop es') s.
Proof.
  induction es as [|e es IH]; intros s; cbn [app event_loop]; [done|].
  unfold bind. destruct (dispatch e s) as [[[] s1]| |]; [|done..]. by rewrite IH.
Qed.

(** main up to the end of [es], with any events behind. *)
Lemma server_start_wp lfd es A' out es' (Q : unit → server → Prop) :
  0 ≤ lfd < CONNECTION_SIZE → echo_steps lfd ∅ es A' out →
  (∀ s, echo_rel lfd A' s → wire s = out → wp (event_loop es') Q s) →
  wp (server_start lfd (es ++ es')) Q server_zero.
Proof.
  intros Hb Hsteps HQ. unfold server_start. wp_step. apply wp_ws_conn; [done|]. wp_step.
  apply wp_set_ws_conn; [done|]. wp_step. apply wp_set_event_add; [done|].
  unfold wp. rewrite event_loop_app. fold (wp (S := server) (A := unit)). apply wp_bind.
  eapply wp_mono; [eapply event_loop_refines; [|exact Hsteps]|].
  - cbn [server_zero conn_list epoll wire]. split; [done| |done|done|].
    + eexists. split; [apply lookup_insert_eq|done].
    + intros fd _ Hne. cbn. by rewrite lookup_insert_ne, lookup_partial_alter_ne.
  - intros _ s [Hr Hw]. by apply HQ.
Qed.

End echo.

(** ** An instance: base64, and the digest of the example of RFC 6455 *)

Definition b64_char (n : Z) : Z :=
  nth (Z.to_nat n)
    (text "ABCDEFGHIJKLMNOPQRSTUVWXYZabcdefghijklmnopqrstuvwxyz0123456789+/") 65.
Fixpoint b64 (l : list Z) : list Z :=
  match l with
  | a :: b :: c :: l =>
      b64_char (a / 4) :: b64_char (a mod 4 * 16 + b / 16) :: b64_char (b mod 16 * 4 + c / 64) ::
      b64_char (c mod 64) :: b64 l
  | [a; b] => [b64_char (a / 4); b64_char (a mod 4 * 16 + b / 16); b64_char (b mod 16 * 4); 61]
  | [a] => [b64_char (a / 4); b64_char (a mod 4 * 16); 61; 61]
  | [] => []
  end.
Definition sample_digest : list Z :=
  [0xb3; 0x7a; 0x4f; 0x2c; 0xc0; 0x62; 0x4f; 0x16; 0x90; 0xf6; 0x46; 0x06; 0xcf; 0x38; 0x59; 0x45;
   0xb2; 0xbe; 0xc4; 0xea].
Definition with_digest (d : list Z) : Openssl :=
  {| SHA1 := λ _, d; bio_base64 := λ x, b64 x ++ [LF] |}.

Lemma b64_char_pos n : 0 < b64_char n.
Proof.
  unfold b64_char. set (alphabet := text _).
  assert (Forall (λ c, 0 < c) alphabet) as Ha by (refine (bool_decide_unpack _ _); by vm_compute).
  destruct (nth_in_or_default (Z.to_nat n) alphabet 65) as [Hin| ->]; [|lia].
  apply (proj1 (Forall_forall _ _) Ha). by apply list_elem_of_In.
Qed.
Lemma b64_spec n l : (length l ≤ n)%nat →
  length (b64 l) = (4 * ((length l + 2) / 3))%nat ∧ Forall (λ c, 0 < c) (b64 l).
Proof.
  pose proof b64_char_pos as Hp. revert l. induction n as [|n IH]; intros [|a [|b [|c l]]] Hl;
    cbn [length] in Hl; try lia; cbn [b64]; rewrite ?Forall_cons; try by split_and!.
  destruct (IH l) as [E Hpos]; [lia|]. split; [|by split_and!]. cbn [length]. rewrite E.
  replace (S (S (S (length l))) + 2)%nat with ((length l + 2) + 1 * 3)%nat by lia.
  rewrite Nat.div_add by lia. lia.
Qed.

Lemma with_digest_laws d :
  length d = 20%nat → Forall is_byte d → @OpensslLaws (with_digest d).
Proof.
  intros Hl Hb. split; [done|done|]. intros x _. exists (b64 x).
  split; [done|]. by apply (b64_spec (length x)).
Qed.
Definition sample_laws : @OpensslLaws (with_digest sample_digest).
Proof. apply with_digest_laws; [done|]. unfold is_byte. refine (bool_decide_unpack _ _). by vm_compute. Qed.

Definition sample_lines : list (list Z) :=
  [text "GET /chat HTTP/1.1"; text "Host: server.example.com"; text "Upgrade: websocket"].
Definition sample_key : list Z := text "dGhlIHNhbXBsZSBub25jZQ==".
Definition sample_request : list Z := upgrade_request sample_lines sample_key [CR; LF].
Lemma sample_request_ok : request_ok sample_lines sample_key [CR; LF].
Proof. refine (bool_decide_unpack _ _). by vm_compute. Qed.
(** The answer RFC 6455 prints. *)
Definition sample_answer : list Z :=
  text "HTTP/1.1 101 Switching Protocols" ++ [CR; LF] ++ text "Upgrade: websocket" ++ [CR; LF] ++
  text "Connection: Upgrade" ++ [CR; LF] ++
  text "Sec-WebSocket-Accept: s3pPLMBiTxaQ9kYGzzhZRbK+xOo=" ++ [CR; LF; CR; LF].

