(* ===== verification/WsErrors.v ===== *)
(** WebSocket server, part 5: requests the server answers wrongly.  Long frames, descriptors
    that are used again, digests with a zero byte, and requests that come in two segments. *)
From S2P Require Import Prelude WsFrame WsServer WsSession WsEcho.

(** ** Long frames *)

(** A masked text frame with a 16-bit length, as RFC 6455 has it. *)
Definition extended_frame (m payload : list Z) : list Z :=
  [0x81; 254; Z.of_nat (length payload) / 256; Z.of_nat (length payload) mod 256] ++ m ++
  demask_loop 0 payload m.

Lemma encode_126 {St} buffer m d (s : St) :
  length d = 126%nat → length m = 4%nat → length buffer = BUFFER_LENGTH →
  encode_packet buffer m d 126 s = Ok ([0x81; 0] ++ d ++ drop 128 buffer, 128, s).
Proof.
  intros Hd Hm Hb. unfold BUFFER_LENGTH in Hb.
  do 16 (destruct buffer as [|? buffer]; [done|]). cbn [length] in Hb.
  destruct m as [|m0 [|m1 [|m2 [|m3 [|]]]]]; try done.
  apply wp_det. unfold encode_packet. change (126 <? 126) with false. change (126 <? 65535) with true.
  wp_step. apply wp_wr; [cbn; lia|]. wp_step. apply wp_wr; [cbn; lia|].
  wp_step. apply wp_wr; [cbn; rewrite drop_0; lia|]. wp_step. rewrite Hd. split; [|done].
  cbn [take drop app length plus ophdr_bytes replicate]. rewrite drop_drop. done.
Qed.

Section errors.
Context {OSSL : Openssl} {OL : OpensslLaws}.

Lemma wp_set_event fd ev flag (Q : unit → server → Prop) s :
  (∀ ep, Q tt (Server (conn_list s) ep (wire s))) → wp (set_event fd ev flag) Q s.
Proof.
  intros HQ. unfold set_event. wp_step. destruct s as [cl ep w]. cbn.
  repeat case_match; apply HQ.
Qed.

(** A frame of 126 bytes or more is misread: the test for the long forms looks at one bit.
    The server takes the length bytes for the first half of the mask, unmasks 126 bytes from
    the wrong place with it, and answers with a header that says zero bytes. *)
Theorem extended_frame_misread fd c m payload s :
  0 ≤ fd < CONNECTION_SIZE → conn_list s !! fd = Some c → status c = 1 →
  length (wbuffer c) = BUFFER_LENGTH → length m = 4%nat →
  (126 ≤ length payload < 4088)%nat →
  let hi := Z.of_nat (length payload) / 256 in
  let lo := Z.of_nat (length payload) mod 256 in
  ∃ s' c', recv_cb fd (Some (extended_frame m payload)) s =
      Ok (Z.of_nat (length payload) + 8, s') ∧
    conn_list s' !! fd = Some c' ∧ wlength c' = 128 ∧
    take 2 (wbuffer c') = [0x81; 0] ∧
    take 126 (drop 2 (wbuffer c')) =
      demask_loop 0 (take 126 (drop 2 m ++ demask_loop 0 payload m)) ([hi; lo] ++ take 2 m).
Proof.
  intros Hb Hc Hst Hw Hm Hp hi lo.
  set (mm := [hi; lo] ++ take 2 m). set (body := drop 2 m ++ demask_loop 0 payload m).
  assert (length body = 2 + length payload)%nat as Hbody.
  { unfold body. rewrite length_app, length_drop, demask_loop_length. lia. }
  assert (extended_frame m payload = 0x81 :: 254 :: mm ++ take 126 body ++ drop 126 body) as Ef.
  { rewrite take_drop. unfold extended_frame, mm, body. cbn [app].
    by rewrite (app_assoc (take 2 m)), take_drop. }
  assert (length (extended_frame m payload) = length payload + 8)%nat as El.
  { unfold extended_frame. rewrite !length_app, demask_loop_length. cbn [length]. lia. }
  assert (length mm = 4%nat) as Hmm.
  { unfold mm. rewrite length_app, length_take. cbn [length]. lia. }
  set (d := demask_loop 0 (take 126 body) mm).
  assert (length d = 126%nat) as Hd.
  { unfold d. rewrite demask_loop_length, length_take. lia. }
  set (k := (BUFFER_LENGTH - length (extended_frame m payload))%nat).
  assert (0 < k)%nat as Hk by (unfold k, BUFFER_LENGTH; lia).
  enough (wp (recv_cb fd (Some (extended_frame m payload))) (λ n s',
    n = Z.of_nat (length (extended_frame m payload)) ∧
    ∃ c', conn_list s' !! fd = Some c' ∧ wlength c' = 128 ∧
      wbuffer c' = [0x81; 0] ++ d ++ drop 128 (wbuffer c)) s) as (n&s'&E&->&c'&Hc'&Hwl&Hwb)%wp_run.
  { exists s', c'. rewrite E, El, Hwb, Nat2Z.inj_add. split_and!; [done..|].
    change (drop 2 ([129; 0] ++ ?l)) with l. by apply take_app_length'. }
  eapply recv_cb_wp; [done|exact Hc|by rewrite Ef|unfold BUFFER_LENGTH; lia|]. fold k.
  unfold ws_request. wp_step. apply wp_ws_conn; [done|]. cbn [conn_list].
  rewrite lookup_insert_eq. cbn [default from_option id status rbuffer wbuffer].
  rewrite Hst. cbn [Z.eqb Pos.eqb]. wp_step. rewrite Ef. cbn [app]. rewrite <-!app_assoc.
  assert (length (take 126 body) = 126%nat) as Ht by (rewrite length_take; lia).
  eapply wp_lift_pure; [apply decode_frame; [done|by rewrite Ht]|].
  fold d. rewrite Ht. destruct (until_nul_total (d ++ drop 126 body) k Hk) as [r Hr].
  assert (drop 6 (129 :: 254 :: mm ++ d ++ drop 126 body ++ replicate k 0) =
    d ++ drop 126 body ++ replicate k 0) as Ed.
  { cbn [drop]. by rewrite drop_app_length' by done. }
  wp_step. apply str_at_spec with r; [by rewrite Ed, app_assoc|].
  wp_step. rewrite Ed, Nat2Z.id, take_app_length' by done.
  eapply wp_lift_pure; [by apply encode_126|]. wp_step. apply wp_set_ws_conn; [done|].
  apply wp_set_event. intros ep. cbn [conn_list]. split; [done|].
  eexists. by rewrite lookup_insert_eq.
Qed.

(** ** Descriptors that are used again *)

(** A client leaves and the next one gets its descriptor: status is still 1. *)
Lemma reopen_wp lfd A fd s (Q : unit → server → Prop) :
  echo_rel lfd A s → A !! fd = Some Open →
  (∀ s', conn_list s' !! fd = Some (Conn zeros 0 zeros 0 CbSend CbRecv 1) →
     wire s' = wire s → Q tt s') →
  wp (dispatch (Event fd EPOLLIN 0 None);; dispatch (Event lfd EPOLLIN fd None)) Q s.
Proof.
  intros Hr HA HQ. destruct (er_conn _ _ _ Hr fd _ HA) as (Hb&c&Hc&Ha&Hs&Hw&Hst&Hep).
  assert (fd ≠ lfd) as Hne by (intros ->; by rewrite (er_none _ _ _ Hr) in HA).
  destruct (er_listen _ _ _ Hr) as (cl&Hcl&Hacc). wp_step.
  eapply dispatch_in; [done|exact Hc|]. rewrite Ha. cbn [call ev_fd ev_recv]. unfold recv_cb.
  wp_step. apply wp_ws_conn; [done|]. wp_step. apply wp_set_ws_conn; [done|]. rewrite Hc.
  cbn [default from_option id]. wp_step. unfold close_fd. wp_step. cbn [conn_list epoll wire].
  eapply dispatch_in; [apply (er_lfd _ _ _ Hr)|cbn [conn_list]; by rewrite lookup_insert_ne|].
  rewrite Hacc. cbn [call ev_fd ev_accept]. unfold accept_cb, event_register.
  rewrite (proj2 (Z.ltb_ge fd 0)) by lia. wp_step. apply wp_ws_conn; [done|].
  cbn [conn_list]. rewrite lookup_insert_eq. cbn [default from_option id status]. wp_step.
  apply wp_set_ws_conn; [done|]. cbn [conn_list epoll wire]. rewrite insert_insert_eq. wp_step.
  apply wp_set_event. intros ep. wp_step. apply HQ; [|done]. cbn [conn_list].
  by rewrite lookup_insert_eq, Hst.
Qed.
(** With status 1 whatever comes is a frame; its length is in the second byte. *)
Lemma frame_wp fd c b0 b1 m d more s (Q : unit → server → Prop) :
  0 ≤ fd < CONNECTION_SIZE → conn_list s !! fd = Some c → r_action c = CbRecv →
  send_callback c = CbSend → status c = 1 → length (wbuffer c) = BUFFER_LENGTH →
  length m = 4%nat → Z.land b1 127 = Z.of_nat (length d) → (length d < 126)%nat →
  (length (b0 :: b1 :: m ++ d ++ more) < BUFFER_LENGTH)%nat →
  (∀ s', wire s' = wire s ++ [(fd, server_frame (demask_loop 0 d m))] → Q tt s') →
  wp (dispatch (Event fd EPOLLIN 0 (Some (b0 :: b1 :: m ++ d ++ more)));;
      dispatch (Event fd EPOLLOUT 0 None)) Q s.
Proof.
  intros Hb Hc Ha Hs Hst Hw Hm Hb1 Hd Hlen HQ. pose proof (demask_loop_length 0 d m) as El.
  set (data := b0 :: b1 :: m ++ d ++ more) in *. wp_step.
  eapply dispatch_in; [done|exact Hc|]. rewrite Ha. cbn [call ev_fd ev_recv].
  eapply recv_cb_wp; [done|exact Hc|done|lia|].
  eapply (ws_request_frame fd _ b0 b1 m d more (BUFFER_LENGTH - length data));
    [done|apply lookup_insert_eq|exact Hst|done|lia|done|done|done|done|].
  intros rb rest Hb'. cbn [conn_list epoll wire rlength send_callback r_action].
  apply wp_set_event. intros ep. cbn [conn_list wire]. wp_step.
  eapply dispatch_out; [done|apply lookup_insert_eq|]. cbn [send_callback]. rewrite Hs.
  cbn [call ev_fd]. unfold send_cb, ws_response. wp_step. apply wp_ws_conn; [done|]. cbn [conn_list].
  rewrite lookup_insert_eq. cbn [default from_option id wlength wbuffer].
  rewrite (proj2 (Z.eqb_neq _ 0)) by lia. rewrite (proj2 (Z.ltb_ge _ 0)) by lia.
  rewrite Hb', (proj2 (Z.ltb_ge (Z.of_nat BUFFER_LENGTH) _)) by (unfold BUFFER_LENGTH; lia).
  cbn [orb]. wp_step. apply wp_set_event. intros ep'. wp_step. apply HQ. cbn [wire].
  replace (Z.to_nat (Z.of_nat (length d) + 2))
    with (length (server_frame (demask_loop 0 d m)))
    by (unfold server_frame; rewrite length_app, El; cbn [length]; lia).
  by rewrite take_app_length.
Qed.

Lemma event_loop_pairs a b c d s :
  event_loop [a; b; c; d] s =
  bind (dispatch a;; dispatch b) (λ _, dispatch c;; dispatch d) s.
Proof.
  cbn [event_loop]. unfold bind. destruct (dispatch a s) as [[[] s1]| |]; [|done..].
  destruct (dispatch b s1) as [[[] s2]| |]; [|done..].
  destruct (dispatch c s2) as [[[] s3]| |]; [|done..].
  by destruct (dispatch d s3) as [[[] s4]| |].
Qed.

(** C37: event_register keeps the status of the descriptor's last connection.  When a client
    that had upgraded leaves, and the next one gets its descriptor, the server treats the
    upgrade request of the next one ("GE...") as a frame and never answers 101. *)
Theorem reused_descriptor_skips_handshake lfd es A out fd m d more :
  0 ≤ lfd < CONNECTION_SIZE → echo_steps lfd ∅ es A out → A !! fd = Some Open →
  length m = 4%nat → length d = 69%nat → (length more < 4000)%nat →
  ∃ s, server_start lfd (es ++
      [Event fd EPOLLIN 0 None; Event lfd EPOLLIN fd None;
       Event fd EPOLLIN 0 (Some (text "GE" ++ m ++ d ++ more)); Event fd EPOLLOUT 0 None])
      server_zero = Ok (tt, s) ∧
    wire s = out ++ [(fd, server_frame (demask_loop 0 d m))].
Proof.
  intros Hl Hsteps HA Hm Hd Hmore.
  enough (wp (server_start lfd (es ++
      [Event fd EPOLLIN 0 None; Event lfd EPOLLIN fd None;
       Event fd EPOLLIN 0 (Some (71 :: 69 :: m ++ d ++ more)); Event fd EPOLLOUT 0 None]))
      (λ _ s, wire s = out ++ [(fd, server_frame (demask_loop 0 d m))]) server_zero)
    as ([]&s&E&Hw)%wp_run by by exists s.
  eapply server_start_wp; [done|exact Hsteps|]. intros s Hr Hwire.
  destruct (er_conn _ _ _ Hr fd _ HA) as (Hb&_).
  unfold wp. rewrite event_loop_pairs. apply wp_bind. eapply reopen_wp; [done..|]. intros s1 Hc1 Hw1.
  eapply frame_wp; [done|exact Hc1|done..|by rewrite Hd|lia| |].
  - cbn [length]. rewrite !length_app. unfold BUFFER_LENGTH. lia.
  - intros s2 Hw2. by rewrite Hw2, Hw1, Hwire.
Qed.

(** ** Digests with a zero byte *)

(** The digest goes through strlen: when it has a zero byte, the answer holds the base64
    of the bytes before it, which is not what RFC 6455 asks for. *)
Theorem zero_digest_truncated ls key rest d r k (s : server) :
  request_ok ls key rest → (0 < k)%nat →
  SHA1 (key ++ GUID) = d ++ 0 :: r → Forall (λ c, 0 < c) d → (0 < length d ≤ 18)%nat →
  ∃ answer z, handshake (upgrade_request ls key rest ++ replicate k 0) s =
      Ok (Some (answer ++ replicate z 0, Z.of_nat (length answer)), s) ∧
    answer = answer_with (removelast (bio_base64 d)) ∧
    (length answer < length (accept_answer key))%nat.
Proof.
  intros Hok Hk Hd Hpos Hlen.
  destruct (handshake_spec ls key rest d k s Hok Hk) as (b&z&Eb&Eh&_).
  { rewrite Hd, <-app_assoc. by apply until_nul_app. }
  { intros ->. cbn in Hlen. lia. }
  exists (answer_with b), (S z). rewrite Eb, removelast_last. split_and!; [done..|].
  destruct (base64_line d) as (b1&Eb1&Hb1&_); [lia|].
  destruct (base64_line (SHA1 (key ++ GUID))) as (b2&Eb2&Hb2&_); [rewrite sha1_length; lia|].
  rewrite sha1_length in Hb2. rewrite Eb in Eb1. apply app_inj_tail in Eb1 as [<- _].
  unfold accept_answer, answer_for, answer_with. rewrite Eb2, removelast_last, !length_app.
  assert (length b ≤ 24)%nat; [|change ((20 + 2) / 3)%nat with 7%nat in Hb2; lia].
  rewrite Hb1. assert ((length d + 2) / 3 < 7)%nat; [|lia].
  apply Nat.Div0.div_lt_upper_bound. lia.
Qed.

(** ** Requests in two segments *)

Lemma read_loop_none (part : list Z) fuel pre post done_ r (s : server) :
  Forall (λ c, c ≠ CR) part → (length part < fuel)%nat → (length part ≤ r)%nat →
  read_loop fuel (pre ++ part ++ post) (length pre + length part) (length pre)
    (done_ ++ replicate r 0) (length done_) s =
  Ok (-1, (done_ ++ part) ++ replicate (r - length part) 0, s).
Proof.
  intros Hl. revert fuel pre done_ r. induction Hl as [|c part Hc Hl IH];
    intros [|fuel] pre done_ r Hf Hr; try (cbn in Hf; lia); cbn [read_loop length].
  - rewrite (proj2 (Nat.ltb_ge _ _)) by lia. by rewrite app_nil_r, Nat.sub_0_r.
  - rewrite (proj2 (Nat.ltb_lt _ _)) by lia. apply wp_det. wp_step.
    apply wp_rd with c; [by rewrite lookup_app_r, Nat.sub_diag by lia|].
    rewrite (proj2 (Z.eqb_neq _ _) Hc). wp_step. cbn [andb]. wp_step.
    cbn [length] in Hf, Hr. apply wr_append; [done|cbn; lia|].
    specialize (IH fuel (pre ++ [c]) (done_ ++ [c]) (r - 1)%nat).
    rewrite !length_app in IH. cbn [length] in IH |- *.
    eapply wp_lift_pure.
    + replace (pre ++ (c :: part) ++ post) with ((pre ++ [c]) ++ part ++ post)
        by by rewrite <-app_assoc.
      replace (length pre + S (length part))%nat with (length pre + 1 + length part)%nat by lia.
      replace (S (length pre)) with (length pre + 1)%nat by lia.
      replace (S (length done_)) with (length done_ + 1)%nat by lia. apply IH; lia.
    + replace (r - S (length part))%nat with (r - 1 - length part)%nat by lia.
      split; [|done]. by rewrite <-!app_assoc.
Qed.

(** A segment that ends inside the header lines, before the key. *)
Definition partial_ok (ls : list (list Z)) (part : list Z) : Prop :=
  Forall (λ l, line_ok l ∧ contains key_name l = false) ls ∧
  Forall (λ c, 0 < c ∧ c ≠ CR) part ∧ contains key_name part = false ∧ (length part ≤ 900)%nat.
#[global] Instance partial_ok_dec ls part : Decision (partial_ok ls part).
Proof. unfold partial_ok. apply _. Defined.

Lemma partial_pos ls part : partial_ok ls part → Forall (λ c, 0 < c) (lines ls ++ part).
Proof.
  intros (Hls&Hp&_). rewrite Forall_app. split; [|eapply Forall_impl; [exact Hp|]; cbn; tauto].
  unfold lines. apply Forall_concat, Forall_fmap.
  eapply Forall_impl; [exact Hls|]. intros l [Hl _]. cbn. rewrite Forall_app, !Forall_cons.
  split_and!; [by apply line_ok_pos|done..].
Qed.

Lemma handshake_partial ls part pre k fuel (s : server) :
  partial_ok ls part → Forall (λ c, 0 < c) pre → (0 < k)%nat → (length ls < fuel)%nat →
  handshake_loop fuel (pre ++ (lines ls ++ part) ++ replicate k 0) (length pre) s =
  UB OutOfBounds.
Proof.
  intros Hok Hpre Hk Hf. pose proof Hok as (Hls&Hp&Hno&Hlen). revert pre fuel Hok Hpre Hf.
  induction Hls as [|l ls [Hl Hnol] Hls IH]; intros pre [|fuel] Hok Hpre Hf; try (cbn in Hf; lia).
  - assert (Forall (λ c, 0 < c) part ∧ Forall (λ c, c ≠ CR) part) as [Hpos Hcr].
    { split; (eapply Forall_impl; [exact Hp|]; cbn; tauto). }
    cbn [handshake_loop lines fmap list_fmap concat app]. unfold bind at 1. unfold readline.
    unfold bind at 1. unfold str_at at 1. rewrite drop_0, app_assoc, until_nul_zeros;
      [|by rewrite Forall_app|done]. cbn [from_opt ret]. rewrite <-app_assoc, (length_app pre part).
    pose proof (read_loop_none part (length (pre ++ part ++ replicate k 0)) pre (replicate k 0)
      [] 1024 s Hcr) as Er. cbn [app length] in Er.
    rewrite Er; [|rewrite !length_app, length_replicate; lia|lia].
    unfold bind at 1, str_at. rewrite drop_0. cbn [app].
    rewrite until_nul_zeros by (done || lia). cbn [from_opt ret]. unfold key_name in Hno.
    by rewrite Hno.
  - assert (partial_ok ls part) as Hok' by done.
    assert (lines (l :: ls) ++ part = l ++ CR :: LF :: lines ls ++ part) as ->.
    { unfold lines. cbn [fmap list_fmap concat]. by rewrite <-!app_assoc. }
    assert (∃ c, ((lines ls ++ part) ++ replicate k 0) !! 0%nat = Some c ∧ c ≠ CR) as (c&Hc&Hcr).
    { destruct Hls as [|[|c l'] ls [[Hl' Hc] _] _].
      - destruct Hp as [|c part [_ Hc] _]; [destruct k; [lia|by exists 0]|by exists c].
      - cbn in Hl'. lia.
      - apply Forall_cons in Hc as [[_ Hc] _]. by exists c. }
    rewrite handshake_skip with (c := c); try done; [|by apply partial_pos].
    apply IH; [done| |cbn in Hf; lia].
    rewrite !Forall_app, !Forall_cons. split_and!; try done. by apply line_ok_pos.
Qed.

(** When the first segment of an upgrade request ends before the key, handshake reads
    rbuffer[-1]: the loop tests the buffer at idx before it tests idx for -1. *)
Theorem split_request_reads_before_buffer fd c ls part s :
  0 ≤ fd < CONNECTION_SIZE → conn_list s !! fd = Some c → status c = 0 →
  partial_ok ls part → lines ls ++ part ≠ [] → (length (lines ls ++ part) < BUFFER_LENGTH)%nat →
  recv_cb fd (Some (lines ls ++ part)) s = UB OutOfBounds.
Proof.
  intros Hb Hc Hst Hok Hne Hlen. set (data := lines ls ++ part) in *.
  assert (length ls ≤ length (lines ls))%nat as Hls.
  { clear. unfold lines. induction ls as [|l ls IH]; cbn; [lia|]. rewrite !length_app. cbn. lia. }
  unfold recv_cb, ws_request, set_conn, get_conn.
  rewrite (proj2 (Z.leb_le _ _)), (proj2 (Z.ltb_lt _ _)) by lia. cbn [andb].
  unfold bind at 1, gets at 1. rewrite Hc. cbn [default from_option id].
  rewrite take_ge by lia. replace (length data =? 0)%nat with false by (by destruct data).
  unfold bind, gets, modify. cbn [conn_list]. rewrite lookup_insert_eq.
  cbn [default from_option id status rbuffer]. rewrite Hst, Z.eqb_refl. unfold handshake.
  pose proof (handshake_partial ls part [] (BUFFER_LENGTH - length data)
    (S (length (data ++ replicate (BUFFER_LENGTH - length data) 0)))) as Hh.
  cbn [app length] in Hh. unfold data in *. rewrite Hh; [done..|lia|].
  rewrite !length_app in *. lia.
Qed.
End errors.

(** ** Witnesses *)

Definition open_conn : conn := Conn zeros 0 zeros 0 CbSend CbRecv 1.
Definition open_server : server := Server {[5 := open_conn]} {[5 := EPOLLIN]} [].

Lemma extended_frame_misread_witness :
  ∃ s' c', @recv_cb (with_digest sample_digest) 5
      (Some (extended_frame [1; 2; 3; 4] (replicate 200 65))) open_server = Ok (208, s') ∧
    conn_list s' !! 5 = Some c' ∧ wlength c' = 128 ∧ take 2 (wbuffer c') = [0x81; 0] ∧
    take 126 (drop 2 (wbuffer c')) =
      demask_loop 0 (take 126 ([3; 4] ++ demask_loop 0 (replicate 200 65) [1; 2; 3; 4]))
        [0; 200; 1; 2].
Proof.
  apply (@extended_frame_misread (with_digest sample_digest) 5 open_conn
    [1; 2; 3; 4] (replicate 200 65) open_server);
    [done|apply lookup_insert_eq|done|apply length_replicate|done|cbn; lia].
Defined.

Lemma reused_descriptor_skips_handshake_witness :
  ∃ s, @server_start (with_digest sample_digest) 3
      ([Event 3 EPOLLIN 5 None; Event 5 EPOLLIN 0 (Some sample_request); Event 5 EPOLLOUT 0 None] ++
       [Event 5 EPOLLIN 0 None; Event 3 EPOLLIN 5 None;
        Event 5 EPOLLIN 0 (Some (text "GE" ++ take 4 (drop 2 sample_request) ++
          take 69 (drop 6 sample_request) ++ drop 75 sample_request)); Event 5 EPOLLOUT 0 None])
      server_zero = Ok (tt, s) ∧
    wire s = ([] ++ [] ++ [(5, @accept_answer (with_digest sample_digest) sample_key)] ++ []) ++
      [(5, server_frame (demask_loop 0 (take 69 (drop 6 sample_request))
        (take 4 (drop 2 sample_request))))].
Proof.
  apply (@reused_descriptor_skips_handshake (with_digest sample_digest) sample_laws 3 _
    (<[5 := Open]> (<[5 := Reply (@accept_answer (with_digest sample_digest) sample_key)]>
      (<[5 := Hello]> ∅))));
    [done| |apply lookup_insert_eq|done|done|apply Nat.ltb_lt; by vm_compute].
  eapply echo_cons; [by apply accepted|].
  eapply echo_cons.
  { apply upgraded; [done|exact sample_request_ok|apply Nat.ltb_lt; by vm_compute|].
    refine (bool_decide_unpack _ _). by vm_compute. }
  eapply echo_cons; [by apply flushed|]. apply echo_nil.
Defined.

(** A digest whose eleventh byte is zero. *)
Definition zero_digest : list Z := replicate 10 7 ++ 0 :: replicate 9 7.
Definition zero_laws : @OpensslLaws (with_digest zero_digest).
Proof. apply with_digest_laws; [done|]. unfold is_byte. refine (bool_decide_unpack _ _). by vm_compute. Qed.
Lemma zero_digest_truncated_witness :
  ∃ answer z, @handshake server (with_digest zero_digest) (sample_request ++ replicate 10 0)
      server_zero = Ok (Some (answer ++ replicate z 0, Z.of_nat (length answer)), server_zero) ∧
    answer = answer_with (removelast (b64 (replicate 10 7) ++ [LF])) ∧
    (length answer < length (@accept_answer (with_digest zero_digest) sample_key))%nat.
Proof.
  apply (@zero_digest_truncated (with_digest zero_digest) zero_laws sample_lines sample_key
    [CR; LF] (replicate 10 7) (replicate 9 7) 10 server_zero);
    [exact sample_request_ok|lia|done|by repeat constructor|cbn; lia].
Defined.

Lemma split_request_reads_before_buffer_witness :
  @recv_cb (with_digest sample_digest) 5 (Some (lines (take 2 sample_lines) ++ text "Upgra"))
    (Server {[5 := Conn zeros 0 zeros 0 CbSend CbRecv 0]} {[5 := EPOLLIN]} []) = UB OutOfBounds.
Proof.
  apply (@split_request_reads_before_buffer (with_digest sample_digest) 5
    (Conn zeros 0 zeros 0 CbSend CbRecv 0));
    [done|apply lookup_insert_eq|done| |done|apply Nat.ltb_lt; by vm_compute].
  refine (bool_decide_unpack _ _). by vm_compute.
Defined.
