(* ===== verification/WebServer.v ===== *)
(** The web server (senior/2.1_network_io/03_Webserver: Webserver.c, reactor.c, server.h):
    connection table, callbacks, the state machine of a response, event loop.  What the
    kernel reports, and what index.html holds at that moment, is input. *)
From S2P Require Import Prelude.
From Stdlib Require Import Ascii.

Definition BUFFER_LENGTH : nat := 4096.
Definition CONNECTION_SIZE : Z := 1024.
Abbreviation text := (list ascii).
Definition NUL : ascii := "000".
Definition zeros (n : nat) : text := replicate n NUL.
Definition txt (s : string) : text := String.list_ascii_of_string s.

Inductive callback : Type := CbNull | CbAccept | CbRecv | CbSend.
Record conn : Type := Conn {
  rbuffer : text; rlength : Z; wbuffer : text; wlength : Z; send_callback : callback; r_action : callback; status : Z }.
Definition conn_zero : conn := Conn (zeros BUFFER_LENGTH) 0 (zeros BUFFER_LENGTH) 0 CbNull CbNull 0.
(** The entries of conn_list that were written, the others are zero; the interest set; what
    was handed to the peers. *)
Record server : Type := Server { conn_list : gmap Z conn; epoll : gmap Z Z; wire : list (Z * text) }.

(** A ready descriptor: what accept returns, what recv stores ([None]: it fails), what
    index.html holds ([None]: open fails), and the result of send or sendfile. *)
Record event : Type := Event {
  ev_fd : Z; ev_events : Z; ev_accept : Z; ev_recv : option text; ev_file : option text; ev_sent : Z }.
Definition EPOLLIN : Z := 1.
Definition EPOLLOUT : Z := 4.

Definition get_conn (fd : Z) : M server conn :=
  if (0 <=? fd) && (fd <? CONNECTION_SIZE)
  then gets (λ s, default conn_zero (conn_list s !! fd)) else undef OutOfBounds.
Definition set_conn (fd : Z) (c : conn) : M server unit :=
  get_conn fd;; modify (λ s, Server (<[fd := c]> (conn_list s)) (epoll s) (wire s)).
(** A call of epoll_ctl that fails changes nothing; its result is not tested. *)
Definition set_event (fd event flag : Z) : M server unit :=
  modify (λ s,
    match epoll s !! fd with
    | None => if flag =? 0 then s else Server (conn_list s) (<[fd := event]> (epoll s)) (wire s)
    | Some _ => if flag =? 0 then Server (conn_list s) (<[fd := event]> (epoll s)) (wire s) else s
    end).
(** close takes it out of the interest set; the EPOLL_CTL_DEL behind it fails. *)
Definition close_fd (fd : Z) : M server unit :=
  modify (λ s, Server (conn_list s) (delete fd (epoll s)) (wire s)).
(** The part of [l] that a call with result [n] took. *)
Definition emit (fd : Z) (l : text) (n : Z) : M server unit :=
  if n <? 0 then ret () else modify (λ s, Server (conn_list s) (epoll s) (wire s ++ [(fd, take (Z.to_nat n) l)])).

(** ** HTTP *)

Definition crlf : text := ["013"; "010"]%char.
Definition header_text (st_size : Z) : text :=
  txt "HTTP/1.1 200 OK" ++ crlf ++ txt "Content-Type: text/html" ++ crlf ++ txt "Accept-Ranges: bytes" ++ crlf ++
  txt "Content-Length: " ++ txt (pretty st_size) ++ crlf ++ txt "Date: Tue, 30 Apr 2024 13:16:46 GMT" ++ crlf ++ crlf.

Definition http_request (c : conn) : conn :=
  Conn (rbuffer c) (rlength c) (zeros BUFFER_LENGTH) 0 (send_callback c) (r_action c) 0.
(** fstat on the result of an open that failed leaves stat_buf without a value. *)
Definition http_response (fd : Z) (file : option text) (sent : Z) : M server Z :=
  c ← get_conn fd;
  (if status c =? 0 then
     f ← from_opt IndetRead file;
     let h := header_text (Z.of_nat (length f)) in
     if (BUFFER_LENGTH <=? length h)%nat then undef OutOfBounds else
     set_conn fd (Conn (rbuffer c) (rlength c) (h ++ NUL :: drop (S (length h)) (wbuffer c)) (Z.of_nat (length h))
       (send_callback c) (r_action c) 1)
   else if status c =? 1 then
     f ← from_opt IndetRead file;
     emit fd f sent;;
     set_conn fd (Conn (rbuffer c) (rlength c) (wbuffer c) (wlength c) (send_callback c) (r_action c) 2)
   else if status c =? 2 then
     set_conn fd (Conn (rbuffer c) (rlength c) (zeros BUFFER_LENGTH) 0 (send_callback c) (r_action c) 0)
   else ret ());;
  c ← get_conn fd; ret (wlength c).

(** ** Callbacks *)

Definition accept_cb (fd clientfd : Z) : M server Z :=
  if clientfd =? -1 then ret (-1) else
  c ← get_conn clientfd;
  set_conn clientfd (Conn (zeros BUFFER_LENGTH) 0 (zeros BUFFER_LENGTH) 0 CbSend CbRecv (status c));;
  set_event clientfd EPOLLIN 1;;
  ret 0.
Definition recv_cb (fd : Z) (data : option text) : M server Z :=
  c ← get_conn fd;
  match data with
  | None => close_fd fd;; set_conn fd conn_zero;; ret (-1)
  | Some data =>
      let got := take BUFFER_LENGTH data in
      if (length got =? 0)%nat then close_fd fd;; set_conn fd conn_zero;; ret 0 else
      let rb := got ++ zeros (BUFFER_LENGTH - length got) in
      (* printf reads rbuffer as a string *)
      if negb (bool_decide (NUL ∈ rb)) then undef OutOfBounds else
      set_conn fd (http_request (Conn rb (Z.of_nat (length got)) (wbuffer c) (wlength c) (send_callback c) (r_action c) (status c)));;
      set_event fd EPOLLOUT 0;;
      ret (Z.of_nat (length got))
  end.
Definition send_cb (fd : Z) (file : option text) (sent : Z) : M server Z :=
  http_response fd file sent;;
  c ← get_conn fd;
  (if status c =? 1 then
     emit fd (take (Z.to_nat (wlength c)) (wbuffer c)) sent;;
     set_event fd EPOLLOUT 0
   else if status c =? 2 then set_event fd EPOLLOUT 0
   else if status c =? 0 then set_event fd EPOLLIN 0
   else ret ());;
  ret 0.

Definition call (cb : callback) (e : event) : M server Z :=
  match cb with
  | CbNull => undef NullDeref
  | CbAccept => accept_cb (ev_fd e) (ev_accept e)
  | CbRecv => recv_cb (ev_fd e) (ev_recv e)
  | CbSend => send_cb (ev_fd e) (ev_file e) (ev_sent e)
  end.
Definition dispatch (e : event) : M server unit :=
  (if Z.land (ev_events e) EPOLLIN =? 0 then ret () else
   c ← get_conn (ev_fd e); call (r_action c) e;; ret ());;
  (if Z.land (ev_events e) EPOLLOUT =? 0 then ret () else
   c ← get_conn (ev_fd e); call (send_callback c) e;; ret ()).
Fixpoint event_loop (es : list event) : M server unit :=
  match es with [] => ret () | e :: es => dispatch e;; event_loop es end.
(** main, with the descriptor that init_server returns. *)
Definition server_start (sockfd : Z) (es : list event) : M server unit :=
  c ← get_conn sockfd;
  set_conn sockfd (Conn (rbuffer c) (rlength c) (wbuffer c) (wlength c) (send_callback c) CbAccept (status c));;
  set_event sockfd EPOLLIN 1;;
  event_loop es.
Definition server_zero : server := Server ∅ ∅ [].
