(* ===== verification/WebServe.v ===== *)
(** The web server refines a service that answers every request with a header and the
    file; what it does when the file changes or is missing. *)
From S2P Require Import Prelude WebServer.
From Stdlib Require Import Ascii.

(** ** Specification *)

(** A connection that waits for a request, or has the header, the file or nothing more to
    send. *)
Inductive phase : Type := Idle | Head | Body | Done.
#[export] Instance phase_eq_dec : EqDecision phase.
Proof. solve_decision. Defined.
Definition took (n : Z) (l : text) : list text := if n <? 0 then [] else [take (Z.to_nat n) l].

(** One event of the service that listens on [lfd], and what is handed to its peer; [None]
    where the service promises nothing. *)
Definition web_step (lfd : Z) (A : gmap Z phase) (e : event) : option (gmap Z phase * list (Z * text)) :=
  let fd := ev_fd e in
  let send l := pair fd <$> took (ev_sent e) l in
  if decide (fd = lfd) then
    if negb (ev_events e =? EPOLLIN) then None else
    if ev_accept e =? -1 then Some (A, []) else
    if (0 <=? ev_accept e) && (ev_accept e <? CONNECTION_SIZE) && negb (ev_accept e =? lfd) && bool_decide (A !! ev_accept e = None)
    then Some (<[ev_accept e := Idle]> A, []) else None
  else
  match A !! fd with
  | None => None
  | Some Idle =>
      if negb (ev_events e =? EPOLLIN) then None else
      match ev_recv e with
      | None | Some [] => Some (delete fd A, [])
      | Some data =>
          if bool_decide (NUL ∈ take BUFFER_LENGTH data) || (length data <? BUFFER_LENGTH)%nat then Some (<[fd := Head]> A, []) else None
      end
  | Some Head =>
      if negb (ev_events e =? EPOLLOUT) then None else
      f ← ev_file e;
      let h := header_text (Z.of_nat (length f)) in
      if (length h <? BUFFER_LENGTH)%nat then Some (<[fd := Body]> A, send h) else None
  | Some Body =>
      if negb (ev_events e =? EPOLLOUT) then None else f ← ev_file e; Some (<[fd := Done]> A, send f)
  | Some Done =>
      if negb (ev_events e =? EPOLLOUT) then None else Some (<[fd := Idle]> A, [])
  end%stdpp.
Fixpoint web_run (lfd : Z) (A : gmap Z phase) (es : list event) : option (gmap Z phase * list (Z * text)) :=
  match es with
  | [] => Some (A, [])
  | e :: es =>
      match web_step lfd A e with
      | Some (A, out) => match web_run lfd A es with Some (A, outs) => Some (A, out ++ outs) | None => None end
      | None => None
      end
  end.

(** ** The server implements it *)

Definition conn_rel (p : phase) (c : conn) (w : option Z) : Prop :=
  r_action c = CbRecv ∧ send_callback c = CbSend ∧ length (wbuffer c) = BUFFER_LENGTH ∧
  match p with
  | Idle => status c = 0 ∧ w = Some EPOLLIN
  | Head => status c = 0 ∧ w = Some EPOLLOUT
  | Body => status c = 1 ∧ w = Some EPOLLOUT
  | Done => status c = 2 ∧ w = Some EPOLLOUT
  end.
Record web_rel (lfd : Z) (A : gmap Z phase) (s : server) : Prop := {
  wr_lfd : 0 ≤ lfd < CONNECTION_SIZE;
  wr_listen : ∃ c, conn_list s !! lfd = Some c ∧ r_action c = CbAccept;
  wr_none : A !! lfd = None;
  wr_bound : ∀ fd p, A !! fd = Some p → 0 ≤ fd < CONNECTION_SIZE;
  wr_conn : ∀ fd p, A !! fd = Some p → ∃ c, conn_list s !! fd = Some c ∧ conn_rel p c (epoll s !! fd);
  wr_free : ∀ fd, A !! fd = None → fd ≠ lfd → status (default conn_zero (conn_list s !! fd)) = 0 ∧ epoll s !! fd = None }.

(** A step at one connection [fd]. *)
Lemma web_rel_update lfd A s fd p c w wr :
  web_rel lfd A s → fd ≠ lfd → 0 ≤ fd < CONNECTION_SIZE → conn_rel p c w →
  web_rel lfd (<[fd := p]> A) (Server (<[fd := c]> (conn_list s)) (partial_alter (λ _, w) fd (epoll s)) wr).
Proof.
  intros [Hb [cl [Hl Ha]] Hn Hbd Hc Hf] Hne Hfd Hrel. split; cbn; [done| | | | |].
  - exists cl. by rewrite lookup_insert_ne.
  - by rewrite lookup_insert_ne.
  - intros x q [[<- _]|[_ Hx]]%lookup_insert_Some; [done|by eapply Hbd].
  - intros x q [[<- <-]|[Hx Hq]]%lookup_insert_Some.
    + exists c. by rewrite lookup_insert_eq, lookup_partial_alter_eq.
    + rewrite lookup_insert_ne, lookup_partial_alter_ne by done. by apply Hc.
  - intros x [Hx Hxf]%lookup_insert_None Hxl. rewrite lookup_insert_ne, lookup_partial_alter_ne by done. by apply Hf.
Qed.
Lemma web_rel_close lfd A s fd :
  web_rel lfd A s → fd ≠ lfd →
  web_rel lfd (delete fd A) (Server (<[fd := conn_zero]> (conn_list s)) (delete fd (epoll s)) (wire s)).
Proof.
  intros [Hb [cl [Hl Ha]] Hn Hbd Hc Hf] Hne. split; cbn; [done| | | | |].
  - exists cl. by rewrite lookup_insert_ne.
  - by rewrite lookup_delete_ne.
  - intros x q [_ Hx]%lookup_delete_Some. by eapply Hbd.
  - intros x q [Hx Hq]%lookup_delete_Some. rewrite lookup_insert_ne, lookup_delete_ne by done. by apply Hc.
  - intros x Hx Hxl. destruct (decide (x = fd)) as [->|Hxf]; [by rewrite lookup_insert_eq, lookup_delete_eq|].
    rewrite lookup_delete_ne in Hx by done. rewrite lookup_insert_ne, lookup_delete_ne by done. by apply Hf.
Qed.

Lemma wp_web_conn fd (Q : conn → server → Prop) s :
  0 ≤ fd < CONNECTION_SIZE → Q (default conn_zero (conn_list s !! fd)) s → wp (get_conn fd) Q s.
Proof. intros Hb HQ. unfold get_conn. by rewrite (proj2 (Z.leb_le _ _)), (proj2 (Z.ltb_lt _ _)) by lia. Qed.
Lemma wp_set_web_conn fd c (Q : unit → server → Prop) s :
  0 ≤ fd < CONNECTION_SIZE → Q tt (Server (<[fd := c]> (conn_list s)) (epoll s) (wire s)) → wp (set_conn fd c) Q s.
Proof. intros Hb HQ. unfold set_conn. wp_step. by apply wp_web_conn. Qed.
(** epoll_ctl MOD of a descriptor in the interest set. *)
Lemma wp_mod fd ev w cl wr ep (Q : unit → server → Prop) :
  ep !! fd = Some w → Q tt (Server cl (partial_alter (λ _, Some ev) fd ep) wr) → wp (set_event fd ev 0) Q (Server cl ep wr).
Proof. intros Hw HQ. unfold set_event. wp_step. cbn [epoll]. rewrite Hw. done. Qed.
Lemma wp_emit fd l n s (Q : unit → server → Prop) :
  Q tt (Server (conn_list s) (epoll s) (wire s ++ (pair fd <$> took n l))) → wp (emit fd l n) Q s.
Proof. unfold emit, took. destruct (n <? 0); intros HQ; wp_step; [|done]. cbn in HQ. rewrite app_nil_r in HQ. by destruct s. Qed.

Definition web_done (lfd : Z) (A : gmap Z phase) (s : server) (out : list (Z * text)) (s' : server) : Prop :=
  web_rel lfd A s' ∧ wire s' = wire s ++ out.

Lemma accept_refines lfd A s e B out :
  web_rel lfd A s → ev_fd e = lfd → web_step lfd A e = Some (B, out) → wp (dispatch e) (λ _, web_done lfd B s out) s.
Proof.
  intros Hr Hfd. unfold web_step. rewrite decide_True by done. destruct (Z.eqb_spec (ev_events e) EPOLLIN) as [Hev|]; [|done].
  unfold dispatch. rewrite Hev. change (Z.land EPOLLIN EPOLLIN =? 0) with false. change (Z.land EPOLLIN EPOLLOUT =? 0) with true.
  destruct (wr_listen _ _ _ Hr) as (cl & Hl & Ha). wp_step. intros Hstep. rewrite Hfd. apply wp_web_conn; [apply Hr|].
  rewrite Hl. cbn [default from_option id]. wp_step. rewrite Ha. unfold call, accept_cb.
  destruct (ev_accept e =? -1); [injection Hstep as <- <-; wp_step; split; [done|by rewrite app_nil_r]|].
  cbn [negb] in Hstep. match type of Hstep with (if ?b then _ else _) = _ => destruct b eqn:Hok end; [|done].
  injection Hstep as <- <-. rewrite !andb_true_iff in Hok. destruct Hok as [[[H0%Z.leb_le H1024%Z.ltb_lt] Hne] Hnew%bool_decide_eq_true].
  apply negb_true_iff, Z.eqb_neq in Hne.
  wp_step. apply wp_web_conn; [done|]. wp_step. apply wp_set_web_conn; [done|]. unfold set_event. wp_step. cbn [epoll].
  destruct (wr_free _ _ _ Hr (ev_accept e) Hnew Hne) as [Hst ->]. cbn [Z.eqb]. wp_step. split; [|cbn; by rewrite app_nil_r].
  apply (web_rel_update lfd A s (ev_accept e) Idle _ (Some EPOLLIN)); [done..|]. by rewrite Hst.
Qed.

Lemma recv_refines lfd A s e B out c :
  web_rel lfd A s → ev_fd e ≠ lfd → A !! ev_fd e = Some Idle → conn_list s !! ev_fd e = Some c →
  conn_rel Idle c (epoll s !! ev_fd e) → web_step lfd A e = Some (B, out) → wp (dispatch e) (λ _, web_done lfd B s out) s.
Proof.
  intros Hr Hne HA Hc (Hra & Hsc & Hwb & Hst & Hep). unfold web_step. rewrite decide_False, HA by done.
  destruct (Z.eqb_spec (ev_events e) EPOLLIN) as [Hev|]; [|done]. pose proof (wr_bound _ _ _ Hr _ _ HA) as Hb.
  unfold dispatch. rewrite Hev. change (Z.land EPOLLIN EPOLLIN =? 0) with false. change (Z.land EPOLLIN EPOLLOUT =? 0) with true.
  cbn [negb]. intros Hstep. wp_step. apply wp_web_conn; [done|]. rewrite Hc. cbn [default from_option id]. wp_step. rewrite Hra.
  unfold call, recv_cb. wp_step. apply wp_web_conn; [done|]. rewrite Hc. cbn [default from_option id].
  destruct (ev_recv e) as [data|].
  2: { injection Hstep as <- <-. unfold close_fd. wp_step. apply wp_set_web_conn; [done|]. wp_step.
       split; [exact (web_rel_close lfd A s (ev_fd e) Hr Hne)|cbn; by rewrite app_nil_r]. }
  destruct data as [|b data].
  { injection Hstep as <- <-. unfold close_fd. cbn [take length Nat.eqb]. wp_step. rewrite take_nil. cbn [length Nat.eqb]. wp_step. apply wp_set_web_conn; [done|]. wp_step.
    split; [exact (web_rel_close lfd A s (ev_fd e) Hr Hne)|cbn; by rewrite app_nil_r]. }
  set (d := b :: data) in *. case_match eqn:Hnul; [|done]. injection Hstep as <- <-.
  replace (length (take BUFFER_LENGTH d) =? 0)%nat with false by done.
  rewrite bool_decide_eq_true_2.
  2: { rewrite elem_of_app. apply orb_true_iff in Hnul as [?%bool_decide_eq_true|Hlen%Nat.ltb_lt]; [by left|right].
       unfold zeros. apply elem_of_replicate. split; [done|]. rewrite length_take. unfold d in *. lia. }
  cbn [negb]. wp_step. apply wp_set_web_conn; [done|]. wp_step. eapply wp_mod; [done|]. wp_step.
  split; [|cbn; by rewrite app_nil_r]. by apply web_rel_update.
Qed.

Lemma send_refines lfd A s e B out p c :
  web_rel lfd A s → ev_fd e ≠ lfd → A !! ev_fd e = Some p → p ≠ Idle → conn_list s !! ev_fd e = Some c →
  conn_rel p c (epoll s !! ev_fd e) → web_step lfd A e = Some (B, out) → wp (dispatch e) (λ _, web_done lfd B s out) s.
Proof.
  intros Hr Hne HA Hp Hc (Hra & Hsc & Hwb & Hph). unfold web_step. rewrite decide_False, HA by done. pose proof (wr_bound _ _ _ Hr _ _ HA) as Hb.
  intros Hstep. assert (ev_events e = EPOLLOUT) as Hev by (destruct (Z.eqb_spec (ev_events e) EPOLLOUT); [done|by destruct p]).
  assert (epoll s !! ev_fd e = Some EPOLLOUT) as Hep by (destruct p; [done|apply Hph..]).
  unfold dispatch. rewrite Hev in *. change (Z.land EPOLLOUT EPOLLIN =? 0) with true. change (Z.land EPOLLOUT EPOLLOUT =? 0) with false.
  change (EPOLLOUT =? EPOLLOUT) with true in Hstep. cbn [negb] in Hstep. wp_step. apply wp_web_conn; [done|]. rewrite Hc. cbn [default from_option id].
  wp_step. rewrite Hsc. unfold call, send_cb, http_response. wp_step. apply wp_web_conn; [done|]. rewrite Hc. cbn [default from_option id].
  destruct p; [done|..]; destruct Hph as [-> _]; cbn [Z.eqb Pos.eqb]; try (destruct (ev_file e) as [f|]; [|done]; cbn [mbind option_bind] in Hstep).
  - destruct (Nat.ltb_spec (length (header_text (Z.of_nat (length f)))) BUFFER_LENGTH) as [Hlen|]; [|done].
    set (h := header_text _) in *. injection Hstep as <- <-. cbn [from_opt]. wp_step. rewrite (proj2 (Nat.leb_gt _ _)) by done.
    wp_step. apply wp_set_web_conn; [done|]. wp_step. apply wp_web_conn; [done|]. cbn [conn_list]. rewrite lookup_insert_eq. cbn [default from_option id].
    wp_step. apply wp_web_conn; [done|]. cbn [conn_list]. rewrite lookup_insert_eq. cbn [default from_option id status wlength wbuffer Z.eqb].
    cbn [Pos.eqb]. wp_step. apply wp_emit. cbn [conn_list epoll wire]. eapply wp_mod; [done|]. wp_step. rewrite Nat2Z.id, take_app_length.
    split; [|done]. apply web_rel_update; [done..|]. split_and!; [done|done| |done|done]. cbn [wbuffer].
    rewrite length_app. cbn [length]. rewrite length_drop. fold h. lia.
  - injection Hstep as <- <-. cbn [from_opt]. wp_step. apply wp_emit. cbn [conn_list epoll wire]. apply wp_set_web_conn; [done|].
    wp_step. apply wp_web_conn; [done|]. cbn [conn_list]. rewrite lookup_insert_eq. cbn [default from_option id].
    wp_step. apply wp_web_conn; [done|]. cbn [conn_list]. rewrite lookup_insert_eq. cbn [default from_option id status Z.eqb Pos.eqb].
    wp_step. cbn [conn_list epoll wire]. eapply wp_mod; [done|]. wp_step. split; [|done]. by apply web_rel_update.
  - injection Hstep as <- <-. wp_step. apply wp_set_web_conn; [done|].
    wp_step. apply wp_web_conn; [done|]. cbn [conn_list]. rewrite lookup_insert_eq. cbn [default from_option id].
    wp_step. apply wp_web_conn; [done|]. cbn [conn_list]. rewrite lookup_insert_eq. cbn [default from_option id status Z.eqb Pos.eqb].
    wp_step. cbn [conn_list epoll wire]. eapply wp_mod; [done|]. wp_step. split; [|cbn; by rewrite app_nil_r]. by apply web_rel_update.
Qed.

Lemma web_dispatch_refines lfd A s e B out :
  web_rel lfd A s → web_step lfd A e = Some (B, out) → wp (dispatch e) (λ _, web_done lfd B s out) s.
Proof.
  intros Hr Hstep. destruct (decide (ev_fd e = lfd)) as [Hfd|Hfd]; [by eapply accept_refines|].
  destruct (A !! ev_fd e) as [p|] eqn:HA; [|unfold web_step in Hstep; by rewrite decide_False, HA in Hstep].
  destruct (wr_conn _ _ _ Hr _ _ HA) as (c & Hc & Hrel).
  destruct (decide (p = Idle)) as [->|Hp]; [by eapply recv_refines|by eapply send_refines].
Qed.
Lemma loop_refines lfd es A s B out :
  web_rel lfd A s → web_run lfd A es = Some (B, out) → wp (event_loop es) (λ _, web_done lfd B s out) s.
Proof.
  revert A s out. induction es as [|e es IH]; intros A s out Hr Hrun; cbn [event_loop web_run] in *.
  { injection Hrun as <- <-. wp_step. split; [done|by rewrite app_nil_r]. }
  destruct (web_step lfd A e) as [[A1 o1]|] eqn:Hstep; [|done].
  destruct (web_run lfd A1 es) as [[A2 o2]|] eqn:Hrest; [|done]. injection Hrun as -> <-.
  wp_step. eapply wp_mono; [by eapply web_dispatch_refines|]. intros [] s1 [Hr1 Hw1].
  eapply wp_mono; [by eapply IH|]. intros [] s2 [Hr2 Hw2]. split; [done|]. by rewrite Hw2, Hw1, app_assoc.
Qed.

(** C23: The web server implements the service: for every run of events the service allows, on
    any number of connections, with descriptors used again, it hands to send and sendfile
    what the service does, and has no undefined behaviour. *)
Theorem web_refines lfd es A out :
  0 ≤ lfd < CONNECTION_SIZE → web_run lfd ∅ es = Some (A, out) →
  wp (server_start lfd es) (λ _ s, wire s = out ∧ web_rel lfd A s) server_zero.
Proof.
  intros Hb Hrun. unfold server_start. wp_step. apply wp_web_conn; [done|]. wp_step. apply wp_set_web_conn; [done|].
  unfold set_event. wp_step. cbn [epoll server_zero]. rewrite lookup_empty. cbn [Z.eqb]. wp_step.
  eapply wp_mono; [eapply loop_refines; [|exact Hrun]|]; [|by intros [] s [? ->]].
  split; cbn; [done| |done|done|done|].
  - eexists. by rewrite lookup_insert_eq.
  - intros fd _ Hne. by rewrite !lookup_insert_ne, !lookup_empty by done.
Qed.

(** The steps of one response. *)
Section steps.
Context (lfd fd a : Z) (A : gmap Z phase) (Hne : fd ≠ lfd).
Lemma step_recv b data r n :
  A !! fd = Some Idle → (length (b :: data) < BUFFER_LENGTH)%nat →
  web_step lfd A (Event fd EPOLLIN a (Some (b :: data)) r n) = Some (<[fd := Head]> A, []).
Proof.
  intros HA Hl. unfold web_step. cbn [ev_fd ev_events ev_recv]. rewrite decide_False, HA by done. change (negb (EPOLLIN =? EPOLLIN)) with false.
  cbn iota. by rewrite (proj2 (Nat.ltb_lt _ _) Hl), orb_true_r.
Qed.
Lemma step_head r f n :
  A !! fd = Some Head → let h := header_text (Z.of_nat (length f)) in (length h < BUFFER_LENGTH)%nat → Z.of_nat (length h) ≤ n →
  web_step lfd A (Event fd EPOLLOUT a r (Some f) n) = Some (<[fd := Body]> A, [(fd, h)]).
Proof.
  intros HA h Hl Hn. unfold web_step. cbn [ev_fd ev_events ev_file ev_sent]. rewrite decide_False, HA by done.
  change (negb (EPOLLOUT =? EPOLLOUT)) with false. cbn [mbind option_bind]. fold h. rewrite (proj2 (Nat.ltb_lt _ _) Hl).
  unfold took. rewrite (proj2 (Z.ltb_ge n 0)), take_ge by lia. done.
Qed.
Lemma step_body r f n :
  A !! fd = Some Body → Z.of_nat (length f) ≤ n →
  web_step lfd A (Event fd EPOLLOUT a r (Some f) n) = Some (<[fd := Done]> A, [(fd, f)]).
Proof.
  intros HA Hn. unfold web_step. cbn [ev_fd ev_events ev_file ev_sent]. rewrite decide_False, HA by done.
  change (negb (EPOLLOUT =? EPOLLOUT)) with false. cbn [mbind option_bind].
  unfold took. rewrite (proj2 (Z.ltb_ge n 0)), take_ge by lia. done.
Qed.
Lemma step_done r f n :
  A !! fd = Some Done → web_step lfd A (Event fd EPOLLOUT a r f n) = Some (<[fd := Idle]> A, []).
Proof. intros HA. unfold web_step. cbn [ev_fd ev_events]. by rewrite decide_False, HA. Qed.
End steps.

(** One request is answered by one header, with the length of the file, and the file, and
    the connection waits for the next request. *)
Theorem request_is_served lfd A s fd data f n1 n2 n3 r1 r2 r3 a :
  web_rel lfd A s → A !! fd = Some Idle → data ≠ [] → (length data < BUFFER_LENGTH)%nat →
  let h := header_text (Z.of_nat (length f)) in
  (length h < BUFFER_LENGTH)%nat → Z.of_nat (length h) ≤ n1 → Z.of_nat (length f) ≤ n2 →
  wp (event_loop [Event fd EPOLLIN a (Some data) r1 0; Event fd EPOLLOUT a r2 (Some f) n1; Event fd EPOLLOUT a r2 (Some f) n2;
      Event fd EPOLLOUT a r2 r3 n3])
    (λ _ s', web_rel lfd A s' ∧ wire s' = wire s ++ [(fd, h); (fd, f)]) s.
Proof.
  intros Hr HA Hd Hlen h Hh Hn1 Hn2. assert (fd ≠ lfd) as Hne by (intros ->; by rewrite (wr_none _ _ _ Hr) in HA).
  eapply wp_mono; [eapply (loop_refines _ _ _ _ A [(fd, h); (fd, f)]); [exact Hr|]|by intros [] s' [? ?]].
  destruct data as [|b data]; [done|]. cbn [web_run]. rewrite step_recv by done. fold h.
  rewrite step_head by (done || apply lookup_insert_eq). rewrite step_body by (done || apply lookup_insert_eq).
  rewrite step_done by (done || apply lookup_insert_eq). rewrite !insert_insert_eq, insert_id by done. done.
Qed.

(** ** On concrete events *)

Definition page : text := txt "<h1>hi</h1>".
Definition request : text := txt "GET / HTTP/1.1" ++ crlf ++ crlf.
Definition ev_in fd data := Event fd EPOLLIN 0 (Some data) None 0.
Definition ev_out fd file := Event fd EPOLLOUT 0 None file 4096.
Definition ev_new lfd fd := Event lfd EPOLLIN fd None None 0.
(** Two clients whose responses interleave; the first leaves and a third one gets its
    descriptor. *)
Definition two_clients : list event :=
  [ev_new 3 5; ev_new 3 6; ev_in 5 request; ev_out 5 (Some page); ev_in 6 request; ev_out 6 (Some page); ev_out 5 (Some page);
   ev_out 5 None; ev_in 5 []; ev_out 6 (Some page); ev_out 6 None; ev_new 3 (-1); ev_new 3 5; ev_in 5 request; ev_out 5 (Some page)].
Definition page_header : text := header_text 11.

Lemma web_refines_witness :
  wp (server_start 3 two_clients)
    (λ _ s, wire s = [(5, page_header); (6, page_header); (5, page); (6, page); (5, page_header)]) server_zero.
Proof.
  assert (∃ A, web_run 3 ∅ two_clients = Some (A, [(5, page_header); (6, page_header); (5, page); (6, page); (5, page_header)]))
    as [A Hrun] by (eexists; vm_compute; reflexivity).
  eapply wp_mono; [apply (web_refines 3 two_clients A [(5, page_header); (6, page_header); (5, page); (6, page); (5, page_header)]); [unfold CONNECTION_SIZE; lia|exact Hrun]|]. by intros [] s [? _].
Defined.

Definition one_client : server :=
  Server {[3 := Conn (zeros BUFFER_LENGTH) 0 (zeros BUFFER_LENGTH) 0 CbNull CbAccept 0;
           5 := Conn (zeros BUFFER_LENGTH) 0 (zeros BUFFER_LENGTH) 0 CbSend CbRecv 0]} {[3 := EPOLLIN; 5 := EPOLLIN]} [].
Lemma one_client_rel : web_rel 3 {[5 := Idle]} one_client.
Proof.
  split; [unfold CONNECTION_SIZE; lia|by eexists|done| | |].
  - intros fd p [<- _]%lookup_singleton_Some. unfold CONNECTION_SIZE. lia.
  - intros fd p [<- <-]%lookup_singleton_Some. eexists. split; [vm_compute; reflexivity|]. split_and!; vm_compute; reflexivity.
  - intros fd Hfd Hne. apply lookup_singleton_None in Hfd. unfold one_client. cbn. rewrite !lookup_insert_ne, !lookup_singleton_ne by done. done.
Qed.
Lemma request_is_served_witness :
  wp (event_loop [ev_in 5 request; ev_out 5 (Some page); ev_out 5 (Some page); ev_out 5 None])
    (λ _ s', wire s' = [(5, page_header); (5, page)]) one_client.
Proof.
  eapply wp_mono.
  - apply (request_is_served 3 {[5 := Idle]} one_client 5 request page 4096 4096 4096 None None None 0);
      [exact one_client_rel|done|done|apply Nat.ltb_lt; vm_compute; reflexivity|apply Nat.ltb_lt; vm_compute; reflexivity|by vm_compute..].
  - intros [] s' [_ ->]. vm_compute. reflexivity.
Defined.

(** ** What goes wrong *)

(** Without index.html the length in the header is computed from memory without a value. *)
Theorem missing_file_reads_indeterminate :
  server_start 3 [ev_new 3 5; ev_in 5 request; ev_out 5 None] server_zero = UB IndetRead.
Proof. vm_compute. reflexivity. Qed.
(** The file is opened for the header and again for the body: if it changes in between,
    the header announces another length than that of the body. *)
Theorem changed_file_breaks_length :
  ∃ s, server_start 3 [ev_new 3 5; ev_in 5 request; ev_out 5 (Some page); ev_out 5 (Some (txt "gone"))] server_zero = Ok ((), s) ∧
    wire s = [(5, page_header); (5, txt "gone")].
Proof. eexists. split; [vm_compute; reflexivity|]. vm_compute. reflexivity. Qed.
(** What send or sendfile does not take is dropped. *)
Theorem short_write_drops_rest :
  ∃ s, server_start 3 [ev_new 3 5; ev_in 5 request; Event 5 EPOLLOUT 0 None (Some page) 8; Event 5 EPOLLOUT 0 None (Some page) 4; ev_out 5 None]
      server_zero = Ok ((), s) ∧ wire s = [(5, txt "HTTP/1.1"); (5, txt "<h1>")] ∧ epoll s !! 5 = Some EPOLLIN.
Proof. eexists. split; [vm_compute; reflexivity|]. split; vm_compute; reflexivity. Qed.
(** A request that arrives in two segments is answered twice. *)
Theorem split_request_answered_twice :
  ∃ s, server_start 3 ([ev_new 3 5; ev_in 5 (txt "GET / ")] ++ replicate 3 (ev_out 5 (Some page)) ++
      [ev_in 5 (txt "HTTP/1.1" ++ crlf ++ crlf)] ++ replicate 3 (ev_out 5 (Some page))) server_zero = Ok ((), s) ∧
    wire s = [(5, page_header); (5, page); (5, page_header); (5, page)].
Proof. eexists. split; [vm_compute; reflexivity|]. vm_compute. reflexivity. Qed.
(** A segment that fills the buffer without a NUL is printed past its end. *)
Theorem full_buffer_overread :
  server_start 3 [ev_new 3 5; ev_in 5 (replicate 4096 "A"%char)] server_zero = UB OutOfBounds.
Proof. vm_compute. reflexivity. Qed.
(** A descriptor from 1024 on is written outside the connection table. *)
Theorem descriptor_outside_table : server_start 3 [ev_new 3 1024] server_zero = UB OutOfBounds.
Proof. vm_compute. reflexivity. Qed.
