(* ===== verification/Contacts.v ===== *)
(** The address book (junior/02_contacts/contacts.cpp): a doubly linked list of persons,
    the file it is saved to and loaded from, and the menu.  The words of the standard
    input and the files are part of the state; malloc and fopen take their outcomes from
    lists.  The program is C++, where a function that returns a value has no defined
    behaviour once it flows off its end: [MissingReturn]. *)
From S2P Require Import Prelude TpList.
From Stdlib Require Import Ascii.

Abbreviation text := (list ascii).
#[export] Instance ascii_countable : Countable ascii :=
  inj_countable' N_of_ascii ascii_of_N ascii_N_embedding.
Definition NUL : ascii := "000".
Definition LF : ascii := "010".
Definition SPACE : ascii := " ".
Definition COMMA : ascii := ",".
Definition txt (s : string) : text := String.list_ascii_of_string s.

(** ** C strings in arrays *)

Definition zeros (n : nat) : text := replicate n NUL.
(** What a function that takes a string reads; [None] when it reads past the array. *)
Fixpoint cstr (buf : text) : option text :=
  match buf with
  | [] => None
  | c :: buf => if decide (c = NUL) then Some [] else cons c <$> cstr buf
  end.
(** A string and its NUL written to the start of an array. *)
Definition put_str (w buf : text) : text := w ++ NUL :: drop (S (length w)) buf.

(** ** State *)

Definition NAME_LENGTH : nat := 16.
Definition PHONE_LENGTH : nat := 32.
Definition BUFFER_LENGTH : nat := 128.
Definition MIN_TOKEN_LENGTH : nat := 5.
Definition OPER_INSERT : Z := 1.
Definition OPER_PRINT : Z := 2.
Definition OPER_DELETE : Z := 3.
Definition OPER_SEARCH : Z := 4.
Definition OPER_SAVE : Z := 5.
Definition OPER_LOAD : Z := 6.

Record person : Type := Person { links : dnode; name : text; phone : text }.
#[export] Program Instance person_linked : Linked person :=
  {| lk := links; set_lk d p := Person d (name p) (phone p) |}.
Solve All Obligations with done.

(** struct contacts with the heap of its persons; the next address; the outcomes of the
    coming calls of malloc and of fopen; the words of the standard input; the files; what
    was printed, without the menu and the prompts. *)
Record world : Type := World {
  people : dlist person; count : Z; brk : nat; plan : list bool; fplan : list bool;
  stdin : list text; files : gmap text text; stdout : text }.
Definition with_people x w := World x (count w) (brk w) (plan w) (fplan w) (stdin w) (files w) (stdout w).
Definition with_count x w := World (people w) x (brk w) (plan w) (fplan w) (stdin w) (files w) (stdout w).
Definition with_alloc b p w := World (people w) (count w) b p (fplan w) (stdin w) (files w) (stdout w).
Definition with_fplan x w := World (people w) (count w) (brk w) (plan w) x (stdin w) (files w) (stdout w).
Definition with_stdin x w := World (people w) (count w) (brk w) (plan w) (fplan w) x (files w) (stdout w).
Definition with_files x w := World (people w) (count w) (brk w) (plan w) (fplan w) (stdin w) x (stdout w).
Definition with_stdout x w := World (people w) (count w) (brk w) (plan w) (fplan w) (stdin w) (files w) x.

Definition on_people {A} (m : M (dlist person) A) : M world A := λ w,
  match m (people w) with
  | Ok (a, d) => Ok (a, with_people d w) | UB u => UB u | OutOfFuel => OutOfFuel
  end.

(** ** The C library *)

(** A block for a person with these arrays; LIST_INSERT sets its links. *)
Definition new_person (nm ph : text) : M world (option nat) :=
  w ← get;
  if negb (default true (head (plan w))) then put (with_alloc (brk w) (tail (plan w)) w);; ret None else
  put (with_alloc (S (brk w)) (tail (plan w)) w);;
  on_people (set_cell (brk w) (Person (Dnode None None) nm ph));;
  ret (Some (brk w)).
Definition free_person (p : nat) : M world unit :=
  on_people (cell p;; modify (λ d, Dlist (delete p (cells d)) (first d))).

Definition INFO (l : text) : M world unit := modify (λ w, with_stdout (stdout w ++ l) w).
(** An argument of %s. *)
Definition str (buf : text) : M world text := from_opt OutOfBounds (cstr buf).
(** scanf of %s into an array; at the end of the input the array stays as it is. *)
Definition scanf_s (buf : text) : M world text :=
  w ← get;
  match stdin w with
  | [] => ret buf
  | x :: ws =>
      put (with_stdin ws w);;
      if (length x <? length buf)%nat then ret (put_str x buf) else undef OutOfBounds
  end.
Fixpoint digits (l : text) (acc : Z) : Z * text :=
  match l with
  | c :: l' =>
      let v := Z.of_N (N_of_ascii c) - 48 in
      if (0 <=? v) && (v <=? 9) then digits l' (acc * 10 + v) else (acc, l)
  | [] => (acc, [])
  end.
(** The number at the start of a word, and what is left of the word. *)
Definition number (l : text) : option (Z * text) :=
  let sign := default SPACE (head l) in
  let l' := if decide (sign = "-"%char) then tail l else if decide (sign = "+"%char) then tail l else l in
  let '(v, r) := digits l' 0 in
  if (length r =? length l')%nat then None else
  Some (if decide (sign = "-"%char) then - v else v, r).
(** scanf of %d into a variable that is 0. *)
Definition scanf_d : M world Z :=
  w ← get;
  match stdin w with
  | [] => ret 0
  | x :: ws =>
      match number x with
      | None => ret 0
      | Some (v, r) =>
          put (with_stdin (if decide (r = []) then ws else r :: ws) w);;
          if (v <? - 2 ^ 31) || (2 ^ 31 <=? v) then undef SignedOverflow else ret v
      end
  end.
Definition fopen_ok : M world bool :=
  w ← get; put (with_fplan (tail (fplan w)) w);; ret (default true (head (fplan w))).
(** At most [n] characters, to the end of the line; whether the end of the file was seen. *)
Fixpoint get_line (n : nat) (rest : text) : text * text * bool :=
  match n, rest with
  | O, _ => ([], rest, false)
  | _, [] => ([], [], true)
  | S n, c :: rest =>
      if decide (c = LF) then ([c], rest, false) else
      let '(l, r, eof) := get_line n rest in (c :: l, r, eof)
  end.
Definition fgets (buf rest : text) : text * text * bool :=
  let '(l, r, eof) := get_line (length buf - 1) rest in
  (if decide (l = []) then buf else put_str l buf, r, eof).

(** ** The list of persons *)

Definition LIST_INSERT (item : nat) : M (dlist person) unit := LIST_INSERT_HEAD item.

Definition person_insert (ps : option nat) : M world Z :=
  match ps with
  | None => ret (-1)
  | Some ps => on_people (LIST_INSERT ps);; ret 0
  end.
Definition person_delete (ps : option nat) : M world Z :=
  match ps with
  | None => ret (-1)
  | Some ps => on_people (LIST_REMOVE ps);; ret 0
  end.

(** for (item = people; item != NULL; item = item->next), left when the body says so. *)
Fixpoint for_people (fuel : nat) (body : person → M world bool) (item : option nat) : M world (option nat) :=
  match item with
  | None => ret None
  | Some p =>
      match fuel with
      | O => no_fuel
      | S fuel =>
          n ← on_people (cell p);
          stop ← body n;
          if stop : bool then ret (Some p) else for_people fuel body (next (lk n))
      end
  end.
Definition each (body : person → M world bool) : M world (option nat) :=
  d ← gets people; for_people (size (cells d)) body (first d).

Definition person_search (nm : text) : M world (option nat) :=
  each (λ n, it ← str (name n); ret (bool_decide (nm = it))).
Definition person_traversal : M world Z :=
  each (λ n, nm ← str (name n); ph ← str (phone n);
    INFO (txt "name: " ++ nm ++ txt ",phone: " ++ ph ++ [LF]);; ret false);;
  ret 0.

(** ** Files *)

Definition write_file (f l : text) : M world unit :=
  modify (λ w, with_files (<[f := default [] (files w !! f) ++ l]> (files w)) w).
(** The file that fopen emptied, and the loop of save_file. *)
Definition save_people (filename : text) : M world unit :=
  modify (λ w, with_files (<[filename := []]> (files w)) w);;
  each (λ n, nm ← str (name n); ph ← str (phone n);
    write_file filename (txt "name: " ++ nm ++ txt ", phone: " ++ ph ++ [LF]);; ret false);;
  ret ().
Definition save_file (filename : text) : M world Z :=
  ok ← fopen_ok;
  if negb ok then ret (-1) else
  save_people filename;;
  undef MissingReturn.

Definition put_char (buf : text) (j : nat) (c : ascii) : M world text :=
  if (j <? length buf)%nat then ret (<[j := c]> buf) else undef OutOfBounds.
(** The first loop of parser_token, from buffer[i] = the head of [rest] on; the position of
    the comma is its result. *)
Fixpoint name_loop (rest : text) (i : nat) (status : bool) (j : nat) (nm : text) : M world (text * nat * text) :=
  match rest with
  | [] => undef OutOfBounds
  | c :: rest' =>
      if decide (c = COMMA) then ret (rest, i, nm) else
      if decide (c = SPACE) then name_loop rest' (S i) true j nm else
      if status then nm ← put_char nm j c; name_loop rest' (S i) status (S j) nm
      else name_loop rest' (S i) status j nm
  end.
(** The second one. *)
Fixpoint phone_loop (len : nat) (rest : text) (i : nat) (status : bool) (j : nat) (ph : text) : M world text :=
  if (len <=? i)%nat then ret ph else
  match rest with
  | [] => undef OutOfBounds
  | c :: rest' =>
      if decide (c = SPACE) then phone_loop len rest' (S i) true j ph else
      if status then ph ← put_char ph j c; phone_loop len rest' (S i) status (S j) ph
      else phone_loop len rest' (S i) status j ph
  end.
(** The result with the two arrays. *)
Definition parser_token (buffer : text) (len : nat) (nm ph : text) : M world (Z * (text * text)) :=
  if (len <? MIN_TOKEN_LENGTH)%nat then ret (-2, (nm, ph)) else
  ' (rest, i, nm) ← name_loop buffer 0 false 0 nm;
  ph ← phone_loop len rest i false 0 ph;
  n ← str nm; p ← str ph;
  INFO (txt "file token : " ++ n ++ txt " --> " ++ p ++ [LF]);;
  ret (0, (nm, ph)).

Definition count_up : M world unit :=
  w ← get; if 2 ^ 31 - 1 <=? count w then undef SignedOverflow else put (with_count (count w + 1) w).
(** while (!feof(fp)) over what is left of the file. *)
Fixpoint load_loop (fuel : nat) (rest : text) (eof : bool) : M world Z :=
  if eof then ret 0 else
  match fuel with
  | O => no_fuel
  | S fuel =>
      let '(buffer, rest, eof) := fgets (zeros BUFFER_LENGTH) rest in
      line ← str buffer;
      INFO (txt "length : " ++ txt (pretty (length line)) ++ [LF]);;
      ' (r, (nm, ph)) ← parser_token buffer (length line) (zeros NAME_LENGTH) (zeros PHONE_LENGTH);
      if negb (r =? 0) then load_loop fuel rest eof else
      p ← new_person nm ph;
      match p with
      | None => ret (-2)
      | Some p => person_insert (Some p);; count_up;; load_loop fuel rest eof
      end
  end.
Definition load_file (filename : text) : M world Z :=
  ok ← fopen_ok;
  w ← get;
  match files w !! filename with
  | Some content => if negb ok then ret (-1) else load_loop (S (length content)) content false
  | None => ret (-1)
  end.

(** ** The menu *)

Definition insert_entry : M world Z :=
  p ← new_person (zeros NAME_LENGTH) (zeros PHONE_LENGTH);
  match p with
  | None => ret (-2)
  | Some p =>
      n ← on_people (cell p);
      nm ← scanf_s (name n);
      on_people (set_cell p (Person (links n) nm (phone n)));;
      n ← on_people (cell p);
      ph ← scanf_s (phone n);
      on_people (set_cell p (Person (links n) (name n) ph));;
      r ← person_insert (Some p);
      if negb (r =? 0) then free_person p;; ret (-3) else
      count_up;; INFO (txt "Insert Success" ++ [LF]);; ret 0
  end.
Definition print_entry : M world Z := person_traversal;; undef MissingReturn.
(** The name that delete_entry and search_entry ask for, and what they find. *)
Definition find_person : M world (option nat) :=
  nm ← scanf_s (zeros NAME_LENGTH);
  nm ← str nm;
  person_search nm.
Definition delete_entry : M world Z :=
  ps ← find_person;
  match ps with
  | None => INFO (txt "Person don't Exit" ++ [LF]);; ret (-2)
  | Some p =>
      n ← on_people (cell p);
      nm ← str (name n); ph ← str (phone n);
      INFO (txt "name: " ++ nm ++ txt ", phone: " ++ ph ++ [LF]);;
      person_delete (Some p);;
      free_person p;;
      ret 0
  end.
Definition search_entry : M world Z :=
  ps ← find_person;
  match ps with
  | None => INFO (txt "Person don't Exit" ++ [LF]);; ret (-2)
  | Some p =>
      n ← on_people (cell p);
      nm ← str (name n); ph ← str (phone n);
      INFO (txt "name: " ++ nm ++ txt ",phone: " ++ ph ++ [LF]);;
      ret 0
  end.
Definition save_entry : M world Z :=
  f ← scanf_s (zeros NAME_LENGTH); f ← str f; save_file f;; undef MissingReturn.
Definition load_entry : M world Z :=
  f ← scanf_s (zeros NAME_LENGTH); f ← str f; load_file f;; undef MissingReturn.

(** One case of the switch; [false] leaves the loop. *)
Definition menu_round : M world bool :=
  select ← scanf_d;
  if select =? OPER_INSERT then insert_entry;; ret true
  else if select =? OPER_PRINT then print_entry;; ret true
  else if select =? OPER_DELETE then delete_entry;; ret true
  else if select =? OPER_SEARCH then search_entry;; ret true
  else if select =? OPER_SAVE then save_entry;; ret true
  else if select =? OPER_LOAD then load_entry;; ret true
  else ret false.
Fixpoint menu_loop (fuel : nat) : M world unit :=
  match fuel with
  | O => no_fuel
  | S fuel => go ← menu_round; if go : bool then menu_loop fuel else ret ()
  end.
(** Every round but the last takes a character of the input.  The block of the book itself
    is there; it is freed at the end, its persons are not. *)
Definition main : M world Z :=
  w ← get;
  menu_loop (S (sum_list_with length (stdin w)));;
  ret 0.
Definition start (input : list text) (fs : gmap text text) (p fp : list bool) : world :=
  World (Dlist ∅ None) 0 0 p fp input fs [].
