(* ===== verification/ContactsFile.v ===== *)
(** Address book, part 2: arrays that hold a word, the parser of a line against its
    specification, and the lines of a file. *)
From S2P Require Import Prelude TpList Contacts.
From Stdlib Require Import Ascii.

(** ** Arrays that hold a word *)

Definition fill (n : nat) (w : text) : text := w ++ zeros (n - length w).

Lemma length_fill n w : (length w ≤ n)%nat → length (fill n w) = n.
Proof. intros. unfold fill, zeros. rewrite length_app, length_replicate. lia. Qed.
Lemma fill_nil n : fill n [] = zeros n.
Proof. unfold fill. cbn. by rewrite Nat.sub_0_r. Qed.
Lemma fill_cons n w : (length w < n)%nat → fill n w = w ++ NUL :: zeros (n - S (length w)).
Proof. intros. unfold fill. by replace (n - length w)%nat with (S (n - S (length w))) by lia. Qed.
Lemma cstr_app w rest : NUL ∉ w → cstr (w ++ NUL :: rest) = Some w.
Proof.
  intros Hw. induction w as [|c w IH]; cbn; [done|]. apply not_elem_of_cons in Hw as [Hc Hw].
  rewrite decide_False by done. by rewrite IH.
Qed.
Lemma cstr_fill n w : NUL ∉ w → (length w < n)%nat → cstr (fill n w) = Some w.
Proof. intros. rewrite fill_cons by done. by apply cstr_app. Qed.
Lemma put_str_zeros n w : (length w < n)%nat → put_str w (zeros n) = fill n w.
Proof.
  intros. rewrite fill_cons by done. unfold put_str, zeros. by rewrite drop_replicate.
Qed.
Lemma put_char_fill n w c (w0 : world) :
  (length w < n)%nat → put_char (fill n w) (length w) c w0 = Ok (fill n (w ++ [c]), w0).
Proof.
  intros. unfold put_char. rewrite length_fill by lia. rewrite (proj2 (Nat.ltb_lt _ _)) by done.
  unfold ret. f_equal. f_equal. rewrite fill_cons by done. rewrite list_insert_middle by done.
  unfold fill. rewrite length_app. cbn [length]. rewrite <-app_assoc. cbn.
  by replace (n - (length w + 1))%nat with (n - S (length w))%nat by lia.
Qed.
Lemma str_fill n w w0 (Q : text → world → Prop) :
  NUL ∉ w → (length w < n)%nat → Q w w0 → wp (str (fill n w)) Q w0.
Proof. intros Hw Hl HQ. unfold str. by rewrite cstr_fill. Qed.

(** ** What the parser reads *)

(** The text before the first comma, and the text from it on. *)
Fixpoint split_comma (l : text) : text * text :=
  match l with
  | [] => ([], [])
  | c :: l => if decide (c = COMMA) then ([], c :: l) else let '(a, b) := split_comma l in (c :: a, b)
  end.
(** What follows the first space, without spaces. *)
Fixpoint after_space (l : text) : text :=
  match l with [] => [] | c :: l => if decide (c = SPACE) then l else after_space l end.
Definition unspaced (l : text) : text := filter (.≠ SPACE) l.
Definition field (l : text) : text := unspaced (after_space l).
Definition parse_line (l : text) : text * text :=
  let '(a, b) := split_comma l in (field a, field b).

Lemma split_comma_spec l :
  COMMA ∈ l → ∃ b, l = (split_comma l).1 ++ COMMA :: b ∧ (split_comma l).2 = COMMA :: b ∧ COMMA ∉ (split_comma l).1.
Proof.
  induction l as [|c l IH]; [by intros ?%elem_of_nil|]. intros Hin. cbn.
  case_decide as Hc; [subst; exists l; split_and!; [done..|apply not_elem_of_nil]|].
  apply elem_of_cons in Hin as [?|Hin]; [done|]. destruct (IH Hin) as (b & Heq & H2 & Hni).
  destruct (split_comma l) as [x y]. cbn in *. exists b. split_and!; [by rewrite <-Heq|done|]. by apply not_elem_of_cons.
Qed.

(** What is appended to the word once [status] is known. *)
Definition taken (status : bool) (l : text) : text := if status then unspaced l else field l.
Lemma taken_space status l : taken status (SPACE :: l) = taken true l.
Proof.
  destruct status; cbn [taken].
  - unfold unspaced. rewrite filter_cons_False; [done|]. intros H. by apply H.
  - unfold field. cbn [after_space]. by rewrite decide_True.
Qed.
Lemma taken_start c l : c ≠ SPACE → taken false (c :: l) = taken false l.
Proof. intros. cbn [taken]. unfold field. cbn [after_space]. by rewrite decide_False. Qed.
Lemma taken_char c l : c ≠ SPACE → taken true (c :: l) = c :: taken true l.
Proof. intros. cbn [taken]. unfold unspaced. by rewrite filter_cons_True. Qed.

Lemma name_loop_spec pre post i status w n w0 :
  COMMA ∉ pre → (length (w ++ taken status pre) ≤ n)%nat →
  name_loop (pre ++ COMMA :: post) i status (length w) (fill n w) w0
  = Ok ((COMMA :: post, i + length pre, fill n (w ++ taken status pre))%nat, w0).
Proof.
  revert i status w. induction pre as [|c pre IH]; intros i status w Hni Hlen.
  - cbn. assert (taken status [] = []) as -> by by destruct status.
    unfold ret. by rewrite app_nil_r, Nat.add_0_r.
  - apply not_elem_of_cons in Hni as [Hc Hni]. cbn [app name_loop]. rewrite decide_False by done.
    cbn [length]. rewrite <-Nat.add_succ_comm.
    case_decide as Hs; [subst; rewrite taken_space in *; by apply IH|].
    destruct status; [|rewrite taken_start in * by done; by apply IH].
    rewrite taken_char in * by done. rewrite length_app in Hlen. cbn in Hlen.
    unfold bind. rewrite put_char_fill by lia. replace (S (length w)) with (length (w ++ [c])) by (rewrite length_app; cbn; lia).
    rewrite IH; [by rewrite <-app_assoc|done|]. rewrite !length_app. cbn in *. lia.
Qed.
Lemma phone_loop_spec l rest i status w n w0 :
  (length (w ++ taken status l) ≤ n)%nat →
  phone_loop (i + length l) (l ++ rest) i status (length w) (fill n w) w0 = Ok (fill n (w ++ taken status l), w0).
Proof.
  revert i status w. induction l as [|c l IH]; intros i status w Hlen.
  - assert (taken status [] = []) as -> by by destruct status. rewrite app_nil_r. cbn [app length]. rewrite Nat.add_0_r.
    destruct rest; cbn [phone_loop]; by rewrite Nat.leb_refl.
  - cbn [app phone_loop length]. rewrite (proj2 (Nat.leb_gt _ _)) by lia. rewrite <-Nat.add_succ_comm.
    case_decide as Hs; [subst; rewrite taken_space in *; by apply IH|].
    destruct status; [|rewrite taken_start in * by done; by apply IH].
    rewrite taken_char in * by done. rewrite length_app in Hlen. cbn in Hlen.
    unfold bind. rewrite put_char_fill by lia. replace (S (length w)) with (length (w ++ [c])) by (rewrite length_app; cbn; lia).
    rewrite IH; [by rewrite <-app_assoc|]. rewrite !length_app. cbn in *. lia.
Qed.

Lemma unspaced_clean l : NUL ∉ l → NUL ∉ unspaced l.
Proof. intros H. unfold unspaced. rewrite list_elem_of_filter. tauto. Qed.
Lemma after_space_clean l : NUL ∉ l → NUL ∉ after_space l.
Proof. induction l as [|c l IH]; [done|]. intros [? Hl]%not_elem_of_cons. cbn. case_decide; auto. Qed.
Lemma parse_line_clean l : NUL ∉ l → NUL ∉ (parse_line l).1 ∧ NUL ∉ (parse_line l).2.
Proof.
  intros Hl. unfold parse_line. assert (NUL ∉ (split_comma l).1 ∧ NUL ∉ (split_comma l).2) as [Ha Hb].
  { induction l as [|c l IH]; [done|]. apply not_elem_of_cons in Hl as [Hc Hl]. cbn. case_decide.
    - split; [apply not_elem_of_nil|by apply not_elem_of_cons].
    - destruct (IH Hl). destruct (split_comma l). cbn in *. split; [by apply not_elem_of_cons|done]. }
  destruct (split_comma l). split; by apply unspaced_clean, after_space_clean.
Qed.

(** A line the parser can take. *)
Definition line_ok (l : text) : Prop :=
  (length l < BUFFER_LENGTH)%nat ∧ NUL ∉ l ∧
  ((MIN_TOKEN_LENGTH ≤ length l)%nat → COMMA ∈ l ∧
    (length (parse_line l).1 < NAME_LENGTH)%nat ∧ (length (parse_line l).2 < PHONE_LENGTH)%nat).
#[export] Instance line_ok_dec l : Decision (line_ok l).
Proof. unfold line_ok. solve_decision. Defined.

Definition token_text (e : text * text) : text := txt "file token : " ++ e.1 ++ txt " --> " ++ e.2 ++ [LF].

(** parser_token finds the name and the phone that the line says. *)
Lemma parser_token_spec l w (Q : Z * (text * text) → world → Prop) :
  line_ok l →
  (if decide (length l < MIN_TOKEN_LENGTH)%nat then Q (-2, (zeros NAME_LENGTH, zeros PHONE_LENGTH)) w
   else Q (0, (fill NAME_LENGTH (parse_line l).1, fill PHONE_LENGTH (parse_line l).2))
     (with_stdout (stdout w ++ token_text (parse_line l)) w)) →
  wp (parser_token (fill BUFFER_LENGTH l) (length l) (zeros NAME_LENGTH) (zeros PHONE_LENGTH)) Q w.
Proof.
  intros (Hlen & Hnul & Hok). unfold parser_token. case_decide as Hm.
  { rewrite (proj2 (Nat.ltb_lt _ _)) by done. by intros. }
  rewrite (proj2 (Nat.ltb_ge _ _)) by lia. intros HQ. destruct (Hok ltac:(lia)) as (Hc & Hn & Hp).
  destruct (parse_line_clean l Hnul) as [Hn0 Hp0].
  destruct (split_comma_spec l Hc) as (b & Heq & H2 & Hni). revert Hn Hp Hn0 Hp0 HQ.
  unfold parse_line. destruct (split_comma l) as [a b'] eqn:Hs. cbn [fst snd] in *. subst b'. intros Hn Hp Hn0 Hp0 HQ.
  wp_step. eapply wp_lift_pure.
  { unfold fill at 1. rewrite Heq, <-app_assoc. cbn [app]. rewrite <-fill_nil.
    apply (name_loop_spec a _ 0 false [] NAME_LENGTH); [done|]. cbn [app taken]. lia. }
  wp_step. eapply wp_lift_pure.
  { replace (length l) with (0 + length a + length (COMMA :: b))%nat by (rewrite Heq, length_app; cbn; lia).
    rewrite <-fill_nil. apply (phone_loop_spec (COMMA :: b) _ _ false [] PHONE_LENGTH). cbn [app taken]. lia. }
  cbn [app taken]. wp_step. apply str_fill; [done..|]. wp_step. apply str_fill; [done..|]. unfold INFO. by wp_step.
Qed.

(** ** The lines of a file *)

(** Each with its end of line; the last may have none. *)
Fixpoint lines (l : text) : list text :=
  match l with
  | [] => []
  | c :: l =>
      if decide (c = LF) then [c] :: lines l else
      match lines l with [] => [[c]] | x :: xs => (c :: x) :: xs end
  end.

(** The last line of a file at whose end fgets sees the end of the file. *)
Definition open_line (n : nat) (l : text) : Prop := last l ≠ Some LF ∧ (length l < n)%nat.
#[export] Instance open_line_dec n l : Decision (open_line n l).
Proof. unfold open_line. solve_decision. Defined.
(** What the calls of fgets read, one after the other, until feof: behind a line that ends
    the file with its end of line there is an empty reading. *)
Fixpoint readings (ls : list text) : list text :=
  match ls with
  | [] => [[]]
  | l :: ls => l :: (if decide (ls = [] ∧ open_line (BUFFER_LENGTH - 1) l) then [] else readings ls)
  end.

Lemma lines_nil l : lines l = [] → l = [].
Proof. destruct l as [|c l]; [done|]. cbn. case_decide; [done|]. by destruct (lines l). Qed.
Lemma lines_line x l : LF ∉ x → lines (x ++ LF :: l) = (x ++ [LF]) :: lines l.
Proof.
  induction x as [|c x IH]; intros Hx; [cbn; by rewrite decide_True|].
  apply not_elem_of_cons in Hx as [Hc Hx]. cbn. rewrite decide_False by done. by rewrite IH.
Qed.
Lemma get_line_spec n l x xs :
  lines l = x :: xs → (length x ≤ n)%nat →
  ∃ r eof, get_line n l = (x, r, eof) ∧ lines r = xs ∧ (eof = true ↔ xs = [] ∧ open_line n x) ∧
    (length r < length l)%nat ∧ x ≠ [].
Proof.
  unfold open_line.
  revert n x. induction l as [|c l IH]; intros n x Hl Hn; [done|]. cbn in Hl.
  destruct (decide (c = LF)) as [Hc|Hc].
  - injection Hl as <- <-. destruct n; [cbn in Hn; lia|]. cbn. rewrite decide_True by done.
    exists l, false. split_and!; [done..| |lia|done]. split; [done|]. intros (_ & Hlast & _). destruct Hlast. by rewrite Hc.
  - destruct (lines l) as [|y ys] eqn:Hy.
    + injection Hl as <- <-. apply lines_nil in Hy as ->. destruct n as [|n]; [cbn in Hn; lia|].
      cbn [get_line]. rewrite decide_False by done.
      destruct n as [|n].
      * exists [], false. split_and!; [done|done| |cbn; lia|done]. split; [done|]. cbn. intros (_ & _ & ?). lia.
      * exists [], true. split_and!; [done|done| |cbn; lia|done].
        split; [intros _; split_and!; [done|by intros [= ?]|cbn; lia]|done].
    + injection Hl as <- <-. destruct n as [|n]; [cbn in Hn; lia|]. cbn [get_line]. rewrite decide_False by done.
      destruct (IH n y eq_refl) as (r & eof & -> & Hr & He & Hlen & Hne); [cbn in Hn; lia|].
      exists r, eof. split_and!; [done..| |cbn; lia|done]. rewrite He.
      destruct y as [|c' y]; [done|]. cbn. split; intros (? & ? & ?); (split_and!; [done..|cbn in *; lia]).
Qed.
Lemma fgets_spec l x xs :
  lines l = x :: xs → (length x < BUFFER_LENGTH)%nat →
  ∃ r eof, fgets (zeros BUFFER_LENGTH) l = (fill BUFFER_LENGTH x, r, eof) ∧ lines r = xs ∧
    (eof = true ↔ xs = [] ∧ open_line (BUFFER_LENGTH - 1) x) ∧ (length r < length l)%nat.
Proof.
  intros Hl Hx. unfold fgets. unfold zeros at 1. rewrite length_replicate.
  destruct (get_line_spec (BUFFER_LENGTH - 1) l x xs Hl ltac:(lia)) as (r & eof & -> & Hr & He & Hlen & Hne).
  exists r, eof. rewrite decide_False, put_str_zeros by done. done.
Qed.
