(* ===== verification/ContactsBook.v ===== *)
(** Address book, part 3: what the commands of the menu do to a list of names and phone
    numbers, what the loops over the file do, and the walks over the heap. *)
From S2P Require Import Prelude TpList Contacts ContactsFile.
From Stdlib Require Import Ascii.

(** ** Specification *)

Abbreviation entry := (text * text)%type.
Record book : Type := Book {
  b_people : list entry; b_count : Z; b_plan : list bool; b_fplan : list bool;
  b_files : gmap text text; b_out : text }.

Inductive cmd : Type :=
| Insert (n p : text) | Show | Delete (n : text) | Look (n : text) | Save (f : text) | Load (f : text).

Definition say (l : text) (b : book) : book :=
  Book (b_people b) (b_count b) (b_plan b) (b_fplan b) (b_files b) (b_out b ++ l).
(** The next outcome of malloc, and of fopen. *)
Definition memory (b : book) : bool := default true (head (b_plan b)).
Definition opens (b : book) : bool := default true (head (b_fplan b)).
Definition use_memory (b : book) : book :=
  Book (b_people b) (b_count b) (tail (b_plan b)) (b_fplan b) (b_files b) (b_out b).
Definition use_open (b : book) : book :=
  Book (b_people b) (b_count b) (b_plan b) (tail (b_fplan b)) (b_files b) (b_out b).
Definition add (e : entry) (b : book) : book :=
  Book (e :: b_people b) (b_count b + 1) (b_plan b) (b_fplan b) (b_files b) (b_out b).
Definition with_entries (l : list entry) (b : book) : book :=
  Book l (b_count b) (b_plan b) (b_fplan b) (b_files b) (b_out b).
Definition put_file (f l : text) (b : book) : book :=
  Book (b_people b) (b_count b) (b_plan b) (b_fplan b) (<[f := l]> (b_files b)) (b_out b).

(** The first entry with this name. *)
Fixpoint look (n : text) (l : list entry) : option entry :=
  match l with [] => None | e :: l => if decide (n = e.1) then Some e else look n l end.
Fixpoint drop_first (n : text) (l : list entry) : list entry :=
  match l with [] => [] | e :: l => if decide (n = e.1) then l else e :: drop_first n l end.
Definition entry_text (sep : text) (e : entry) : text := txt "name: " ++ e.1 ++ sep ++ e.2 ++ [LF].
Definition missing : text := txt "Person don't Exit" ++ [LF].
Definition shown : entry → text := entry_text (txt ",phone: ").
Definition saved : entry → text := entry_text (txt ", phone: ").

Definition length_text (l : text) : text := txt "length : " ++ txt (pretty (length l)) ++ [LF].
(** What load_file does with the readings of the file, and what it returns. *)
Fixpoint load_lines (ls : list text) (b : book) : Z * book :=
  match ls with
  | [] => (0, b)
  | l :: ls =>
      let b := say (length_text l) b in
      if decide (length l < MIN_TOKEN_LENGTH)%nat then load_lines ls b else
      let b := say (token_text (parse_line l)) b in
      if memory b then load_lines ls (add (parse_line l) (use_memory b)) else (-2, use_memory b)
  end.
Definition b_load (f : text) (b : book) : Z * book :=
  match b_files b !! f with
  | Some l => if opens b then load_lines (readings (lines l)) (use_open b) else (-1, use_open b)
  | None => (-1, use_open b)
  end.
(** The file that save_file has written when its loop ends. *)
Definition b_save (f : text) (b : book) : book := put_file f (concat (saved <$> b_people b)) b.

(** The functions of the other commands flow off their ends. *)
Definition returns (c : cmd) : bool :=
  match c with Insert _ _ | Delete _ | Look _ => true | Show | Save _ | Load _ => false end.

Definition b_step (b : book) (c : cmd) : book :=
  match c with
  | Insert n p =>
      if memory b then say (txt "Insert Success" ++ [LF]) (add (n, p) (use_memory b)) else use_memory b
  | Delete n =>
      match look n (b_people b) with
      | None => say missing b
      | Some e => with_entries (drop_first n (b_people b)) (say (saved e) b)
      end
  | Look n => say (from_option shown missing (look n (b_people b))) b
  | Show | Save _ | Load _ => b
  end.

(** What the user types: without memory the program does not ask for the person. *)
Definition words (b : book) (c : cmd) : list text :=
  match c with
  | Insert n p => txt "1" :: (if memory b then [n; p] else [])
  | Show => [txt "2"]
  | Delete n => [txt "3"; n]
  | Look n => [txt "4"; n]
  | Save f => [txt "5"; f]
  | Load f => [txt "6"; f]
  end.
Fixpoint session (b : book) (cs : list cmd) : list text :=
  match cs with [] => [txt "0"] | c :: cs => words b c ++ session (b_step b c) cs end.

(** A word that fits an array of [n] characters. *)
Definition fits (n : nat) (w : text) : Prop := NUL ∉ w ∧ (length w < n)%nat.
Definition entry_ok (e : entry) : Prop := fits NAME_LENGTH e.1 ∧ fits PHONE_LENGTH e.2.
Definition cmd_ok (b : book) (c : cmd) : Prop :=
  match c with
  | Insert n p => entry_ok (n, p) ∧ b_count b < 2 ^ 31 - 1
  | Show => True
  | Delete n | Look n => fits NAME_LENGTH n
  | Save f => fits NAME_LENGTH f
  | Load f => fits NAME_LENGTH f ∧
      let ls := default [] (lines <$> b_files b !! f) in
      Forall line_ok ls ∧ b_count b + Z.of_nat (length ls) < 2 ^ 31
  end.
Fixpoint session_ok (b : book) (cs : list cmd) : Prop :=
  match cs with
  | [] => True
  | c :: cs => cmd_ok b c ∧ if returns c then session_ok (b_step b c) cs else True
  end.
#[export] Instance fits_dec n w : Decision (fits n w).
Proof. unfold fits. solve_decision. Defined.
#[export] Instance cmd_ok_dec b c : Decision (cmd_ok b c).
Proof. destruct c; cbn; unfold entry_ok; solve_decision. Defined.
#[export] Instance session_ok_dec b cs : Decision (session_ok b cs).
Proof. revert b. induction cs as [|c cs IH]; intros b; cbn; [apply _|].
  apply and_dec; [apply _|]. destruct (returns c); [apply IH|apply _]. Defined.

(** ** The book that a world holds *)

Definition image (e : entry) : person :=
  Person (Dnode None None) (fill NAME_LENGTH e.1) (fill PHONE_LENGTH e.2).
Definition images (d : dlist person) (l : list nat) (es : list entry) : Prop :=
  Forall2 (λ a e, payload <$> cells d !! a = Some (image e)) l es.
(** The addresses [l] hold the entries, and no other block is live. *)
Record rep (l : list nat) (w : world) (b : book) : Prop := {
  r_list : lrep l (people w);
  r_images : images (people w) l (b_people b);
  r_ok : Forall entry_ok (b_people b);
  r_dom : dom (cells (people w)) = list_to_set l;
  r_brk : ∀ a, a ∈ l → (a < brk w)%nat;
  r_count : count w = b_count b;
  r_plans : plan w = b_plan b ∧ fplan w = b_fplan b;
  r_files : files w = b_files b;
  r_out : stdout w = b_out b }.

Lemma wp_on_people {A} (m : M (dlist person) A) (Q : A → world → Prop) w :
  wp (on_people m) Q w ↔ wp m (λ a d, Q a (with_people d w)) (people w).
Proof. unfold wp, on_people. by destruct (m (people w)) as [[]| |]. Qed.
#[local] Hint Rewrite @wp_on_people : wp_db.

Lemma wp_INFO l (Q : unit → world → Prop) w : Q () (with_stdout (stdout w ++ l) w) → wp (INFO l) Q w.
Proof. done. Qed.
Lemma rep_say l w b x : rep l w b → rep l (with_stdout (stdout w ++ x) w) (say x b).
Proof. intros []. split; cbn; [done..|congruence]. Qed.
Lemma rep_stdin l w b ws : rep l w b → rep l (with_stdin ws w) b.
Proof. intros []. by split. Qed.
Lemma with_stdin_twice a c w : with_stdin a (with_stdin c w) = with_stdin a w.
Proof. done. Qed.

(** ** Walks over the list *)

Lemma cell_image d p e : payload <$> cells d !! p = Some (image e) → ∃ n, cells d !! p = Some n ∧ payload n = image e.
Proof. intros (n & ? & ?)%fmap_Some. eauto. Qed.
Lemma payload_fields n e : payload n = image e → name n = fill NAME_LENGTH e.1 ∧ phone n = fill PHONE_LENGTH e.2.
Proof. destruct n. by intros [= -> ->]. Qed.

(** A walk: [P] holds of what is still to come. *)
Lemma for_people_spec body (P : list nat → list entry → world → Prop) Q d fuel pv l es w :
  people w = d → dseg (cells d) pv l None → images d l es → (length l ≤ fuel)%nat →
  P l es w →
  (∀ a e l es w n, people w = d → payload n = image e → P (a :: l) (e :: es) w →
    wp (body n) (λ stop w', people w' = d ∧ if stop : bool then Q (Some a) w' else P l es w') w) →
  (∀ w, P [] [] w → Q None w) →
  wp (for_people fuel body (hd_or None l)) Q w.
Proof.
  intros Hd Hseg Him Hfuel HP Hbody Hend. revert fuel pv es w Hd Hseg Him Hfuel HP.
  induction l as [|a l IH]; intros fuel pv es w Hd Hseg Him Hfuel HP.
  { apply Forall2_nil_inv_l in Him as ->. destruct fuel; cbn; by apply Hend. }
  apply Forall2_cons_inv_l in Him as (e & es' & He & Him & ->). destruct Hseg as [(n & Hn & Hlk) Hseg].
  destruct fuel as [|fuel]; [cbn in Hfuel; lia|]. cbn [hd_or for_people].
  destruct (cell_image _ _ _ He) as (n' & Hn' & Hpl). assert (n' = n) as -> by congruence.
  wp_step. rewrite Hd. eapply cell_spec; [done|]. replace (with_people d w) with w by (destruct w; cbn in *; by subst).
  wp_step. eapply wp_mono; [by eapply Hbody|]. intros [] w' [Hd' HQ]; wp_step; [done|].
  rewrite Hlk. cbn [next]. eapply (IH fuel (Some a)); [done..|cbn in Hfuel; lia|done].
Qed.
Lemma each_spec body P Q l w b :
  rep l w b → P l (b_people b) w →
  (∀ a e l es w' n, people w' = people w → payload n = image e → P (a :: l) (e :: es) w' →
    wp (body n) (λ stop w', people w' = people w ∧ if stop : bool then Q (Some a) w' else P l es w') w') →
  (∀ w, P [] [] w → Q None w) →
  wp (each body) Q w.
Proof.
  intros Hr HP Hbody Hend. unfold each. wp_step. destruct (r_list _ _ _ Hr) as (Hnd & Hf & Hseg). rewrite Hf.
  eapply for_people_spec; [done|done|apply Hr| |done|done|done].
  eapply lrep_length. apply Hr.
Qed.

(** The entries split where a name is first found. *)
Definition found (l : list nat) (es : list entry) (n : text) (a : nat) : Prop :=
  ∃ l1 l2 e1 e2 p, l = l1 ++ a :: l2 ∧ es = e1 ++ (n, p) :: e2 ∧ length l1 = length e1 ∧
    look n es = Some (n, p) ∧ drop_first n es = e1 ++ e2.
Lemma look_skip n l es : n ∉ l.*1 → look n (l ++ es) = look n es ∧ drop_first n (l ++ es) = l ++ drop_first n es.
Proof.
  induction l as [|e l IH]; [done|]. rewrite fmap_cons. intros [Hn Hl]%not_elem_of_cons. cbn.
  rewrite !decide_False by done. destruct (IH Hl) as [-> ->]. done.
Qed.
Lemma person_search_spec nm l w b :
  rep l w b →
  wp (person_search nm) (λ r w', w' = w ∧
    match r with Some a => found l (b_people b) nm a | None => look nm (b_people b) = None end) w.
Proof.
  intros Hr. unfold person_search.
  eapply (each_spec _ (λ l' es' w', w' = w ∧ Forall entry_ok es' ∧ ∃ l1 e1, l = l1 ++ l' ∧ b_people b = e1 ++ es' ∧
    length l1 = length e1 ∧ nm ∉ e1.*1)); [done| | |].
  - split; [done|]. split; [apply Hr|]. exists [], []. split_and!; [done..|apply not_elem_of_nil].
  - intros a e l' es' w' n _ Hn (-> & [Hok Hoks]%Forall_cons & l1 & e1 & -> & Hes & Hlen & Hni).
    destruct (payload_fields _ _ Hn) as [-> _]. wp_step. apply str_fill; [apply Hok..|]. wp_step. split; [done|].
    case_bool_decide as Heq.
    + split; [done|]. destruct e as [n0 p]. cbn in Heq. subst n0. exists l1, l', e1, es', p. rewrite Hes.
      destruct (look_skip nm e1 ((nm, p) :: es') Hni) as [-> ->]. cbn. by rewrite !decide_True.
    + split; [done|]. split; [done|]. exists (l1 ++ [a]), (e1 ++ [e]). rewrite <-!app_assoc. cbn. split_and!; [done..| |].
      * rewrite !length_app. cbn. lia.
      * rewrite fmap_app. rewrite not_elem_of_app. split; [done|]. cbn. intros ?%list_elem_of_singleton. done.
  - intros w' (-> & _ & l1 & e1 & _ & Hes & _ & Hni). split; [done|]. rewrite Hes.
    destruct (look_skip nm e1 [] Hni) as [-> _]. done.
Qed.
Lemma person_traversal_spec l w b (Q : Z → world → Prop) :
  rep l w b → Q 0 (with_stdout (stdout w ++ concat (shown <$> b_people b)) w) → wp person_traversal Q w.
Proof.
  intros Hr HQ. unfold person_traversal. wp_step. eapply wp_mono.
  { eapply (each_spec _ (λ l' es' w', Forall entry_ok es' ∧ ∃ e1, b_people b = e1 ++ es' ∧
      w' = with_stdout (stdout w ++ concat (shown <$> e1)) w)
      (λ _ w', w' = with_stdout (stdout w ++ concat (shown <$> b_people b)) w)); [done| | |].
    - split; [apply Hr|]. exists []. split; [done|]. cbn. rewrite app_nil_r. by destruct w.
    - intros a e l' es' w' n _ Hn ([[Hok1 Hok2] Hoks]%Forall_cons & e1 & Hes & ->).
      destruct (payload_fields _ _ Hn) as [-> ->]. wp_step. apply str_fill; [apply Hok1..|]. wp_step.
      apply str_fill; [apply Hok2..|]. wp_step. apply wp_INFO. wp_step. split; [done|]. split; [done|].
      exists (e1 ++ [e]). rewrite Hes, <-app_assoc. split; [done|].
      rewrite fmap_app, concat_app. cbn. rewrite app_nil_r, app_assoc. done.
    - intros w' (_ & e1 & Hes & ->). by rewrite Hes, app_nil_r. }
  by intros r w' ->.
Qed.
