(* ===== verification/ContactsSession.v ===== *)
(** Address book, part 4: insertion and deletion of a person, and the loops that save and
    load. *)
From S2P Require Import Prelude TpList Contacts ContactsFile ContactsBook.
From Stdlib Require Import Ascii.

#[local] Hint Rewrite @wp_on_people : wp_db.

(** ** Insertion and deletion *)

Definition place (n : person) (w : world) : world :=
  with_people (Dlist (<[brk w := n]> (cells (people w))) (first (people w)))
    (with_alloc (S (brk w)) (tail (plan w)) w).
Lemma new_person_spec nm ph l w b (Q : option nat → world → Prop) :
  rep l w b →
  (if memory b then Q (Some (brk w)) (place (Person (Dnode None None) nm ph) w)
   else Q None (with_alloc (brk w) (tail (plan w)) w)) →
  wp (new_person nm ph) Q w.
Proof.
  intros Hr. unfold new_person, memory. wp_step. rewrite <-(proj1 (r_plans _ _ _ Hr)).
  destruct (default true _); cbn [negb]; wp_step; intros HQ; [|done]. unfold set_cell. by wp_step.
Qed.
Lemma rep_use_memory l w b : rep l w b → rep l (with_alloc (brk w) (tail (plan w)) w) (use_memory b).
Proof. intros []. split; cbn; try done. by destruct r_plans as [-> ->]. Qed.

Lemma images_same d d' l es :
  (∀ a, a ∈ l → payload <$> cells d' !! a = payload <$> cells d !! a) → images d l es → images d' l es.
Proof.
  intros Hs Him. induction Him as [|a e l es He _ IH]; constructor.
  - rewrite Hs; [done|by left].
  - apply IH. intros x Hx. apply Hs. by right.
Qed.
Lemma same_payload_at s s' a : same_payload s s' → payload <$> cells s' !! a = payload <$> cells s !! a.
Proof. intros Hs. apply (f_equal (lookup a)) in Hs. by rewrite !lookup_fmap in Hs. Qed.

(** person_insert links a new person in front. *)
Lemma insert_person_spec l w b n e :
  rep l w b → entry_ok e → payload n = image e →
  wp (person_insert (Some (brk w)))
    (λ r w', r = 0 ∧ count w' = count w ∧ stdin w' = stdin w ∧ rep (brk w :: l) (with_count (count w + 1) w') (add e (use_memory b)))
    (place n w).
Proof.
  intros Hr He Hn. pose proof Hr as [Hl Him Hok Hdom Hbrk Hc [Hp Hfp] Hf Ho].
  assert (brk w ∉ l) as Hfresh by (intros Hin%Hbrk; lia).
  unfold person_insert, LIST_INSERT. wp_step. eapply wp_mono.
  { apply (insert_head_spec l); [|cbn; rewrite dom_insert_L; set_solver|done].
    apply (lrep_same l (people w)); [|done|done]. intros p Hpl. cbn. rewrite lookup_insert_ne; [done|]. by intros <-. }
  intros [] d [Hl' Hsp]. wp_step. split_and!; [done..|]. split; cbn; try done.
  - constructor.
    + rewrite (same_payload_at _ _ _ Hsp). cbn [place cells people with_people]. rewrite lookup_insert_eq. cbn. by f_equal.
    + eapply images_same; [|exact Him]. intros a Ha. rewrite (same_payload_at _ _ _ Hsp). cbn.
      rewrite lookup_insert_ne; [done|]. by intros <-.
  - by constructor.
  - rewrite (same_payload_dom _ _ Hsp). cbn. by rewrite dom_insert_L, Hdom.
  - intros a [->|Ha]%elem_of_cons; [lia|]. apply Hbrk in Ha. lia.
  - lia.
  - by rewrite Hp.
Qed.
Lemma count_up_spec w (Q : unit → world → Prop) :
  count w < 2 ^ 31 - 1 → Q () (with_count (count w + 1) w) → wp count_up Q w.
Proof. intros Hc HQ. unfold count_up. wp_step. rewrite (proj2 (Z.leb_gt _ _)) by lia. done. Qed.

(** LIST_REMOVE and free of the person that was found. *)
Lemma delete_person_spec l w b nm a :
  rep l w b → found l (b_people b) nm a →
  wp (person_delete (Some a);; free_person a)
    (λ _ w', stdin w' = stdin w ∧ ∃ l', rep l' w' (with_entries (drop_first nm (b_people b)) b)) w.
Proof.
  intros [Hl Him Hok Hdom Hbrk Hc Hp Hf Ho] (l1 & l2 & e1 & e2 & ph & -> & Hes & Hlen & _ & Hdrop).
  pose proof (proj1 Hl) as Hnd. apply NoDup_app in Hnd as (_ & Hdis & [Ha _]%NoDup_cons).
  assert (a ∉ l1) as Ha1 by (intros Hin; by apply (Hdis a Hin); left).
  assert (a ∉ l1 ++ l2) as Ha12 by (rewrite elem_of_app; tauto).
  unfold person_delete, free_person. wp_step. eapply wp_mono; [by apply remove_spec|]. intros [] d [Hl' Hsp]. wp_step.
  assert (a ∈ dom (cells d)) as [n Hn]%elem_of_dom.
  { rewrite (same_payload_dom _ _ Hsp), Hdom, elem_of_list_to_set, elem_of_app. right. by left. }
  eapply cell_spec; [exact Hn|]. wp_step. split; [done|]. exists (l1 ++ l2). rewrite Hes in Him. unfold images in Him.
  apply Forall2_app_inv in Him as [Him1 Him2]; [|done]. apply Forall2_cons in Him2 as [_ Him2].
  rewrite Hes in Hok. apply Forall_app in Hok as [Hok1 [_ Hok2]%Forall_cons].
  split; cbn; rewrite ?Hdrop; try done.
  - apply (lrep_same (l1 ++ l2) d); [|done|done]. intros p Hpl. cbn. rewrite lookup_delete_ne; [done|]. by intros <-.
  - unfold images. apply (images_same (people w)); [|by apply Forall2_app]. intros x Hx. cbn.
    rewrite lookup_delete_ne by (by intros <-). by rewrite (same_payload_at _ _ _ Hsp).
  - by apply Forall_app.
  - rewrite dom_delete_L, (same_payload_dom _ _ Hsp), Hdom. rewrite !list_to_set_app_L. cbn. set_solver.
  - intros x Hx. apply Hbrk. rewrite elem_of_app in *. rewrite elem_of_cons. tauto.
Qed.

(** ** Saving and loading *)

Lemma wp_fopen_ok l w b (Q : bool → world → Prop) :
  rep l w b → Q (opens b) (with_fplan (tail (fplan w)) w) → wp fopen_ok Q w.
Proof. intros Hr HQ. unfold fopen_ok. wp_step. rewrite (proj2 (r_plans _ _ _ Hr)) in *. done. Qed.
Lemma rep_use_open l w b : rep l w b → rep l (with_fplan (tail (fplan w)) w) (use_open b).
Proof. intros []. split; cbn; try done. by destruct r_plans as [-> ->]. Qed.
Lemma rep_files l w b f x :
  rep l w b → rep l (with_files (<[f := x]> (files w)) w) (put_file f x b).
Proof. intros []. split; cbn; try done. congruence. Qed.

Lemma save_spec l w b f :
  rep l w b →
  wp (save_people f) (λ _ w', stdin w' = stdin w ∧ rep l w' (b_save f b)) w.
Proof.
  intros Hr. unfold save_people. wp_step.
  eapply (wp_mono _ (λ _ w', w' = with_files (<[f := concat (saved <$> b_people b)]> (files w)) w)).
  { eapply (each_spec _ (λ l' es' w', Forall entry_ok es' ∧ ∃ e1, b_people b = e1 ++ es' ∧
      w' = with_files (<[f := concat (saved <$> e1)]> (files w)) w)); [exact (rep_files _ _ _ f [] Hr)| | |].
    - split; [apply Hr|]. by exists [].
    - intros a e l' es' w' n _ Hn ([[Hok1 Hok2] Hoks]%Forall_cons & e1 & Hes & ->).
      destruct (payload_fields _ _ Hn) as [-> ->]. wp_step. apply str_fill; [apply Hok1..|]. wp_step.
      apply str_fill; [apply Hok2..|]. unfold write_file. wp_step. split; [done|]. split; [done|].
      exists (e1 ++ [e]). rewrite Hes, <-app_assoc. split; [done|]. cbn [files with_files].
      rewrite lookup_insert_eq, insert_insert_eq. cbn [default from_option]. unfold with_files. cbn.
      rewrite fmap_app, concat_app. cbn. by rewrite app_nil_r.
    - intros w' (_ & e1 & Hes & ->). by rewrite Hes, app_nil_r. }
  intros r w' ->. wp_step. split; [done|]. apply (rep_files _ _ _ f), Hr.
Qed.
(** save_file returns when it cannot open the file, and flows off its end when it can. *)
Lemma save_file_falls l w b f :
  rep l w b → if opens b then hits MissingReturn (save_file f) w
    else wp (save_file f) (λ r w', r = -1 ∧ w' = with_fplan (tail (fplan w)) w) w.
Proof.
  intros Hr. unfold save_file. destruct (opens b) eqn:Ho.
  - apply hits_bind. eapply wp_fopen_ok; [done|]. rewrite Ho. apply hits_bind.
    eapply wp_mono; [by eapply save_spec, rep_use_open|]. done.
  - wp_step. eapply wp_fopen_ok; [done|]. rewrite Ho. by wp_step.
Qed.

(** What is left to read. *)
Definition to_read (rest : text) (eof : bool) : list text := if eof then [] else readings (lines rest).
Lemma load_loop_spec fuel rest eof l w b :
  rep l w b → Forall line_ok (lines rest) → b_count b + Z.of_nat (length (lines rest)) < 2 ^ 31 →
  (length rest < fuel)%nat →
  wp (load_loop fuel rest eof) (λ r w', stdin w' = stdin w ∧ r = (load_lines (to_read rest eof) b).1 ∧
    ∃ l', rep l' w' (load_lines (to_read rest eof) b).2) w.
Proof.
  revert rest eof l w b. induction fuel as [|fuel IH]; intros rest eof l w b Hr Hok Hc Hfuel; [lia|].
  destruct eof; cbn [load_loop to_read]; [wp_step; split_and!; [done..|by exists l]|].
  destruct (lines rest) as [|x xs] eqn:Hx.
  { apply lines_nil in Hx as ->. change (fgets (zeros BUFFER_LENGTH) []) with (fill BUFFER_LENGTH [], @nil ascii, true). wp_step.
    apply str_fill; [apply not_elem_of_nil|unfold BUFFER_LENGTH; cbn; lia|]. wp_step. apply wp_INFO. wp_step.
    cbn [parser_token length Nat.ltb Nat.leb MIN_TOKEN_LENGTH]. wp_step. cbn [Z.eqb negb].
    unfold load_loop. destruct fuel; wp_step; (split_and!; [done|done|exists l; by apply (rep_say _ _ _ (length_text []))]). }
  apply Forall_cons in Hok as [Hx0 Hoks]. cbn [length] in Hc.
  destruct (fgets_spec rest x xs Hx ltac:(apply Hx0)) as (r & eof & -> & Hr' & He' & Hlen). wp_step.
  assert (Hread : readings (x :: xs) = x :: to_read r eof).
  { cbn. f_equal. rewrite <-Hr' in *. destruct eof; [by rewrite decide_True by by apply He'|].
    rewrite decide_False; [done|]. by intros ?%He'. }
  rewrite Hread. apply str_fill; [apply Hx0..|]. wp_step. apply wp_INFO. wp_step.
  apply (rep_say _ _ _ (length_text x)) in Hr. change (txt "length : " ++ _) with (length_text x).
  set (w0 := with_stdout _ w) in *. set (b0 := say _ b) in *.
  change (stdin w) with (stdin w0). change (b_count b) with (b_count b0) in Hc.
  apply parser_token_spec; [done|]. cbn [load_lines]. fold b0. case_decide as Hm; wp_step.
  { cbn [Z.eqb negb]. rewrite <-Hr' in *. apply (IH r eof l w0 b0); [done|done|lia|lia]. }
  cbn [Z.eqb negb]. wp_step. pose proof (rep_say _ _ _ (token_text (parse_line x)) Hr) as Hr1.
  eapply new_person_spec; [exact Hr1|]. set (b1 := say _ b0) in *. destruct (memory b1); wp_step.
  2: { split_and!; [done..|]. exists l. by apply rep_use_memory. }
  destruct Hx0 as (_ & Hnul & Hpl). destruct (Hpl ltac:(lia)) as (_ & Hn & Hp). destruct (parse_line_clean x Hnul) as [Hn0 Hp0].
  eapply wp_mono; [apply (insert_person_spec _ _ _ _ (parse_line x) Hr1); [by split; split|done]|].
  intros r0 w2 (-> & Hc2 & Hs2 & Hr2). wp_step.
  assert (count w2 = b_count b0) as Hcw by (rewrite Hc2; apply Hr1).
  apply count_up_spec; [lia|]. rewrite <-Hc2 in Hr2. rewrite <-Hr' in *.
  eapply wp_mono; [eapply IH; [exact Hr2|done|change (b_count (add _ _)) with (b_count b0 + 1); lia|lia]|]. by intros ? w' [-> ?].
Qed.
Lemma load_spec l w b f :
  rep l w b → cmd_ok b (Load f) →
  wp (load_file f) (λ r w', r = (b_load f b).1 ∧ ∃ l', rep l' w' (b_load f b).2) w.
Proof.
  intros Hr (_ & Hok & Hc). unfold load_file, b_load. wp_step. eapply wp_fopen_ok; [done|]. wp_step. cbn [with_fplan files].
  pose proof (rep_use_open _ _ _ Hr) as Hr1. rewrite (r_files _ _ _ Hr). destruct (b_files b !! f) as [content|]; cbn in Hok, Hc.
  - destruct (opens b); cbn [negb]; wp_step; [|split; [done|by exists l]].
    eapply wp_mono; [eapply load_loop_spec; [exact Hr1|done|done|lia]|]. by intros r w' (_ & -> & ?).
  - wp_step. split; [done|by exists l].
Qed.
