(* ===== verification/ContactsMenu.v ===== *)
(** Address book, part 5: whole sessions of the menu, a book saved and loaded again, and
    the lines and words the program cannot take. *)
From S2P Require Import Prelude TpList Contacts ContactsFile ContactsBook ContactsSession.
From Stdlib Require Import Ascii.

#[local] Hint Rewrite @wp_on_people : wp_db.

(** ** Input *)

Lemma scanf_d_spec x v ws (Q : Z → world → Prop) w :
  stdin w = x :: ws → number x = Some (v, []) → - 2 ^ 31 ≤ v < 2 ^ 31 → Q v (with_stdin ws w) → wp scanf_d Q w.
Proof.
  intros Hw Hx Hv HQ. unfold scanf_d. wp_step. rewrite Hw, Hx. wp_step. rewrite decide_True by done.
  rewrite (proj2 (Z.ltb_ge _ _)), (proj2 (Z.leb_gt _ _)) by lia. done.
Qed.
Lemma scanf_s_spec n x ws (Q : text → world → Prop) w :
  stdin w = x :: ws → (length x < n)%nat → Q (fill n x) (with_stdin ws w) → wp (scanf_s (zeros n)) Q w.
Proof.
  intros Hw Hx HQ. unfold scanf_s. wp_step. rewrite Hw. wp_step. unfold zeros at 1. rewrite length_replicate.
  rewrite (proj2 (Nat.ltb_lt _ _)) by done. by rewrite put_str_zeros.
Qed.

(** ** The entries of the menu *)

Definition step_post (b : book) (c : cmd) (ws : list text) (w : world) : Prop :=
  stdin w = ws ∧ ∃ l, rep l w (b_step b c).

Lemma place_cell n w (Q : person → world → Prop) : Q n (place n w) → wp (on_people (cell (brk w))) Q (place n w).
Proof. intros HQ. apply wp_on_people. eapply cell_spec; [apply lookup_insert_eq|exact HQ]. Qed.
Lemma place_set n n' w (Q : unit → world → Prop) : Q () (place n' w) → wp (on_people (set_cell (brk w) n')) Q (place n w).
Proof.
  intros HQ. apply wp_on_people. unfold set_cell. wp_step. unfold place, with_people in *. cbn in *. by rewrite insert_insert_eq.
Qed.
Lemma place_stdin n w ws : with_stdin ws (place n w) = place n (with_stdin ws w).
Proof. done. Qed.

Lemma insert_entry_spec l w b n p ws :
  rep l w b → cmd_ok b (Insert n p) → stdin w = (if memory b then [n; p] else []) ++ ws →
  wp insert_entry (λ _, step_post b (Insert n p) ws) w.
Proof.
  intros Hr [[Hn Hp] Hc] Hw. unfold insert_entry, step_post. rewrite wp_bind. eapply new_person_spec; [done|]. cbn [b_step].
  destruct (memory b); cbn [app] in Hw.
  2: { wp_step. split; [done|]. exists l. by apply rep_use_memory. }
  rewrite wp_bind. apply place_cell. rewrite wp_bind. cbn [name].
  eapply (scanf_s_spec NAME_LENGTH n); [exact Hw|apply Hn|]. rewrite place_stdin. set (w1 := with_stdin (p :: ws) w).
  change (brk w) with (brk w1). rewrite wp_bind. apply place_set. rewrite wp_bind. apply place_cell. rewrite wp_bind. cbn [phone].
  eapply (scanf_s_spec PHONE_LENGTH p); [reflexivity|apply Hp|]. rewrite place_stdin. set (w2 := with_stdin ws w1).
  change (brk w1) with (brk w2). rewrite wp_bind. apply place_set. rewrite wp_bind.
  eapply wp_mono; [apply (insert_person_spec _ w2 b _ (n, p) (rep_stdin _ _ _ ws Hr)); [done|reflexivity]|].
  intros r w' (-> & Hc' & Hs & Hr'). cbn [Z.eqb negb]. rewrite wp_bind.
  assert (count w' = b_count b) as Hcw by (rewrite Hc'; apply Hr).
  apply count_up_spec; [lia|]. wp_step. apply wp_INFO. wp_step. split; [done|]. exists (brk w2 :: l).
  apply (rep_say _ (with_count (count w' + 1) w')). by rewrite Hc'.
Qed.
Lemma find_person_spec l w b nm ws :
  rep l w b → fits NAME_LENGTH nm → stdin w = nm :: ws →
  wp find_person (λ r w', w' = with_stdin ws w ∧
    match r with Some a => found l (b_people b) nm a | None => look nm (b_people b) = None end) w.
Proof.
  intros Hr [Hnul Hn] Hw. unfold find_person. wp_step. eapply scanf_s_spec; [done..|]. wp_step.
  apply str_fill; [done..|]. by apply person_search_spec, rep_stdin.
Qed.
(** The person that was found has the name and the phone of the entry. *)
Lemma found_cell l w b nm a :
  rep l w b → found l (b_people b) nm a →
  ∃ n e, cells (people w) !! a = Some n ∧ look nm (b_people b) = Some e ∧ entry_ok e ∧
    name n = fill NAME_LENGTH e.1 ∧ phone n = fill PHONE_LENGTH e.2.
Proof.
  intros Hr (l1 & l2 & e1 & e2 & ph & -> & Hes & Hlen & Hlook & _).
  pose proof (r_images _ _ _ Hr) as Him. unfold images in Him. rewrite Hes in Him.
  apply Forall2_app_inv in Him as [_ [Ha _]%Forall2_cons]; [|done].
  destruct (cell_image _ _ _ Ha) as (n & Hn & Hpl). exists n, (nm, ph). split_and!; [done|done| |by eapply payload_fields..].
  pose proof (r_ok _ _ _ Hr) as Hok. rewrite Hes in Hok. by apply Forall_app in Hok as [_ [? _]%Forall_cons].
Qed.
Lemma delete_entry_spec l w b n ws :
  rep l w b → cmd_ok b (Delete n) → stdin w = n :: ws → wp delete_entry (λ _, step_post b (Delete n) ws) w.
Proof.
  intros Hr Hn Hw. unfold delete_entry, step_post. wp_step. eapply wp_mono; [by eapply find_person_spec|].
  intros [a|] w1 [-> Hf]; cbn [b_step]; pose proof (rep_stdin _ _ _ ws Hr) as Hr1.
  2: { rewrite Hf. wp_step. apply wp_INFO. wp_step. split; [done|]. exists l. by apply rep_say. }
  destruct (found_cell _ _ _ _ _ Hr1 Hf) as (x & e & Hx & Hlook & [[] []] & Hxn & Hxp).
  wp_step. eapply cell_spec; [exact Hx|]. wp_step. rewrite Hxn, Hxp, Hlook.
  apply str_fill; [done..|]. wp_step. apply str_fill; [done..|]. wp_step. apply wp_INFO. wp_step.
  pose proof (delete_person_spec _ _ _ _ _ (rep_say _ _ _ (saved e) Hr1) Hf) as Hd. rewrite wp_bind in Hd.
  eapply wp_mono; [exact Hd|]. intros r w2 Hw2. wp_step. eapply wp_mono; [exact Hw2|].
  intros _ w' [Hs (l' & Hr')]. wp_step. split; [by rewrite Hs|by exists l'].
Qed.
Lemma search_entry_spec l w b n ws :
  rep l w b → cmd_ok b (Look n) → stdin w = n :: ws → wp search_entry (λ _, step_post b (Look n) ws) w.
Proof.
  intros Hr Hn Hw. unfold search_entry, step_post. wp_step. eapply wp_mono; [by eapply find_person_spec|].
  intros [a|] w1 [-> Hf]; cbn [b_step]; pose proof (rep_stdin _ _ _ ws Hr) as Hr1.
  2: { rewrite Hf. wp_step. apply wp_INFO. wp_step. split; [done|]. exists l. by apply rep_say. }
  destruct (found_cell _ _ _ _ _ Hr1 Hf) as (x & e & Hx & Hlook & [[] []] & Hxn & Hxp).
  wp_step. eapply cell_spec; [exact Hx|]. wp_step. rewrite Hxn, Hxp, Hlook.
  apply str_fill; [done..|]. wp_step. apply str_fill; [done..|]. wp_step. apply wp_INFO. wp_step.
  split; [done|]. exists l. cbn [from_option]. by apply (rep_say _ _ _ (shown e)).
Qed.

Lemma menu_round_spec l w b c ws :
  rep l w b → cmd_ok b c → returns c = true → stdin w = words b c ++ ws →
  wp menu_round (λ go w', go = true ∧ step_post b c ws w') w.
Proof.
  intros Hr Hc Hret Hw. unfold menu_round. wp_step.
  destruct c as [n p| |n|n|f|f]; try done; (eapply scanf_d_spec; [exact Hw|vm_compute; reflexivity|lia|]);
    unfold OPER_INSERT, OPER_PRINT, OPER_DELETE, OPER_SEARCH; cbn [Z.eqb Pos.eqb]; wp_step.
  - eapply wp_mono; [eapply insert_entry_spec; [exact (rep_stdin _ _ _ _ Hr)|done|done]|]. by intros.
  - eapply wp_mono; [eapply delete_entry_spec; [exact (rep_stdin _ _ _ _ Hr)|done|done]|]. by intros.
  - eapply wp_mono; [eapply search_entry_spec; [exact (rep_stdin _ _ _ _ Hr)|done|done]|]. by intros.
Qed.
(** The entries that show, save and load flow off their ends. *)
Lemma print_entry_falls l w b : rep l w b → hits MissingReturn print_entry w.
Proof. intros Hr. unfold print_entry. apply hits_bind. by eapply person_traversal_spec. Qed.
Lemma save_entry_falls l w b f ws :
  rep l w b → fits NAME_LENGTH f → stdin w = f :: ws → hits MissingReturn save_entry w.
Proof.
  intros Hr Hf Hw. unfold save_entry. apply hits_bind. eapply scanf_s_spec; [done|apply Hf|].
  apply hits_bind. apply str_fill; [apply Hf..|]. pose proof (save_file_falls _ _ _ f (rep_stdin _ _ _ ws Hr)) as Hs.
  destruct (opens b); [by apply hits_first|]. apply hits_bind. by eapply wp_mono.
Qed.
Lemma load_entry_falls l w b f ws :
  rep l w b → cmd_ok b (Load f) → stdin w = f :: ws → hits MissingReturn load_entry w.
Proof.
  intros Hr Hc Hw. pose proof (proj1 Hc) as Hf. unfold load_entry. apply hits_bind. eapply scanf_s_spec; [done|apply Hf|].
  apply hits_bind. apply str_fill; [apply Hf..|]. apply hits_bind.
  eapply wp_mono; [eapply load_spec; [exact (rep_stdin _ _ _ ws Hr)|exact Hc]|]. done.
Qed.
Lemma menu_round_falls l w b c ws :
  rep l w b → cmd_ok b c → returns c = false → stdin w = words b c ++ ws → hits MissingReturn menu_round w.
Proof.
  intros Hr Hc Hret Hw. unfold menu_round. apply hits_bind.
  destruct c as [n p| |n|n|f|f]; try done; (eapply scanf_d_spec; [exact Hw|vm_compute; reflexivity|lia|]);
    unfold OPER_INSERT, OPER_PRINT, OPER_DELETE, OPER_SEARCH, OPER_SAVE, OPER_LOAD; cbn [Z.eqb Pos.eqb]; apply hits_first.
  - eapply print_entry_falls, rep_stdin, Hr.
  - eapply save_entry_falls; [exact (rep_stdin _ _ _ _ Hr)|done|done].
  - eapply load_entry_falls; [exact (rep_stdin _ _ _ _ Hr)|done|done].
Qed.

(** ** Sessions *)

Lemma menu_loop_spec cs l w b fuel :
  rep l w b → session_ok b cs → stdin w = session b cs → (length cs < fuel)%nat →
  if forallb returns cs then wp (menu_loop fuel) (λ _ w', ∃ l', rep l' w' (foldl b_step b cs)) w
  else hits MissingReturn (menu_loop fuel) w.
Proof.
  revert l w b fuel. induction cs as [|c cs IH]; intros l w b fuel Hr Hok Hw Hfuel; (destruct fuel as [|fuel]; [lia|]); cbn [menu_loop forallb].
  - unfold menu_round. wp_step. eapply scanf_d_spec; [exact Hw|vm_compute; reflexivity|lia|]. wp_step. exists l. by apply rep_stdin.
  - destruct Hok as [Hc Hok]. destruct (returns c) eqn:Hret; cbn [andb].
    2: { apply hits_first. by eapply menu_round_falls. }
    pose proof (menu_round_spec _ _ _ _ _ Hr Hc Hret Hw) as Hround.
    assert (Hnext : ∀ l' w', rep l' w' (b_step b c) → stdin w' = session (b_step b c) cs →
      if forallb returns cs then wp (menu_loop fuel) (λ _ w', ∃ l', rep l' w' (foldl b_step (b_step b c) cs)) w'
      else hits MissingReturn (menu_loop fuel) w') by (intros l' w' Hr' Hs; eapply IH; [done..|cbn in Hfuel; lia]).
    destruct (forallb returns cs); [wp_step|apply hits_bind];
      (eapply wp_mono; [exact Hround|]; intros go w' (-> & Hs & l' & Hr'); by apply (Hnext l')).
Qed.
Lemma session_length b cs : (length cs ≤ sum_list_with length (session b cs))%nat.
Proof.
  revert b. induction cs as [|c cs IH]; intros b; [cbn; lia|]. cbn [session length]. rewrite sum_list_with_app.
  specialize (IH (b_step b c)). destruct c; cbn [words sum_list_with]; change (length (txt _)) with 1%nat; lia.
Qed.

(** C22: The program as a whole, for every session of typed commands whose words and files fit
    and any outcomes of malloc and fopen.  A session of insertions, deletions and searches
    prints (menu and prompts apart), keeps and counts what the specification says, has no
    undefined behaviour and comes to its end; the persons left in the book are the blocks
    it never frees.  A session that shows, saves or loads has undefined behaviour at its
    first such command: the entry flows off its end. *)
Theorem contacts_refine fs p fp cs :
  let b := Book [] 0 p fp fs [] in
  session_ok b cs →
  if forallb returns cs then
    wp main (λ r w, let b' := foldl b_step b cs in
      r = 0 ∧ stdout w = b_out b' ∧ files w = b_files b' ∧ size (cells (people w)) = length (b_people b') ∧
      ∃ l, rep l w b') (start (session b cs) fs p fp)
  else main (start (session b cs) fs p fp) = UB MissingReturn.
Proof.
  intros b Hok. unfold main.
  assert (Hl : rep [] (start (session b cs) fs p fp) b).
  { split; cbn; try done; [split_and!; [by apply NoDup_nil|done|done]|constructor|by intros ? ?%elem_of_nil]. }
  pose proof (session_length b cs) as Hlen.
  pose proof (menu_loop_spec cs [] _ b (S (sum_list_with length (session b cs))) Hl Hok eq_refl ltac:(lia)) as Hloop.
  destruct (forallb returns cs); [wp_step|apply hits_bind, hits_first, Hloop].
  eapply wp_mono; [exact Hloop|]. intros _ w (l & Hr). wp_step.
  split; [done|]. split; [apply Hr|]. split; [apply Hr|]. split; [|by exists l].
  rewrite <-size_dom, (r_dom _ _ _ Hr), size_list_to_set by apply (r_list _ _ _ Hr). eapply Forall2_length, Hr.
Qed.
Definition demo : list cmd :=
  let t := txt in [Insert (t "ann") (t "12"); Insert (t "bob") (t "34"); Delete (t "bob"); Insert (t "eve") (t "56"); Look (t "ann"); Look (t "bob")].
Lemma contacts_refine_witness :
  let b := Book [] 0 [true; true; false] [] ∅ [] in
  session_ok b demo ∧ session_ok b (demo ++ [Show]) ∧
  wp main (λ r w, r = 0 ∧ size (cells (people w)) = 1%nat ∧ stdout w = txt "Insert Success" ++ [LF] ++ txt "Insert Success" ++ [LF] ++
      txt "name: bob, phone: 34" ++ [LF] ++ txt "name: ann,phone: 12" ++ [LF] ++ txt "Person don't Exit" ++ [LF])
    (start (session b demo) ∅ [true; true; false] []) ∧
  main (start (session b (demo ++ [Show])) ∅ [true; true; false] []) = UB MissingReturn.
Proof.
  intros b. assert (Hok : session_ok b demo) by (apply (bool_decide_unpack _); vm_compute; exact I).
  assert (Hok' : session_ok b (demo ++ [Show])) by (apply (bool_decide_unpack _); vm_compute; exact I).
  split; [exact Hok|]. split; [exact Hok'|]. split.
  - pose proof (contacts_refine ∅ [true; true; false] [] demo Hok) as Hmain. cbn zeta in Hmain.
    change (forallb returns demo) with true in Hmain. cbn iota in Hmain. eapply wp_mono; [exact Hmain|].
    intros r w (-> & Hout & _ & Hsize & _). split; [reflexivity|]. split; [exact Hsize|].
    rewrite Hout. vm_compute. reflexivity.
  - exact (contacts_refine ∅ [true; true; false] [] (demo ++ [Show]) Hok').
Defined.

(** ** A book saved and loaded *)

(** What the parser makes of the phone: the label that save_file writes and the end of the
    line become part of it. *)
Definition garbled (e : entry) : entry := (e.1, txt "phone:" ++ e.2 ++ [LF]).
Definition one_word (l : text) : Prop := SPACE ∉ l ∧ LF ∉ l.
Definition reloadable (e : entry) : Prop :=
  one_word e.1 ∧ one_word e.2 ∧ COMMA ∉ e.1 ∧ (length e.2 + 7 < PHONE_LENGTH)%nat.

Lemma unspaced_id l : SPACE ∉ l → unspaced l = l.
Proof.
  intros Hl. unfold unspaced. induction l as [|c l IH]; [done|]. apply not_elem_of_cons in Hl as [Hc Hl].
  rewrite filter_cons_True by done. by rewrite IH.
Qed.
Lemma split_comma_app a b : COMMA ∉ a → split_comma (a ++ COMMA :: b) = (a, COMMA :: b).
Proof.
  induction a as [|c a IH]; [done|]. intros [Hc Ha]%not_elem_of_cons. cbn. rewrite decide_False by done. by rewrite IH.
Qed.
Lemma saved_split e : saved e = (txt "name: " ++ e.1) ++ COMMA :: txt " phone: " ++ e.2 ++ [LF].
Proof. unfold saved, entry_text. by rewrite <-!app_assoc. Qed.
Lemma parse_saved e : reloadable e → parse_line (saved e) = garbled e.
Proof.
  intros ([Hs1 _] & [Hs2 _] & Hc & _). rewrite saved_split. unfold parse_line. rewrite split_comma_app.
  2: { rewrite not_elem_of_app. split; [|done]. apply (bool_decide_unpack _). vm_compute. exact I. }
  unfold field, garbled. change (after_space (txt "name: " ++ e.1)) with e.1.
  change (unspaced (after_space (COMMA :: txt " phone: " ++ e.2 ++ [LF]))) with (txt "phone:" ++ unspaced (e.2 ++ [LF])).
  rewrite !unspaced_id; [done| |done]. rewrite elem_of_app, list_elem_of_singleton. naive_solver.
Qed.
Lemma lines_saved es : Forall reloadable es → lines (concat (saved <$> es)) = saved <$> es.
Proof.
  induction 1 as [|e es ([_ Hl1] & [_ Hl2] & _) _ IH]; [done|]. rewrite fmap_cons. cbn [concat].
  set (x := txt "name: " ++ e.1 ++ txt ", phone: " ++ e.2).
  assert (saved e = x ++ [LF]) as -> by (unfold saved, entry_text, x; by rewrite <-!app_assoc).
  rewrite <-app_assoc. cbn [app]. rewrite (lines_line x), IH; [done|]. unfold x. rewrite !not_elem_of_app.
  split_and!; try done; apply (bool_decide_unpack _); vm_compute; exact I.
Qed.
(** Behind the last line there is an empty reading. *)
Lemma readings_saved es : readings (saved <$> es) = (saved <$> es) ++ [[]].
Proof.
  induction es as [|e es IH]; [done|]. rewrite fmap_cons. cbn [readings app]. rewrite IH, decide_False; [done|].
  intros (_ & Hlast & _). destruct Hlast. rewrite saved_split, app_comm_cons, !app_assoc. by rewrite last_snoc.
Qed.
Lemma load_all ls b :
  b_plan b = [] → Forall (λ l, (MIN_TOKEN_LENGTH ≤ length l)%nat) ls →
  ∃ b', load_lines (ls ++ [[]]) b = (0, b') ∧ b_people b' = reverse (parse_line <$> ls) ++ b_people b.
Proof.
  intros Hp Hls. revert b Hp. induction Hls as [|l ls Hl _ IH]; intros b Hp.
  { eexists. split; [reflexivity|done]. }
  cbn [app load_lines]. rewrite decide_False by lia. unfold memory. cbn [say b_plan]. rewrite Hp. cbn [head default from_option].
  destruct (IH (add (parse_line l) (use_memory (say (token_text (parse_line l)) (say (length_text l) b))))) as (b' & -> & Hb');
    [cbn; by rewrite Hp|]. exists b'. split; [done|]. rewrite Hb', fmap_cons, reverse_cons, <-app_assoc. done.
Qed.
Lemma saved_ok e : entry_ok e → reloadable e → line_ok (saved e).
Proof.
  intros [[Hn1 Hl1] [Hn2 Hl2]] Hr. pose proof (parse_saved e Hr) as Hparse. destruct Hr as (_ & _ & _ & Hlen).
  unfold NAME_LENGTH, PHONE_LENGTH in *. split_and!.
  - unfold saved, entry_text. rewrite !length_app. change (length (txt _)) with 6%nat at 1. change (length (txt ", phone: ")) with 9%nat.
    unfold BUFFER_LENGTH. cbn [length]. lia.
  - unfold saved, entry_text. rewrite !not_elem_of_app. split_and!; try done; apply (bool_decide_unpack _); vm_compute; exact I.
  - intros _. rewrite Hparse. split_and!; [|done|].
    + rewrite saved_split, elem_of_app. right. by left.
    + unfold garbled. cbn [snd]. rewrite !length_app. change (length (txt _)) with 6%nat. cbn [length]. unfold PHONE_LENGTH. lia.
Qed.
(** C31: What the loop of save_file writes does not come back as it was: load_file on that file,
    when malloc and fopen succeed, puts every person in front of the book again, in the
    opposite order, with a phone that has the label of the file before it and the end of
    the line behind it.  This for names without spaces, ends of line and commas, phones
    without spaces and ends of line of at most 24 characters, a file name of at most 15
    and a count that stays an int. *)
Theorem saved_book_reloads_garbled l w b f :
  rep l w b → b_plan b = [] → b_fplan b = [] → fits NAME_LENGTH f → Forall reloadable (b_people b) →
  b_count b + Z.of_nat (length (b_people b)) < 2 ^ 31 →
  wp (save_people f;; load_file f)
    (λ r w', r = 0 ∧ ∃ l' b', rep l' w' b' ∧ b_people b' = reverse (garbled <$> b_people b) ++ b_people b) w.
Proof.
  intros Hr Hp Hfp Hf Hes Hc. wp_step. eapply wp_mono; [by eapply save_spec|]. intros _ w1 [_ Hr1].
  assert (b_files (b_save f b) !! f = Some (concat (saved <$> b_people b))) as Hfile by apply lookup_insert_eq.
  eapply wp_mono.
  { eapply load_spec; [exact Hr1|]. split; [done|]. cbn zeta. rewrite Hfile. cbn. rewrite lines_saved, length_fmap by done. split; [|done].
    apply Forall_fmap. pose proof (r_ok _ _ _ Hr) as Hok. rewrite Forall_forall in *. intros e He. apply saved_ok; auto. }
  intros r w2 (-> & l' & Hr2). revert Hr2. unfold b_load. rewrite Hfile. unfold opens. cbn [b_save put_file b_fplan].
  rewrite Hfp. cbn [head default from_option]. rewrite lines_saved, readings_saved by done.
  destruct (load_all (saved <$> b_people b) (use_open (b_save f b))) as (b' & -> & Hb'); [done| |].
  - apply Forall_fmap, Forall_forall. intros e _. unfold compose, saved, entry_text. rewrite !length_app.
    change (length (txt _)) with 6%nat at 1. unfold MIN_TOKEN_LENGTH. lia.
  - intros Hr2. split; [done|]. exists l', b'. split; [done|]. rewrite Hb'. cbn [use_open b_save put_file b_people].
    f_equal. f_equal. rewrite <-list_fmap_compose. apply list_fmap_ext. intros i e He. apply parse_saved.
    by eapply Forall_lookup_1.
Qed.
Definition two_people : world :=
  let p d e := Person d (fill NAME_LENGTH e.1) (fill PHONE_LENGTH e.2) in
  World (Dlist {[1%nat := p (Dnode None (Some 0%nat)) (txt "bob", txt "34"); 0%nat := p (Dnode (Some 1%nat) None) (txt "ann", txt "12")]} (Some 1%nat))
    2 2 [] [] [] ∅ [].
Definition two_entries : book := Book [(txt "bob", txt "34"); (txt "ann", txt "12")] 2 [] [] ∅ [].
Lemma two_people_rep : rep [1%nat; 0%nat] two_people two_entries.
Proof.
  split; try done.
  - split_and!; [|done|].
    + apply (bool_decide_unpack _). vm_compute. exact I.
    + cbn. split; [|split; [|done]]; (eexists; split; [vm_compute; reflexivity|reflexivity]).
  - unfold images. repeat constructor; vm_compute; reflexivity.
  - apply (bool_decide_unpack _). vm_compute. exact I.
  - intros a [->|[->|[]%elem_of_nil]%elem_of_cons]%elem_of_cons; cbn; lia.
Qed.
Lemma saved_book_reloads_garbled_witness :
  wp (save_people (txt "f");; load_file (txt "f"))
    (λ r w', r = 0 ∧ ∃ l' b', rep l' w' b' ∧ b_people b' = [(txt "ann", txt "phone:12" ++ [LF]); (txt "bob", txt "phone:34" ++ [LF]);
      (txt "bob", txt "34"); (txt "ann", txt "12")]) two_people.
Proof.
  apply (saved_book_reloads_garbled [1%nat; 0%nat] two_people two_entries (txt "f"));
    [exact two_people_rep|reflexivity|reflexivity|apply (bool_decide_unpack _); vm_compute; exact I| |vm_compute; reflexivity].
  repeat constructor; first [lia|apply (bool_decide_unpack _); vm_compute; exact I].
Defined.

(** ** What the program cannot take *)

Lemma name_loop_overruns rest i status j nm w : COMMA ∉ rest → name_loop rest i status j nm w = UB OutOfBounds.
Proof.
  revert i status j nm. induction rest as [|c rest IH]; intros i status j nm; [done|]. intros [Hc Hr]%not_elem_of_cons.
  cbn [name_loop]. rewrite decide_False by done. case_decide; [by apply IH|]. destruct status; [|by apply IH].
  unfold bind, put_char. destruct (_ <? _)%nat; [by apply IH|done].
Qed.
(** A line of a file without a comma is read, and its words are written, past the arrays. *)
Theorem line_without_comma_overruns l w :
  COMMA ∉ l → (MIN_TOKEN_LENGTH ≤ length l)%nat →
  parser_token (fill BUFFER_LENGTH l) (length l) (zeros NAME_LENGTH) (zeros PHONE_LENGTH) w = UB OutOfBounds.
Proof.
  intros Hc Hl. unfold parser_token. rewrite (proj2 (Nat.ltb_ge _ _)) by done. unfold bind at 1.
  rewrite name_loop_overruns; [done|]. unfold fill. rewrite elem_of_app. intros [?|Hz]; [done|].
  unfold zeros in Hz. by apply elem_of_replicate in Hz as [? _].
Qed.
Lemma line_without_comma_overruns_witness :
  parser_token (fill BUFFER_LENGTH (txt "ann 12")) 6 (zeros NAME_LENGTH) (zeros PHONE_LENGTH) (start [] ∅ [] []) = UB OutOfBounds.
Proof.
  apply (line_without_comma_overruns (txt "ann 12")); [apply (bool_decide_unpack _); vm_compute; exact I|unfold MIN_TOKEN_LENGTH; cbn; lia].
Defined.
(** A phone of 25 characters fits, but not when it comes back from the file. *)
Theorem saved_phone_overflows :
  (menu_round;; save_people (txt "f");; load_file (txt "f"))
    (start (txt <$> ["1"; "ann"; "0123456789012345678901234"]%string) ∅ [] []) = UB OutOfBounds.
Proof. vm_compute. reflexivity. Qed.
(** A name of 16 characters does not. *)
Theorem long_word_overflows :
  main (start (txt <$> ["1"; "0123456789abcdef"; "1"]%string) ∅ [] []) = UB OutOfBounds.
Proof. vm_compute. reflexivity. Qed.
(** Deleting a person does not lower the count. *)
Theorem delete_keeps_count :
  ∃ w, main (start (txt <$> ["1"; "ann"; "12"; "3"; "ann"; "0"]%string) ∅ [] []) = Ok (0, w) ∧
    first (people w) = None ∧ count w = 1.
Proof. eexists. split; [vm_compute; reflexivity|]. done. Qed.
