(* ===== verification/CoSched.v ===== *)
(** The coroutine scheduler and echo server of senior/2.3_coroutine/mini_ntyco.c: the
    hooks of read and write, the coroutine of a client, coro_create, coro_resume and
    coro_yield, and the epoll loop.  A context saved by swapcontext is the point of the
    program at which the coroutine will go on; what the kernel answers is input. *)
From S2P Require Import Prelude.

Definition EPOLLIN : Z := 0x001.
Definition EPOLLOUT : Z := 0x004.
Definition EINTR : Z := 4.
(** EWOULDBLOCK has the same value. *)
Definition EAGAIN : Z := 11.

(** coro.state *)
Inductive co_state := NEW | RUN | SUSPEND | DEAD.
#[export] Instance co_state_eq_dec : EqDecision co_state.
Proof. solve_decision. Defined.

(** Where a coroutine stands: at the start of coro_body; at the head of the loop of
    echo_client; inside the hook of read, whose local variable is [id]; at the head of the
    loop that writes [buf], of which [s] bytes are written; inside the hook of write. *)
Inductive point :=
| Entry
| Top (fd : Z)
| Reading (id fd : Z)
| WTop (fd : Z) (buf : list Z) (s : Z)
| Writing (id fd : Z) (buf : list Z) (s : Z).

(** struct coro; [ctx] is [None] before makecontext. *)
Record coro := Coro { ctx : option point; arg : nat; state : co_state; wait_fd : Z; wait_event : Z }.

(** The answers of the kernel: the errno of a call that fails, or its result.  A call
    whose list is at its end has not returned yet.  [k_ctls] and [k_mem] are the outcomes of
    epoll_ctl and of the requests for memory, which succeed past the end. *)
Record kernel := Kernel {
  k_reads : list (Z + list Z); k_writes : list (Z + Z); k_accepts : list (Z + Z);
  k_waits : list (Z + list (Z * Z)); k_ctls : list bool; k_mem : list bool }.
(** What passes the system calls: the bytes that the coroutine [id] reads and writes. *)
Inductive event := Got (id fd : Z) (l : list Z) | Put (id fd : Z) (l : list Z) | Closed (fd : Z).

(** The global state: struct schedule, whose cap is the length of [co]; the blocks of
    malloc(sizeof(int)), the next address, errno, the kernel and what passed. *)
Record sched := Sched {
  cur_id : Z; co : list coro; listenfd : Z; ints : gmap nat Z; brk : nat; errno : Z;
  kern : kernel; log : list event }.

(** The result of code that may still be waiting in a system call. *)
Definition K (A : Type) : Type := M sched (option A).
Definition kret {A} (a : A) : K A := ret (Some a).
Definition stop {A} : K A := ret None.
Definition lift {A} (m : M sched A) : K A := a ← m; kret a.
Definition kbind {A B} (m : K A) (k : A → K B) : K B := r ← m; match r with Some a => k a | None => stop end.

Notation "x ⟵ y ; z" := (kbind y (λ x, z))
  (at level 20, y at level 100, z at level 200, only parsing) : c_scope.

Definition set_cur id s := Sched id (co s) (listenfd s) (ints s) (brk s) (errno s) (kern s) (log s).
Definition set_co l s := Sched (cur_id s) l (listenfd s) (ints s) (brk s) (errno s) (kern s) (log s).
Definition set_ints m b s := Sched (cur_id s) (co s) (listenfd s) m b (errno s) (kern s) (log s).
Definition set_errno e s := Sched (cur_id s) (co s) (listenfd s) (ints s) (brk s) e (kern s) (log s).
Definition set_kern k s := Sched (cur_id s) (co s) (listenfd s) (ints s) (brk s) (errno s) k (log s).
Definition add_log e s := Sched (cur_id s) (co s) (listenfd s) (ints s) (brk s) (errno s) (kern s) (log s ++ [e]).

(** ** System calls *)

Definition failed {A} (e : Z) : K (option A) := modify (set_errno e);; kret None.
(** At most [n] bytes; [None] is the result -1. *)
Definition sys_read (fd n : Z) : K (option (list Z)) :=
  s ← get;
  match k_reads (kern s) with
  | [] => stop
  | r :: rs =>
      put (set_kern (Kernel rs (k_writes (kern s)) (k_accepts (kern s)) (k_waits (kern s)) (k_ctls (kern s)) (k_mem (kern s))) s);;
      match r with
      | inl e => failed e
      | inr l => let l := take (Z.to_nat n) l in modify (add_log (Got (cur_id s) fd l));; kret (Some l)
      end
  end.
Definition sys_write (fd : Z) (l : list Z) : K (option Z) :=
  s ← get;
  match k_writes (kern s) with
  | [] => stop
  | r :: rs =>
      put (set_kern (Kernel (k_reads (kern s)) rs (k_accepts (kern s)) (k_waits (kern s)) (k_ctls (kern s)) (k_mem (kern s))) s);;
      match r with
      | inl e => failed e
      | inr w =>
          let l := take (Z.to_nat w) l in
          modify (add_log (Put (cur_id s) fd l));; kret (Some (Z.of_nat (length l)))
      end
  end.
Definition accept : K (option Z) :=
  s ← get;
  match k_accepts (kern s) with
  | [] => stop
  | r :: rs =>
      put (set_kern (Kernel (k_reads (kern s)) (k_writes (kern s)) rs (k_waits (kern s)) (k_ctls (kern s)) (k_mem (kern s))) s);;
      match r with inl e => failed e | inr fd => kret (Some fd) end
  end.
Definition epoll_wait : K (option (list (Z * Z))) :=
  s ← get;
  match k_waits (kern s) with
  | [] => stop
  | r :: rs =>
      put (set_kern (Kernel (k_reads (kern s)) (k_writes (kern s)) (k_accepts (kern s)) rs (k_ctls (kern s)) (k_mem (kern s))) s);;
      match r with inl e => failed e | inr l => kret (Some l) end
  end.
Definition epoll_ctl_add : M sched bool :=
  s ← get;
  match k_ctls (kern s) with
  | [] => ret true
  | b :: bs =>
      put (set_kern (Kernel (k_reads (kern s)) (k_writes (kern s)) (k_accepts (kern s)) (k_waits (kern s)) bs (k_mem (kern s))) s);;
      ret b
  end.
Definition alloc : M sched bool :=
  s ← get;
  match k_mem (kern s) with
  | [] => ret true
  | b :: bs =>
      put (set_kern (Kernel (k_reads (kern s)) (k_writes (kern s)) (k_accepts (kern s)) (k_waits (kern s)) (k_ctls (kern s)) bs) s);;
      ret b
  end.
Definition close (fd : Z) : M sched unit := modify (add_log (Closed fd)).
Definition malloc_int (v : Z) : M sched nat :=
  ok ← alloc;
  if negb ok then undef NullDeref else
  s ← get;
  put (set_ints (<[brk s := v]> (ints s)) (S (brk s)) s);;
  ret (brk s).
(** *p, then free(p). *)
Definition take_int (p : nat) : M sched Z :=
  s ← get;
  v ← from_opt DanglingDeref (ints s !! p);
  put (set_ints (delete p (ints s)) (brk s) s);;
  ret v.

(** ** Coroutines *)

Definition get_co (id : Z) : M sched coro :=
  s ← get; if id <? 0 then undef OutOfBounds else from_opt OutOfBounds (co s !! Z.to_nat id).
Definition upd_co (id : Z) (f : coro → coro) : M sched unit :=
  c ← get_co id; modify (λ s, set_co (<[Z.to_nat id := f c]> (co s)) s).
Definition with_state x c := Coro (ctx c) (arg c) x (wait_fd c) (wait_event c).
Definition with_ctx x c := Coro (Some x) (arg c) (state c) (wait_fd c) (wait_event c).
Definition with_wait fd ev c := Coro (ctx c) (arg c) (state c) fd ev.

Definition coro_create (arg : nat) : M sched Z :=
  ok ← alloc;
  if negb ok then undef ProcessExit else
  ok ← alloc;
  if negb ok then undef ProcessExit else
  s ← get;
  put (set_co (co s ++ [Coro None arg NEW (-1) 0]) s);;
  ret (Z.of_nat (length (co s))).
(** The context is saved at [p]; [false] when it returns at once. *)
Definition coro_yield (p : point) : M sched bool :=
  id ← gets cur_id;
  if id <? 0 then ret false else
  upd_co id (with_state SUSPEND);;
  modify (set_cur (-1));;
  upd_co id (with_ctx p);;
  ret true.

(** ** The coroutine of a client *)

(** What one step of it comes to. *)
Inductive next := Go (p : point) | Yielded | Returned.

(** The loop of a hook after EAGAIN. *)
Definition wait_for (id fd ev : Z) (p : point) : K next :=
  lift (upd_co id (with_wait fd ev);; y ← coro_yield p; ret (if y : bool then Yielded else Go p)).
Definition out (fd : Z) : K next := lift (close fd;; ret Returned).
Definition after_read (fd : Z) (r : option (list Z)) : K next :=
  match r with
  | Some [] => out fd
  | Some buf => kret (Go (WTop fd buf 0))
  | None => e ← gets errno; if e =? EAGAIN then kret (Go (Top fd)) else out fd
  end.
Definition after_write (fd : Z) (buf : list Z) (s : Z) (w : option Z) : K next :=
  match w with
  | Some w =>
      if w <=? 0 then
        e ← gets errno; if e =? EAGAIN then kret (Go (WTop fd buf s)) else out fd
      else kret (Go (WTop fd buf (s + w)))
  | None => e ← gets errno; if e =? EAGAIN then kret (Go (WTop fd buf s)) else out fd
  end.
Definition BUF : Z := 512.
Definition rest (buf : list Z) (s : Z) : list Z := drop (Z.to_nat s) buf.
Definition client_step (p : point) : K next :=
  match p with
  | Entry => (* coro_body up to its call of echo_client, and what that does first *)
      lift (id ← gets cur_id; upd_co id (with_state RUN);; c ← get_co id; fd ← take_int (arg c); ret (Go (Top fd)))
  | Top fd =>
      id ← gets cur_id;
      if 0 <=? id then kret (Go (Reading id fd)) else r ⟵ sys_read fd BUF; after_read fd r
  | Reading id fd =>
      r ⟵ sys_read fd BUF;
      match r with
      | Some _ => after_read fd r
      | None =>
          e ← gets errno;
          if e =? EAGAIN then wait_for id fd EPOLLIN (Reading id fd) else after_read fd r
      end
  | WTop fd buf s =>
      if s <? Z.of_nat (length buf) then
        id ← gets cur_id;
        if 0 <=? id then kret (Go (Writing id fd buf s)) else w ⟵ sys_write fd (rest buf s); after_write fd buf s w
      else kret (Go (Top fd))
  | Writing id fd buf s =>
      w ⟵ sys_write fd (rest buf s);
      match w with
      | Some _ => after_write fd buf s w
      | None =>
          e ← gets errno;
          if e =? EAGAIN then wait_for id fd EPOLLOUT (Writing id fd buf s) else after_write fd buf s w
      end
  end.
(** It runs until it yields, which is [true], or returns. *)
Fixpoint client_run (fuel : nat) (p : point) : K bool :=
  match fuel with
  | O => no_fuel
  | S fuel =>
      r ⟵ client_step p;
      match r with Go p => client_run fuel p | Yielded => kret true | Returned => kret false end
  end.

(** swapcontext into the coroutine [id], until control is back: by a yield or over
    uc_link after the end of coro_body. *)
Definition switch (fuel : nat) (id : Z) : K unit :=
  c ← get_co id;
  p ← from_opt IndetRead (ctx c);
  y ⟵ client_run fuel p;
  if y : bool then kret () else lift (upd_co id (with_state DEAD);; modify (set_cur (-1))).
Definition coro_resume (fuel : nat) (id : Z) : K unit :=
  s ← get;
  if (id <? 0) || (Z.of_nat (length (co s)) <=? id) then kret () else
  c ← get_co id;
  if decide (state c = DEAD) then kret () else
  modify (set_cur id);;
  (if decide (state c = NEW) then upd_co id (with_ctx Entry) else ret ());;
  switch fuel id.

(** ** The epoll loop *)

(** The listening descriptor is ready. *)
Fixpoint accept_loop (fuel : nat) : K unit :=
  match fuel with
  | O => no_fuel
  | S fuel =>
      r ⟵ accept;
      match r with
      | None => kret ()
      | Some cfd =>
          ok ← epoll_ctl_add;
          if negb ok then close cfd;; accept_loop fuel else
          p ← malloc_int cfd;
          coro_create p;;
          accept_loop fuel
      end
  end.
(** The first coroutine that waits for the event. *)
Definition waits_for (fd mask : Z) (c : coro) : bool :=
  bool_decide (state c = SUSPEND) && (wait_fd c =? fd) && negb (Z.land (wait_event c) mask =? 0).
Definition first_co (f : coro → bool) (l : list coro) : option nat := fst <$> list_find (λ c, f c = true) l.
Definition wake (fuel : nat) (fd mask : Z) : K unit :=
  k ← gets (λ s, first_co (waits_for fd mask) (co s));
  match k with
  | None => kret ()
  | Some k => upd_co (Z.of_nat k) (with_wait (-1) 0);; coro_resume fuel (Z.of_nat k)
  end.
Fixpoint handle_events (fuel : nat) (l : list (Z * Z)) : K unit :=
  match l with
  | [] => kret ()
  | (fd, mask) :: l =>
      lfd ← gets listenfd;
      _ ⟵ (if fd =? lfd then accept_loop fuel else wake fuel fd mask);
      handle_events fuel l
  end.
Definition not_dead (c : coro) : bool := negb (bool_decide (state c = DEAD)).
Definition run_first (fuel : nat) : K unit :=
  s ← get;
  if cur_id s =? -1 then
    match first_co not_dead (co s) with
    | None => kret ()
    | Some k => coro_resume fuel (Z.of_nat k)
    end
  else kret ().
Fixpoint schedule_loop (fuel : nat) : K unit :=
  match fuel with
  | O => no_fuel
  | S fuel' =>
      r ⟵ epoll_wait;
      match r with
      | None => e ← gets errno; if e =? EINTR then schedule_loop fuel' else kret ()
      | Some l => _ ⟵ handle_events fuel l; _ ⟵ run_first fuel; schedule_loop fuel'
      end
  end.

(** What main hands to schedule_loop: memset, and the listening socket. *)
Definition start (lfd : Z) (k : kernel) : sched := Sched (-1) [] lfd ∅ 0 0 k [].
