(* ===== verification/CoEcho.v ===== *)
(** What the coroutine server does whatever the kernel answers: it has no undefined
    behaviour, every coroutine writes back what it read and nothing else, one that waits is
    suspended and registered for what it waits for, and, against the purpose of a
    scheduler, at most one coroutine is ever under way. *)
From S2P Require Import Prelude CoSched.

(** The bytes that coroutine [id] read from and wrote to [fd]. *)
Definition got_in (id fd : Z) (e : event) : list Z :=
  match e with Got i f l => if (i =? id) && (f =? fd) then l else [] | _ => [] end.
Definition put_in (id fd : Z) (e : event) : list Z :=
  match e with Put i f l => if (i =? id) && (f =? fd) then l else [] | _ => [] end.
Definition got (id fd : Z) (l : list event) : list Z := l ≫= got_in id fd.
Definition put (id fd : Z) (l : list event) : list Z := l ≫= put_in id fd.

Definition echoes (l : list event) : Prop := ∀ id fd, put id fd l `prefix_of` got id fd l.
Definition untouched (id : Z) (l : list event) : Prop := ∀ fd, got id fd l = [] ∧ put id fd l = [].
(** A coroutine behind one that is not dead has not been started. *)
Definition one_at_a_time s : Prop := ∀ i j ci cj,
  co s !! i = Some ci → co s !! j = Some cj → (i < j)%nat → state ci ≠ DEAD →
  state cj = NEW ∧ untouched (Z.of_nat j) (log s).

(** The coroutine [i] stands in the hook of read or of write, registered for the descriptor
    and the event that the hook waits for. *)
Definition in_hook (i : nat) (c : coro) : Prop :=
  (ctx c = Some (Reading (Z.of_nat i) (wait_fd c)) ∧ wait_event c = EPOLLIN) ∨
  ∃ buf k, ctx c = Some (Writing (Z.of_nat i) (wait_fd c) buf k) ∧ wait_event c = EPOLLOUT.
Definition hooked (s : sched) : Prop := ∀ i c, co s !! i = Some c → state c = SUSPEND → in_hook i c.
(** At a call of the kernel: cur_id is -1 or a coroutine, which has been started and has not
    ended; every other one is new, dead or suspended in a hook, never running. *)
Definition states_ok (s : sched) : Prop :=
  (cur_id s = -1 ∨ 0 ≤ cur_id s < Z.of_nat (length (co s))) ∧
  ∀ i c, co s !! i = Some c →
    if decide (cur_id s = Z.of_nat i) then state c = RUN ∨ state c = SUSPEND
    else state c = NEW ∨ state c = DEAD ∨ state c = SUSPEND ∧ in_hook i c.

(** ** Running until the kernel is silent *)

Definition fin s : Prop := echoes (log s) ∧ states_ok s ∧ one_at_a_time s.
Definition kwp {A} (m : K A) (Q : A → sched → Prop) (s : sched) : Prop :=
  wp m (λ r s', match r with Some a => Q a s' | None => fin s' end) s.

Lemma kwp_bind {A B} (m : K A) (k : A → K B) Q s : kwp (kbind m k) Q s ↔ kwp m (λ a s', kwp (k a) Q s') s.
Proof. unfold kwp, kbind, wp, bind, stop, ret. by destruct (m s) as [[[a|] s']| |]. Qed.
Lemma kwp_ret {A} (a : A) Q s : kwp (kret a) Q s ↔ Q a s.
Proof. done. Qed.
Lemma kwp_stop {A} (Q : A → sched → Prop) s : kwp stop Q s ↔ fin s.
Proof. done. Qed.
Lemma kwp_lift {A} (m : M sched A) Q s : kwp (lift m) Q s ↔ wp m Q s.
Proof. unfold kwp, lift. by rewrite wp_bind. Qed.
Lemma kwp_first {A B} (m : M sched A) (k : A → K B) Q s : kwp (bind m k) Q s ↔ wp m (λ a s', kwp (k a) Q s') s.
Proof. unfold kwp. by rewrite wp_bind. Qed.
Lemma kwp_mono {A} (m : K A) (P Q : A → sched → Prop) s : kwp m P s → (∀ a s', P a s' → Q a s') → kwp m Q s.
Proof. intros Hm HPQ. eapply wp_mono; [exact Hm|]. intros [a|] s'; [apply HPQ|done]. Qed.
Create Rewrite HintDb kwp_db.
Hint Rewrite @kwp_bind @kwp_ret @kwp_stop @kwp_lift @kwp_first @wp_bind @wp_ret @wp_get @wp_put @wp_gets @wp_modify : kwp_db.
Ltac kwp_step := autorewrite with kwp_db; cbn [cur_id co listenfd ints brk errno kern log set_cur set_co set_ints set_errno set_kern add_log
  k_reads k_writes k_accepts k_waits k_ctls k_mem].

(** ** Logs *)

Lemma got_snoc id fd l e : got id fd (l ++ [e]) = got id fd l ++ got_in id fd e.
Proof. unfold got. rewrite bind_app. cbn. by rewrite app_nil_r. Qed.
Lemma put_snoc id fd l e : put id fd (l ++ [e]) = put id fd l ++ put_in id fd e.
Proof. unfold put. rewrite bind_app. cbn. by rewrite app_nil_r. Qed.
Definition tag (e : event) : option Z := match e with Got i _ _ | Put i _ _ => Some i | Closed _ => None end.
Lemma other_tag id fd e : tag e ≠ Some id → got_in id fd e = [] ∧ put_in id fd e = [].
Proof.
  destruct e as [i f l|i f l|f]; cbn; intros Hne; try done;
    (by rewrite (proj2 (Z.eqb_neq _ _)) by congruence).
Qed.

(** ** The invariant of a coroutine that is under way *)

Definition point_fd (p : point) : option Z :=
  match p with Entry => None | Top fd | Reading _ fd | WTop fd _ _ | Writing _ fd _ _ => Some fd end.
(** What it read and did not write yet. *)
Definition pending (p : point) : list Z :=
  match p with WTop _ buf s | Writing _ _ buf s => rest buf s | _ => [] end.
Definition point_ok (id : Z) (p : point) : Prop :=
  match p with
  | Reading i _ => i = id
  | WTop _ buf s => 0 ≤ s ≤ Z.of_nat (length buf)
  | Writing i _ buf s => i = id ∧ 0 ≤ s < Z.of_nat (length buf)
  | Entry | Top _ => True
  end.
Definition log_ok (id : Z) (p : point) (l : list event) : Prop :=
  ∀ fd, got id fd l = put id fd l ++ (if decide (point_fd p = Some fd) then pending p else []) ∧
        (point_fd p ≠ Some fd → got id fd l = []).

(** The dead coroutines are in front, those behind them are new. *)
Record shape (s : sched) (ds cs ns : list coro) : Prop := {
  sh_co : co s = ds ++ cs ++ ns;
  sh_dead : Forall (λ c, state c = DEAD) ds;
  sh_new : Forall (λ c, state c = NEW ∧ is_Some (ints s !! arg c)) ns;
  sh_args : NoDup (arg <$> ns);
  sh_brk : ∀ p, is_Some (ints s !! p) → (p < brk s)%nat;
  sh_mem : k_mem (kern s) = [];
  sh_done : ∀ id fd, 0 ≤ id < Z.of_nat (length ds) → put id fd (log s) `prefix_of` got id fd (log s);
  sh_rest : ∀ id, id < 0 ∨ Z.of_nat (length ds + length cs) ≤ id → untouched id (log s) }.

Definition running (ds : list coro) (c : coro) (ns : list coro) (p : point) (s : sched) : Prop :=
  let id := Z.of_nat (length ds) in
  shape s ds [c] ns ∧ cur_id s = id ∧ point_ok id p ∧ log_ok id p (log s) ∧
  match p with
  | Entry => is_Some (ints s !! arg c) ∧ arg c ∉ (arg <$> ns) ∧ state c ≠ DEAD
  | _ => (state c ∈ [RUN; SUSPEND])
  end.
(** Between the coroutines: one that is under way is suspended, and stands where it is
    registered unless the scheduler is about to resume it. *)
Definition paused (s : sched) : Prop := cur_id s = -1 ∧ ∃ ds cs ns, shape s ds cs ns ∧
  match cs with
  | [] => True
  | [c] => state c = SUSPEND ∧ ∃ p, ctx c = Some p ∧ p ≠ Entry ∧ point_ok (Z.of_nat (length ds)) p ∧ log_ok (Z.of_nat (length ds)) p (log s)
  | _ => False
  end.
Definition idle (s : sched) : Prop := paused s ∧ hooked s.

Lemma log_ok_prefix id p l fd : log_ok id p l → put id fd l `prefix_of` got id fd l.
Proof. intros Hl. destruct (Hl fd) as [-> _]. by apply prefix_app_r. Qed.
Lemma shape_fin s ds cs ns :
  shape s ds cs ns → (length cs ≤ 1)%nat → states_ok s →
  (∀ fd, put (Z.of_nat (length ds)) fd (log s) `prefix_of` got (Z.of_nat (length ds)) fd (log s)) → fin s.
Proof.
  intros [Hco Hd Hn _ _ _ Hdone Hrest] Hcs Hst Hcur. split; [|split; [done|]].
  - intros id fd. destruct (decide (0 ≤ id < Z.of_nat (length ds))) as [|Hid]; [by apply Hdone|].
    destruct (decide (id = Z.of_nat (length ds))) as [->|]; [apply Hcur|].
    destruct (Hrest id ltac:(lia) fd) as [-> ->]. done.
  - intros i j ci cj Hi Hj Hij Hne. rewrite Hco in Hi, Hj.
    assert (length ds ≤ i)%nat as Hge.
    { destruct (decide (i < length ds)%nat) as [Hlt|]; [|lia]. rewrite lookup_app_l in Hi by done.
      by rewrite (Forall_lookup_1 _ _ _ _ Hd Hi) in Hne. }
    rewrite lookup_app_r in Hj by lia. rewrite lookup_app_r in Hj by lia.
    destruct (Forall_lookup_1 _ _ _ _ Hn Hj) as [-> _]. split; [done|]. apply Hrest. lia.
Qed.
(** Which coroutine an index is. *)
Lemma shape_cases s ds cs ns i c : shape s ds cs ns → (length cs ≤ 1)%nat → co s !! i = Some c →
  state c = DEAD ∨ (i = length ds ∧ cs = [c]) ∨ state c = NEW.
Proof.
  intros [Hco Hd Hn _ _ _ _ _] Hcs Hi. rewrite Hco in Hi.
  apply lookup_app_Some in Hi as [Hi|[Hge Hi]]; [left; by eapply (Forall_lookup_1 _ _ _ _ Hd)|].
  apply lookup_app_Some in Hi as [Hi|[_ Hi]]; [|right; right; by eapply (Forall_lookup_1 _ _ _ _ Hn)].
  right; left. destruct cs as [|d [|]]; cbn in *; [done| |lia].
  destruct (i - length ds)%nat eqn:Hsub; [|done]. injection Hi as ->. split; [lia|done].
Qed.
Lemma shape_hooked s ds ns : shape s ds [] ns → hooked s.
Proof. intros Hs i c Hi Hst. destruct (shape_cases _ _ _ _ _ _ Hs ltac:(cbn; lia) Hi) as [?|[[_ ?]|?]]; congruence. Qed.
Lemma running_fin ds c ns p s : running ds c ns p s → p ≠ Entry → fin s.
Proof.
  intros (Hs & Hid & _ & Hl & Hst) Hp. eapply shape_fin; [exact Hs|done| |intros fd; by eapply log_ok_prefix].
  assert (state c = RUN ∨ state c = SUSPEND) as Hc.
  { assert (state c ∈ [RUN; SUSPEND]) as H by (by destruct p). set_solver. }
  assert (Hhead : ∀ d, co s !! length ds = Some d → d = c).
  { intros d Hd. rewrite (sh_co _ _ _ _ Hs) in Hd. cbn [app] in Hd. rewrite list_lookup_middle in Hd by done. congruence. }
  split; [right; rewrite Hid, (sh_co _ _ _ _ Hs), !length_app; cbn; lia|].
  intros i d Hi. rewrite Hid. destruct (shape_cases _ _ _ _ _ _ Hs ltac:(cbn; lia) Hi) as [Hd|[[-> [= ->]]|Hd]].
  - rewrite decide_False; [tauto|]. intros <-%Nat2Z.inj. destruct (Hhead d Hi), Hc; congruence.
  - by rewrite decide_True.
  - rewrite decide_False; [tauto|]. intros <-%Nat2Z.inj. destruct (Hhead d Hi), Hc; congruence.
Qed.
Lemma idle_fin s : idle s → fin s.
Proof.
  intros ((Hid & ds & cs & ns & Hs & Hcs) & Hh).
  assert (length cs ≤ 1)%nat as Hlen by (destruct cs as [|? [|]]; cbn; [lia|lia|done]).
  eapply shape_fin; [exact Hs|done| |].
  - split; [by left|]. intros i c Hi. rewrite Hid, decide_False by lia.
    destruct (shape_cases _ _ _ _ _ _ Hs Hlen Hi) as [?|[[_ ->]|?]]; [tauto| |tauto].
    destruct Hcs as [Hst _]. right; right. split; [done|]. by apply Hh.
  - intros fd. destruct cs as [|c [|]]; [|destruct Hcs as (_ & p & _ & _ & _ & Hl); by eapply log_ok_prefix|done].
    destruct (sh_rest _ _ _ _ Hs (Z.of_nat (length ds)) ltac:(cbn; lia) fd) as [-> ->]. done.
Qed.

(** ** Steps *)

Definition ksize (k : kernel) : nat :=
  3 * (length (k_reads k) + length (k_writes k)) + length (k_accepts k) + length (k_waits k).
Definition size s : nat := ksize (kern s).

Lemma kwp_read fd n Q s :
  fin s → (∀ e k, k_mem k = k_mem (kern s) → (ksize k + 3 = size s)%nat → Q None (set_errno e (set_kern k s))) →
  (∀ l k, k_mem k = k_mem (kern s) → (ksize k + 3 = size s)%nat →
    Q (Some l) (add_log (Got (cur_id s) fd l) (set_kern k s))) →
  kwp (sys_read fd n) Q s.
Proof.
  intros Hfin He Hl. unfold sys_read. kwp_step. unfold size, ksize in *.
  destruct (k_reads (kern s)) as [|[e|l] rs]; kwp_step; [done|unfold failed; kwp_step; apply He|apply Hl];
    cbn [k_mem k_reads k_writes k_accepts k_waits length]; done || lia.
Qed.
Lemma kwp_write fd l Q s :
  fin s → (∀ e k, k_mem k = k_mem (kern s) → (ksize k + 3 = size s)%nat → Q None (set_errno e (set_kern k s))) →
  (∀ w k, k_mem k = k_mem (kern s) → (ksize k + 3 = size s)%nat → (w ≤ length l)%nat →
    Q (Some (Z.of_nat w)) (add_log (Put (cur_id s) fd (take w l)) (set_kern k s))) →
  kwp (sys_write fd l) Q s.
Proof.
  intros Hfin He Hl. unfold sys_write. kwp_step. unfold size, ksize in *.
  destruct (k_writes (kern s)) as [|[e|w] rs]; kwp_step; [done|unfold failed; kwp_step; apply He|].
  1-2: cbn [k_mem k_reads k_writes k_accepts k_waits length]; done || lia.
  replace (take (Z.to_nat w) l) with (take (length (take (Z.to_nat w) l)) l).
  - rewrite length_take_le by (rewrite length_take; lia).
    apply Hl; cbn [k_mem k_reads k_writes k_accepts k_waits length]; rewrite ?length_take; done || lia.
  - rewrite length_take. destruct (decide (Z.to_nat w ≤ length l)%nat); [by rewrite Nat.min_l|].
    by rewrite Nat.min_r, !take_ge by lia.
Qed.

(** The current coroutine is the one behind [ds]. *)
Lemma wp_get_co ds c ns Q s : co s = ds ++ c :: ns → Q c s → wp (get_co (Z.of_nat (length ds))) Q s.
Proof.
  intros Hco HQ. unfold get_co. wp_step. rewrite (proj2 (Z.ltb_ge _ _)) by lia.
  by rewrite Nat2Z.id, Hco, list_lookup_middle.
Qed.
Lemma wp_upd_co ds c ns f Q s :
  co s = ds ++ c :: ns → Q () (set_co (ds ++ f c :: ns) s) → wp (upd_co (Z.of_nat (length ds)) f) Q s.
Proof.
  intros Hco HQ. unfold upd_co. wp_step. eapply wp_get_co; [done|]. wp_step.
  by rewrite Nat2Z.id, Hco, insert_app_r_alt, Nat.sub_diag by lia.
Qed.

(** The invariant only reads a part of the state. *)
Lemma shape_same s s' ds cs ns :
  shape s ds cs ns → co s' = co s → ints s' = ints s → brk s' = brk s → log s' = log s → k_mem (kern s') = k_mem (kern s) →
  shape s' ds cs ns.
Proof.
  intros [] Hc Hi Hb Hl Hm. split; rewrite ?Hc, ?Hi, ?Hb, ?Hl, ?Hm; done.
Qed.
Lemma shape_set_co s ds cs ns cs' :
  shape s ds cs ns → length cs' = length cs → shape (set_co (ds ++ cs' ++ ns) s) ds cs' ns.
Proof. intros [] Hlen. split; cbn; rewrite ?Hlen; done. Qed.
(** The current coroutine adds to the log. *)
Lemma shape_log s ds c ns e :
  shape s ds [c] ns → tag e = Some (Z.of_nat (length ds)) ∨ tag e = None → shape (add_log e s) ds [c] ns.
Proof.
  intros [Hco Hd Hn Ha Hb Hm Hdone Hrest] He.
  assert (∀ id fd, id ≠ Z.of_nat (length ds) → got_in id fd e = [] ∧ put_in id fd e = []) as Hother.
  { intros id fd Hid. apply other_tag. intros Ht. destruct He; congruence. }
  split; try done; cbn [log add_log].
  - intros id fd Hid. rewrite got_snoc, put_snoc. destruct (Hother id fd ltac:(lia)) as [-> ->].
    rewrite !app_nil_r. by apply Hdone.
  - intros id Hid fd. cbn [length] in *. rewrite got_snoc, put_snoc. destruct (Hother id fd ltac:(lia)) as [-> ->].
    rewrite !app_nil_r. by apply Hrest.
Qed.

Lemma shape_start s ds c ns : shape s ds [] (c :: ns) → shape s ds [c] ns.
Proof.
  intros [Hco Hd Hn Ha ? ? ? Hrest]. apply Forall_cons in Hn as [_ Hn]. apply NoDup_cons in Ha as [_ Ha].
  split; try done. intros id Hid. apply Hrest. cbn in *. lia.
Qed.

(** What a step comes to. *)
Definition rank (p : point) : nat :=
  match p with Entry => 4 | WTop _ _ _ => 3 | Top _ | Writing _ _ _ _ => 2 | Reading _ _ => 1 end.
Definition ended (ds ns : list coro) (s : sched) : Prop :=
  ∃ c, shape s ds [c] ns ∧ cur_id s = Z.of_nat (length ds) ∧
    ∀ fd, put (Z.of_nat (length ds)) fd (log s) `prefix_of` got (Z.of_nat (length ds)) fd (log s).
Definition after_step (ds ns : list coro) (m n : nat) (r : next) (s : sched) : Prop :=
  match r with
  | Go p => (∃ c, running ds c ns p s) ∧ (size s ≤ m)%nat ∧ (size s + rank p < n)%nat
  | Yielded => idle s ∧ (size s ≤ m)%nat
  | Returned => ended ds ns s ∧ (size s ≤ m)%nat
  end.

Lemma out_spec ds c ns p fd m n s :
  running ds c ns p s → (size s ≤ m)%nat → kwp (out fd) (after_step ds ns m n) s.
Proof.
  intros (Hs & Hid & _ & Hl & _) Hn. unfold out, close. kwp_step. split; [|done]. exists c.
  split; [by apply shape_log; [|right]|]. split; [done|]. intros fd'. cbn [log add_log]. rewrite got_snoc, put_snoc. cbn.
  rewrite !app_nil_r. by eapply log_ok_prefix.
Qed.
(** The hook's wait, at the point where it goes on. *)
Definition waits_at (id fd ev : Z) (p : point) : Prop :=
  (p = Reading id fd ∧ ev = EPOLLIN) ∨ ∃ buf k, p = Writing id fd buf k ∧ ev = EPOLLOUT.
Lemma wait_for_spec ds c ns p fd ev m n s :
  running ds c ns p s → waits_at (Z.of_nat (length ds)) fd ev p → (size s ≤ m)%nat →
  kwp (wait_for (Z.of_nat (length ds)) fd ev p) (after_step ds ns m n) s.
Proof.
  intros (Hs & Hid & Hp & Hl & Hst) Hat Hn. assert (p ≠ Entry) as Hne by (destruct Hat as [[-> _]|(? & ? & -> & _)]; done).
  unfold wait_for. kwp_step.
  eapply wp_upd_co; [apply Hs|]. kwp_step. unfold coro_yield. kwp_step. rewrite Hid, (proj2 (Z.ltb_ge _ _)) by lia.
  kwp_step. eapply wp_upd_co; [done|]. kwp_step. eapply wp_upd_co; [done|]. kwp_step. split; [|done].
  set (c' := with_ctx p (with_state SUSPEND (with_wait fd ev c))).
  match goal with |- idle ?x => assert (shape x ds [c'] ns) as Hs' end.
  { eapply (shape_same (set_co _ s)); [by eapply (shape_set_co s ds [c] ns [c'])|done..]. }
  split; [split; [done|]; exists ds, [c'], ns; split; [exact Hs'|]; split; [done|]; by exists p|].
  intros i d Hi Hsus. destruct (shape_cases _ _ _ _ _ _ Hs' ltac:(cbn; lia) Hi) as [?|[[-> [= <-]]|?]]; [congruence| |congruence].
  destruct Hat as [[-> ->]|(buf & k & -> & ->)]; [by left|right; by exists buf, k].
Qed.

Lemma running_same ds c ns p s s' :
  running ds c ns p s → cur_id s' = cur_id s → co s' = co s → ints s' = ints s → brk s' = brk s → log s' = log s →
  k_mem (kern s') = k_mem (kern s) → running ds c ns p s'.
Proof.
  intros (Hs & Hid & Hp & Hl & Hst) Hi Hc Hn Hb Hlog Hm. unfold running. rewrite Hi, Hlog, Hn.
  split_and!; try done. by eapply shape_same.
Qed.
(** Moving on without a system call. *)
Lemma running_go ds c ns p p' s :
  running ds c ns p s → p ≠ Entry → p' ≠ Entry → point_fd p' = point_fd p → pending p' = pending p →
  point_ok (Z.of_nat (length ds)) p' → running ds c ns p' s.
Proof.
  intros (Hs & Hid & Hp & Hl & Hst) Hne Hne' Hfd Hpend Hok. split_and!; try done.
  - intros fd. rewrite Hfd, Hpend. apply Hl.
  - destruct p; [done|..]; by destruct p'.
Qed.
Lemma running_got ds c ns i fd l s :
  running ds c ns (Reading i fd) s → running ds c ns (WTop fd l 0) (add_log (Got (cur_id s) fd l) s).
Proof.
  intros (Hs & Hid & Hp & Hl & Hst). rewrite Hid. split_and!; try done.
  - apply shape_log; [done|by left].
  - cbn. lia.
  - intros fd'. cbn [log add_log]. rewrite got_snoc, put_snoc. cbn [got_in put_in point_fd pending]. rewrite Z.eqb_refl, app_nil_r.
    destruct (Hl fd') as [Hg Hn]. cbn [point_fd pending] in *. cbn [andb].
    destruct (Z.eqb_spec fd fd') as [->|Hne].
    + rewrite decide_True in Hg |- * by done. rewrite app_nil_r in Hg. rewrite Hg. unfold rest. cbn. split; [done|congruence].
    + rewrite decide_False in Hg |- * by congruence. rewrite app_nil_r. split; [done|]. intros _. apply Hn. congruence.
Qed.
Lemma running_put ds c ns i fd buf k w s :
  running ds c ns (Writing i fd buf k) s → (w ≤ length (rest buf k))%nat →
  running ds c ns (WTop fd buf (k + Z.of_nat w)) (add_log (Put (cur_id s) fd (take w (rest buf k))) s).
Proof.
  intros (Hs & Hid & [-> Hp] & Hl & Hst) Hw. rewrite Hid. unfold rest in Hw. rewrite length_drop in Hw. split_and!; try done.
  - apply shape_log; [done|by left].
  - cbn. lia.
  - intros fd'. cbn [log add_log]. rewrite got_snoc, put_snoc. cbn [got_in put_in point_fd pending]. rewrite Z.eqb_refl, app_nil_r.
    destruct (Hl fd') as [Hg Hn]. cbn [point_fd pending] in *. cbn [andb].
    destruct (Z.eqb_spec fd fd') as [->|Hne].
    + rewrite decide_True in Hg |- * by done. rewrite Hg. split; [|congruence]. rewrite <-app_assoc. f_equal.
      unfold rest. rewrite Z2Nat.inj_add, Nat2Z.id, <-drop_drop by lia. by rewrite take_drop.
    + rewrite decide_False in Hg |- * by congruence. split; [by rewrite !app_nil_r in *|]. intros _. apply Hn. congruence.
Qed.

Ltac by_size := unfold size in *; cbn [kern set_cur set_co set_ints set_errno set_kern add_log rank] in *; lia.
Lemma reading_spec ds c ns fd s :
  running ds c ns (Reading (Z.of_nat (length ds)) fd) s →
  kwp (client_step (Reading (Z.of_nat (length ds)) fd)) (after_step ds ns (size s) (size s + 1)) s.
Proof.
  intros Hr. cbn [client_step]. kwp_step. apply kwp_read; [by eapply running_fin| |].
  - intros e k Hm Hk. kwp_step.
    assert (running ds c ns (Reading (Z.of_nat (length ds)) fd) (set_errno e (set_kern k s))) as Hr' by by eapply running_same.
    destruct (e =? EAGAIN) eqn:He; [eapply wait_for_spec; [done|by left|]; by_size|].
    unfold after_read. kwp_step. rewrite He. eapply out_spec; [done|]. by_size.
  - intros l k Hm Hk. assert (running ds c ns (WTop fd l 0) (add_log (Got (cur_id (set_kern k s)) fd l) (set_kern k s))) as Hr'.
    { eapply running_got, running_same; done. }
    unfold after_read. destruct l as [|b l]; [eapply out_spec; [done|]; by_size|].
    kwp_step. split; [by exists c|]. split; by_size.
Qed.
Lemma writing_spec ds c ns fd buf k s :
  running ds c ns (Writing (Z.of_nat (length ds)) fd buf k) s →
  kwp (client_step (Writing (Z.of_nat (length ds)) fd buf k)) (after_step ds ns (size s) (size s + 2)) s.
Proof.
  intros Hr. cbn [client_step]. kwp_step. apply kwp_write; [by eapply running_fin| |].
  - intros e kn Hm Hk. kwp_step.
    assert (running ds c ns (Writing (Z.of_nat (length ds)) fd buf k) (set_errno e (set_kern kn s))) as Hr' by by eapply running_same.
    destruct (e =? EAGAIN) eqn:He; [eapply wait_for_spec; [done|right; by eauto|]; by_size|].
    unfold after_write. kwp_step. rewrite He. eapply out_spec; [done|]. by_size.
  - intros w kn Hm Hk Hw.
    assert (running ds c ns (WTop fd buf (k + Z.of_nat w))
      (add_log (Put (cur_id (set_kern kn s)) fd (take w (rest buf k))) (set_kern kn s))) as Hr'.
    { eapply running_put; [|done]. by eapply running_same. }
    unfold after_write. destruct (Z.leb_spec (Z.of_nat w) 0).
    + assert (w = 0%nat) as -> by lia. kwp_step. rewrite Z.add_0_r in Hr'.
      destruct (errno s =? EAGAIN); [|by eapply out_spec; [done|]; by_size].
      kwp_step. split; [by exists c|]. split; by_size.
    + kwp_step. split; [by exists c|]. split; by_size.
Qed.
Lemma entry_spec ds c ns s :
  running ds c ns Entry s → kwp (client_step Entry) (after_step ds ns (size s) (size s + 4)) s.
Proof.
  intros (Hs & Hid & _ & Hl & Harg & Hnin & _). cbn [client_step]. kwp_step. rewrite Hid.
  eapply wp_upd_co; [apply Hs|]. kwp_step. eapply wp_get_co; [done|]. unfold take_int. kwp_step. cbn [arg with_state].
  destruct Harg as [fd Hfd]. rewrite Hfd. cbn [from_opt]. kwp_step. split; [|split; by_size].
  exists (with_state RUN c). split_and!; try done.
  - eapply (shape_set_co s ds [c] ns [_]) in Hs as Hs'; [|done]. destruct Hs as [_ _ Hn _ Hb _ _ _], Hs'. split; try done.
    + apply Forall_forall. intros d Hd. destruct (proj1 (Forall_forall _ _) Hn d Hd) as [? ?]. split; [done|]. cbn.
      rewrite lookup_delete_ne; [done|]. intros Heq. apply Hnin. rewrite Heq. by apply list_elem_of_fmap_2.
    + cbn. intros q [v [_ Hq]%lookup_delete_Some]. by apply Hb.
  - intros fd'. destruct (Hl fd') as [Hg Hn]. cbn [point_fd pending log set_ints set_co] in *.
    rewrite decide_False, app_nil_r in Hg by done. specialize (Hn ltac:(done)). rewrite <-Hg, Hn. by destruct (decide _).
  - cbn. left.
Qed.
Lemma step_spec ds c ns p s :
  running ds c ns p s → kwp (client_step p) (after_step ds ns (size s) (size s + rank p)) s.
Proof.
  intros Hr. destruct p as [|fd|i fd|fd buf k|i fd buf k].
  - by eapply entry_spec.
  - cbn [client_step]. kwp_step. assert (cur_id s = Z.of_nat (length ds)) as -> by apply Hr. rewrite (proj2 (Z.leb_le _ _)) by lia. kwp_step.
    split; [|split; by_size]. exists c. by eapply running_go.
  - assert (i = Z.of_nat (length ds)) as -> by apply Hr. by eapply reading_spec.
  - cbn [client_step]. assert (Hok : point_ok (Z.of_nat (length ds)) (WTop fd buf k)) by apply Hr. cbn in Hok.
    destruct (Z.ltb_spec k (Z.of_nat (length buf))) as [Hlt|Hge]; kwp_step.
    + assert (cur_id s = Z.of_nat (length ds)) as -> by apply Hr. rewrite (proj2 (Z.leb_le _ _)) by lia. kwp_step.
      split; [|split; by_size]. exists c. eapply running_go; try done. cbn. lia.
    + split; [|split; by_size]. exists c. eapply running_go; try done. cbn. unfold rest. by rewrite drop_ge by lia.
  - assert (i = Z.of_nat (length ds)) as -> by apply Hr. by eapply writing_spec.
Qed.
Lemma client_run_spec fuel ds c ns p s :
  running ds c ns p s → (size s + rank p < fuel)%nat →
  kwp (client_run fuel p) (λ y s', (if y : bool then idle s' else ended ds ns s') ∧ (size s' ≤ size s)%nat) s.
Proof.
  revert c p s. induction fuel as [|fuel IH]; intros c p s Hr Hf; [lia|]. cbn [client_run]. kwp_step.
  eapply kwp_mono; [by eapply step_spec|]. intros [p'| |] s' Hs'; cbn [after_step] in Hs'; [|by kwp_step..].
  destruct Hs' as ([c' Hr'] & Hle & Hlt). eapply kwp_mono; [by eapply IH; [|lia]|]. intros y s2 [Hy Hle2].
  split; [done|lia].
Qed.

(** ** The scheduler *)

Definition idle_le (n : nat) {A} (_ : A) (s : sched) : Prop := idle s ∧ (size s ≤ n)%nat.
Lemma switch_spec fuel ds c ns p s :
  running ds c ns p s → ctx c = Some p → (size s + 4 < fuel)%nat →
  kwp (switch fuel (Z.of_nat (length ds))) (idle_le (size s)) s.
Proof.
  intros Hr Hctx Hf. unfold switch. kwp_step. eapply wp_get_co; [apply Hr|]. rewrite Hctx. cbn [from_opt]. kwp_step.
  eapply kwp_mono; [eapply client_run_spec; [done|]; destruct p; cbn [rank]; lia|]. intros y s' [Hy Hle].
  destruct y; kwp_step; [by split|]. destruct Hy as (c' & Hs & _ & Hl). eapply wp_upd_co; [apply Hs|]. kwp_step.
  split; [|done]. match goal with |- idle ?x => assert (shape x (ds ++ [with_state DEAD c']) [] ns) as Hs' end.
  2: { split; [split; [done|]; by exists (ds ++ [with_state DEAD c']), [], ns|by eapply shape_hooked]. }
  destruct Hs. split; cbn; rewrite ?length_app; cbn; try done.
  - by rewrite <-app_assoc.
  - apply Forall_app. split; [done|]. by constructor.
  - intros id fd Hid. destruct (decide (id = Z.of_nat (length ds))) as [->|]; [apply Hl|]. apply sh_done0. lia.
  - intros id Hid. apply sh_rest0. cbn. lia.
Qed.
(** The coroutine behind the dead ones goes on or is started. *)
Lemma resume_spec fuel ds c l s :
  paused s → co s = ds ++ c :: l → Forall (λ c, state c = DEAD) ds → state c ≠ DEAD → (size s + 4 < fuel)%nat →
  kwp (coro_resume fuel (Z.of_nat (length ds))) (idle_le (size s)) s.
Proof.
  intros (Hcur & ds' & cs & ns & Hs & Hcs) Hco Hds Hc Hf.
  assert (ds' = ds ∧ cs ++ ns = c :: l) as [-> Hl].
  { assert (Forall (λ c, state c ≠ DEAD) (cs ++ ns)) as Hnd.
    { apply Forall_app. split.
      - destruct cs as [|d [|]]; [done| |done]. destruct Hcs as [Hd _]. by repeat constructor; rewrite Hd.
      - eapply Forall_impl; [apply Hs|]. by intros d [-> _]. }
    pose proof (sh_co _ _ _ _ Hs) as Heq. rewrite Hco in Heq. pose proof (sh_dead _ _ _ _ Hs) as Hds'.
    clear -Heq Hnd Hds Hds' Hc. revert ds' Heq Hds'. induction ds as [|d ds IH]; intros [|d' ds'] Heq Hds'; cbn in *.
    - by split.
    - injection Heq as <- _. by inversion Hds'.
    - rewrite <-Heq in Hnd. inversion Hnd. by inversion Hds.
    - injection Heq as <- Heq. apply Forall_cons in Hds as [_ Hds], Hds' as [_ Hds'].
      destruct (IH Hds ds' Heq Hds') as [-> ->]. done. }
  unfold coro_resume. kwp_step. rewrite (proj2 (Z.ltb_ge _ _)), (proj2 (Z.leb_gt _ _)) by (rewrite ?Hco, ?length_app; cbn; lia).
  cbn [orb]. kwp_step. eapply wp_get_co; [done|]. rewrite decide_False by done. kwp_step.
  destruct cs as [|d [|]]; [| |done]; simplify_eq/=.
  - pose proof (sh_new _ _ _ _ Hs) as [[Hst Harg] Hns]%Forall_cons. rewrite decide_True by done.
    pose proof (sh_args _ _ _ _ Hs) as [Hnin _]%NoDup_cons. pose proof (sh_rest _ _ _ _ Hs (Z.of_nat (length ds)) ltac:(cbn; lia)) as Hun.
    eapply wp_upd_co; [apply Hs|]. kwp_step.
    eapply kwp_mono; [eapply (switch_spec fuel ds (with_ctx Entry c) l Entry); [|done|by_size]|].
    2: { intros [] s' [? ?]. split; [done|]. by_size. }
    split_and!; try done; cbn.
    + eapply (shape_same (set_co _ s)); [by eapply (shape_set_co s ds [c] l [_]); [apply shape_start|]|done..].
    + intros fd. cbn. destruct (Hun fd) as [-> ->]. done.
  - destruct Hcs as (Hst & p & Hctx & Hp & Hok & Hlog). rewrite decide_False by (by rewrite Hst). kwp_step.
    eapply kwp_mono; [eapply (switch_spec fuel ds c l p); [|done|by_size]|].
    2: { intros [] s' [? ?]. split; [done|]. by_size. }
    split_and!; try done; [by eapply shape_same|]. destruct p; [done|rewrite Hst; set_solver..].
Qed.

Lemma idle_same s s' :
  idle s → cur_id s' = cur_id s → co s' = co s → ints s' = ints s → brk s' = brk s → log s' = log s →
  k_mem (kern s') = k_mem (kern s) → idle s'.
Proof.
  intros ((Hcur & ds & cs & ns & Hs & Hcs) & Hh) Hi Hc Hn Hb Hl Hm. split; [|unfold hooked; by rewrite Hc].
  split; [congruence|]. exists ds, cs, ns. split; [by eapply shape_same|]. by rewrite Hl.
Qed.
Lemma idle_closed fd s : idle s → idle (add_log (Closed fd) s).
Proof.
  intros ((Hcur & ds & cs & ns & Hs & Hcs) & Hh).
  assert (∀ id fd', got id fd' (log (add_log (Closed fd) s)) = got id fd' (log s) ∧
    put id fd' (log (add_log (Closed fd) s)) = put id fd' (log s)) as Hlog.
  { intros id fd'. cbn [log add_log]. by rewrite got_snoc, put_snoc, !app_nil_r. }
  split; [|exact Hh]. split; [done|]. exists ds, cs, ns. split.
  - destruct Hs. split; try done.
    + intros id fd' Hid. destruct (Hlog id fd') as [-> ->]. by apply sh_done0.
    + intros id Hid fd'. destruct (Hlog id fd') as [-> ->]. by apply sh_rest0.
  - destruct cs as [|c [|]]; try done. destruct Hcs as (? & p & ? & ? & ? & Hl). split; [done|]. exists p. split_and!; try done.
    intros fd'. destruct (Hlog (Z.of_nat (length ds)) fd') as [-> ->]. apply Hl.
Qed.
(** A coroutine for the descriptor [fd] is added. *)
Lemma idle_create fd s : idle s →
  idle (set_co (co s ++ [Coro None (brk s) NEW (-1) 0]) (set_ints (<[brk s := fd]> (ints s)) (S (brk s)) s)).
Proof.
  intros ((Hcur & ds & cs & ns & Hs & Hcs) & Hh). split.
  2: { intros i c. cbn [co set_co set_ints]. rewrite lookup_snoc_Some. intros [[_ ?]|[_ <-]] ?; [by apply Hh|done]. }
  split; [done|]. exists ds, cs, (ns ++ [Coro None (brk s) NEW (-1) 0]). split; [|done].
  destruct Hs as [Hco Hd Hn Ha Hb Hm Hdone Hrest].
  assert (∀ c, c ∈ ns → arg c ≠ brk s) as Hne.
  { intros c Hc Heq. destruct (proj1 (Forall_forall _ _) Hn c Hc) as [_ Hi]. apply Hb in Hi. lia. }
  split; try done; cbn.
  - by rewrite Hco, <-!app_assoc.
  - apply Forall_app. split; [|constructor; [|constructor]].
    + apply Forall_forall. intros c Hc. destruct (proj1 (Forall_forall _ _) Hn c Hc) as [? ?]. split; [done|].
      rewrite lookup_insert_ne; [done|]. intros Heq. by apply (Hne c Hc).
    + split; [done|]. cbn. rewrite lookup_insert_eq. eauto.
  - rewrite fmap_app. apply NoDup_app. split_and!; [done| |repeat constructor; set_solver].
    intros p (c & -> & Hc)%list_elem_of_fmap. cbn. intros Hp%list_elem_of_singleton. by apply (Hne c Hc).
  - intros p [<-|[_ Hp]]%lookup_insert_is_Some; [lia|]. apply Hb in Hp. lia.
Qed.

Lemma kwp_accept Q s :
  fin s → (∀ e k, k_mem k = k_mem (kern s) → (ksize k + 1 = size s)%nat → Q None (set_errno e (set_kern k s))) →
  (∀ fd k, k_mem k = k_mem (kern s) → (ksize k + 1 = size s)%nat → Q (Some fd) (set_kern k s)) → kwp accept Q s.
Proof.
  intros Hfin He Hl. unfold accept. kwp_step. unfold size, ksize in *.
  destruct (k_accepts (kern s)) as [|[e|l] rs]; kwp_step; [done|unfold failed; kwp_step; apply He|apply Hl];
    cbn [k_mem k_reads k_writes k_accepts k_waits length]; done || lia.
Qed.
Lemma kwp_wait Q s :
  fin s → (∀ e k, k_mem k = k_mem (kern s) → (ksize k + 1 = size s)%nat → Q None (set_errno e (set_kern k s))) →
  (∀ l k, k_mem k = k_mem (kern s) → (ksize k + 1 = size s)%nat → Q (Some l) (set_kern k s)) → kwp epoll_wait Q s.
Proof.
  intros Hfin He Hl. unfold epoll_wait. kwp_step. unfold size, ksize in *.
  destruct (k_waits (kern s)) as [|[e|l] rs]; kwp_step; [done|unfold failed; kwp_step; apply He|apply Hl];
    cbn [k_mem k_reads k_writes k_accepts k_waits length]; done || lia.
Qed.
Lemma wp_ctl Q s :
  (∀ b k, k_mem k = k_mem (kern s) → ksize k = size s → Q b (set_kern k s)) → wp epoll_ctl_add Q s.
Proof.
  intros HQ. unfold epoll_ctl_add. wp_step. destruct (k_ctls (kern s)) as [|b bs]; wp_step.
  - specialize (HQ true (kern s) eq_refl eq_refl). by destruct s.
  - by apply HQ.
Qed.
Lemma wp_alloc Q s : k_mem (kern s) = [] → Q true s → wp alloc Q s.
Proof. intros Hm HQ. unfold alloc. wp_step. by rewrite Hm. Qed.

Lemma accept_loop_spec fuel s : idle s → (size s < fuel)%nat → kwp (accept_loop fuel) (idle_le (size s)) s.
Proof.
  revert s. induction fuel as [|fuel IH]; intros s Hs Hf; [lia|]. cbn [accept_loop]. kwp_step.
  apply kwp_accept; [by apply idle_fin|..].
  { intros e k Hm Hk. kwp_step. split; [by eapply idle_same|by_size]. }
  intros fd k Hm Hk. kwp_step. apply wp_ctl. intros ok k' Hm' Hk'.
  assert (idle (set_kern k' (set_kern k s))) as Hs' by (eapply idle_same; try done; cbn in Hm' |- *; congruence).
  destruct ok; cbn [negb].
  - unfold malloc_int, coro_create. kwp_step. assert (k_mem k' = []) as Hmem.
    { destruct Hs' as ((_ & ds & cs & ns & Hsh & _) & _). apply Hsh. }
    apply wp_alloc; [done|]. cbn [negb]. kwp_step. apply wp_alloc; [done|]. cbn [negb]. kwp_step. apply wp_alloc; [done|]. kwp_step.
    eapply kwp_mono; [apply IH; [by apply (idle_create fd) in Hs'|by_size]|]. intros [] s2 [? ?]. split; [done|by_size].
  - unfold close. kwp_step. eapply kwp_mono; [apply IH; [by apply idle_closed|by_size]|]. intros [] s2 [? ?]. split; [done|by_size].
Qed.

Lemma first_co_Some f l k : first_co f l = Some k →
  ∃ ds c ns, l = ds ++ c :: ns ∧ k = length ds ∧ f c = true ∧ Forall (λ c, f c = false) ds.
Proof.
  unfold first_co. destruct (list_find _ l) as [[i c]|] eqn:Hf; intros [= <-].
  apply list_find_Some in Hf as (Hi & Hc & Hall). exists (take i l), c, (drop (S i) l).
  split; [by rewrite take_drop_middle|]. split; [apply lookup_lt_Some in Hi; rewrite length_take; lia|]. split; [done|].
  apply Forall_lookup_2. intros j d Hj. rewrite lookup_take_Some in Hj. destruct Hj as [Hj Hlt].
  specialize (Hall j d Hj Hlt). by destruct (f d).
Qed.
Lemma wake_spec fuel fd mask s : idle s → (size s + 4 < fuel)%nat → kwp (wake fuel fd mask) (idle_le (size s)) s.
Proof.
  intros Hs Hf. unfold wake. kwp_step. destruct (first_co _ (co s)) as [k|] eqn:Hk; [|by kwp_step].
  apply first_co_Some in Hk as (ds & c & ns & Hco & -> & Hw & _). unfold waits_for in Hw.
  apply andb_prop in Hw as [[Hst%bool_decide_eq_true _]%andb_prop _]. kwp_step. eapply wp_upd_co; [done|]. kwp_step.
  destruct Hs as ((Hcur & ds' & cs & ns' & Hs & Hcs) & Hh).
  assert (ds' = ds ∧ cs = [c] ∧ ns' = ns) as (-> & -> & ->).
  { pose proof (sh_dead _ _ _ _ Hs) as Hd. pose proof (sh_new _ _ _ _ Hs) as Hn. pose proof (sh_co _ _ _ _ Hs) as Heq.
    assert (co s !! length ds = Some c) as Hc by (by rewrite Hco, list_lookup_middle). rewrite Heq in Hc.
    destruct (decide (length ds < length ds')%nat) as [Hlt|Hge].
    { rewrite lookup_app_l in Hc by done. pose proof (Forall_lookup_1 _ _ _ _ Hd Hc) as Hdead. cbn in Hdead. congruence. }
    rewrite lookup_app_r in Hc by lia. destruct (decide (length cs ≤ length ds - length ds')%nat).
    { rewrite lookup_app_r in Hc by lia. pose proof (Forall_lookup_1 _ _ _ _ Hn Hc) as [Hnew _]. cbn in Hnew. congruence. }
    destruct cs as [|d [|]]; cbn in *; [lia| |done]. rewrite Heq in Hco. apply app_inj_1 in Hco as [-> [= -> ->]]; [done|lia]. }
  assert (paused (set_co (ds ++ with_wait (-1) 0 c :: ns) s)) as Hs'.
  { split; [done|]. exists ds, [with_wait (-1) 0 c], ns. split; [by eapply (shape_set_co s ds [c] ns [_])|done]. }
  eapply kwp_mono; [eapply (resume_spec fuel ds (with_wait (-1) 0 c) ns); [done|done|apply Hs|cbn; by rewrite Hst|by_size]|].
  intros [] s2 [? ?]. split; [done|by_size].
Qed.
Lemma handle_events_spec fuel l s :
  idle s → (size s + 4 < fuel)%nat → kwp (handle_events fuel l) (idle_le (size s)) s.
Proof.
  revert s. induction l as [|[fd mask] l IH]; intros s Hs Hf; cbn [handle_events]; kwp_step; [by split|].
  eapply (kwp_mono _ (idle_le (size s))); [destruct (fd =? listenfd s); [apply accept_loop_spec|apply wake_spec]; done || lia|].
  intros [] s1 [Hs1 Hle]. eapply kwp_mono; [apply IH; [done|lia]|]. intros [] s2 [? ?]. split; [done|lia].
Qed.
Lemma run_first_spec fuel s : idle s → (size s + 4 < fuel)%nat → kwp (run_first fuel) (idle_le (size s)) s.
Proof.
  intros Hs Hf. unfold run_first. kwp_step. destruct (cur_id s =? -1); [|by kwp_step].
  destruct (first_co _ (co s)) as [k|] eqn:Hk; [|by kwp_step].
  apply first_co_Some in Hk as (ds & c & ns & Hco & -> & Hc & Hds). eapply resume_spec; [apply Hs|done| | |done].
  - eapply Forall_impl; [exact Hds|]. unfold not_dead. intros d Hd. cbn in Hd. by apply negb_false_iff, bool_decide_eq_true in Hd.
  - unfold not_dead in Hc. by apply negb_true_iff, bool_decide_eq_false in Hc.
Qed.
Lemma schedule_loop_spec fuel s : idle s → (size s + 4 < fuel)%nat → kwp (schedule_loop fuel) (λ _, fin) s.
Proof.
  revert s. induction fuel as [|fuel IH]; intros s Hs Hf; [lia|]. cbn [schedule_loop]. kwp_step.
  apply kwp_wait; [by apply idle_fin|..]; intros e k Hm Hk.
  - kwp_step. assert (idle (set_errno e (set_kern k s))) as Hs' by by eapply idle_same.
    destruct (e =? EINTR); [apply IH; [done|by_size]|kwp_step; by apply idle_fin].
  - kwp_step. assert (idle (set_kern k s)) as Hs' by by eapply idle_same.
    eapply kwp_mono; [apply handle_events_spec; [done|by_size]|]. intros [] s1 [Hs1 Hle]. kwp_step.
    eapply kwp_mono; [apply run_first_spec; [done|by_size]|]. intros [] s2 [Hs2 Hle2]. apply IH; [done|by_size].
Qed.

Lemma start_idle lfd k : k_mem k = [] → idle (start lfd k).
Proof.
  intros Hm. split; [|by intros i c Hi]. split; [done|]. exists [], [], []. split; [|done].
  split; try done; [constructor|]. by intros p [? ?].
Qed.
Lemma server_spec lfd k fuel :
  k_mem k = [] → (ksize k + 4 < fuel)%nat → wp (schedule_loop fuel) (λ _, fin) (start lfd k).
Proof.
  intros Hm Hf. eapply wp_mono; [apply (schedule_loop_spec fuel (start lfd k)); [by apply start_idle|done]|].
  by intros [] s'.
Qed.

(** C26: The coroutine server echoes: whatever the kernel answers to its calls, as long as there
    is memory, and wherever it then waits, the server has had no undefined behaviour; on
    every descriptor, each coroutine has written a prefix of what it read from that
    descriptor; the current coroutine, if there is one, has been started and not ended; and
    every other coroutine is new, dead, or suspended in the hook of read or write with the
    descriptor and the event registered that the hook waits for: none is left running. *)
Theorem coroutines_echo lfd k fuel :
  k_mem k = [] → (ksize k + 4 < fuel)%nat →
  wp (schedule_loop fuel) (λ _ s, echoes (log s) ∧ states_ok s) (start lfd k).
Proof. intros. eapply wp_mono; [by apply server_spec|]. by intros ? s' (? & ? & _). Qed.

(** C39: The scheduler does not schedule: whatever the kernel answers, a coroutine behind one
    that has not ended has not been started, and nothing was read from its client.  The
    loop over the events only wakes suspended coroutines, and the statement after it
    resumes the first one that is not dead, new or not. *)
Theorem clients_are_served_one_at_a_time lfd k fuel :
  k_mem k = [] → (ksize k + 4 < fuel)%nat → wp (schedule_loop fuel) (λ _ s, one_at_a_time s) (start lfd k).
Proof. intros. eapply wp_mono; [by apply server_spec|]. by intros ? s' (_ & _ & ?). Qed.

(** Two clients connect at once.  The first sends two bytes, which are written one at a
    time and with a wait in between; the second has sent four, which are never read. *)
Definition demo_kernel : kernel :=
  Kernel [inl EAGAIN; inr [97; 98]; inl EAGAIN] [inr 1; inl EAGAIN; inr 5] [inr 5; inr 6; inl EAGAIN]
    [inr [(3, 1)]; inr [(5, 1); (6, 1)]; inl EINTR; inr [(6, 1)]] [] [].
Lemma coroutines_echo_witness :
  ∃ s, schedule_loop 60 (start 3 demo_kernel) = Ok (None, s) ∧ echoes (log s) ∧ states_ok s ∧
    (state <$> co s) = [SUSPEND; NEW] ∧ got 0 5 (log s) = [97; 98] ∧ put 0 5 (log s) = [97; 98].
Proof.
  destruct (proj1 (wp_run _ _ _) (coroutines_echo 3 demo_kernel 60 eq_refl ltac:(vm_compute; lia))) as (r & s & Hrun & He).
  assert (Hr : ∃ s', schedule_loop 60 (start 3 demo_kernel) = Ok (None, s') ∧ (state <$> co s') = [SUSPEND; NEW] ∧ got 0 5 (log s') = [97; 98] ∧ put 0 5 (log s') = [97; 98])
    by (eexists; split_and!; vm_compute; reflexivity).
  destruct Hr as (s' & Hrun' & Hst & Hg & Hp). rewrite Hrun in Hrun'. injection Hrun' as -> ->.
  exists s'. exact (conj Hrun (conj (proj1 He) (conj (proj2 He) (conj Hst (conj Hg Hp))))).
Defined.
Lemma clients_are_served_one_at_a_time_witness :
  ∃ s, schedule_loop 60 (start 3 demo_kernel) = Ok (None, s) ∧ one_at_a_time s ∧
    (state <$> co s) = [SUSPEND; NEW] ∧ got 1 6 (log s) = [].
Proof.
  destruct (proj1 (wp_run _ _ _) (clients_are_served_one_at_a_time 3 demo_kernel 60 eq_refl ltac:(vm_compute; lia)))
    as (r & s & Hrun & He).
  assert (Hr : ∃ s', schedule_loop 60 (start 3 demo_kernel) = Ok (None, s') ∧ (state <$> co s') = [SUSPEND; NEW] ∧ got 1 6 (log s') = [])
    by (eexists; split_and!; vm_compute; reflexivity).
  destruct Hr as (s' & Hrun' & Hg & Hp). rewrite Hrun in Hrun'. injection Hrun' as -> ->.
  exists s'. exact (conj Hrun (conj He (conj Hg Hp))).
Defined.
